(** * sequoia: frequent sequences with unique item occurrences

    A shallow embedding of [sequoia.c] (C. Borgelt): the closedness test
    [closed]/[closed_iw], the recursive search [recurse]/[rec_iw], the two
    entry points [sequoia]/[sequoia_iw] and the part of [main] that selects
    the target and starts the search.

    Conventions of the embedding.
    - An item array of a transaction is a C array closed by a negative
      sentinel.  Here it is the list of the items before the sentinel; the
      sentinel is the end of the list.  A pointer into the array
      ([OCCEXT.item], an entry of [PATOCC.ips]) is the offset from
      [PATOCC.items].
    - A pointer to a pattern occurrence ([OCCEXT.occ]) is the index of the
      occurrence in the array [occs] that the entry point allocates.
    - The slice [oxs[0..cnt)] of a pattern extension is a list; [cnt] is its
      length.
    - [SUPP] is a C [int]; signed overflow is undefined in C and a support
      never exceeds the total weight of the bag, so supports are in [Z].
    - [malloc] and the output of the reporter can fail.  Both read their
      answers from a list of booleans that is part of the state. *)

From Stdlib Require Import ZArith Lia List Bool Ascii Permutation.
From stdpp Require Import base list.

Unset Default Proof Using.


(** ** Types of tract.h *)

(** [ITEM]: item codes are [0 .. cnt-1]. *)
Abbreviation ITEM := nat (only parsing).
(** [SUPP]: support values and transaction weights. *)
Abbreviation SUPP := Z (only parsing).
(** [TID]: transaction counters. *)
Abbreviation TID := nat (only parsing).

(** A transaction: weight and items ([ta_wgt], [ta_items]); [A] is [ITEM]
    for plain transactions and [WITEM] for transactions with item weights. *)
Record TRACT (A : Type) := mkTRACT { ta_wgt : SUPP; ta_items : list A }.
Arguments mkTRACT {A} _ _.
Arguments ta_wgt {A} _.
Arguments ta_items {A} _.

Definition ta_size {A} (t : TRACT A) : nat := length (ta_items t).

(** An item with a weight ([WITEM] of tract.h: fields [item], [wgt]). *)
Record WITEM (D : Type) := mkWITEM { wi_item : ITEM; wi_wgt : D }.
Arguments mkWITEM {D} _ _.
Arguments wi_item {D} _.
Arguments wi_wgt {D} _.

(** The transaction bag: number of items and the transactions. *)
Record TABAG (A : Type) := mkTABAG { tbg_itemcnt : nat; tbg_tracts : list (TRACT A) }.
Arguments mkTABAG {A} _ _.
Arguments tbg_itemcnt {A} _.
Arguments tbg_tracts {A} _.

Definition tbg_cnt {A} (b : TABAG A) : nat := length (tbg_tracts b).

(** Total transaction weight. *)
Definition tbg_wgt {A} (b : TABAG A) : SUPP :=
  fold_right (fun t s => (ta_wgt t + s)%Z) 0%Z (tbg_tracts b).

(** Total number of item instances. *)
Definition tbg_extent {A} (b : TABAG A) : nat :=
  fold_right (fun t s => ta_size t + s) 0 (tbg_tracts b).

(** ** Types of sequoia.c *)

(** [PATOCC]/[WPATOCC]: fields [wgt], [items], [ips]. *)
Record PATOCC (A : Type) := mkPATOCC
  { po_wgt : SUPP; po_items : list A; po_ips : list nat }.
Arguments mkPATOCC {A} _ _ _.
Arguments po_wgt {A} _.
Arguments po_items {A} _.
Arguments po_ips {A} _.

(** [OCCEXT]/[WOCCEXT]: fields [item], [occ]. *)
Record OCCEXT := mkOCCEXT { ox_item : nat; ox_occ : nat }.

(** [PATEXT]/[WPATEXT]: fields [supp], [oxs]; [cnt] is the number of
    occurrence extensions stored in [oxs]. *)
Record PATEXT := mkPATEXT { pe_supp : SUPP; pe_oxs : list OCCEXT }.

Definition pe_cnt (e : PATEXT) : nat := length (pe_oxs e).

Global Instance PATEXT_inhabited : Inhabited PATEXT := populate (mkPATEXT 0%Z []).
Global Instance PATOCC_inhabited {A} : Inhabited (PATOCC A) :=
  populate (mkPATOCC 0%Z [] []).

(** The scalar fields of [RECDATA]. *)
Record RECDATA := mkRECDATA
  { rd_target : Z; rd_mode : Z; rd_cnt : nat; rd_zmax : Z; rd_smin : SUPP }.

(** ** The item set reporter *)

(** A reported pattern: items, item weights (empty for [isr_report]),
    support. *)
Record PATTERN (D : Type) := Pat
  { pat_items : list ITEM; pat_wgts : list D; pat_supp : SUPP }.
Arguments Pat {D} _ _ _.
Arguments pat_items {D} _.
Arguments pat_wgts {D} _.
Arguments pat_supp {D} _.

(** Modelled from the spec: the item set reporter of report.h, whose code
    is not part of the sources.  It keeps the size range [zmin, zmax], the
    support of the empty sequence (the total transaction weight), a stack of
    the items added with their supports, and the patterns written so far.
    A pattern is written only when its size is in the size range; writing
    can fail, and a failure is reported by a negative result. *)
Record ISREPORT (D : Type) := mkISREPORT
  { isr_zmin : Z;
    isr_zmax : Z;
    isr_wgt : SUPP;
    isr_stack : list (ITEM * SUPP);
    isr_out : list (PATTERN D);
    isr_io : list bool }.
Arguments mkISREPORT {D} _ _ _ _ _ _.
Arguments isr_zmin {D} _.
Arguments isr_zmax {D} _.
Arguments isr_wgt {D} _.
Arguments isr_stack {D} _.
Arguments isr_out {D} _.
Arguments isr_io {D} _.

(** Modelled from the spec: the flags of report.h.  [ISR_ALL] is no flag;
    the code only tests [mode & ISR_CLOSED]. *)
Definition ISR_ALL : Z := 0.
Definition ISR_CLOSED : Z := 1.

Section Reporter.
Context {D : Type}.
Implicit Type rep : ISREPORT D.

(** Modelled from the spec: a reporter as [main] sets it up
    ([isr_create], [isr_setsize], [isr_setup]). *)
Definition isr_create (w : SUPP) (zmin zmax : Z) (io : list bool) : ISREPORT D :=
  mkISREPORT zmin zmax w [] [] io.

Definition isr_set_stack rep (s : list (ITEM * SUPP)) : ISREPORT D :=
  mkISREPORT (isr_zmin rep) (isr_zmax rep) (isr_wgt rep) s (isr_out rep) (isr_io rep).

(** Modelled from the spec: [isr_add] pushes an item and its support. *)
Definition isr_add rep (i : ITEM) (s : SUPP) : ISREPORT D :=
  isr_set_stack rep ((i, s) :: isr_stack rep).

(** Modelled from the spec: [isr_remove] pops [n] items. *)
Definition isr_remove rep (n : nat) : ISREPORT D :=
  isr_set_stack rep (drop n (isr_stack rep)).

(** Modelled from the spec: the size filter and the output of one
    pattern; result [-1] on an output error, [0] otherwise. *)
Definition isr_emit rep (p : PATTERN D) : Z * ISREPORT D :=
  let n := Z.of_nat (length (pat_items p)) in
  if ((n <? isr_zmin rep) || (isr_zmax rep <? n))%Z then (0%Z, rep)
  else match isr_io rep with
       | false :: io =>
           ((-1)%Z, mkISREPORT (isr_zmin rep) (isr_zmax rep) (isr_wgt rep)
                      (isr_stack rep) (isr_out rep) io)
       | _ =>
           (0%Z, mkISREPORT (isr_zmin rep) (isr_zmax rep) (isr_wgt rep)
                   (isr_stack rep) (isr_out rep ++ [p]) (tail (isr_io rep)))
       end.

(** Modelled from the spec: [isr_report] reports the items on the stack
    with the support of the last one (of the empty sequence when the
    stack is empty). *)
Definition isr_report rep : Z * ISREPORT D :=
  isr_emit rep
    (Pat (rev (fst <$> isr_stack rep)) []
         (match isr_stack rep with (_, s) :: _ => s | [] => isr_wgt rep end)).

(** Modelled from the spec: [isr_isetx] reports [items[0..n)] with the
    item weights [wgts[0..n)] and the given support. *)
Definition isr_isetx rep (items : list ITEM) (n : nat) (wgts : list D)
    (supp : SUPP) : Z * ISREPORT D :=
  isr_emit rep (Pat (take n items) (take n wgts) supp).
End Reporter.

(** ** The memory the search works on *)

(** The arrays reachable from [RECDATA] and from the pattern extensions:
    the pattern occurrences [occs], the counters [rd->frqs], the pattern
    buffers [rd->items] and [rd->wgts], the reporter [rd->report], and the
    answers [malloc] will give ([true]: memory, [false]: NULL; none left:
    memory).  The live part of [rd->buf] exists only inside the closedness
    test and is a local list there. *)
Record state (A D : Type) := mkstate
  { st_occs : list (PATOCC A);
    st_frqs : list TID;
    st_items : list ITEM;
    st_wgts : list D;
    st_report : ISREPORT D;
    st_heap : list bool }.
Arguments mkstate {A D} _ _ _ _ _ _.
Arguments st_occs {A D} _.
Arguments st_frqs {A D} _.
Arguments st_items {A D} _.
Arguments st_wgts {A D} _.
Arguments st_report {A D} _.
Arguments st_heap {A D} _.

Section Memory.
Context {A D : Type}.
Implicit Type st : state A D.

Definition set_occs st o : state A D :=
  mkstate o (st_frqs st) (st_items st) (st_wgts st) (st_report st) (st_heap st).
Definition set_frqs st f : state A D :=
  mkstate (st_occs st) f (st_items st) (st_wgts st) (st_report st) (st_heap st).
Definition set_items st i : state A D :=
  mkstate (st_occs st) (st_frqs st) i (st_wgts st) (st_report st) (st_heap st).
Definition set_wgts st w : state A D :=
  mkstate (st_occs st) (st_frqs st) (st_items st) w (st_report st) (st_heap st).
Definition set_report st r : state A D :=
  mkstate (st_occs st) (st_frqs st) (st_items st) (st_wgts st) r (st_heap st).
Definition set_heap st h : state A D :=
  mkstate (st_occs st) (st_frqs st) (st_items st) (st_wgts st) (st_report st) h.

(** One call of [malloc]: whether it gives memory, and the answers left. *)
Definition malloc_list (h : list bool) : bool * list bool :=
  match h with
  | false :: h' => (false, h')
  | _ => (true, tail h)
  end.

Definition malloc st : bool * state A D :=
  let '(ok, h) := malloc_list (st_heap st) in (ok, set_heap st h).
End Memory.

(** ** Loops that both variants share

    The two variants differ in the item type: [ITEM] with [*s] and [WITEM]
    with [x->item].  The loops below take that access as [key]. *)

(** The elements of an array part [l] that starts at offset [p], each with
    its offset. *)
Fixpoint indexed {B : Type} (p : nat) (l : list B) : list (nat * B) :=
  match l with
  | [] => []
  | a :: l' => (p, a) :: indexed (S p) l'
  end.

Section Loops.
Context {A : Type} (key : A -> ITEM).

(** [x = c->oxs + c->cnt++; x->item = p; x->occ = o; c->supp += o->wgt]
    for [c = exts + t] (sequoia.c 312-316, 388-392, 480-484, 568-572). *)
Definition add_occext (exts : list PATEXT) (t : ITEM) (p o : nat) (w : SUPP)
    : list PATEXT :=
  alter (fun c => mkPATEXT (pe_supp c + w)%Z (pe_oxs c ++ [mkOCCEXT p o])) t exts.

(** [e->supp = 0; e->cnt = 0] for all [k] items (sequoia.c 306-307,
    383-384, 474-475, 563-564). *)
Definition clear_exts (k : nat) : list PATEXT := replicate k (mkPATEXT 0%Z []).

(** Appending the items of one transaction from offset [p] on. *)
Definition add_items (o : nat) (w : SUPP) (acc : list PATEXT * nat)
    (l : list (nat * A)) : list PATEXT * nat :=
  fold_left (fun '(c, z) '(p, a) => (add_occext c (key a) p o w, S z)) l acc.

(** The loops that build the extensions of the empty sequence
    (sequoia.c 385-394, 565-574): every item of every transaction. *)
Definition root_exts (k : nat) (occs : list (PATOCC A)) : list PATEXT :=
  fst (fold_left
         (fun acc '(j, o) => add_items j (po_wgt o) acc (indexed 0 (po_items o)))
         (indexed 0 occs) (clear_exts k, 0)).

(** *** The closedness test *)

Implicit Type occs : list (PATOCC A).

(** [x->occ->ips[n-1] = x->item] for every occurrence extension
    (sequoia.c 251-252 with [n], 467-468 with [len]). *)
Definition set_ips (o : PATOCC A) (m p : nat) : PATOCC A :=
  mkPATOCC (po_wgt o) (po_items o) (<[m := p]> (po_ips o)).

Definition anchor (n : nat) (oxs : list OCCEXT) occs : list (PATOCC A) :=
  fold_left (fun occs x => alter (fun o => set_ips o (n - 1) (ox_item x)) (ox_occ x) occs)
            oxs occs.

(** The gap [n] of an occurrence: the items from
    [s = (n > 0) ? o->ips[n-1]+1 : o->items] up to [z = o->ips[n]]
    (sequoia.c 257-259, 423-425). *)
Definition gap_start (o : PATOCC A) (n : nat) : nat :=
  match n with 0 => 0 | S m => S (po_ips o !!! m) end.

Definition gap (o : PATOCC A) (n : nat) : list A :=
  take (po_ips o !!! n - gap_start o n) (drop (gap_start o n) (po_items o)).

(** The body of the loop over a gap (sequoia.c 260-262, 426-428):
    [c = ++rd->frqs[*s]; if (c > i) k++; if (c <= 1) *b++ = *s].  The
    buffer [b] has the last item written first. *)
Definition count_item (i : TID) (acc : list TID * list ITEM * TID) (a : A)
    : list TID * list ITEM * TID :=
  let '(frqs, b, k) := acc in
  let c := S (frqs !!! key a) in
  (<[key a := c]> frqs, (if c <=? 1 then key a :: b else b), (if i <? c then S k else k)).

(** The loop over the occurrences for one gap (sequoia.c 255-265,
    421-431), from occurrence number [i] on; [k] is set to 0 before each
    gap is traversed and the loop is left when it is still 0 afterwards. *)
Fixpoint scan_gap occs (n : nat) (i : TID) (oxs : list OCCEXT)
    (acc : list TID * list ITEM * TID) : list TID * list ITEM * TID :=
  match oxs with
  | [] => acc
  | x :: oxs' =>
      let '(frqs, b, _) := acc in
      let '(frqs, b, k) :=
        fold_left (count_item i) (gap (occs !!! ox_occ x) n) (frqs, b, 0) in
      if k =? 0 then (frqs, b, k) else scan_gap occs n (S i) oxs' (frqs, b, k)
  end.

(** [while (b > rd->buf) rd->frqs[*--b] = 0] (sequoia.c 266-267, 432-433). *)
Definition clear_frqs (b : list ITEM) (frqs : list TID) : list TID :=
  fold_left (fun f a => <[a := 0]> f) b frqs.

(** [while (--n >= 0) { ... }] (sequoia.c 254-270, 420-436); the result
    is 0 when the extension is not closed and -1 when it is. *)
Fixpoint scan_gaps occs (oxs : list OCCEXT) (n : nat) (frqs : list TID)
    : Z * list TID :=
  match n with
  | 0 => ((-1)%Z, frqs)
  | S n' =>
      let '(frqs, b, k) := scan_gap occs n' 0 oxs (frqs, [], 0) in
      let frqs := clear_frqs b frqs in
      if 0 <? k then (0%Z, frqs) else scan_gaps occs oxs n' frqs
  end.

(** *** The projection *)

(** The loop that fills the conditional extensions of [e]
    (sequoia.c 306-318, 474-486): for every occurrence extension the
    items after its position; the second component is [z]. *)
Definition project occs (k : nat) (e : PATEXT) : list PATEXT * nat :=
  fold_left
    (fun acc x =>
       let o := occs !!! ox_occ x in
       add_items (ox_occ x) (po_wgt o) acc
                 (indexed (S (ox_item x)) (drop (S (ox_item x)) (po_items o))))
    (pe_oxs e) (clear_exts k, 0).

End Loops.

(** The pattern occurrences of the transactions (sequoia.c 371-378,
    551-558); the entries of [ips] are not initialised in C and 0 here. *)
Definition make_occs {A} (tabag : TABAG A) : list (PATOCC A) :=
  (fun t => mkPATOCC (ta_wgt t) (ta_items t) (replicate (ta_size t) 0))
    <$> tbg_tracts tabag.

(** [rd->mode & ISR_CLOSED] *)
Definition closed_mode (rd : RECDATA) : bool :=
  negb (Z.land (rd_mode rd) ISR_CLOSED =? 0)%Z.

(** ** Sequence mining without item weights *)

Section Unweighted.
Context {D : Type}.
Local Abbreviation state := (state ITEM D).
Implicit Type st : state.

Definition ukey : ITEM -> ITEM := fun a => a.

(** [closed] (sequoia.c 241-271). *)
Definition closed (ext : PATEXT) (n : nat) (st : state) : Z * state :=
  let occs := anchor n (pe_oxs ext) (st_occs st) in
  let '(r, frqs) := scan_gaps ukey occs (pe_oxs ext) n (st_frqs st) in
  (r, set_frqs (set_occs st occs) frqs).

(** [(rd->mode & ISR_CLOSED) && !closed(e, len, rd)] (sequoia.c 300-301):
    [closed] is called only in closed mode; the result 0 says that the
    item is skipped. *)
Definition closed_test (rd : RECDATA) (e : PATEXT) (len : nat) (st : state)
    : Z * state :=
  if closed_mode rd then closed e len st else ((-1)%Z, st).

(** The loop over the extension items of [recurse] (sequoia.c 294-329)
    for the items [todo] still to visit.  [rec] is the recursive call
    [recurse(cond, z, len, rd)]; [cond] tells whether the conditional
    extensions were allocated; the result is the final [(s, max)]. *)
Fixpoint ext_loop (rec : list PATEXT -> nat -> state -> option (SUPP * state))
    (rd : RECDATA) (exts : list PATEXT) (cond : bool) (len : nat)
    (todo : list ITEM) (s max : SUPP) (st : state) {struct todo}
    : option (SUPP * SUPP * state) :=
  match todo with
  | [] => Some (s, max, st)
  | i :: todo' =>
      let e := exts !!! i in
      if (pe_supp e <? rd_smin rd)%Z then ext_loop rec rd exts cond len todo' s max st
      else
        let max := if (max <? pe_supp e)%Z then pe_supp e else max in
        let '(r, st) := closed_test rd e len st in
        if (r =? 0)%Z then ext_loop rec rd exts cond len todo' s max st
        else
          let st := set_report st (isr_add (st_report st) i (pe_supp e)) in
          let report := fun (s : SUPP) (st : state) =>
            if negb (closed_mode rd) || (s <? pe_supp e)%Z then
              let '(r, rep) := isr_report (st_report st) in
              if (r <? 0)%Z then Some ((-1)%Z, max, set_report st rep)
              else ext_loop rec rd exts cond len todo' s max
                     (set_report st (isr_remove rep 1))
            else ext_loop rec rd exts cond len todo' s max
                   (set_report st (isr_remove (st_report st) 1)) in
          if cond then
            let '(c, z) := project ukey (st_occs st) (rd_cnt rd) e in
            if 0 <? z then
              match rec c z st with
              | None => None
              | Some (s, st) => if (s <? 0)%Z then Some (s, max, st) else report s st
              end
            else report s st
          else report 0%Z st
  end.

(** [recurse] (sequoia.c 275-332).  [fuel] bounds the depth of the
    recursion; [None] means that it was too small. *)
Fixpoint recurse (fuel : nat) (exts : list PATEXT) (z : nat) (len : nat)
    (rd : RECDATA) (st : state) : option (SUPP * state) :=
  match fuel with
  | 0 => None
  | S fuel' =>
      let len := S len in
      let '(cond, ok, st) :=
        if (Z.of_nat len <=? rd_zmax rd)%Z
        then let '(ok, st) := malloc st in (ok, ok, st)
        else (false, true, st) in
      if negb ok then Some ((-1)%Z, st)
      else
        match ext_loop (fun c z st => recurse fuel' c z len rd st)
                       rd exts cond len (seq 0 (rd_cnt rd)) 0%Z 0%Z st with
        | None => None
        | Some (s, max, st) => Some (if (s <? 0)%Z then s else max, st)
        end
  end.

(** [sequoia] (sequoia.c 336-404); [heap] are the answers of [malloc].
    The counters that size the slices of the extensions (376-377, 384)
    have no counterpart, as the slices are lists. *)
Definition sequoia (fuel : nat) (tabag : TABAG ITEM) (target : Z) (smin : SUPP)
    (mode : Z) (report : ISREPORT D) (heap : list bool)
    : option (Z * ISREPORT D) :=
  let smin := if (0 <? smin)%Z then smin else 1%Z in
  if (tbg_wgt tabag <? smin)%Z then Some (0%Z, report)
  else
    let k := tbg_itemcnt tabag in
    let rd := mkRECDATA target mode k (isr_zmax report) smin in
    if k =? 0 then Some (isr_report report)
    else
      let '(ok, heap) := malloc_list heap in
      if negb ok then Some ((-1)%Z, report)
      else
        let '(ok, heap) := malloc_list heap in
        if negb ok then Some ((-1)%Z, report)
        else
          let occs := make_occs tabag in
          let '(ok, heap) := malloc_list heap in
          if negb ok then Some ((-1)%Z, report)
          else
            let exts := root_exts ukey k occs in
            let st := mkstate occs (replicate k 0) [] [] report heap in
            match recurse fuel exts (tbg_extent tabag) 0 rd st with
            | None => None
            | Some (r, st) =>
                let '(r, rep) :=
                  if (0 <=? r)%Z &&
                     ((r <? tbg_wgt tabag)%Z || (Z.land mode ISR_CLOSED =? 0)%Z)
                  then isr_report (st_report st)
                  else (r, st_report st) in
                Some (if (r <? 0)%Z then r else 0%Z, rep)
            end.
End Unweighted.

(** ** Sequence mining with item weights *)

Section Weighted.
(** [D] stands for [double] with its zero, addition, multiplication and
    the conversion [(double)] of a support; an item weight is taken
    already converted. *)
Context {D : Type} (dzero : D) (dadd dmul : D -> D -> D) (of_supp : SUPP -> D).
Local Abbreviation state := (state (WITEM D) D).
Implicit Type st : state.

Local Instance D_inhabited : Inhabited D := populate dzero.
Local Instance WITEM_inhabited : Inhabited (WITEM D) := populate (mkWITEM 0 dzero).

Definition wkey : WITEM D -> ITEM := wi_item.

(** [closed_iw] (sequoia.c 410-437). *)
Definition closed_iw (ext : PATEXT) (n : nat) (st : state) : Z * state :=
  let '(r, frqs) := scan_gaps wkey (st_occs st) (pe_oxs ext) n (st_frqs st) in
  (r, set_frqs st frqs).

(** [rd->wgts[m] += (double)o->wgt * o->ips[m]->wgt] for [m < len]
    (sequoia.c 499-500). *)
Definition add_wgts (o : PATOCC (WITEM D)) (len : nat) (wgts : list D) : list D :=
  fold_left
    (fun w m =>
       <[m := dadd (w !!! m)
                   (dmul (of_supp (po_wgt o))
                         (wi_wgt (po_items o !!! (po_ips o !!! m))))]> w)
    (seq 0 len) wgts.

(** The item weights of the current pattern (sequoia.c 495-501). *)
Definition sum_wgts (occs : list (PATOCC (WITEM D))) (e : PATEXT) (len : nat)
    (wgts : list D) : list D :=
  fold_left (fun w x => add_wgts (occs !!! ox_occ x) len w) (pe_oxs e)
            (fold_left (fun w k => <[k := dzero]> w) (seq 0 len) wgts).

(** [(rd->mode & ISR_CLOSED) && !closed_iw(e, len, rd)]
    (sequoia.c 469-470). *)
Definition closed_test_iw (rd : RECDATA) (e : PATEXT) (len : nat) (st : state)
    : Z * state :=
  if closed_mode rd then closed_iw e len st else ((-1)%Z, st).

(** The loop over the extension items of [rec_iw] (sequoia.c 460-504). *)
Fixpoint ext_loop_iw (rec : list PATEXT -> nat -> state -> option (SUPP * state))
    (rd : RECDATA) (exts : list PATEXT) (cond : bool) (len : nat)
    (todo : list ITEM) (s max : SUPP) (st : state) {struct todo}
    : option (SUPP * SUPP * state) :=
  match todo with
  | [] => Some (s, max, st)
  | i :: todo' =>
      let e := exts !!! i in
      if (pe_supp e <? rd_smin rd)%Z then ext_loop_iw rec rd exts cond len todo' s max st
      else
        let max := if (max <? pe_supp e)%Z then pe_supp e else max in
        let st := set_items st (<[len - 1 := i]> (st_items st)) in
        let st := set_occs st (anchor len (pe_oxs e) (st_occs st)) in
        let '(r, st) := closed_test_iw rd e len st in
        if (r =? 0)%Z then ext_loop_iw rec rd exts cond len todo' s max st
        else
          let report := fun (s : SUPP) (st : state) =>
            if closed_mode rd && (pe_supp e <=? s)%Z
            then ext_loop_iw rec rd exts cond len todo' s max st
            else
              let st := set_wgts st (sum_wgts (st_occs st) e len (st_wgts st)) in
              let '(r, rep) := isr_isetx (st_report st) (st_items st) len
                                         (st_wgts st) (pe_supp e) in
              if (r <? 0)%Z then Some ((-1)%Z, max, set_report st rep)
              else ext_loop_iw rec rd exts cond len todo' s max (set_report st rep) in
          if cond then
            let '(c, z) := project wkey (st_occs st) (rd_cnt rd) e in
            if 0 <? z then
              match rec c z st with
              | None => None
              | Some (s, st) => if (s <? 0)%Z then Some (s, max, st) else report s st
              end
            else report s st
          else report 0%Z st
  end.

(** [rec_iw] (sequoia.c 441-507). *)
Fixpoint rec_iw (fuel : nat) (exts : list PATEXT) (z : nat) (len : nat)
    (rd : RECDATA) (st : state) : option (SUPP * state) :=
  match fuel with
  | 0 => None
  | S fuel' =>
      let len := S len in
      let '(cond, ok, st) :=
        if (Z.of_nat len <=? rd_zmax rd)%Z
        then let '(ok, st) := malloc st in (ok, ok, st)
        else (false, true, st) in
      if negb ok then Some ((-1)%Z, st)
      else
        match ext_loop_iw (fun c z st => rec_iw fuel' c z len rd st)
                          rd exts cond len (seq 0 (rd_cnt rd)) 0%Z 0%Z st with
        | None => None
        | Some (s, max, st) => Some (if (s <? 0)%Z then s else max, st)
        end
  end.

(** [isr_isetx(report, NULL, 0, NULL, tbg_wgt(tabag), 0, 0) < 0 ? -1 : 0]
    (sequoia.c 535-536, 579-580). *)
Definition report_empty (report : ISREPORT D) (w : SUPP) : Z * ISREPORT D :=
  let '(r, rep) := isr_isetx report [] 0 [] w in
  (if (r <? 0)%Z then (-1)%Z else 0%Z, rep).

(** [sequoia_iw] (sequoia.c 511-584). *)
Definition sequoia_iw (fuel : nat) (tabag : TABAG (WITEM D)) (target : Z)
    (smin : SUPP) (mode : Z) (report : ISREPORT D) (heap : list bool)
    : option (Z * ISREPORT D) :=
  let smin := if (0 <? smin)%Z then smin else 1%Z in
  if (tbg_wgt tabag <? smin)%Z then Some (0%Z, report)
  else
    let k := tbg_itemcnt tabag in
    let rd := mkRECDATA target mode k (isr_zmax report) smin in
    if k =? 0 then Some (report_empty report (tbg_wgt tabag))
    else
      let '(ok, heap) := malloc_list heap in
      if negb ok then Some ((-1)%Z, report)
      else
        let '(ok, heap) := malloc_list heap in
        if negb ok then Some ((-1)%Z, report)
        else
          let occs := make_occs tabag in
          let '(ok, heap) := malloc_list heap in
          if negb ok then Some ((-1)%Z, report)
          else
            let exts := root_exts wkey k occs in
            let st := mkstate occs (replicate k 0) (replicate k 0)
                              (replicate k dzero) report heap in
            match rec_iw fuel exts (tbg_extent tabag) 0 rd st with
            | None => None
            | Some (r, st) =>
                let '(r, rep) :=
                  if (r <? tbg_wgt tabag)%Z || (Z.land mode ISR_CLOSED =? 0)%Z
                  then report_empty (st_report st) (tbg_wgt tabag)
                  else (r, st_report st) in
                Some (if (r <? 0)%Z then r else 0%Z, rep)
            end.

(** *** The search as [main] starts it *)

Definition E_TARGET : Z := (-9)%Z.

(** [switch (target)] of [main] (sequoia.c 810-815). *)
Definition target_of (c : ascii) : option Z :=
  if Ascii.eqb c "s" then Some ISR_ALL
  else if Ascii.eqb c "c" then Some ISR_CLOSED
  else None.

(** The bag that [main] read: with item weights when weight separators
    were given (option -u), without otherwise. *)
Inductive INPUT :=
| plain (tabag : TABAG ITEM)
| with_weights (tabag : TABAG (WITEM D)).

Definition input_wgt (i : INPUT) : SUPP :=
  match i with plain b => tbg_wgt b | with_weights b => tbg_wgt b end.

(** The part of [main] from the check of the target to the search
    (sequoia.c 810-815, 871-891): the reporter is created for the size
    range, the search is called with the translated target and with the
    mode 0.  An invalid target ends the program with [E_TARGET]. *)
Definition main_search (fuel : nat) (target : ascii) (zmin zmax : Z)
    (smin : SUPP) (input : INPUT) (io heap : list bool)
    : option (Z * ISREPORT D) :=
  let report := isr_create (input_wgt input) zmin zmax io in
  match target_of target with
  | None => Some (E_TARGET, report)
  | Some target =>
      match input with
      | with_weights tabag => sequoia_iw fuel tabag target smin 0%Z report heap
      | plain tabag => sequoia fuel tabag target smin 0%Z report heap
      end
  end.
End Weighted.

(** ** The command line

    A C string is the list of its characters before the terminating
    zero; a pointer into an argument is the rest of the argument from
    there on. *)

(** The error codes (sequoia.c 58-65, 133-148). *)
Definition E_NOMEM : Z := (-1)%Z.
Definition E_OPTION : Z := (-6)%Z.
Definition E_OPTARG : Z := (-7)%Z.
Definition E_ARGCNT : Z := (-8)%Z.
Definition E_SIZE : Z := (-10)%Z.
Definition E_SUPPORT : Z := (-11)%Z.

(** [for (i = k = 0; s[i]; i++) if (s[i] == ':') k++] (sequoia.c 621-622). *)
Fixpoint count_colons (s : list ascii) : nat :=
  match s with
  | [] => 0
  | c :: s' => (if Ascii.eqb c ":" then 1 else 0) + count_colons s'
  end.

(** The string variables of [main] (sequoia.c 675-687). *)
Inductive STRVAR :=
| v_fn_inp | v_fn_out | v_fn_psp | v_recseps | v_fldseps | v_wgtseps
| v_blanks | v_comment | v_hdr | v_sep | v_iwf | v_info.

Global Instance STRVAR_eq_dec : EqDecision STRVAR.
Proof. solve_decision. Defined.

Section CommandLine.
(** [D] stands for [double]; [of_supp] is the conversion of an integer and
  [dlt] the comparison [<].  [strtod] and [strtol] (with base 0) are
  those of the C library: the value and the number of characters
  converted, 0 when there is no conversion.  [to_item] is the cast
  [(ITEM)] of a [long] and [ITEM_MAX] the largest [ITEM] (tract.h). *)
Context {D : Type} (of_supp : SUPP → D) (dlt : D → D → bool).
Context (strtod : list ascii → D * nat) (strtol : list ascii → Z * nat).
Context (to_item : Z → Z) (ITEM_MAX : Z).

(** The loop of [getbdr] over the parameters (sequoia.c 625-629) with [n]
  parameters to go: the index at which the loop is left ([k] if it is
  not left by [break]), [*end] and the array.  An entry of the array
  that was not written is [None]. *)
Fixpoint getbdr_loop (n i : nat) (s e : list ascii) (b : list (option D))
  : nat * list ascii * list (option D) :=
match n with
| 0 => (i, e, b)
| S n' =>
    let '(v, c) := strtod s in
    let b := <[i := Some v]> b in
    let e := drop c s in
    if c =? 0 then (i, e, b)
    else match e with
         | ":"%char :: s' => getbdr_loop n' (S i) s' e b
         | _ => (i, e, b)
         end
end.

(** [getbdr] (sequoia.c 615-633): the result, [*end], [*border] ([None]
  is NULL) and the answers of [malloc] and [realloc] that are left. *)
Definition getbdr (s : list ascii) (heap : list bool)
  : Z * list ascii * option (list (option D)) * list bool :=
let k := S (count_colons s) in
let '(ok, heap) := malloc_list heap in
if negb ok then ((-1)%Z, s, None, heap)
else
  let '(i, e, b) := getbdr_loop k 0 s s (replicate k None) in
  let i := S i in
  if i <? k then
    let '(ok, heap) := malloc_list heap in
    (Z.of_nat i, e, if ok then Some (take i b) else None, heap)
  else (Z.of_nat i, e, Some b, heap).

(** The variables of [main] that the evaluation of the arguments sets
  (sequoia.c 672-696).  [o_optarg] is [optarg] with [None] for NULL and
  otherwise the variable it points to; [o_str] gives the string
  variables, with [None] for NULL and, for [info], for the pointer
  [dflt]; [o_weight] is the bit [TA_WEIGHT] of [mtar]; [o_k] counts the
  arguments that are no options. *)
Record OPTS := mkOPTS
{ o_optarg : option STRVAR;
  o_str : STRVAR → option (list ascii);
  o_target : ascii;
  o_zmin : Z;
  o_zmax : Z;
  o_supp : D;
  o_weight : bool;
  o_scan : bool;
  o_stats : bool;
  o_bdrcnt : Z;
  o_border : option (list (option D));
  o_k : nat;
  o_heap : list bool }.

Definition set_optarg (o : OPTS) (v : option STRVAR) : OPTS :=
mkOPTS v (o_str o) (o_target o) (o_zmin o) (o_zmax o) (o_supp o) (o_weight o)
       (o_scan o) (o_stats o) (o_bdrcnt o) (o_border o) (o_k o) (o_heap o).
Definition set_str (o : OPTS) (v : STRVAR) (s : list ascii) : OPTS :=
mkOPTS (o_optarg o) (λ v', if decide (v' = v) then Some s else o_str o v')
       (o_target o) (o_zmin o) (o_zmax o) (o_supp o) (o_weight o)
       (o_scan o) (o_stats o) (o_bdrcnt o) (o_border o) (o_k o) (o_heap o).
Definition set_target (o : OPTS) (c : ascii) : OPTS :=
mkOPTS (o_optarg o) (o_str o) c (o_zmin o) (o_zmax o) (o_supp o) (o_weight o)
       (o_scan o) (o_stats o) (o_bdrcnt o) (o_border o) (o_k o) (o_heap o).
Definition set_zmin (o : OPTS) (z : Z) : OPTS :=
mkOPTS (o_optarg o) (o_str o) (o_target o) z (o_zmax o) (o_supp o) (o_weight o)
       (o_scan o) (o_stats o) (o_bdrcnt o) (o_border o) (o_k o) (o_heap o).
Definition set_zmax (o : OPTS) (z : Z) : OPTS :=
mkOPTS (o_optarg o) (o_str o) (o_target o) (o_zmin o) z (o_supp o) (o_weight o)
       (o_scan o) (o_stats o) (o_bdrcnt o) (o_border o) (o_k o) (o_heap o).
Definition set_supp (o : OPTS) (x : D) : OPTS :=
mkOPTS (o_optarg o) (o_str o) (o_target o) (o_zmin o) (o_zmax o) x (o_weight o)
       (o_scan o) (o_stats o) (o_bdrcnt o) (o_border o) (o_k o) (o_heap o).
Definition set_weight (o : OPTS) : OPTS :=
mkOPTS (o_optarg o) (o_str o) (o_target o) (o_zmin o) (o_zmax o) (o_supp o) true
       (o_scan o) (o_stats o) (o_bdrcnt o) (o_border o) (o_k o) (o_heap o).
Definition set_scan (o : OPTS) : OPTS :=
mkOPTS (o_optarg o) (o_str o) (o_target o) (o_zmin o) (o_zmax o) (o_supp o) (o_weight o)
       true (o_stats o) (o_bdrcnt o) (o_border o) (o_k o) (o_heap o).
Definition set_stats (o : OPTS) : OPTS :=
mkOPTS (o_optarg o) (o_str o) (o_target o) (o_zmin o) (o_zmax o) (o_supp o) (o_weight o)
       (o_scan o) true (o_bdrcnt o) (o_border o) (o_k o) (o_heap o).
Definition set_border (o : OPTS) (n : Z) (b : option (list (option D)))
  (h : list bool) : OPTS :=
mkOPTS (o_optarg o) (o_str o) (o_target o) (o_zmin o) (o_zmax o) (o_supp o) (o_weight o)
       (o_scan o) (o_stats o) n b (o_k o) h.
Definition set_k (o : OPTS) (k : nat) : OPTS :=
mkOPTS (o_optarg o) (o_str o) (o_target o) (o_zmin o) (o_zmax o) (o_supp o) (o_weight o)
       (o_scan o) (o_stats o) (o_bdrcnt o) (o_border o) k (o_heap o).

(** The initial values (sequoia.c 675-696). *)
Definition init_opts (heap : list bool) : OPTS :=
mkOPTS None
       (λ v, match v with
             | v_hdr => Some []
             | v_sep => Some [" "%char]
             | v_iwf => Some [":"%char; "%"%char; "m"%char]
             | _ => None
             end)
       "s"%char 1%Z ITEM_MAX (of_supp 10%Z) false false false 0%Z None 0 heap.

(** [switch ( *s++ )] for the option character [c], with [s] already
  behind it (sequoia.c 770-791): the end of the program with a code
  ([help] leaves it with 0, [error] with its code), or the variables
  and [s] afterwards. *)
Definition eval_option (c : ascii) (s : list ascii) (o : OPTS)
  : Z + OPTS * list ascii :=
match c with
| "!"%char => inl 0%Z
| "t"%char => match s with
              | c' :: s' => inr (set_target o c', s')
              | [] => inr (set_target o "s"%char, s)
              end
| "m"%char => let '(v, n) := strtol s in inr (set_zmin o (to_item v), drop n s)
| "n"%char => let '(v, n) := strtol s in inr (set_zmax o (to_item v), drop n s)
| "s"%char => let '(v, n) := strtod s in inr (set_supp o v, drop n s)
| "F"%char => let '(r, e, b, h) := getbdr s (o_heap o) in inr (set_border o r b h, e)
| "P"%char => inr (set_optarg o (Some v_fn_psp), s)
| "Z"%char => inr (set_stats o, s)
| "g"%char => inr (set_scan o, s)
| "h"%char => inr (set_optarg o (Some v_hdr), s)
| "k"%char => inr (set_optarg o (Some v_sep), s)
| "i"%char => inr (set_optarg o (Some v_iwf), s)
| "v"%char => inr (set_optarg o (Some v_info), s)
| "w"%char => inr (set_weight o, s)
| "r"%char => inr (set_optarg o (Some v_recseps), s)
| "f"%char => inr (set_optarg o (Some v_fldseps), s)
| "b"%char => inr (set_optarg o (Some v_blanks), s)
| "u"%char => inr (set_optarg o (Some v_wgtseps), s)
| "C"%char => inr (set_optarg o (Some v_comment), s)
| _ => inl E_OPTION
end.

(** [while ( *s ) { switch ( *s++ ) ...; if (optarg && *s) { *optarg = s;
  optarg = NULL; break; } }] (sequoia.c 769-793).  Every round takes a
  character, so that [fuel] at least the length of [s] is enough;
  [None] means that it was too small. *)
Fixpoint eval_options (fuel : nat) (s : list ascii) (o : OPTS) : option (Z + OPTS) :=
match s with
| [] => Some (inr o)
| c :: s =>
    match fuel with
    | 0 => None
    | S fuel' =>
        match eval_option c s o with
        | inl e => Some (inl e)
        | inr (o, s) =>
            match o_optarg o, s with
            | Some v, _ :: _ => Some (inr (set_str (set_optarg o None) v s))
            | _, _ => eval_options fuel' s o
            end
        end
    end
end.

(** The body of the loop over the arguments for the argument [s]
  (sequoia.c 765-801). *)
Definition eval_arg (o : OPTS) (s : list ascii) : option (Z + OPTS) :=
match o_optarg o with
| Some v => Some (inr (set_str (set_optarg o None) v s))
| None =>
    match s with
    | "-"%char :: (_ :: _) as s' => eval_options (length s') s' o
    | _ =>
        let s := match s with "-"%char :: s' => s' | _ => s end in
        match o_k o with
        | 0 => Some (inr (set_k (set_str o v_fn_inp s) 1))
        | 1 => Some (inr (set_k (set_str o v_fn_out s) 2))
        | S (S k) => Some (inl E_ARGCNT)
        end
    end
end.

(** [for (i = 1; i < argc; i++)] (sequoia.c 764-802). *)
Fixpoint eval_args (o : OPTS) (args : list (list ascii)) : option (Z + OPTS) :=
match args with
| [] => Some (inr o)
| s :: args' =>
    match eval_arg o s with
    | Some (inr o') => eval_args o' args'
    | r => r
    end
end.

(** The checks after the loop (sequoia.c 803-817); the target is
  translated by [target_of] and kept as the character. *)
Definition check_args (o : OPTS) : Z + OPTS :=
if bool_decide (o_optarg o ≠ None) then inl E_OPTARG
else if o_k o <? 1 then inl E_ARGCNT
else if (o_zmin o <? 0)%Z then inl E_SIZE
else if (o_zmax o <? 0)%Z then inl E_SIZE
else if dlt (of_supp 100%Z) (o_supp o) then inl E_SUPPORT
else if (o_bdrcnt o <? 0)%Z then inl E_NOMEM
else match target_of (o_target o) with
     | None => inl E_TARGET
     | Some _ =>
         inr (match o_str o v_info with
              | None =>
                  set_str o v_info
                    (if dlt (o_supp o) (of_supp 0%Z)
                     then [" "; "("; "%"; "a"; ")"]%char
                     else [" "; "("; "%"; "S"; ")"]%char)
              | Some _ => o
              end)
     end.

(** [main] up to the translation of the target (sequoia.c 697-817), in
  the version with messages: without arguments it prints the usage and
  returns 0. *)
Definition main_args (argv : list (list ascii)) (heap : list bool) : option (Z + OPTS) :=
match argv with
| _ :: (_ :: _) as args =>
    match eval_args (init_opts heap) args with
    | Some (inr o) => Some (check_args o)
    | r => r
    end
| _ => Some (inl 0%Z)
end.
End CommandLine.

(** * Properties

    ** Notions used to state them *)

(** All counters are zero. *)
Definition all_zero (frqs : list TID) : Prop := ∀ a, frqs !!! a = 0.

(** The counters that are not zero are on the touch list [b], and the
    items on the touch list that have a counter have been counted. *)
Definition touched (frqs : list TID) (b : list ITEM) : Prop :=
  ∀ a, (frqs !!! a ≠ 0 → a ∈ b) ∧ (a ∈ b → a < length frqs → frqs !!! a ≠ 0).

(** After [i] occurrences the counter of an item is at most [i], and it
    is [i] exactly for the items with the property [Q]. *)
Definition counted (i : TID) (frqs : list TID) (Q : ITEM → Prop) : Prop :=
  ∀ a, frqs !!! a ≤ i ∧ (frqs !!! a = i ↔ Q a).

(** The item [a] occurs in gap [g] of every occurrence of the extension. *)
Definition common_gap_item {A} (key : A → ITEM) (occs : list (PATOCC A))
    (oxs : list OCCEXT) (g : nat) (a : ITEM) : Prop :=
  ∀ x, x ∈ oxs → a ∈ key <$> gap (occs !!! ox_occ x) g.

(** Position [m] of the pattern is anchored at the extension item in every
    occurrence of the extension. *)
Definition anchored {A} (occs : list (PATOCC A)) (oxs : list OCCEXT) (m : nat)
    : Prop :=
  ∀ x, x ∈ oxs → po_ips (occs !!! ox_occ x) !! m = Some (ox_item x).

(** The occurrence extensions refer to different occurrences that exist
    and have room for position [m]. *)
Definition oxs_ok {A} (occs : list (PATOCC A)) (oxs : list OCCEXT) (m : nat)
    : Prop :=
  NoDup (ox_occ <$> oxs) ∧
  ∀ x, x ∈ oxs → ox_occ x < length occs ∧ m < length (po_ips (occs !!! ox_occ x)).

(** The supports of the extension items in [todo] that reach the minimum
    support. *)
Definition freq_supps (rd : RECDATA) (exts : list PATEXT) (todo : list ITEM)
    : list SUPP :=
  filter (λ s, (rd_smin rd ≤ s)%Z) ((λ i, pe_supp (exts !!! i)) <$> todo).

(** [r] is the maximum of the list, and 0 for the empty list. *)
Definition is_max_supp (r : SUPP) (l : list SUPP) : Prop :=
  (l = [] ∧ r = 0%Z) ∨ (r ∈ l ∧ ∀ s, s ∈ l → (s ≤ r)%Z).

(** The answers of [malloc] and of the output that a run from [st] to
    [st'] has used. *)
Definition used_answers {A D} (st st' : state A D) (u : list bool) : Prop :=
  ∃ uh uo, st_heap st = uh ++ st_heap st' ∧
           isr_io (st_report st) = uo ++ isr_io (st_report st') ∧
           u = uh ++ uo.

(** The run met no failure of [malloc] or of the output. *)
Definition run_ok {A D} (st st' : state A D) : Prop :=
  ∃ u, used_answers st st' u ∧ Forall (λ b, b = true) u.

(** The run met a failure of [malloc] or of the output. *)
Definition run_failed {A D} (st st' : state A D) : Prop :=
  ∃ u, used_answers st st' u ∧ false ∈ u.

(** ** Sequences and their support *)

(** [p] is a subsequence of [t] (in the same order, gaps allowed). *)
Fixpoint is_subseq (p t : list ITEM) {struct t} : bool :=
  match t with
  | [] => match p with [] => true | _ :: _ => false end
  | b :: t' =>
      match p with
      | [] => true
      | a :: p' => if a =? b then is_subseq p' t' else is_subseq p t'
      end
  end.

(** No element occurs twice. *)
Fixpoint nodupb (l : list ITEM) : bool :=
  match l with
  | [] => true
  | a :: l' => negb (existsb (Nat.eqb a) l') && nodupb l'
  end.

Section Support.
Context {A : Type} (key : A → ITEM).

(** The transaction contains the sequence. *)
Definition contains (p : list ITEM) (t : TRACT A) : bool :=
  is_subseq p (key <$> ta_items t).

(** The support of a sequence: the weights of the transactions that
    contain it, summed. *)
Definition support (tabag : TABAG A) (p : list ITEM) : SUPP :=
  foldr (λ t s, if contains p t then (ta_wgt t + s)%Z else s) 0%Z (tbg_tracts tabag).

(** What the search expects of a transaction: a weight that is not
    negative, no item twice, item codes below the number of items. *)
Definition tract_ok (k : nat) (t : TRACT A) : bool :=
  (0 <=? ta_wgt t)%Z && nodupb (key <$> ta_items t)
  && forallb (λ a, key a <? k) (ta_items t).

Definition bag_ok (tabag : TABAG A) : bool :=
  forallb (tract_ok (tbg_itemcnt tabag)) (tbg_tracts tabag).

(** *** What the pattern extensions of a pattern are

    The offsets [p >= q] at which the transaction [l] has the item [a]. *)
Definition find_from (l : list A) (a : ITEM) (q : nat) : list nat :=
  fst <$> filter (λ pa, key pa.2 = a) (indexed q (drop q l)).

(** The offsets after an occurrence of the pattern [P] in [l], found item
    by item as the search does. *)
Definition resume (l : list A) (P : list ITEM) : list nat :=
  fold_left (λ qs i, qs ≫= (λ q, S <$> find_from l i q)) P [0].

(** The occurrence extensions of the pattern [P] by the item [i]. *)
Definition ext_occs (occs : list (PATOCC A)) (P : list ITEM) (i : ITEM)
    : list OCCEXT :=
  indexed 0 occs ≫=
    (λ jo, (λ p, mkOCCEXT p jo.1) <$>
             (resume (po_items jo.2) P ≫= find_from (po_items jo.2) i)).

(** The occurrence extensions that the projection derives from [oxs] for
    the item [t]. *)
Definition proj_oxs (occs : list (PATOCC A)) (oxs : list OCCEXT) (t : ITEM)
    : list OCCEXT :=
  oxs ≫= (λ x, (λ p, mkOCCEXT p (ox_occ x)) <$>
                 find_from (po_items (occs !!! ox_occ x)) t (S (ox_item x))).

Definition sum_wgt (occs : list (PATOCC A)) (oxs : list OCCEXT) : SUPP :=
  foldr (λ x s, (po_wgt (occs !!! ox_occ x) + s)%Z) 0%Z oxs.

Definition ext_of (occs : list (PATOCC A)) (oxs : list OCCEXT) : PATEXT :=
  mkPATEXT (sum_wgt occs oxs) oxs.

(** The pattern extensions of the pattern [P]: the array [exts] of the
    call of the search that extends [P]. *)
Definition frame (k : nat) (occs : list (PATOCC A)) (P : list ITEM)
    : list PATEXT :=
  (λ i, ext_of occs (ext_occs occs P i)) <$> seq 0 k.
End Support.

(** ** Runs without failures *)

Definition all_true (l : list bool) : Prop := Forall (λ b, b = true) l.

(** The size filter of the reporter lets a pattern of [n] items pass. *)
Definition size_ok {D} (rep : ISREPORT D) (n : nat) : bool :=
  negb ((Z.of_nat n <? isr_zmin rep) || (isr_zmax rep <? Z.of_nat n))%Z.

(** [rep'] is [rep] after the patterns [new] were written. *)
Definition reported {D} (rep rep' : ISREPORT D) (new : list (PATTERN D)) : Prop :=
  isr_zmin rep' = isr_zmin rep ∧ isr_zmax rep' = isr_zmax rep ∧
  isr_wgt rep' = isr_wgt rep ∧ isr_stack rep' = isr_stack rep ∧
  isr_out rep' = isr_out rep ++ new.

(** A pattern of the plain search that is frequent and of a size in the
    size range, with its support. *)
Definition frequent {D} (tabag : TABAG ITEM) (smin : SUPP) (zmin zmax : Z)
    (p : PATTERN D) : Prop :=
  pat_wgts p = [] ∧ pat_supp p = support ukey tabag (pat_items p) ∧
  (smin ≤ pat_supp p)%Z ∧
  (zmin ≤ Z.of_nat (length (pat_items p)) ≤ zmax)%Z.

(** The state of a search when it extends the pattern [P], in a run in
    which nothing fails: the occurrences are those of the bag, the
    reporter holds [P] and has the size range [zmin, zmax]. *)
Definition search_state {A D} (tabag : TABAG A) (zmin zmax : Z) (P : list ITEM)
    (st : state A D) : Prop :=
  st_occs st = make_occs tabag ∧ all_true (st_heap st) ∧
  all_true (isr_io (st_report st)) ∧
  fst <$> isr_stack (st_report st) = rev P ∧
  isr_zmin (st_report st) = zmin ∧ isr_zmax (st_report st) = zmax.

(** [st'] is [st] after the patterns [new] were written and nothing
    failed. *)
Definition search_step {A D} (st st' : state A D) (new : list (PATTERN D)) : Prop :=
  st_occs st' = st_occs st ∧ all_true (st_heap st') ∧
  all_true (isr_io (st_report st')) ∧
  reported (st_report st) (st_report st') new.

(** ** Item weights of a pattern *)

Section WeightSums.
Context {D : Type} (dzero : D) (dadd dmul : D → D → D) (of_supp : SUPP → D).

(** The weight that the item [a] has in the transaction with the items
    [l]: the weight at the position that anchors [a]. *)
Fixpoint item_wgt (l : list (WITEM D)) (a : ITEM) : D :=
  match l with
  | [] => dzero
  | x :: l' => if wi_item x =? a then wi_wgt x else item_wgt l' a
  end.

(** The sum, over the transactions that contain [P] and in the order of
    the bag, of the transaction weight times the weight of the item [a];
    the sum starts from zero and adds one product after the other. *)
Definition wgt_sum (tabag : TABAG (WITEM D)) (P : list ITEM) (a : ITEM) : D :=
  fold_left
    (λ acc t, if contains wkey P t
              then dadd acc (dmul (of_supp (ta_wgt t)) (item_wgt (ta_items t) a))
              else acc)
    (tbg_tracts tabag) dzero.

(** The weight sums of the positions of a pattern. *)
Definition pattern_wgts (tabag : TABAG (WITEM D)) (P : list ITEM) : list D :=
  wgt_sum tabag P <$> P.

(** A reported pattern carries its support and its weight sums. *)
Definition sound (tabag : TABAG (WITEM D)) (p : PATTERN D) : Prop :=
  pat_supp p = support wkey tabag (pat_items p) ∧
  pat_wgts p = pattern_wgts tabag (pat_items p).
End WeightSums.

(** The occurrences are those of [occs'] up to the entries of [ips]. *)
Definition same_tracts {A} (occs occs' : list (PATOCC A)) : Prop :=
  length occs = length occs' ∧
  ∀ j, po_wgt (occs !!! j) = po_wgt (occs' !!! j) ∧
       po_items (occs !!! j) = po_items (occs' !!! j) ∧
       length (po_ips (occs !!! j)) = length (po_ips (occs' !!! j)).

(** In every occurrence that contains the pattern [P], position [m] of
    [ips] points to the item [P[m]]. *)
Definition anchored_at {A} (key : A → ITEM) (occs : list (PATOCC A))
    (P : list ITEM) : Prop :=
  ∀ j, j < length occs → P `sublist_of` (key <$> po_items (occs !!! j)) →
    ∀ m i, P !! m = Some i →
      ∃ pos, po_ips (occs !!! j) !! m = Some pos ∧
             (key <$> po_items (occs !!! j)) !! pos = Some i.

(** The state of the search with item weights when it extends [P]. *)
Definition wstate {D} (tabag : TABAG (WITEM D)) (P : list ITEM)
    (st : state (WITEM D) D) : Prop :=
  same_tracts (st_occs st) (make_occs tabag) ∧
  anchored_at wkey (st_occs st) P ∧
  length (st_items st) = tbg_itemcnt tabag ∧
  length (st_wgts st) = tbg_itemcnt tabag ∧
  take (length P) (st_items st) = P.

(** What a search that extends [P] leaves as it was. *)
Definition wstep {D} (P : list ITEM) (st st' : state (WITEM D) D) : Prop :=
  same_tracts (st_occs st') (st_occs st) ∧
  (∀ j m, m < length P →
     po_ips (st_occs st' !!! j) !! m = po_ips (st_occs st !!! j) !! m) ∧
  length (st_items st') = length (st_items st) ∧
  length (st_wgts st') = length (st_wgts st) ∧
  take (length P) (st_items st') = take (length P) (st_items st).

(** The patterns written between [st] and [st'] are sound. *)
Definition out_sound {D} (dzero : D) (dadd dmul : D → D → D) (of_supp : SUPP → D)
    (tabag : TABAG (WITEM D)) (rep rep' : ISREPORT D) : Prop :=
  ∃ new, isr_out rep' = isr_out rep ++ new ∧
         ∀ p, p ∈ new → sound dzero dadd dmul of_supp tabag p.

(** ** Notions of the proofs *)

(** One pattern extension grown by the occurrence extensions [xs], all
    of weight [w]. *)
Definition grow (e : PATEXT) (w : Z) (xs : list OCCEXT) : PATEXT :=
  mkPATEXT (pe_supp e + w * Z.of_nat (length xs))%Z (pe_oxs e ++ xs).

(** Where an occurrence of [P] in the transaction [l] can end. *)
Definition ends_at {A} (key : A → ITEM) (l : list A) (P : list ITEM) (q : nat) : Prop :=
  (P = [] ∧ q = 0) ∨
  ∃ P' i p, P = P' ++ [i] ∧ q = S p ∧ (key <$> l) !! p = Some i ∧
            P' `sublist_of` take p (key <$> l).

(** What the recursive call must satisfy for the return value of the
    caller: a result that is not negative when nothing failed, a negative
    one after a failure. *)
Definition rec_result {A D}
    (rec : list PATEXT → nat → state A D → option (Z * state A D)) : Prop :=
  ∀ c z st1 r st1', rec c z st1 = Some (r, st1') →
    (run_ok st1 st1' ∧ (0 ≤ r)%Z) ∨ (run_failed st1 st1' ∧ (r < 0)%Z).

(** What the recursive call does for the extensions of [P] in ALL mode,
    in a run in which nothing fails: it writes the frequent patterns that
    properly extend [P ++ [i]], each once. *)
Definition rec_all {D} (tabag : TABAG ITEM) (rd : RECDATA) (zmin : Z)
    (rec : list PATEXT → nat → state ITEM D → option (Z * state ITEM D))
    (P : list ITEM) : Prop :=
  ∀ i z st1, i < tbg_itemcnt tabag →
    search_state tabag zmin (rd_zmax rd) (P ++ [i]) st1 →
    ∃ r st1' new,
      rec (frame ukey (tbg_itemcnt tabag) (make_occs tabag) (P ++ [i])) z st1
        = Some (r, st1') ∧ (0 ≤ r)%Z ∧
      search_step st1 st1' new ∧ NoDup new ∧
      ∀ p, p ∈ new ↔ frequent tabag (rd_smin rd) zmin (rd_zmax rd) p ∧
                     ∃ R, R ≠ [] ∧ pat_items p = (P ++ [i]) ++ R.

Section WeightNotions.
Context {D : Type} (dzero : D) (dadd dmul : D → D → D) (of_supp : SUPP → D).
Local Hint Extern 0 (Inhabited (WITEM D)) => exact (WITEM_inhabited dzero) : typeclass_instances.

(** The product that one occurrence adds to the weight of position [m]. *)
Definition occ_term (o : PATOCC (WITEM D)) (m : nat) : D :=
  dmul (of_supp (po_wgt o)) (wi_wgt (po_items o !!! (po_ips o !!! m))).

(** What the recursive call does for the extensions of [P] in the
    search with item weights: it keeps the state of the search, and the
    patterns that it writes are sound. *)
Definition rec_sound (tabag : TABAG (WITEM D))
    (rec : list PATEXT → nat → state (WITEM D) D → option (Z * state (WITEM D) D))
    (P : list ITEM) : Prop :=
  ∀ i z st1 r st1', i < tbg_itemcnt tabag → wstate tabag (P ++ [i]) st1 →
    rec (frame wkey (tbg_itemcnt tabag) (make_occs tabag) (P ++ [i])) z st1
      = Some (r, st1') →
    wstep (P ++ [i]) st1 st1' ∧
    out_sound dzero dadd dmul of_supp tabag (st_report st1) (st_report st1').
End WeightNotions.

(** ** Notions of the command line *)

(** The options whose argument is a string, with the variable that takes
    it (sequoia.c 776, 779-782, 784-788). *)
Definition str_option (c : ascii) : option STRVAR :=
  match c with
  | "P"%char => Some v_fn_psp
  | "h"%char => Some v_hdr
  | "k"%char => Some v_sep
  | "i"%char => Some v_iwf
  | "v"%char => Some v_info
  | "r"%char => Some v_recseps
  | "f"%char => Some v_fldseps
  | "b"%char => Some v_blanks
  | "u"%char => Some v_wgtseps
  | "C"%char => Some v_comment
  | _ => None
  end.

(** What the evaluation of the arguments keeps: at most two arguments
    that are no options, the first in [fn_inp], the second in [fn_out],
    and an option argument that is pending is for another variable. *)
Definition args_inv {D} (o : OPTS (D:=D)) : Prop :=
  o_k o ≤ 2 ∧
  (is_Some (o_str o v_fn_inp) ↔ 1 ≤ o_k o) ∧
  (is_Some (o_str o v_fn_out) ↔ 2 ≤ o_k o) ∧
  ∀ v, o_optarg o = Some v → v ≠ v_fn_inp ∧ v ≠ v_fn_out.

(** ** The extensions that the search passes down *)

(** The pattern extensions that the search reaches when it follows the
    items of [P], from the extensions of the empty sequence on: the array
    [exts] of the call for [P]. *)
Definition descend {A} (key : A → ITEM) (k : nat) (occs : list (PATOCC A))
    (P : list ITEM) : list PATEXT :=
  fold_left (λ exts i, (project key occs k (exts !!! i)).1) P (root_exts key k occs).

(** The number of occurrence extensions of an array of pattern
    extensions. *)
Definition total_cnt (c : list PATEXT) : nat := foldr (λ e s, pe_cnt e + s) 0 c.

(** ** What the plain search writes to the occurrences *)

(** Anchoring position [n - 1] for the extension item [i] if it reaches
    the minimum support: [x->occ->ips[n-1] = x->item] for every
    occurrence extension [x] of the item. *)
Definition anchor_step {A} (rd : RECDATA) (exts : list PATEXT) (n : nat)
    (occs : list (PATOCC A)) (i : ITEM) : list (PATOCC A) :=
  if (pe_supp (exts !!! i) <? rd_smin rd)%Z then occs
  else anchor n (pe_oxs (exts !!! i)) occs.

(** The same for all extension items, one after the other. *)
Definition anchor_frequent {A} (rd : RECDATA) (exts : list PATEXT) (n : nat)
    (occs : list (PATOCC A)) : list (PATOCC A) :=
  fold_left (anchor_step rd exts n) (seq 0 (rd_cnt rd)) occs.

(** The occurrences are those of [occs'] with the same entries of [ips]
    at the positions below [n]. *)
Definition same_ips_below {A} (n : nat) (occs occs' : list (PATOCC A)) : Prop :=
  same_tracts occs occs' ∧
  ∀ j q, q < n → po_ips (occs !!! j) !! q = po_ips (occs' !!! j) !! q.

(** A recursive call with the conditional extensions [c] in the state
    [st1] is a call for an extension item of [todo] that reaches the
    minimum support, made when position [len - 1] of the occurrences of
    its extension is anchored at the item, with the projection of the
    extension on these occurrences. *)
Definition anchored_call {D} (rd : RECDATA) (exts : list PATEXT) (len : nat)
    (todo : list ITEM) (c : list PATEXT) (st1 : state ITEM D) : Prop :=
  ∃ i, i ∈ todo ∧ (rd_smin rd ≤ pe_supp (exts !!! i))%Z ∧
       anchored (st_occs st1) (pe_oxs (exts !!! i)) (len - 1) ∧
       c = (project ukey (st_occs st1) (rd_cnt rd) (exts !!! i)).1.

(** ** The search with item weights against the plain search *)

(** The bag, the occurrences and a pattern without the item weights. *)
Definition strip_bag {D} (tabag : TABAG (WITEM D)) : TABAG ITEM :=
  mkTABAG (tbg_itemcnt tabag)
          ((λ t, mkTRACT (ta_wgt t) (wi_item <$> ta_items t)) <$> tbg_tracts tabag).

Definition strip_occ {D} (o : PATOCC (WITEM D)) : PATOCC ITEM :=
  mkPATOCC (po_wgt o) (wi_item <$> po_items o) (po_ips o).

Definition strip_pat {D} (p : PATTERN D) : PATTERN D :=
  Pat (pat_items p) [] (pat_supp p).

(** A pattern of the search with item weights that is frequent and of a
    size in the size range, with its support. *)
Definition frequent_iw {D} (tabag : TABAG (WITEM D)) (smin : SUPP) (zmin zmax : Z)
    (p : PATTERN D) : Prop :=
  pat_supp p = support wkey tabag (pat_items p) ∧ (smin ≤ pat_supp p)%Z ∧
  (zmin ≤ Z.of_nat (length (pat_items p)) ≤ zmax)%Z.

(** What a reporter is set up with: the size range and the support of
    the empty sequence. *)
Definition isr_cfg {D} (rep : ISREPORT D) : Z * Z * SUPP :=
  (isr_zmin rep, isr_zmax rep, isr_wgt rep).

(** The reporter of the plain search has written what the reporter of
    the search with item weights has, without the weights, and has the
    same answers left. *)
Definition sim_rep {D} (rw ru : ISREPORT D) : Prop :=
  isr_zmin ru = isr_zmin rw ∧ isr_zmax ru = isr_zmax rw ∧
  isr_io ru = isr_io rw ∧ isr_out ru = strip_pat <$> isr_out rw.

(** The state [su] of the plain search corresponds to the state [sw] of
    the search with item weights: the same occurrences up to [ips], which
    only the closedness test reads, the same counters and the same
    answers of [malloc]. *)
Definition sim {D} (rd : RECDATA) (sw : state (WITEM D) D) (su : state ITEM D) : Prop :=
  same_tracts (st_occs su) (strip_occ <$> st_occs sw) ∧
  (closed_mode rd = true → st_occs su = strip_occ <$> st_occs sw) ∧
  st_frqs su = st_frqs sw ∧ st_heap su = st_heap sw ∧
  sim_rep (st_report sw) (st_report su).

(** What the conclusion of a simulated part of the search says about the
    plain state [su'] reached from [su]: it corresponds to [sw'], the
    reporter is set up as it was, and when the result [r] is no error it
    holds the items it held. *)
Definition sim_post {D} (rd : RECDATA) (r : Z) (sw' : state (WITEM D) D)
    (su su' : state ITEM D) : Prop :=
  sim rd sw' su' ∧
  isr_cfg (st_report su') = isr_cfg (st_report su) ∧
  ((0 ≤ r)%Z → isr_stack (st_report su') = isr_stack (st_report su)).

(** The recursive calls for the extensions of [P] correspond. *)
Definition rec_sim {D} (tabag : TABAG (WITEM D)) (rd : RECDATA)
    (recw : list PATEXT → nat → state (WITEM D) D → option (Z * state (WITEM D) D))
    (recu : list PATEXT → nat → state ITEM D → option (Z * state ITEM D))
    (P : list ITEM) : Prop :=
  ∀ i z sw su r sw', i < tbg_itemcnt tabag → wstate tabag (P ++ [i]) sw →
    sim rd sw su → fst <$> isr_stack (st_report su) = rev (P ++ [i]) →
    recw (frame wkey (tbg_itemcnt tabag) (make_occs tabag) (P ++ [i])) z sw
      = Some (r, sw') →
    ∃ su', recu (frame wkey (tbg_itemcnt tabag) (make_occs tabag) (P ++ [i])) z su
             = Some (r, su') ∧ sim_post rd r sw' su su'.

(** ** Closed sequences and the search in every mode *)

(** Every transaction has a positive weight. *)
Definition pos_wgts {A} (tabag : TABAG A) : Prop :=
  ∀ t, t ∈ tbg_tracts tabag → (0 < ta_wgt t)%Z.

(** No proper super-sequence of [P] has the support of [P]. *)
Definition is_closed {A} (key : A → ITEM) (tabag : TABAG A) (P : list ITEM) : Prop :=
  ∀ Q, P `sublist_of` Q → P ≠ Q → (support key tabag Q < support key tabag P)%Z.

(** The state of the plain search when it extends [P], in any run: the
    occurrences are those of the bag up to [ips], the reporter holds the
    items of [P], the counters are zero, and in closed mode the positions
    of [P] are anchored. *)
Definition ustate {D} (tabag : TABAG ITEM) (rd : RECDATA) (zmin : Z)
    (P : list ITEM) (st : state ITEM D) : Prop :=
  same_tracts (st_occs st) (make_occs tabag) ∧
  fst <$> isr_stack (st_report st) = rev P ∧
  isr_zmin (st_report st) = zmin ∧ isr_zmax (st_report st) = rd_zmax rd ∧
  all_zero (st_frqs st) ∧ length (st_frqs st) = tbg_itemcnt tabag ∧
  (closed_mode rd = true → anchored_at ukey (st_occs st) P).

(** What a part of the plain search that extends [P] and meets no failure
    leaves as it was. *)
Definition ustep {D} (P : list ITEM) (st st' : state ITEM D) : Prop :=
  same_tracts (st_occs st') (st_occs st) ∧
  (∀ j m, m < length P →
     po_ips (st_occs st' !!! j) !! m = po_ips (st_occs st !!! j) !! m) ∧
  isr_stack (st_report st') = isr_stack (st_report st) ∧
  isr_zmin (st_report st') = isr_zmin (st_report st) ∧
  isr_zmax (st_report st') = isr_zmax (st_report st) ∧
  all_zero (st_frqs st') ∧ length (st_frqs st') = length (st_frqs st) ∧
  isr_wgt (st_report st') = isr_wgt (st_report st).

(** The patterns written between [rep] and [rep'] are different frequent
    sequences with the property [shape], closed ones in closed mode when
    all transaction weights are positive. *)
Definition out_ok {D} (tabag : TABAG ITEM) (rd : RECDATA) (zmin : Z)
    (shape : list ITEM → Prop) (rep rep' : ISREPORT D) : Prop :=
  ∃ new, isr_out rep' = isr_out rep ++ new ∧ NoDup new ∧
    ∀ p, p ∈ new →
      frequent tabag (rd_smin rd) zmin (rd_zmax rd) p ∧
      (closed_mode rd = true → pos_wgts tabag → is_closed ukey tabag (pat_items p)) ∧
      shape (pat_items p).

(** What the recursive call of the plain search does for the extensions
    of [P], in any mode and any run. *)
Definition rec_ok {D} (tabag : TABAG ITEM) (rd : RECDATA) (zmin : Z)
    (rec : list PATEXT → nat → state ITEM D → option (Z * state ITEM D))
    (P : list ITEM) : Prop :=
  ∀ i z st1 r st1', i < tbg_itemcnt tabag → ustate tabag rd zmin (P ++ [i]) st1 →
    rec (frame ukey (tbg_itemcnt tabag) (make_occs tabag) (P ++ [i])) z st1
      = Some (r, st1') →
    out_ok tabag rd zmin (λ Q, ∃ R, R ≠ [] ∧ Q = (P ++ [i]) ++ R)
           (st_report st1) (st_report st1') ∧
    ((0 ≤ r)%Z →
       ustep (P ++ [i]) st1 st1' ∧
       is_max_supp r (freq_supps rd
         (frame ukey (tbg_itemcnt tabag) (make_occs tabag) (P ++ [i]))
         (seq 0 (tbg_itemcnt tabag)))).

(** ** Example data

    The items are a = 0, b = 1, c = 2. *)

(** The bag {(a,b,c), (a,c), (a,b)} of the scenarios 1 and 2. *)
Definition scenario1 : TABAG ITEM :=
  mkTABAG 3 [mkTRACT 1%Z [0; 1; 2]; mkTRACT 1%Z [0; 2]; mkTRACT 1%Z [0; 1]].

(** The bag {(a,c) weight 2, (a) weight 1, (b) weight 2}. *)
Definition bag_acb : TABAG ITEM :=
  mkTABAG 3 [mkTRACT 2%Z [0; 2]; mkTRACT 1%Z [0]; mkTRACT 2%Z [1]].

(** The bag {(a:1, b:3) weight 1, (a:2, b:4) weight 2} of scenario 4, with
    integers for the item weights. *)
Definition scenario4 : TABAG (WITEM Z) :=
  mkTABAG 2 [mkTRACT 1%Z [mkWITEM 0 1%Z; mkWITEM 1 3%Z];
             mkTRACT 2%Z [mkWITEM 0 2%Z; mkWITEM 1 4%Z]].

(** The bag [bag_acb] with item weights. *)
Definition wbag_acb : TABAG (WITEM Z) :=
  mkTABAG 3 [mkTRACT 2%Z [mkWITEM 0 1%Z; mkWITEM 2 1%Z]; mkTRACT 1%Z [mkWITEM 0 1%Z];
             mkTRACT 2%Z [mkWITEM 1 1%Z]].

(** The first call of [recurse] for a bag, as [sequoia] makes it. *)
Definition root_rd {A} (tabag : TABAG A) (mode : Z) (zmax : Z) (smin : SUPP) : RECDATA :=
  mkRECDATA mode mode (tbg_itemcnt tabag) zmax smin.

Definition root_state (tabag : TABAG ITEM) (zmin zmax : Z) (io heap : list bool)
    : state ITEM unit :=
  mkstate (make_occs tabag) (replicate (tbg_itemcnt tabag) 0) [] []
          (isr_create (tbg_wgt tabag) zmin zmax io) heap.

Definition root_wstate (tabag : TABAG (WITEM Z)) (zmin zmax : Z) (io heap : list bool)
    : state (WITEM Z) Z :=
  mkstate (make_occs tabag) (replicate (tbg_itemcnt tabag) 0)
          (replicate (tbg_itemcnt tabag) 0) (replicate (tbg_itemcnt tabag) 0%Z)
          (isr_create (tbg_wgt tabag) zmin zmax io) heap.

(** A stand-in for [strtol] and [strtod] in the examples: it converts an
    unsigned decimal numeral. *)
Definition digit (c : ascii) : option Z :=
  let n := nat_of_ascii c in
  if (48 <=? n) && (n <=? 57) then Some (Z.of_nat (n - 48)) else None.

Fixpoint parse_dec_from (s : list ascii) (acc : Z) (n : nat) : Z * nat :=
  match s with
  | c :: s' =>
      match digit c with
      | Some d => parse_dec_from s' (10 * acc + d)%Z (S n)
      | None => (acc, n)
      end
  | [] => (acc, n)
  end.

Definition parse_dec (s : list ascii) : Z * nat := parse_dec_from s 0%Z 0.

(** [main_args] with integers for [double] and [parse_dec] for the
    conversions. *)
Definition example_args (argv : list (list ascii)) (heap : list bool)
    : option (Z + OPTS (D:=Z)) :=
  main_args id Z.ltb parse_dec parse_dec id 2147483647%Z argv heap.

(** * The counters of the closedness test *)

Section ScanLemmas.
Context {A : Type} (key : A → ITEM).

Lemma all_zero_touched frqs : all_zero frqs → touched frqs [].
Proof.
  intros Hz a. split; [rewrite Hz; done|]. intros Hin. by apply elem_of_nil in Hin.
Qed.

Lemma count_item_touched i frqs b k a frqs' b' k' :
  count_item key i (frqs, b, k) a = (frqs', b', k') →
  touched frqs b → touched frqs' b'.
Proof.
  unfold count_item. intros [= <- <- <-] Ht a'.
  rewrite list_lookup_total_insert, length_insert.
  destruct (Ht a') as [Ht1 Ht2].
  case_decide as Hd.
  - destruct Hd as [-> Hlt]. split; [|done].
    intros _. destruct (frqs !!! a') eqn:E; simpl; [left|].
    apply Ht1. lia.
  - split.
    + intros Hne. destruct (_ <=? _); [right|]; auto.
    + intros Hin Hlt. apply Ht2; [|done].
      destruct (_ <=? _) eqn:E; [|done].
      apply elem_of_cons in Hin as [->|]; [|done].
      exfalso. apply Hd. done.
Qed.

Lemma count_items_touched i l : ∀ frqs b k frqs' b' k',
  fold_left (count_item key i) l (frqs, b, k) = (frqs', b', k') →
  touched frqs b → touched frqs' b'.
Proof.
  induction l as [|a l IH]; cbn [fold_left]; intros frqs b k frqs' b' k' H Ht.
  - by injection H as <- <- <-.
  - destruct (count_item key i (frqs, b, k) a) as [[f1 b1] k1] eqn:E.
    exact (IH _ _ _ _ _ _ H (count_item_touched _ _ _ _ _ _ _ _ E Ht)).
Qed.

Lemma scan_gap_touched occs n oxs : ∀ i frqs b k frqs' b' k',
  scan_gap key occs n i oxs (frqs, b, k) = (frqs', b', k') →
  touched frqs b → touched frqs' b'.
Proof.
  induction oxs as [|x oxs IH]; cbn [scan_gap]; intros i frqs b k frqs' b' k' H Ht.
  - by injection H as <- <- <-.
  - destruct (fold_left _ _ _) as [[f1 b1] k1] eqn:E.
    apply count_items_touched in E; [|done].
    destruct (k1 =? 0).
    + by injection H as <- <- <-.
    + exact (IH _ _ _ _ _ _ _ H E).
Qed.

Lemma clear_frqs_lookup b : ∀ frqs a,
  clear_frqs b frqs !!! a = if decide (a ∈ b) then 0 else frqs !!! a.
Proof.
  unfold clear_frqs.
  induction b as [|x b IH]; cbn [fold_left]; intros frqs a.
  - destruct (decide (a ∈ [])) as [H|H]; [by apply elem_of_nil in H|done].
  - rewrite IH, list_lookup_total_insert.
    destruct (decide (a ∈ b)) as [Hb|Hb];
      destruct (decide (a ∈ x :: b)) as [Hxb|Hxb]; try done.
    + exfalso. apply Hxb. by right.
    + case_decide as Hx; [done|].
      apply elem_of_cons in Hxb as [->|]; [|done].
      destruct (decide (x < length frqs)); [exfalso; by apply Hx|].
      rewrite list_lookup_total_alt, lookup_ge_None_2; [done|lia].
    + case_decide as Hx; [|done].
      destruct Hx as [-> _]. exfalso. apply Hxb. by left.
Qed.

Lemma clear_frqs_length b : ∀ frqs, length (clear_frqs b frqs) = length frqs.
Proof.
  unfold clear_frqs. induction b as [|x b IH]; cbn [fold_left]; intros; [done|].
  by rewrite IH, length_insert.
Qed.

Lemma clear_touched frqs b : touched frqs b → all_zero (clear_frqs b frqs).
Proof.
  intros Ht a. rewrite clear_frqs_lookup. case_decide as Hd; [done|].
  destruct (Ht a) as [Ht1 _]. destruct (frqs !!! a); [done|].
  exfalso. apply Hd, Ht1. lia.
Qed.

Lemma scan_gaps_all_zero occs oxs n : ∀ frqs,
  all_zero frqs → all_zero (scan_gaps key occs oxs n frqs).2.
Proof.
  induction n as [|n IH]; cbn [scan_gaps]; intros frqs Hz; [done|].
  destruct (scan_gap _ _ _ _ _ _) as [[f b] k] eqn:E.
  apply scan_gap_touched in E; [|by apply all_zero_touched].
  apply clear_touched in E.
  destruct (0 <? k); simpl; [done|]. by apply IH.
Qed.

Lemma all_zero_eq f g : all_zero f → all_zero g → length f = length g → f = g.
Proof.
  intros Hf Hg Hl. apply list_eq. intros i.
  destruct (decide (i < length f)).
  - rewrite !list_lookup_lookup_total_lt by lia. by rewrite Hf, Hg.
  - rewrite !lookup_ge_None_2 by lia. done.
Qed.
End ScanLemmas.

(** * The result of the closedness test *)

Section CountLemmas.
Context {A : Type} (key : A → ITEM).

Lemma count_items_spec i l : ∀ frqs b k frqs' b' k',
  fold_left (count_item key i) l (frqs, b, k) = (frqs', b', k') →
  NoDup (key <$> l) → (∀ a, a ∈ l → key a < length frqs) →
  (∀ a, frqs' !!! a = frqs !!! a + (if decide (a ∈ key <$> l) then 1 else 0)) ∧
  length frqs' = length frqs ∧
  k ≤ k' ∧ (k < k' ↔ ∃ a, a ∈ l ∧ i ≤ frqs !!! key a).
Proof.
  induction l as [|a l IH]; cbn [fold_left]; intros frqs b k frqs' b' k' H Hnd Hr.
  - injection H as <- <- <-. repeat split; try lia.
    + intros a. rewrite fmap_nil. case_decide as Hd; [by apply elem_of_nil in Hd|lia].
    + intros (a & Ha & _). by apply elem_of_nil in Ha.
  - unfold count_item at 2 in H.
    rewrite fmap_cons in Hnd. apply NoDup_cons in Hnd as [Hni Hnd].
    assert (Hlt : key a < length frqs) by (apply Hr; left).
    apply IH in H as (H1 & H2 & H3 & H4); [|done|].
    2:{ intros a' Ha'. rewrite length_insert. apply Hr. by right. }
    rewrite length_insert in H2.
    assert (Hsame : ∀ a', a' ∈ l → <[key a:=S (frqs !!! key a)]> frqs !!! key a' = frqs !!! key a').
    { intros a' Ha'. rewrite list_lookup_total_insert_ne; [done|].
      intros E. apply Hni. rewrite E. by apply list_elem_of_fmap_2. }
    split; [|split; [done|split]].
    + intros a'. rewrite H1, list_lookup_total_insert, fmap_cons.
      destruct (decide (a' = key a)) as [->|Hne].
      * rewrite (decide_True (P := key a = key a ∧ _)) by done.
        rewrite (decide_False (P := key a ∈ key <$> l)) by done.
        rewrite (decide_True (P := key a ∈ key a :: _)) by (by left). lia.
      * rewrite (decide_False (P := key a = a' ∧ _)) by (intros [? _]; done).
        destruct (decide (a' ∈ key <$> l)) as [Hl|Hl].
        -- rewrite (decide_True (P := a' ∈ key a :: _)) by (by right). done.
        -- rewrite (decide_False (P := a' ∈ key a :: _)); [done|].
           intros [->|]%elem_of_cons; done.
    + destruct (i <? S (frqs !!! key a)); lia.
    + split.
      * intros Hk. destruct (i <? S (frqs !!! key a)) eqn:E.
        -- exists a. split; [by left|]. apply Nat.ltb_lt in E. lia.
        -- destruct H4 as [H4 _]. destruct (H4 Hk) as (a' & Ha' & Hi).
           exists a'. split; [by right|]. by rewrite <- Hsame.
      * intros (a' & Ha' & Hi). apply elem_of_cons in Ha' as [->|Ha'].
        -- destruct (i <? S (frqs !!! key a)) eqn:E; [lia|].
           apply Nat.ltb_ge in E. lia.
        -- assert (k' > (if i <? S (frqs !!! key a) then S k else k)).
           { apply H4. exists a'. split; [done|]. by rewrite Hsame. }
           destruct (i <? S (frqs !!! key a)); lia.
Qed.

Lemma scan_gap_spec occs n oxs : ∀ i frqs b k Q frqs' b' k',
  scan_gap key occs n i oxs (frqs, b, k) = (frqs', b', k') →
  (∀ x, x ∈ oxs → NoDup (key <$> gap (occs !!! ox_occ x) n)) →
  (∀ x a, x ∈ oxs → a ∈ gap (occs !!! ox_occ x) n → key a < length frqs) →
  counted i frqs Q →
  (oxs = [] → (0 < k ↔ ∃ a, Q a)) →
  (0 < k' ↔ ∃ a, Q a ∧ ∀ x, x ∈ oxs → a ∈ key <$> gap (occs !!! ox_occ x) n).
Proof.
  induction oxs as [|x oxs IH]; cbn [scan_gap];
    intros i frqs b k Q frqs' b' k' H Hnd Hr Hc Hk.
  - injection H as <- <- <-. rewrite (Hk eq_refl).
    split; [intros [a Ha]; exists a; split; [done|]; intros x Hx; by apply elem_of_nil in Hx|].
    intros (a & Ha & _). by exists a.
  - destruct (fold_left _ _ _) as [[f1 b1] k1] eqn:E.
    apply count_items_spec in E as (E1 & E2 & _ & E4);
      [|apply Hnd; by left|intros a Ha; eapply Hr; [by left|done]].
    set (G := gap (occs !!! ox_occ x) n) in *.
    assert (Hk1 : 0 < k1 ↔ ∃ a, Q a ∧ a ∈ key <$> G).
    { rewrite E4. split.
      - intros (a & Ha & Hi). exists (key a). split; [|by apply list_elem_of_fmap_2].
        destruct (Hc (key a)) as [Hle Hq]. apply Hq. lia.
      - intros (a & Hq & Ha). apply list_elem_of_fmap in Ha as (a' & -> & Ha').
        exists a'. split; [done|]. destruct (Hc (key a')) as [_ Hq']. apply Hq' in Hq. lia. }
    destruct (k1 =? 0) eqn:Ek.
    + injection H as <- <- <-. apply Nat.eqb_eq in Ek. split; [lia|].
      intros (a & Hq & Ha). assert (0 < k1); [|lia].
      apply Hk1. exists a. split; [done|]. apply Ha. by left.
    + apply (IH _ _ _ _ (λ a, Q a ∧ a ∈ key <$> G)) in H.
      * rewrite H. split.
        -- intros (a & [Hq Hg] & Ha). exists a. split; [done|].
           intros x' Hx'. apply elem_of_cons in Hx' as [->|]; [done|by apply Ha].
        -- intros (a & Hq & Ha). exists a. split; [split; [done|apply Ha; by left]|].
           intros x' Hx'. apply Ha. by right.
      * intros x' Hx'. apply Hnd. by right.
      * intros x' a Hx' Ha. rewrite E2. eapply Hr; [by right|done].
      * intros a. rewrite E1. destruct (Hc a) as [Hle Hq].
        case_decide as Hd; split; try lia.
        -- split; [intros; split; [apply Hq; lia|done]|]. intros [Hq' _]. apply Hq in Hq'. lia.
        -- split; [lia|]. intros [_ Hg]. done.
      * intros _. done.
Qed.

Lemma scan_gap_length occs n oxs : ∀ i frqs b k frqs' b' k',
  scan_gap key occs n i oxs (frqs, b, k) = (frqs', b', k') →
  length frqs' = length frqs.
Proof.
  induction oxs as [|x oxs IH]; cbn [scan_gap]; intros i frqs b k frqs' b' k' H.
  - by injection H as <- <- <-.
  - destruct (fold_left _ _ _) as [[f1 b1] k1] eqn:E.
    assert (length f1 = length frqs) as <-.
    { clear H. revert frqs b E. generalize 0 at 1.
      induction (gap _ _) as [|a l IHl]; cbn [fold_left]; intros k0 frqs b E.
      - by injection E as <- <- <-.
      - unfold count_item at 2 in E. apply IHl in E. by rewrite length_insert in E. }
    destruct (k1 =? 0); [by injection H as <- <- <-|by apply IH in H].
Qed.

Lemma scan_gaps_spec occs oxs : ∀ n frqs,
  oxs ≠ [] → all_zero frqs →
  (∀ x, x ∈ oxs → NoDup (key <$> po_items (occs !!! ox_occ x))) →
  (∀ x a, x ∈ oxs → a ∈ po_items (occs !!! ox_occ x) → key a < length frqs) →
  ((scan_gaps key occs oxs n frqs).1 = 0%Z ↔
     ∃ g a, g < n ∧ common_gap_item key occs oxs g a) ∧
  ((scan_gaps key occs oxs n frqs).1 = 0%Z ∨ (scan_gaps key occs oxs n frqs).1 = (-1)%Z).
Proof.
  intros n frqs Hne. revert frqs.
  induction n as [|n IH]; cbn [scan_gaps]; intros frqs Hz Hnd Hr.
  - split; [|by right]. cbn. split; [done|]. intros (g & a & Hg & _). lia.
  - destruct (scan_gap _ _ _ _ _ _) as [[f b] k] eqn:E.
    assert (Hsub : ∀ x, gap (occs !!! ox_occ x) n `sublist_of` po_items (occs !!! ox_occ x)).
    { intros x. unfold gap. etrans; [apply sublist_take|apply sublist_drop]. }
    pose proof (scan_gap_length _ _ _ _ _ _ _ _ _ _ E) as Hlen.
    pose proof (scan_gap_touched key _ _ _ _ _ _ _ _ _ _ E (all_zero_touched _ Hz)) as Ht.
    apply (scan_gap_spec _ _ _ _ _ _ _ (λ _, True)) in E.
    + destruct (0 <? k) eqn:Ek.
      * split; [|by left]. cbn. split; [|done]. intros _.
        apply Nat.ltb_lt in Ek. apply E in Ek as (a & _ & Ha).
        exists n, a. split; [lia|done].
      * apply Nat.ltb_ge in Ek.
        destruct (IH (clear_frqs b f)) as [IH1 IH2].
        -- by apply clear_touched.
        -- done.
        -- intros x a Hx Ha. rewrite clear_frqs_length, Hlen. by eapply Hr.
        -- split; [|done]. rewrite IH1. split.
           ++ intros (g & a & Hg & Ha). exists g, a. split; [lia|done].
           ++ intros (g & a & Hg & Ha). destruct (decide (g = n)) as [->|].
              ** assert (0 < k); [|lia]. apply E. by exists a.
              ** exists g, a. split; [lia|done].
    + intros x Hx. eapply sublist_NoDup; [by apply Hnd|].
      by apply fmap_sublist.
    + intros x a Hx Ha. eapply Hr; [done|]. by eapply elem_of_sublist.
    + intros a. rewrite Hz. split; [lia|]. done.
    + intros ->. done.
Qed.
End CountLemmas.

(** * Anchoring the extension item *)

Section AnchorLemmas.
Context {A : Type}.
Implicit Type occs : list (PATOCC A).

Lemma anchor_cons n x oxs occs :
  anchor n (x :: oxs) occs =
  anchor n oxs (alter (λ o, set_ips o (n - 1) (ox_item x)) (ox_occ x) occs).
Proof. done. Qed.

Lemma anchor_length n oxs : ∀ occs, length (anchor n oxs occs) = length occs.
Proof.
  induction oxs as [|x oxs IH]; intros occs; [done|].
  by rewrite anchor_cons, IH, length_alter.
Qed.

Lemma alter_set_ips_total occs j j' m p :
  alter (λ o, set_ips o m p) j occs !!! j' =
  if decide (j = j' ∧ j < length occs) then set_ips (occs !!! j') m p else occs !!! j'.
Proof.
  case_decide as Hd.
  - destruct Hd as [-> Hlt]. by rewrite list_lookup_total_alter_eq.
  - destruct (decide (j = j')) as [->|Hne].
    + rewrite !list_lookup_total_alt, list_lookup_alter_eq.
      rewrite lookup_ge_None_2; [done|]. destruct (decide (j' < length occs)); [|lia].
      exfalso. by apply Hd.
    + by rewrite list_lookup_total_alter_ne.
Qed.

(** [anchor] changes nothing but entries of [ips]. *)
Lemma anchor_items n oxs : ∀ occs j,
  po_items (anchor n oxs occs !!! j) = po_items (occs !!! j) ∧
  po_wgt (anchor n oxs occs !!! j) = po_wgt (occs !!! j) ∧
  length (po_ips (anchor n oxs occs !!! j)) = length (po_ips (occs !!! j)).
Proof.
  induction oxs as [|x oxs IH]; intros occs j; [done|].
  rewrite anchor_cons. destruct (IH (alter (λ o, set_ips o (n - 1) (ox_item x)) (ox_occ x) occs) j)
    as (-> & -> & ->).
  rewrite alter_set_ips_total. case_decide; [|done].
  cbn. by rewrite length_insert.
Qed.

(** [anchor] writes position [n-1] only. *)
Lemma anchor_other_ips n oxs m : m ≠ n - 1 → ∀ occs j,
  po_ips (anchor n oxs occs !!! j) !! m = po_ips (occs !!! j) !! m.
Proof.
  intros Hm. induction oxs as [|x oxs IH]; intros occs j; [done|].
  rewrite anchor_cons, IH, alter_set_ips_total. case_decide; [|done].
  cbn. by rewrite list_lookup_insert_ne.
Qed.

(** [anchor] writes only to the occurrences of the extension. *)
Lemma anchor_other_occ n oxs : ∀ occs j,
  j ∉ ox_occ <$> oxs → anchor n oxs occs !!! j = occs !!! j.
Proof.
  induction oxs as [|x oxs IH]; intros occs j Hj; [done|].
  rewrite fmap_cons in Hj. apply not_elem_of_cons in Hj as [Hne Hj].
  rewrite anchor_cons, IH by done. by rewrite list_lookup_total_alter_ne.
Qed.

Lemma anchor_anchored n oxs : ∀ occs,
  oxs_ok occs oxs (n - 1) → anchored (anchor n oxs occs) oxs (n - 1).
Proof.
  induction oxs as [|x oxs IH]; intros occs [Hnd Hok] x' Hx'.
  { by apply elem_of_nil in Hx'. }
  rewrite fmap_cons in Hnd. apply NoDup_cons in Hnd as [Hni Hnd].
  rewrite anchor_cons. apply elem_of_cons in Hx' as [->|Hx'].
  - rewrite anchor_other_occ by done.
    destruct (Hok x) as [Hlt Hm]; [by left|].
    rewrite list_lookup_total_alter_eq by done. cbn.
    by rewrite list_lookup_insert_eq.
  - apply IH; [|done]. split; [done|]. intros y Hy.
    destruct (Hok y) as [Hlt Hm]; [by right|].
    rewrite length_alter. split; [done|].
    rewrite alter_set_ips_total. case_decide; [|done]. cbn. by rewrite length_insert.
Qed.
End AnchorLemmas.

(** * Termination *)

Section Termination.
Context {D : Type}.

Lemma ext_loop_total (rec : list PATEXT → nat → state nat D → option (Z * state nat D))
    rd exts cond len todo :
  (cond = true → ∀ c z st, is_Some (rec c z st)) →
  ∀ s max st, is_Some (ext_loop rec rd exts cond len todo s max st).
Proof.
  intros Hrec. induction todo as [|i todo IH]; intros s max st; cbn [ext_loop]; [done|].
  destruct (_ <? _)%Z; [done|].
  destruct (closed_test _ _ _ _) as [r st1].
  destruct (r =? 0)%Z; [done|].
  assert (Hrep : ∀ s' st',
    is_Some (if negb (closed_mode rd) || (s' <? pe_supp (exts !!! i))%Z
     then let '(r0, rep) := isr_report (st_report st') in
          if (r0 <? 0)%Z then Some ((-1)%Z, (if (max <? pe_supp (exts !!! i))%Z then pe_supp (exts !!! i) else max), set_report st' rep)
          else ext_loop rec rd exts cond len todo s' (if (max <? pe_supp (exts !!! i))%Z then pe_supp (exts !!! i) else max)
                 (set_report st' (isr_remove rep 1))
     else ext_loop rec rd exts cond len todo s' (if (max <? pe_supp (exts !!! i))%Z then pe_supp (exts !!! i) else max)
            (set_report st' (isr_remove (st_report st') 1)))).
  { intros s' st'. destruct (_ || _); [|done].
    destruct (isr_report _) as [r0 rep]. destruct (r0 <? 0)%Z; done. }
  destruct cond; [|apply Hrep].
  destruct (project _ _ _ _) as [c z].
  destruct (0 <? z); [|apply Hrep].
  destruct (Hrec eq_refl c z (set_report st1 (isr_add (st_report st1) i (pe_supp (exts !!! i)))))
    as [[s' st'] ->].
  destruct (s' <? 0)%Z; [done|apply Hrep].
Qed.

Lemma recurse_total fuel : ∀ exts z len rd (st : state nat D),
  Z.to_nat (rd_zmax rd - Z.of_nat len) < fuel →
  is_Some (recurse fuel exts z len rd st).
Proof.
  induction fuel as [|fuel IH]; intros exts z len rd st Hf; [lia|].
  cbn [recurse].
  destruct (Z.of_nat (S len) <=? rd_zmax rd)%Z eqn:E.
  - destruct (malloc st) as [ok st1]. destruct ok; cbn [negb]; [|done].
    destruct (ext_loop_total (λ c z st, recurse fuel c z (S len) rd st)
                rd exts true (S len) (seq 0 (rd_cnt rd))) with (s := 0%Z) (max := 0%Z) (st := st1)
      as [[[s max] st2] ->]; [|done].
    intros _ c z' st'. apply IH. apply Z.leb_le in E. lia.
  - cbn [negb].
    destruct (ext_loop_total (λ c z st, recurse fuel c z (S len) rd st)
                rd exts false (S len) (seq 0 (rd_cnt rd))) with (s := 0%Z) (max := 0%Z) (st := st)
      as [[[s max] st2] ->]; done.
Qed.
End Termination.

Section TerminationIW.
Context {D : Type} (dzero : D) (dadd dmul : D → D → D) (of_supp : Z → D).
Local Abbreviation stateW := (state (WITEM D) D).

Lemma ext_loop_iw_total (rec : list PATEXT → nat → stateW → option (Z * stateW))
    rd exts cond len todo :
  (cond = true → ∀ c z st, is_Some (rec c z st)) →
  ∀ s max st, is_Some (ext_loop_iw dzero dadd dmul of_supp rec rd exts cond len todo s max st).
Proof.
  intros Hrec. induction todo as [|i todo IH]; intros s max st; cbn [ext_loop_iw]; [done|].
  destruct (_ <? _)%Z; [done|].
  destruct (closed_test_iw _ _ _ _) as [r st1].
  destruct (r =? 0)%Z; [done|].
  set (max1 := if (max <? pe_supp (exts !!! i))%Z then pe_supp (exts !!! i) else max).
  assert (Hrep : ∀ s' st',
    is_Some (if closed_mode rd && (pe_supp (exts !!! i) <=? s')%Z
     then ext_loop_iw dzero dadd dmul of_supp rec rd exts cond len todo s' max1 st'
     else
       let st0 := set_wgts st' (sum_wgts dzero dadd dmul of_supp (st_occs st') (exts !!! i) len (st_wgts st')) in
       let '(r0, rep) := isr_isetx (st_report st0) (st_items st0) len (st_wgts st0)
                           (pe_supp (exts !!! i)) in
       if (r0 <? 0)%Z then Some ((-1)%Z, max1, set_report st0 rep)
       else ext_loop_iw dzero dadd dmul of_supp rec rd exts cond len todo s' max1 (set_report st0 rep))).
  { intros s' st'. destruct (_ && _); [done|]. cbv zeta.
    destruct (isr_isetx _ _ _ _ _) as [r0 rep]. destruct (r0 <? 0)%Z; done. }
  destruct cond; [|apply Hrep].
  destruct (project _ _ _ _) as [c z].
  destruct (0 <? z); [|apply Hrep].
  destruct (Hrec eq_refl c z st1) as [[s' st'] ->].
  destruct (s' <? 0)%Z; [done|apply Hrep].
Qed.

Lemma rec_iw_total fuel : ∀ exts z len rd (st : stateW),
  Z.to_nat (rd_zmax rd - Z.of_nat len) < fuel →
  is_Some (rec_iw dzero dadd dmul of_supp fuel exts z len rd st).
Proof.
  induction fuel as [|fuel IH]; intros exts z len rd st Hf; [lia|].
  cbn [rec_iw].
  destruct (Z.of_nat (S len) <=? rd_zmax rd)%Z eqn:E.
  - destruct (malloc st) as [ok st1]. destruct ok; cbn [negb]; [|done].
    destruct (ext_loop_iw_total (λ c z st, rec_iw dzero dadd dmul of_supp fuel c z (S len) rd st)
                rd exts true (S len) (seq 0 (rd_cnt rd))) with (s := 0%Z) (max := 0%Z) (st := st1)
      as [[[s max] st2] ->]; [|done].
    intros _ c z' st'. apply IH. apply Z.leb_le in E. lia.
  - cbn [negb].
    destruct (ext_loop_iw_total (λ c z st, rec_iw dzero dadd dmul of_supp fuel c z (S len) rd st)
                rd exts false (S len) (seq 0 (rd_cnt rd))) with (s := 0%Z) (max := 0%Z) (st := st)
      as [[[s max] st2] ->]; done.
Qed.
End TerminationIW.

(** * The value that the recursion returns *)

Section RunLemmas.
Context {A D : Type}.
Implicit Type st : state A D.

Lemma run_ok_refl st : run_ok st st.
Proof. exists []. split; [by exists [], []|constructor]. Qed.

Lemma run_ok_same st st' :
  st_heap st' = st_heap st → isr_io (st_report st') = isr_io (st_report st) →
  run_ok st st'.
Proof. intros Hh Ho. exists []. split; [exists [], []; by rewrite Hh, Ho|constructor]. Qed.

Lemma run_ok_trans st1 st2 st3 : run_ok st1 st2 → run_ok st2 st3 → run_ok st1 st3.
Proof.
  intros (u & (uh & uo & Hh & Ho & ->) & Hu) (u' & (uh' & uo' & Hh' & Ho' & ->) & Hu').
  exists ((uh ++ uh') ++ (uo ++ uo')). split.
  - exists (uh ++ uh'), (uo ++ uo'). rewrite Hh, Ho, Hh', Ho', <- !app_assoc. done.
  - rewrite !Forall_app in *. tauto.
Qed.

Lemma run_ok_failed st1 st2 st3 : run_ok st1 st2 → run_failed st2 st3 → run_failed st1 st3.
Proof.
  intros (u & (uh & uo & Hh & Ho & ->) & Hu) (u' & (uh' & uo' & Hh' & Ho' & ->) & Hu').
  exists ((uh ++ uh') ++ (uo ++ uo')). split.
  - exists (uh ++ uh'), (uo ++ uo'). rewrite Hh, Ho, Hh', Ho', <- !app_assoc. done.
  - rewrite !elem_of_app in *. tauto.
Qed.

Lemma run_failed_same st1 st2 st3 :
  run_failed st1 st2 → st_heap st3 = st_heap st2 →
  isr_io (st_report st3) = isr_io (st_report st2) → run_failed st1 st3.
Proof.
  intros (u & (uh & uo & Hh & Ho & ->) & Hu) H1 H2.
  exists (uh ++ uo). split; [|done]. exists uh, uo. by rewrite H1, H2.
Qed.

Lemma malloc_run st ok st1 :
  malloc st = (ok, st1) →
  st_report st1 = st_report st ∧ st_occs st1 = st_occs st ∧ st_frqs st1 = st_frqs st ∧
  st_items st1 = st_items st ∧ st_wgts st1 = st_wgts st ∧
  if ok then run_ok st st1 else run_failed st st1.
Proof.
  unfold malloc, malloc_list. destruct st as [o f it w r h]. cbn.
  destruct h as [|[] h]; intros [= <- <-]; cbn; repeat split.
  - by apply run_ok_same.
  - exists [true]. split; [by exists [true], []|by repeat constructor].
  - exists [false]. split; [by exists [false], []|by left].
Qed.

Lemma isr_emit_run (rep : ISREPORT D) p r rep' :
  isr_emit rep p = (r, rep') →
  isr_zmin rep' = isr_zmin rep ∧ isr_zmax rep' = isr_zmax rep ∧
  isr_wgt rep' = isr_wgt rep ∧ isr_stack rep' = isr_stack rep ∧
  ((r = 0%Z ∧ ((isr_io rep' = isr_io rep ∧ isr_out rep' = isr_out rep) ∨
               (isr_io rep = true :: isr_io rep' ∧ isr_out rep' = isr_out rep ++ [p]) ∨
               (isr_io rep = [] ∧ isr_io rep' = [] ∧ isr_out rep' = isr_out rep ++ [p]))) ∨
   (r = (-1)%Z ∧ isr_io rep = false :: isr_io rep' ∧ isr_out rep' = isr_out rep)).
Proof.
  unfold isr_emit. destruct (_ || _).
  - intros [= <- <-]. repeat split. left. split; [done|]. by left.
  - destruct rep as [zmin zmax w stk out io]; cbn.
    destruct io as [|[] io]; intros [= <- <-]; cbn; repeat split.
    + left. split; [done|]. right. by right.
    + left. split; [done|]. right. by left.
    + by right.
Qed.
End RunLemmas.

Lemma foldl_max_spec (l : list Z) : ∀ m,
  ((foldl Z.max m l = m ∨ foldl Z.max m l ∈ l) ∧ (m ≤ foldl Z.max m l)%Z ∧
   ∀ s, s ∈ l → (s ≤ foldl Z.max m l)%Z).
Proof.
  induction l as [|x l IH]; intros m; cbn [foldl].
  - split; [by left|]. split; [lia|]. intros s Hs. by apply elem_of_nil in Hs.
  - destruct (IH (Z.max m x)) as ([H1|H1] & H2 & H3).
    + rewrite H1. split; [|split; [lia|]].
      * destruct (Z.max_spec m x) as [[? ->]|[? ->]]; [right; left|by left].
      * intros s [->|Hs]%elem_of_cons; [lia|]. apply H3 in Hs. lia.
    + split; [right; by right|]. split; [lia|].
      intros s [->|Hs]%elem_of_cons; [lia|by apply H3].
Qed.

Lemma foldl_max_is_max (l : list Z) :
  Forall (λ s, 0 ≤ s)%Z l → is_max_supp (foldl Z.max 0%Z l) l.
Proof.
  intros Hl. destruct (foldl_max_spec l 0%Z) as ([H1|H1] & H2 & H3).
  - destruct l as [|x l]; [by left|]. right. rewrite H1 in *. split; [|done].
    assert (x = 0%Z) as ->; [|by left].
    apply Forall_cons in Hl as [Hx _]. specialize (H3 x (list_elem_of_here _ _)). lia.
  - right. done.
Qed.

Lemma freq_supps_cons rd exts i todo :
  freq_supps rd exts (i :: todo) =
  if (pe_supp (exts !!! i) <? rd_smin rd)%Z then freq_supps rd exts todo
  else pe_supp (exts !!! i) :: freq_supps rd exts todo.
Proof.
  unfold freq_supps. rewrite fmap_cons, filter_cons.
  destruct (_ <? _)%Z eqn:E.
  - apply Z.ltb_lt in E. rewrite decide_False by lia. done.
  - apply Z.ltb_ge in E. rewrite decide_True by lia. done.
Qed.

Section ReturnValue.
Context {D : Type}.
Implicit Type st : state nat D.

Lemma closed_test_same rd e len st :
  st_heap (closed_test rd e len st).2 = st_heap st ∧
  st_report (closed_test rd e len st).2 = st_report st ∧
  st_items (closed_test rd e len st).2 = st_items st ∧
  st_wgts (closed_test rd e len st).2 = st_wgts st.
Proof.
  unfold closed_test, closed. destruct (closed_mode rd); [|done].
  destruct (scan_gaps _ _ _ _ _). done.
Qed.

Lemma ext_loop_result rec rd exts cond len todo :
  rec_result rec →
  ∀ s max st s' max' st', (0 ≤ s)%Z →
    ext_loop rec rd exts cond len todo s max st = Some (s', max', st') →
    (run_ok st st' ∧ (0 ≤ s')%Z ∧ max' = foldl Z.max max (freq_supps rd exts todo)) ∨
    (run_failed st st' ∧ (s' < 0)%Z).
Proof.
  intros Hrec. induction todo as [|i todo IH]; intros s max st s' max' st' Hs;
    cbn [ext_loop].
  { intros [= <- <- <-]. left. split; [apply run_ok_refl|done]. }
  rewrite freq_supps_cons.
  destruct (_ <? _)%Z; [by apply IH|].
  cbn [foldl].
  replace (if (max <? pe_supp (exts !!! i))%Z then pe_supp (exts !!! i) else max)
    with (Z.max max (pe_supp (exts !!! i)))
    by (destruct (Z.ltb_spec max (pe_supp (exts !!! i))); lia).
  set (max1 := Z.max max (pe_supp (exts !!! i))).
  destruct (closed_test_same rd (exts !!! i) len st) as (Hh & Hr & _).
  destruct (closed_test _ _ _ _) as [r st1]. cbn [snd] in Hh, Hr.
  assert (Hok1 : run_ok st st1) by (apply run_ok_same; [done|by rewrite Hr]).
  destruct (r =? 0)%Z.
  { intros H. apply IH in H; [|done]. destruct H as [(H1 & H2)|(H1 & H2)].
    - left. split; [by eapply run_ok_trans|done].
    - right. split; [by eapply run_ok_failed|done]. }
  set (st2 := set_report st1 (isr_add (st_report st1) i (pe_supp (exts !!! i)))).
  assert (Hok2 : run_ok st st2) by (eapply run_ok_trans; [done|by apply run_ok_same]).
  assert (Hrep : ∀ s1 st3, (0 ≤ s1)%Z → run_ok st st3 →
    (if negb (closed_mode rd) || (s1 <? pe_supp (exts !!! i))%Z
     then let '(r0, rep) := isr_report (st_report st3) in
          if (r0 <? 0)%Z then Some ((-1)%Z, max1, set_report st3 rep)
          else ext_loop rec rd exts cond len todo s1 max1 (set_report st3 (isr_remove rep 1))
     else ext_loop rec rd exts cond len todo s1 max1
            (set_report st3 (isr_remove (st_report st3) 1))) = Some (s', max', st') →
    (run_ok st st' ∧ (0 ≤ s')%Z ∧ max' = foldl Z.max max1 (freq_supps rd exts todo)) ∨
    (run_failed st st' ∧ (s' < 0)%Z)).
  { intros s1 st3 Hs1 Hok3. destruct (_ || _).
    - destruct (isr_report _) as [r0 rep] eqn:E. unfold isr_report in E.
      apply isr_emit_run in E as (_ & _ & _ & _ & E).
      destruct E as [(-> & E)|(-> & E1 & E2)]; cbn.
      + intros H. apply IH in H; [|done]. destruct H as [(H1 & H2)|(H1 & H2)].
        * left. split; [|done]. eapply run_ok_trans; [|done].
          eapply run_ok_trans; [done|].
          destruct E as [[E _]|[[E _]|(E & E' & _)]].
          -- by apply run_ok_same.
          -- exists [true]. split; [exists [], [true]; by rewrite E|by repeat constructor].
          -- apply run_ok_same; [done|]. cbn. by rewrite E, E'.
        * right. split; [|done]. eapply run_ok_failed; [|done].
          eapply run_ok_trans; [done|].
          destruct E as [[E _]|[[E _]|(E & E' & _)]].
          -- by apply run_ok_same.
          -- exists [true]. split; [exists [], [true]; by rewrite E|by repeat constructor].
          -- apply run_ok_same; [done|]. cbn. by rewrite E, E'.
      + intros [= <- <- <-]. right. split; [|lia].
        eapply run_ok_failed; [done|]. exists [false].
        split; [exists [], [false]; by rewrite E1|by left].
    - intros H. apply IH in H; [|done]. destruct H as [(H1 & H2)|(H1 & H2)].
      + left. split; [|done]. eapply run_ok_trans; [|done].
        eapply run_ok_trans; [done|]. by apply run_ok_same.
      + right. split; [|done]. eapply run_ok_failed; [|done].
        eapply run_ok_trans; [done|]. by apply run_ok_same. }
  destruct cond; [|by apply Hrep].
  destruct (project _ _ _ _) as [c z].
  destruct (0 <? z); [|by apply Hrep].
  fold st2. destruct (rec c z st2) as [[s1 st3]|] eqn:E; [|done].
  apply Hrec in E as [(E1 & E2)|(E1 & E2)].
  - destruct (Z.ltb_spec s1 0); [lia|]. apply Hrep; [done|]. by eapply run_ok_trans.
  - destruct (Z.ltb_spec s1 0); [|lia]. intros [= <- <- <-]. right.
    split; [|done]. by eapply run_ok_failed.
Qed.

Lemma recurse_result fuel : ∀ exts z len rd st r st',
  (0 ≤ rd_smin rd)%Z →
  recurse fuel exts z len rd st = Some (r, st') →
  (run_ok st st' ∧ is_max_supp r (freq_supps rd exts (seq 0 (rd_cnt rd)))) ∨
  (run_failed st st' ∧ (r < 0)%Z).
Proof.
  induction fuel as [|fuel IH]; intros exts z len rd st r st' Hsmin; [done|].
  cbn [recurse].
  assert (Hrec : rec_result (λ c z st, recurse fuel c z (S len) rd st)).
  { intros c z1 st1 r1 st1' H. apply IH in H; [|done]. destruct H as [(H1 & H2)|H]; [|by right].
    left. split; [done|]. destruct H2 as [[_ ->]|[H2 _]]; [done|].
    unfold freq_supps in H2. apply list_elem_of_filter in H2 as [H2 _]. lia. }
  assert (Hmax : is_max_supp (foldl Z.max 0%Z (freq_supps rd exts (seq 0 (rd_cnt rd))))
                             (freq_supps rd exts (seq 0 (rd_cnt rd)))).
  { apply foldl_max_is_max. apply Forall_forall. intros s Hs.
    unfold freq_supps in Hs. apply list_elem_of_filter in Hs as [Hs _]. lia. }
  destruct (Z.of_nat (S len) <=? rd_zmax rd)%Z.
  - destruct (malloc st) as [ok st1] eqn:Em.
    apply malloc_run in Em as (_ & _ & _ & _ & _ & Em).
    destruct ok; cbn [negb].
    + destruct (ext_loop _ _ _ _ _ _ _ _ _) as [[[s max] st2]|] eqn:E; [|done].
      intros [= <- <-].
      apply (ext_loop_result _ _ _ _ _ _ Hrec) in E; [|done]. destruct E as [(E1 & E2 & ->)|(E1 & E2)].
      * left. destruct (Z.ltb_spec s 0); [lia|]. split; [by eapply run_ok_trans|done].
      * right. destruct (Z.ltb_spec s 0); [|lia]. split; [by eapply run_ok_failed|done].
    + intros [= <- <-]. right. done.
  - cbn [negb].
    destruct (ext_loop _ _ _ _ _ _ _ _ _) as [[[s max] st2]|] eqn:E; [|done].
    intros [= <- <-].
    apply (ext_loop_result _ _ _ _ _ _ Hrec) in E; [|done]. destruct E as [(E1 & E2 & ->)|(E1 & E2)].
    * left. destruct (Z.ltb_spec s 0); [lia|]. done.
    * right. destruct (Z.ltb_spec s 0); [|lia]. done.
Qed.
End ReturnValue.

Section ReturnValueIW.
Context {D : Type} (dzero : D) (dadd dmul : D → D → D) (of_supp : Z → D).
Local Abbreviation stateW := (state (WITEM D) D).
Implicit Type st : stateW.

Lemma closed_test_iw_same rd e len st :
  st_heap (closed_test_iw rd e len st).2 = st_heap st ∧
  st_report (closed_test_iw rd e len st).2 = st_report st ∧
  st_items (closed_test_iw rd e len st).2 = st_items st ∧
  st_wgts (closed_test_iw rd e len st).2 = st_wgts st ∧
  st_occs (closed_test_iw rd e len st).2 = st_occs st.
Proof.
  unfold closed_test_iw, closed_iw. destruct (closed_mode rd); [|done].
  destruct (scan_gaps _ _ _ _ _). done.
Qed.

Lemma ext_loop_iw_result rec rd exts cond len todo :
  rec_result rec →
  ∀ s max st s' max' st', (0 ≤ s)%Z →
    ext_loop_iw dzero dadd dmul of_supp rec rd exts cond len todo s max st
      = Some (s', max', st') →
    (run_ok st st' ∧ (0 ≤ s')%Z ∧ max' = foldl Z.max max (freq_supps rd exts todo)) ∨
    (run_failed st st' ∧ (s' < 0)%Z).
Proof.
  intros Hrec. induction todo as [|i todo IH]; intros s max st s' max' st' Hs;
    cbn [ext_loop_iw].
  { intros [= <- <- <-]. left. split; [apply run_ok_refl|done]. }
  rewrite freq_supps_cons.
  destruct (_ <? _)%Z; [by apply IH|].
  cbn [foldl].
  replace (if (max <? pe_supp (exts !!! i))%Z then pe_supp (exts !!! i) else max)
    with (Z.max max (pe_supp (exts !!! i)))
    by (destruct (Z.ltb_spec max (pe_supp (exts !!! i))); lia).
  set (max1 := Z.max max (pe_supp (exts !!! i))).
  set (st0 := set_occs _ _).
  destruct (closed_test_iw_same rd (exts !!! i) len st0) as (Hh & Hr & _).
  destruct (closed_test_iw _ _ _ _) as [r st1]. cbn [snd] in Hh, Hr.
  assert (Hok1 : run_ok st st1) by (apply run_ok_same; [done|by rewrite Hr]).
  destruct (r =? 0)%Z.
  { intros H. apply IH in H; [|done]. destruct H as [(H1 & H2)|(H1 & H2)].
    - left. split; [by eapply run_ok_trans|done].
    - right. split; [by eapply run_ok_failed|done]. }
  assert (Hrep : ∀ s1 st3, (0 ≤ s1)%Z → run_ok st st3 →
    (if closed_mode rd && (pe_supp (exts !!! i) <=? s1)%Z
     then ext_loop_iw dzero dadd dmul of_supp rec rd exts cond len todo s1 max1 st3
     else
       let st4 := set_wgts st3 (sum_wgts dzero dadd dmul of_supp (st_occs st3) (exts !!! i) len (st_wgts st3)) in
       let '(r0, rep) := isr_isetx (st_report st4) (st_items st4) len (st_wgts st4)
                           (pe_supp (exts !!! i)) in
       if (r0 <? 0)%Z then Some ((-1)%Z, max1, set_report st4 rep)
       else ext_loop_iw dzero dadd dmul of_supp rec rd exts cond len todo s1 max1 (set_report st4 rep))
      = Some (s', max', st') →
    (run_ok st st' ∧ (0 ≤ s')%Z ∧ max' = foldl Z.max max1 (freq_supps rd exts todo)) ∨
    (run_failed st st' ∧ (s' < 0)%Z)).
  { intros s1 st3 Hs1 Hok3. destruct (_ && _).
    - intros H. apply IH in H; [|done]. destruct H as [(H1 & H2)|(H1 & H2)].
      + left. split; [by eapply run_ok_trans|done].
      + right. split; [by eapply run_ok_failed|done].
    - cbv zeta. destruct (isr_isetx _ _ _ _ _) as [r0 rep] eqn:E. unfold isr_isetx in E.
      apply isr_emit_run in E as (_ & _ & _ & _ & E). cbn in E.
      destruct E as [(-> & E)|(-> & E1 & E2)]; cbn.
      + intros H. apply IH in H; [|done]. destruct H as [(H1 & H2)|(H1 & H2)].
        * left. split; [|done]. eapply run_ok_trans; [|done].
          eapply run_ok_trans; [done|].
          destruct E as [[E _]|[[E _]|(E & E' & _)]].
          -- by apply run_ok_same.
          -- exists [true]. split; [exists [], [true]; by rewrite E|by repeat constructor].
          -- apply run_ok_same; [done|]. cbn. by rewrite E, E'.
        * right. split; [|done]. eapply run_ok_failed; [|done].
          eapply run_ok_trans; [done|].
          destruct E as [[E _]|[[E _]|(E & E' & _)]].
          -- by apply run_ok_same.
          -- exists [true]. split; [exists [], [true]; by rewrite E|by repeat constructor].
          -- apply run_ok_same; [done|]. cbn. by rewrite E, E'.
      + intros [= <- <- <-]. right. split; [|lia].
        eapply run_ok_failed; [done|]. exists [false].
        split; [exists [], [false]; by rewrite E1|by left]. }
  destruct cond; [|by apply Hrep].
  destruct (project _ _ _ _) as [c z].
  destruct (0 <? z); [|by apply Hrep].
  destruct (rec c z st1) as [[s1 st3]|] eqn:E; [|done].
  apply Hrec in E as [(E1 & E2)|(E1 & E2)].
  - destruct (Z.ltb_spec s1 0); [lia|]. apply Hrep; [done|]. by eapply run_ok_trans.
  - destruct (Z.ltb_spec s1 0); [|lia]. intros [= <- <- <-]. right.
    split; [|done]. by eapply run_ok_failed.
Qed.

Lemma rec_iw_result fuel : ∀ exts z len rd st r st',
  (0 ≤ rd_smin rd)%Z →
  rec_iw dzero dadd dmul of_supp fuel exts z len rd st = Some (r, st') →
  (run_ok st st' ∧ is_max_supp r (freq_supps rd exts (seq 0 (rd_cnt rd)))) ∨
  (run_failed st st' ∧ (r < 0)%Z).
Proof.
  induction fuel as [|fuel IH]; intros exts z len rd st r st' Hsmin; [done|].
  cbn [rec_iw].
  assert (Hrec : rec_result (λ c z st, rec_iw dzero dadd dmul of_supp fuel c z (S len) rd st)).
  { intros c z1 st1 r1 st1' H. apply IH in H; [|done]. destruct H as [(H1 & H2)|H]; [|by right].
    left. split; [done|]. destruct H2 as [[_ ->]|[H2 _]]; [done|].
    unfold freq_supps in H2. apply list_elem_of_filter in H2 as [H2 _]. lia. }
  assert (Hmax : is_max_supp (foldl Z.max 0%Z (freq_supps rd exts (seq 0 (rd_cnt rd))))
                             (freq_supps rd exts (seq 0 (rd_cnt rd)))).
  { apply foldl_max_is_max. apply Forall_forall. intros s Hs.
    unfold freq_supps in Hs. apply list_elem_of_filter in Hs as [Hs _]. lia. }
  destruct (Z.of_nat (S len) <=? rd_zmax rd)%Z.
  - destruct (malloc st) as [ok st1] eqn:Em.
    apply malloc_run in Em as (_ & _ & _ & _ & _ & Em).
    destruct ok; cbn [negb].
    + destruct (ext_loop_iw _ _ _ _ _ _ _ _ _ _ _ _ _) as [[[s max] st2]|] eqn:E; [|done].
      intros [= <- <-].
      apply (ext_loop_iw_result _ _ _ _ _ _ Hrec) in E; [|done]. destruct E as [(E1 & E2 & ->)|(E1 & E2)].
      * left. destruct (Z.ltb_spec s 0); [lia|]. split; [by eapply run_ok_trans|done].
      * right. destruct (Z.ltb_spec s 0); [|lia]. split; [by eapply run_ok_failed|done].
    + intros [= <- <-]. right. done.
  - cbn [negb].
    destruct (ext_loop_iw _ _ _ _ _ _ _ _ _ _ _ _ _) as [[[s max] st2]|] eqn:E; [|done].
    intros [= <- <-].
    apply (ext_loop_iw_result _ _ _ _ _ _ Hrec) in E; [|done]. destruct E as [(E1 & E2 & ->)|(E1 & E2)].
    * left. destruct (Z.ltb_spec s 0); [lia|]. done.
    * right. destruct (Z.ltb_spec s 0); [|lia]. done.
Qed.
End ReturnValueIW.

(** * Lists, subsequences and the support *)

(** ** Lists *)

Lemma bind_assoc {A B C} (f : A → list B) (g : B → list C) (l : list A) :
  (l ≫= f) ≫= g = l ≫= (λ x, f x ≫= g).
Proof.
  induction l as [|x l IH]; [done|].
  by rewrite !bind_cons, bind_app, IH.
Qed.

Lemma fmap_bind_comm {A B C} (f : B → C) (g : A → list B) (l : list A) :
  f <$> (l ≫= g) = l ≫= (λ x, f <$> g x).
Proof.
  induction l as [|x l IH]; [done|].
  by rewrite !bind_cons, fmap_app, IH.
Qed.

Lemma bind_ext_in {A B} (f g : A → list B) (l : list A) :
  (∀ x, x ∈ l → f x = g x) → l ≫= f = l ≫= g.
Proof.
  induction l as [|x l IH]; intros H; [done|].
  rewrite !bind_cons, H, IH; [done| |by left].
  intros y Hy. apply H. by right.
Qed.

Lemma bind_nil_all {A B} (f : A → list B) (l : list A) :
  (∀ x, x ∈ l → f x = []) → l ≫= f = [].
Proof.
  induction l as [|x l IH]; intros H; [done|].
  rewrite bind_cons, H, IH; [done| |by left].
  intros y Hy. apply H. by right.
Qed.

Lemma length_bind_le1 {A B} (f : A → list B) (l : list A) :
  length l ≤ 1 → (∀ x, length (f x) ≤ 1) → length (l ≫= f) ≤ 1.
Proof.
  destruct l as [|x [|y l]]; cbn; intros Hl Hf; [lia| |lia].
  rewrite app_nil_r. apply Hf.
Qed.

Lemma elem_of_indexed {B} (l : list B) : ∀ q j a,
  (j, a) ∈ indexed q l ↔ q ≤ j ∧ l !! (j - q) = Some a.
Proof.
  induction l as [|b l IH]; intros q j a; cbn [indexed].
  - split; [intros H; by apply elem_of_nil in H|]. intros [_ H]. done.
  - rewrite elem_of_cons, IH. split.
    + intros [[= -> ->]|[Hq Hl]].
      * split; [lia|]. by rewrite Nat.sub_diag.
      * split; [lia|]. replace (j - q) with (S (j - S q)) by lia. done.
    + intros [Hq Hl]. destruct (decide (j = q)) as [->|Hne].
      * left. rewrite Nat.sub_diag in Hl. cbn in Hl. congruence.
      * right. split; [lia|]. replace (j - q) with (S (j - S q)) in Hl by lia. done.
Qed.

Lemma length_indexed {B} (l : list B) : ∀ q, length (indexed q l) = length l.
Proof. induction l as [|b l IH]; intros q; cbn; [done|]. by rewrite IH. Qed.

Lemma indexed_total `{Inhabited B} (l : list B) j a :
  (j, a) ∈ indexed 0 l → l !!! j = a ∧ j < length l.
Proof.
  rewrite elem_of_indexed, Nat.sub_0_r. intros [_ Hl].
  split; [by apply list_lookup_total_correct|by eapply lookup_lt_Some].
Qed.

(** ** Subsequences *)

Lemma is_subseq_nil t : is_subseq [] t = true.
Proof. by destruct t. Qed.

Lemma is_subseq_sublist p t : is_subseq p t = true ↔ p `sublist_of` t.
Proof.
  revert p. induction t as [|b t IH]; intros p; cbn [is_subseq].
  - destruct p; [split; [constructor|done]|]. split; [done|]. intros H.
    by apply sublist_nil_r in H.
  - destruct p as [|a p]; [split; [intros; apply sublist_nil_l|done]|].
    destruct (Nat.eqb_spec a b) as [->|Hne].
    + rewrite IH. split; [by constructor|]. intros H.
      apply sublist_cons_r in H as [H|(p' & [= <-] & H)]; [|done].
      etrans; [|exact H]. by constructor.
    + rewrite IH. split; [by constructor|]. intros H.
      apply sublist_cons_r in H as [H|(p' & [= -> <-] & H)]; done.
Qed.

Lemma nodupb_NoDup l : nodupb l = true ↔ NoDup l.
Proof.
  induction l as [|a l IH]; cbn [nodupb]; [split; [constructor|done]|].
  rewrite andb_true_iff, negb_true_iff, IH, NoDup_cons.
  assert (existsb (Nat.eqb a) l = false ↔ a ∉ l) as ->; [|done].
  rewrite <- not_true_iff_false, existsb_exists. split.
  - intros H Ha. apply H. exists a. split; [by apply list_elem_of_In|by apply Nat.eqb_eq].
  - intros H (x & Hx & E). apply Nat.eqb_eq in E as <-. by apply H, list_elem_of_In.
Qed.

Lemma is_subseq_app_r p r t : is_subseq (p ++ r) t = true → is_subseq p t = true.
Proof.
  rewrite !is_subseq_sublist. intros H. etrans; [|exact H]. by apply sublist_inserts_r.
Qed.

Lemma snd_indexed {B} (l : list B) : ∀ q, snd <$> indexed q l = l.
Proof. induction l as [|b l IH]; intros q; cbn; [done|]. by rewrite IH. Qed.

Lemma filter_unique {B} (f : B → nat) a (l : list B) :
  NoDup (f <$> l) → length (filter (λ x, f x = a) l) ≤ 1.
Proof.
  induction l as [|x l IH]; [cbn; lia|].
  rewrite fmap_cons, NoDup_cons, filter_cons. intros [Hx Hnd].
  destruct (decide (f x = a)) as [<-|]; [|by apply IH].
  destruct (filter (λ y, f y = f x) l) as [|y r] eqn:E; [cbn; lia|].
  exfalso. apply Hx. assert (y ∈ filter (λ y, f y = f x) l) as Hy by (rewrite E; left).
  apply list_elem_of_filter in Hy as [<- Hy]. by apply list_elem_of_fmap_2.
Qed.

Section SupportLemmas.
Context {A : Type} (key : A → nat).
Implicit Type l : list A.

Lemma find_from_elem l a q p :
  p ∈ find_from key l a q ↔ q ≤ p ∧ (key <$> l) !! p = Some a.
Proof.
  unfold find_from. rewrite list_elem_of_fmap. split.
  - intros ([p' x] & -> & H). apply list_elem_of_filter in H as [Hk H].
    apply elem_of_indexed in H as [Hq H]. cbn in *. split; [done|].
    rewrite lookup_drop in H. replace (q + (p' - q)) with p' in H by lia.
    by rewrite list_lookup_fmap, H, <- Hk.
  - intros [Hq H]. rewrite list_lookup_fmap in H.
    destruct (l !! p) as [x|] eqn:E; [|done]. injection H as <-.
    exists (p, x). split; [done|]. apply list_elem_of_filter. split; [done|].
    apply elem_of_indexed. split; [done|]. rewrite lookup_drop.
    by replace (q + (p - q)) with p by lia.
Qed.

Lemma find_from_length l a q :
  NoDup (key <$> l) → length (find_from key l a q) ≤ 1.
Proof.
  intros Hnd. unfold find_from. rewrite length_fmap.
  apply (filter_unique (λ pa : nat * A, key pa.2)).
  assert (∀ (k : list A) q', (λ pa : nat * A, key pa.2) <$> indexed q' k = key <$> k) as ->.
  { induction k as [|b k IH]; intros q'; cbn; [done|]. by rewrite IH. }
  eapply sublist_NoDup; [done|]. apply fmap_sublist, sublist_drop.
Qed.

Lemma resume_snoc l P i :
  resume key l (P ++ [i]) = resume key l P ≫= (λ q, S <$> find_from key l i q).
Proof. unfold resume. by rewrite fold_left_app. Qed.

Lemma ends_at_sublist l P q : ends_at key l P q → P `sublist_of` take q (key <$> l).
Proof.
  intros [[-> ->]|(P' & i & p & -> & -> & Hi & HP)]; [apply sublist_nil_l|].
  rewrite (take_S_r _ _ _ Hi). by apply sublist_app.
Qed.

Lemma sublist_ends_at l P p :
  P `sublist_of` take p (key <$> l) → ∃ q, q ≤ p ∧ ends_at key l P q.
Proof.
  destruct P as [|i P _] using rev_ind.
  { intros _. exists 0. split; [lia|by left]. }
  intros H. apply sublist_app_l in H as (k1 & k2 & Hk & H1 & H2).
  apply singleton_sublist_l, list_elem_of_split in H2 as (k2a & k2b & ->).
  set (p' := length (k1 ++ k2a)).
  assert (Hl : take p (key <$> l) !! p' = Some i).
  { rewrite Hk, app_assoc. by apply list_lookup_middle. }
  apply lookup_take_Some in Hl as [Hl Hp].
  exists (S p'). split; [lia|]. right. exists P, i, p'. repeat split; [done|].
  assert (take p' (key <$> l) = k1 ++ k2a) as ->.
  { replace (take p' (key <$> l)) with (take p' (take p (key <$> l)))
      by (rewrite take_take; f_equal; lia).
    rewrite Hk, app_assoc. by apply take_app_length. }
  by apply sublist_inserts_r.
Qed.

Lemma resume_elem l P : ∀ q, q ∈ resume key l P ↔ ends_at key l P q.
Proof.
  induction P as [|i P IH] using rev_ind; intros q.
  - unfold resume. cbn [fold_left]. rewrite list_elem_of_singleton. split.
    + intros ->. by left.
    + intros [[_ ->]|(P' & i & p & H & _)]; [done|]. by destruct P'.
  - rewrite resume_snoc, list_elem_of_bind. split.
    + intros (q0 & Hq & Hq0). apply list_elem_of_fmap in Hq as (p & -> & Hp).
      apply find_from_elem in Hp as [Hle Hp]. apply IH, ends_at_sublist in Hq0.
      right. exists P, i, p. repeat split; [done|].
      etrans; [exact Hq0|]. replace (take q0 (key <$> l)) with (take q0 (take p (key <$> l)))
        by (rewrite take_take; f_equal; lia).
      apply sublist_take.
    + intros [[H _]|(P' & i' & p & H & -> & Hi & HP)]; [by destruct P|].
      apply app_inj_tail in H as [<- <-].
      apply sublist_ends_at in HP as (q0 & Hle & Hq0).
      exists q0. split; [|by apply IH].
      apply list_elem_of_fmap_2, find_from_elem. done.
Qed.

Lemma resume_length_le l P : NoDup (key <$> l) → length (resume key l P) ≤ 1.
Proof.
  intros Hnd. induction P as [|i P IH] using rev_ind; [done|].
  rewrite resume_snoc. apply length_bind_le1; [done|].
  intros q. rewrite length_fmap. by apply find_from_length.
Qed.

Lemma resume_length l P :
  NoDup (key <$> l) →
  length (resume key l P) = if is_subseq P (key <$> l) then 1 else 0.
Proof.
  intros Hnd. pose proof (resume_length_le l P Hnd) as Hle.
  destruct (is_subseq P (key <$> l)) eqn:E.
  - apply is_subseq_sublist in E.
    rewrite <- (take_ge (key <$> l) (length (key <$> l))) in E by done.
    apply sublist_ends_at in E as (q & _ & Hq). apply resume_elem in Hq.
    destruct (resume key l P); [by apply elem_of_nil in Hq|cbn in *; lia].
  - destruct (resume key l P) as [|q r] eqn:Er; [done|]. exfalso.
    assert (q ∈ resume key l P) as Hq by (rewrite Er; left).
    apply resume_elem, ends_at_sublist in Hq.
    apply not_true_iff_false in E. apply E, is_subseq_sublist.
    etrans; [exact Hq|apply sublist_take].
Qed.

(** *** The support of a pattern extension *)

Lemma bag_ok_tract (tabag : TABAG A) t :
  bag_ok key tabag = true → t ∈ tbg_tracts tabag →
  (0 ≤ ta_wgt t)%Z ∧ NoDup (key <$> ta_items t) ∧
  ∀ a, a ∈ ta_items t → key a < tbg_itemcnt tabag.
Proof.
  unfold bag_ok. rewrite forallb_forall. intros H Ht.
  apply list_elem_of_In, H in Ht. unfold tract_ok in Ht.
  apply andb_true_iff in Ht as [Ht H3]. apply andb_true_iff in Ht as [H1 H2].
  split; [lia|]. split; [by apply nodupb_NoDup|].
  intros a Ha. rewrite forallb_forall in H3. apply list_elem_of_In, H3 in Ha.
  by apply Nat.ltb_lt.
Qed.

Lemma ext_occs_length_one l P i :
  length (resume key l P ≫= find_from key l i) = length (resume key l (P ++ [i])).
Proof. by rewrite resume_snoc, <- fmap_bind_comm, length_fmap. Qed.

Lemma sum_wgt_app (occs : list (PATOCC A)) (l1 l2 : list OCCEXT) :
  sum_wgt occs (l1 ++ l2) = (sum_wgt occs l1 + sum_wgt occs l2)%Z.
Proof.
  unfold sum_wgt. induction l1 as [|x l1 IH]; cbn; [done|]. rewrite IH. lia.
Qed.

Lemma sum_wgt_const (occs : list (PATOCC A)) o (ps : list nat) :
  sum_wgt occs ((λ p, mkOCCEXT p o) <$> ps) =
  (po_wgt (occs !!! o) * Z.of_nat (length ps))%Z.
Proof.
  unfold sum_wgt. induction ps as [|p ps IH]; cbn [fmap list_fmap foldr length ox_occ]; [lia|].
  rewrite IH. lia.
Qed.

Lemma sum_wgt_indexed occs P i (occs' : list (PATOCC A)) : ∀ q,
  (∀ j o, (j, o) ∈ indexed q occs' → occs !!! j = o) →
  sum_wgt occs (indexed q occs' ≫=
    (λ jo, (λ p, mkOCCEXT p jo.1) <$>
             (resume key (po_items jo.2) P ≫= find_from key (po_items jo.2) i))) =
  foldr (λ o s, (po_wgt o * Z.of_nat (length (resume key (po_items o) (P ++ [i]))) + s)%Z)
        0%Z occs'.
Proof.
  induction occs' as [|o occs' IH]; intros q Hjo; [done|].
  cbn [indexed foldr]. rewrite bind_cons. cbn [fst snd].
  rewrite sum_wgt_app, sum_wgt_const, IH by (intros j o' H; apply Hjo; by right).
  rewrite ext_occs_length_one, (Hjo q o) by (by left). done.
Qed.

Lemma ext_occs_support (tabag : TABAG A) P i :
  bag_ok key tabag = true →
  sum_wgt (make_occs tabag) (ext_occs key (make_occs tabag) P i) =
  support key tabag (P ++ [i]).
Proof.
  intros Hok. unfold ext_occs. rewrite sum_wgt_indexed.
  2:{ intros j o H. by apply indexed_total in H as [? _]. }
  unfold make_occs, support.
  assert (Hall : ∀ t, t ∈ tbg_tracts tabag → NoDup (key <$> ta_items t)).
  { intros t Ht. by apply (bag_ok_tract tabag t Hok) in Ht as (_ & ? & _). }
  induction (tbg_tracts tabag) as [|t ts IH]; [done|].
  rewrite fmap_cons. cbn [foldr po_wgt po_items]. rewrite IH by (intros; apply Hall; by right).
  unfold contains. rewrite resume_length by (apply Hall; by left).
  destruct (is_subseq _ _); lia.
Qed.

(** *** Support *)

Lemma support_nil (tabag : TABAG A) : support key tabag [] = tbg_wgt tabag.
Proof.
  unfold support, tbg_wgt, contains. induction (tbg_tracts tabag) as [|t ts IH]; [done|].
  cbn [foldr]. by rewrite is_subseq_nil, IH.
Qed.

Lemma support_nonneg (tabag : TABAG A) p :
  bag_ok key tabag = true → (0 ≤ support key tabag p)%Z.
Proof.
  intros Hok. unfold support.
  assert (Hall : ∀ t, t ∈ tbg_tracts tabag → (0 ≤ ta_wgt t)%Z).
  { intros t Ht. by apply (bag_ok_tract tabag t Hok) in Ht as (? & _). }
  induction (tbg_tracts tabag) as [|t ts IH]; [done|]. cbn [foldr].
  specialize (IH (λ t' H, Hall t' (list_elem_of_further _ _ _ H))).
  specialize (Hall t (list_elem_of_here _ _)). destruct (contains _ _ _); lia.
Qed.

(** A longer sequence has at most the support of its prefix. *)
Lemma support_app_le (tabag : TABAG A) p r :
  bag_ok key tabag = true → (support key tabag (p ++ r) ≤ support key tabag p)%Z.
Proof.
  intros Hok. unfold support.
  assert (Hall : ∀ t, t ∈ tbg_tracts tabag → (0 ≤ ta_wgt t)%Z).
  { intros t Ht. by apply (bag_ok_tract tabag t Hok) in Ht as (? & _). }
  induction (tbg_tracts tabag) as [|t ts IH]; [done|]. cbn [foldr].
  specialize (IH (λ t' H, Hall t' (list_elem_of_further _ _ _ H))).
  specialize (Hall t (list_elem_of_here _ _)).
  unfold contains in *. destruct (is_subseq (p ++ r) _) eqn:E.
  - apply is_subseq_app_r in E. rewrite E. lia.
  - destruct (is_subseq p _); lia.
Qed.

(** A sequence with positive support occurs in a transaction. *)
Lemma support_pos (tabag : TABAG A) p :
  (0 < support key tabag p)%Z →
  ∃ t, t ∈ tbg_tracts tabag ∧ p `sublist_of` (key <$> ta_items t).
Proof.
  unfold support. induction (tbg_tracts tabag) as [|t ts IH]; cbn [foldr]; [lia|].
  destruct (contains key p t) eqn:E.
  - intros _. exists t. split; [by left|]. by apply is_subseq_sublist.
  - intros H. destruct (IH H) as (t' & Ht' & Hp). exists t'. split; [by right|done].
Qed.

(** The items of a sequence with positive support are item codes, and
    no item occurs twice in it. *)
Lemma support_pos_items (tabag : TABAG A) p :
  bag_ok key tabag = true → (0 < support key tabag p)%Z →
  NoDup p ∧ ∀ i, i ∈ p → i < tbg_itemcnt tabag.
Proof.
  intros Hok Hp. apply support_pos in Hp as (t & Ht & Hp).
  destruct (bag_ok_tract tabag t Hok Ht) as (_ & Hnd & Hr).
  split; [by eapply sublist_NoDup|].
  intros i Hi. eapply elem_of_sublist in Hi; [|done].
  apply list_elem_of_fmap in Hi as (a & -> & Ha). by apply Hr.
Qed.
End SupportLemmas.

(** * The extensions of a pattern *)

Section FrameLemmas.
Context {A : Type} (key : A → nat).
Implicit Type occs : list (PATOCC A).

Lemma add_items_spec o w (l : list (nat * A)) : ∀ c z,
  (add_items key o w (c, z) l).2 = z + length l ∧
  length (add_items key o w (c, z) l).1 = length c ∧
  ∀ t, (add_items key o w (c, z) l).1 !! t =
       (λ e, grow e w ((λ p, mkOCCEXT p o) <$> (fst <$> filter (λ pa, key pa.2 = t) l)))
         <$> c !! t.
Proof.
  unfold add_items.
  induction l as [|[p a] l IH]; intros c z; cbn [fold_left].
  - split; [cbn; lia|]. split; [done|]. intros t. cbn.
    destruct (c !! t) as [[s xs]|]; [|done]. cbn. unfold grow. cbn.
    f_equal. f_equal; [lia|by rewrite app_nil_r].
  - destruct (IH (add_occext c (key a) p o w) (S z)) as (IH1 & IH2 & IH3).
    split; [cbn [length]; lia|]. split; [by rewrite IH2; unfold add_occext; rewrite length_alter|].
    intros t. rewrite IH3. unfold add_occext. rewrite filter_cons. cbn [snd].
    destruct (decide (key a = t)) as [<-|Hne].
    + rewrite list_lookup_alter_eq. destruct (c !! key a) as [[s xs]|]; [|done].
      cbn. unfold grow. cbn. f_equal. f_equal; [lia|by rewrite <- app_assoc].
    + by rewrite list_lookup_alter_ne.
Qed.

Lemma project_fold occs (oxs : list OCCEXT) : ∀ c z,
  let r := fold_left
    (λ acc x, add_items key (ox_occ x) (po_wgt (occs !!! ox_occ x)) acc
                (indexed (S (ox_item x)) (drop (S (ox_item x)) (po_items (occs !!! ox_occ x)))))
    oxs (c, z) in
  length r.1 = length c ∧
  (r.2 = z → ∀ t, proj_oxs key occs oxs t = []) ∧ z ≤ r.2 ∧
  ∀ t, r.1 !! t =
       (λ e, mkPATEXT (pe_supp e + sum_wgt occs (proj_oxs key occs oxs t))%Z
                      (pe_oxs e ++ proj_oxs key occs oxs t)) <$> c !! t.
Proof.
  induction oxs as [|x oxs IH]; intros c z; cbn [fold_left].
  - cbn. split; [done|]. split; [done|]. split; [lia|]. intros t.
    destruct (c !! t) as [[s xs]|]; [|done]. cbn. f_equal. f_equal; [lia|by rewrite app_nil_r].
  - set (l := indexed _ _).
    destruct (add_items_spec (ox_occ x) (po_wgt (occs !!! ox_occ x)) l c z) as (H1 & H2 & H3).
    destruct (add_items key _ _ (c, z) l) as [c1 z1]. cbn [fst snd] in H1, H2, H3.
    specialize (IH c1 z1). cbv zeta in IH. destruct IH as (IH1 & IH2 & IH3 & IH4).
    cbv zeta. split; [by rewrite IH1|].
    assert (Hx : ∀ t, proj_oxs key occs (x :: oxs) t =
      ((λ p, mkOCCEXT p (ox_occ x)) <$> (fst <$> filter (λ pa, key pa.2 = t) l))
      ++ proj_oxs key occs oxs t).
    { intros t. unfold proj_oxs. by rewrite bind_cons. }
    split; [|split; [lia|]].
    + intros Hz t. rewrite Hx. assert (length l = 0) as Hl by lia.
      destruct l; [|done]. rewrite IH2; [done|lia].
    + intros t. rewrite IH4, H3, Hx. destruct (c !! t) as [[s xs]|]; [|done].
      cbn. f_equal. rewrite sum_wgt_app, sum_wgt_const, <- app_assoc, !length_fmap. f_equal. lia.
Qed.

Lemma project_spec occs k (e : PATEXT) :
  (project key occs k e).1 = (λ t, ext_of occs (proj_oxs key occs (pe_oxs e) t)) <$> seq 0 k ∧
  ((project key occs k e).2 = 0 → ∀ t, proj_oxs key occs (pe_oxs e) t = []).
Proof.
  unfold project.
  destruct (project_fold occs (pe_oxs e) (clear_exts k) 0) as (H1 & H2 & _ & H4).
  cbv zeta in *. split; [|done].
  apply list_eq. intros t. rewrite H4, list_lookup_fmap. unfold clear_exts.
  destruct (decide (t < k)).
  - rewrite lookup_replicate_2, lookup_seq_lt by done. cbn. unfold ext_of. f_equal.
  - rewrite lookup_seq_ge by lia. rewrite lookup_ge_None_2; [done|].
    rewrite length_replicate. lia.
Qed.

Lemma find_from_0 (l : list A) (a : nat) :
  find_from key l a 0 = fst <$> filter (λ pa, key pa.2 = a) (indexed 0 l).
Proof. done. Qed.

Lemma root_fold occs (jos : list (nat * PATOCC A)) : ∀ c z,
  (∀ j o, (j, o) ∈ jos → occs !!! j = o) →
  let r := fold_left
    (λ acc '(j, o), add_items key j (po_wgt o) acc (indexed 0 (po_items o))) jos (c, z) in
  let xs := λ t, jos ≫= (λ jo, (λ p, mkOCCEXT p jo.1) <$> find_from key (po_items jo.2) t 0) in
  ∀ t, r.1 !! t =
       (λ e, mkPATEXT (pe_supp e + sum_wgt occs (xs t))%Z (pe_oxs e ++ xs t)) <$> c !! t.
Proof.
  induction jos as [|[j o] jos IH]; intros c z Hjo; cbn [fold_left]; cbv zeta.
  - intros t. cbn. destruct (c !! t) as [[s xs]|]; [|done].
    cbn. f_equal. f_equal; [lia|by rewrite app_nil_r].
  - destruct (add_items_spec j (po_wgt o) (indexed 0 (po_items o)) c z) as (H1 & H2 & H3).
    destruct (add_items key _ _ (c, z) _) as [c1 z1]. cbn [fst snd] in H1, H2, H3.
    intros t. cbv zeta in IH. rewrite IH, H3, bind_cons.
    2:{ intros j' o' H. apply Hjo. by right. }
    destruct (c !! t) as [[s xs]|]; [|done].
    cbn. f_equal. rewrite sum_wgt_app, sum_wgt_const, <- app_assoc.
    rewrite (Hjo j o) by (by left). rewrite find_from_0, !length_fmap. f_equal. lia.
Qed.

Lemma resume_nil (l : list A) : resume key l [] = [0].
Proof. done. Qed.

Lemma root_exts_spec occs k : root_exts key k occs = frame key k occs [].
Proof.
  unfold root_exts, frame.
  pose proof (root_fold occs (indexed 0 occs) (clear_exts k) 0) as H. cbv zeta in H.
  apply list_eq. intros t. rewrite H, list_lookup_fmap; unfold clear_exts.
  2:{ intros j o Hjo. by apply indexed_total in Hjo as [? _]. }
  destruct (decide (t < k)).
  - rewrite lookup_replicate_2, lookup_seq_lt by done. cbn. unfold ext_of, ext_occs.
    f_equal. assert (∀ jo : nat * PATOCC A,
      (λ p, mkOCCEXT p jo.1) <$> find_from key (po_items jo.2) t 0 =
      (λ p, mkOCCEXT p jo.1) <$> (resume key (po_items jo.2) [] ≫= find_from key (po_items jo.2) t)) as Hf.
    { intros jo. by rewrite resume_nil, bind_singleton. }
    rewrite (bind_ext_in _ _ _ (λ x _, Hf x)). f_equal.
  - rewrite lookup_seq_ge by lia. rewrite lookup_ge_None_2; [done|].
    rewrite length_replicate. lia.
Qed.

Lemma frame_step occs P i0 t :
  proj_oxs key occs (ext_occs key occs P i0) t = ext_occs key occs (P ++ [i0]) t.
Proof.
  unfold proj_oxs at 1, ext_occs. rewrite bind_assoc. apply bind_ext_in.
  intros [j o] Hjo. apply indexed_total in Hjo as [Hjo _]. cbn [fst snd].
  rewrite list_fmap_bind. unfold compose. cbn [ox_occ ox_item]. rewrite Hjo.
  rewrite resume_snoc, !bind_assoc, fmap_bind_comm. apply bind_ext_in. intros q _.
  rewrite fmap_bind_comm, list_fmap_bind. done.
Qed.

Lemma frame_lookup occs k P i :
  i < k → frame key k occs P !!! i = ext_of occs (ext_occs key occs P i).
Proof.
  intros Hi. apply list_lookup_total_correct. unfold frame.
  by rewrite list_lookup_fmap, lookup_seq_lt.
Qed.

Lemma frame_lookup_ge occs k P i :
  k ≤ i → frame key k occs P !!! i = mkPATEXT 0 [].
Proof.
  intros Hi. rewrite list_lookup_total_alt. unfold frame.
  rewrite list_lookup_fmap, lookup_seq_ge by done. done.
Qed.

Lemma project_frame occs k P i :
  i < k →
  (project key occs k (frame key k occs P !!! i)).1 = frame key k occs (P ++ [i]) ∧
  ((project key occs k (frame key k occs P !!! i)).2 = 0 →
   ∀ t, ext_occs key occs (P ++ [i]) t = []).
Proof.
  intros Hi. rewrite frame_lookup by done.
  destruct (project_spec occs k (ext_of occs (ext_occs key occs P i))) as [H1 H2].
  cbn [ext_of pe_oxs] in *. split.
  - rewrite H1. unfold frame. apply list_fmap_ext. intros _ t _. by rewrite frame_step.
  - intros Hz t. rewrite <- frame_step. by apply H2.
Qed.
End FrameLemmas.

(** * The search for all frequent sequences *)

Lemma all_true_malloc (h : list bool) :
  all_true h → (malloc_list h).1 = true ∧ all_true (malloc_list h).2.
Proof.
  unfold all_true, malloc_list. intros H. destruct h as [|[] h]; cbn.
  - done.
  - split; [done|]. by apply Forall_cons in H as [_ H].
  - apply Forall_cons in H as [H _]. done.
Qed.

Section ReportLemmas.
Context {D : Type}.
Implicit Type rep : ISREPORT D.

Lemma reported_refl rep : reported rep rep [].
Proof. unfold reported. by rewrite app_nil_r. Qed.

Lemma reported_trans rep1 rep2 rep3 n1 n2 :
  reported rep1 rep2 n1 → reported rep2 rep3 n2 → reported rep1 rep3 (n1 ++ n2).
Proof.
  unfold reported. intros (-> & -> & -> & -> & ->) (-> & -> & -> & -> & ->).
  by rewrite app_assoc.
Qed.

Lemma isr_emit_ok rep p :
  all_true (isr_io rep) →
  ∃ rep', isr_emit rep p = (0%Z, rep') ∧ all_true (isr_io rep') ∧
          reported rep rep' (if size_ok rep (length (pat_items p)) then [p] else []).
Proof.
  intros Hio. unfold isr_emit, size_ok. destruct (_ || _); cbn [negb].
  - exists rep. split; [done|]. split; [done|]. apply reported_refl.
  - destruct rep as [zmin zmax w stk out io]. cbn in *.
    destruct io as [|[] io]; cbn.
    + eexists. split; [done|]. split; [done|]. done.
    + eexists. split; [done|]. cbn. split; [by apply Forall_cons in Hio as [_ ?]|done].
    + by apply Forall_cons in Hio as [? _].
Qed.
End ReportLemmas.

Section AllMode.
Context {D : Type} (tabag : TABAG nat) (rd : RECDATA) (zmin : Z).
Hypothesis Hok : bag_ok ukey tabag = true.
Hypothesis Hsmin : (1 ≤ rd_smin rd)%Z.
Hypothesis Hmode : closed_mode rd = false.
Hypothesis Hcnt : rd_cnt rd = tbg_itemcnt tabag.
Implicit Type st : state nat D.
Implicit Type P : list nat.

Local Abbreviation k := (tbg_itemcnt tabag).
Local Abbreviation occs := (make_occs tabag).
Local Abbreviation fr P := (frame ukey k occs P).
Local Abbreviation supp P := (support ukey tabag P).
Local Abbreviation want := (frequent (D:=D) tabag (rd_smin rd) zmin (rd_zmax rd)).
Local Abbreviation sstate P st := (search_state tabag zmin (rd_zmax rd) P st).

Lemma frame_supp P i : i < k → pe_supp (fr P !!! i) = supp (P ++ [i]).
Proof.
  intros Hi. rewrite frame_lookup by done. cbn. by apply ext_occs_support.
Qed.

Lemma wanted_prefix p P R :
  want p → pat_items p = P ++ R → (rd_smin rd ≤ supp P)%Z.
Proof.
  intros (_ & Hs & Hm & _) Hi. rewrite Hi in Hs. rewrite Hs in Hm.
  pose proof (support_app_le ukey tabag P R Hok). lia.
Qed.

Lemma search_state_step P st st' new :
  sstate P st → search_step st st' new → sstate P st'.
Proof.
  intros (H1 & H2 & H3 & H4 & H5 & H6) (G1 & G2 & G3 & G4 & G5 & G6 & G7 & G8).
  repeat split; try done; congruence.
Qed.

Lemma search_step_refl P st : sstate P st → search_step st st [].
Proof.
  intros (H1 & H2 & H3 & H4 & H5 & H6). repeat split; try done. by rewrite app_nil_r.
Qed.

Lemma search_step_trans st1 st2 st3 n1 n2 :
  search_step st1 st2 n1 → search_step st2 st3 n2 → search_step st1 st3 (n1 ++ n2).
Proof.
  intros (G1 & G2 & G3 & G4) (F1 & F2 & F3 & F4).
  split; [congruence|]. split; [done|]. split; [done|]. by eapply reported_trans.
Qed.

Lemma size_ok_iff (rep : ISREPORT D) n :
  isr_zmin rep = zmin → isr_zmax rep = rd_zmax rd →
  size_ok rep n = true ↔ (zmin ≤ Z.of_nat n ≤ rd_zmax rd)%Z.
Proof.
  intros Hz1 Hz2. unfold size_ok. rewrite Hz1, Hz2.
  destruct (Z.ltb_spec (Z.of_nat n) zmin);
    destruct (Z.ltb_spec (rd_zmax rd) (Z.of_nat n)); cbn; split; try done; lia.
Qed.

Lemma ext_loop_all rec P cond :
  (cond = true → rec_all tabag rd zmin rec P) →
  cond = (Z.of_nat (S (length P)) <=? rd_zmax rd)%Z →
  ∀ todo s max st,
    NoDup todo → (∀ i, i ∈ todo → i < k) → (0 ≤ s)%Z → sstate P st →
    ∃ s' max' st' new,
      ext_loop rec rd (fr P) cond (S (length P)) todo s max st = Some (s', max', st') ∧
      (0 ≤ s')%Z ∧ (max ≤ max')%Z ∧ search_step st st' new ∧ NoDup new ∧
      ∀ p, p ∈ new ↔ want p ∧ ∃ i R, i ∈ todo ∧ pat_items p = P ++ i :: R.
Proof.
  intros Hrec Hcond. induction todo as [|i todo IH]; intros s max st Hnd Hlt Hs Hst.
  { exists s, max, st, []. split; [done|]. split; [done|]. split; [lia|].
    split; [by eapply search_step_refl|]. split; [constructor|].
    intros p. split; [intros H; by apply elem_of_nil in H|].
    intros (_ & i & R & Hi & _). by apply elem_of_nil in Hi. }
  apply NoDup_cons in Hnd as [Hni Hnd].
  assert (Hi : i < k) by (apply Hlt; left).
  assert (Hlt' : ∀ i', i' ∈ todo → i' < k) by (intros; apply Hlt; by right).
  cbn [ext_loop]. rewrite frame_supp by done.
  destruct (Z.ltb_spec (supp (P ++ [i])) (rd_smin rd)) as [Hlow|Hhigh].
  { destruct (IH s max st Hnd Hlt' Hs Hst) as (s' & max' & st' & new & E & Hs' & Hm & Hstep & Hnew & Hmem).
    exists s', max', st', new. repeat (split; [done|]).
    intros p. rewrite Hmem. split.
    - intros (Hw & i' & R & Hi' & Hp). split; [done|]. exists i', R. split; [by right|done].
    - intros (Hw & i' & R & Hi' & Hp). split; [done|].
      apply elem_of_cons in Hi' as [->|Hi']; [|by exists i', R].
      exfalso. pose proof (wanted_prefix p (P ++ [i]) R Hw) as Hx.
      rewrite <- app_assoc in Hx. specialize (Hx Hp). lia. }
  unfold closed_test. rewrite Hmode. cbn [Z.eqb negb orb].
  set (si := supp (P ++ [i])) in *.
  set (max1 := if (max <? si)%Z then si else max).
  assert (Hmax1 : (max ≤ max1)%Z) by (unfold max1; destruct (Z.ltb_spec max si); lia).
  set (st2 := set_report st (isr_add (st_report st) i si)).
  destruct Hst as (H1 & H2 & H3 & H4 & H5 & H6).
  assert (Hst2 : sstate (P ++ [i]) st2).
  { repeat split; try done. cbn. rewrite H4. by rewrite rev_unit. }
  set (pi := Pat (D:=D) (P ++ [i]) [] si).
  assert (Hrep : ∀ s1 st3 new_c, (0 ≤ s1)%Z → search_step st2 st3 new_c → NoDup new_c →
    (∀ p, p ∈ new_c ↔ want p ∧ ∃ R, R ≠ [] ∧ pat_items p = (P ++ [i]) ++ R) →
    ∃ s' max' st' new,
      (let '(r0, rep) := isr_report (st_report st3) in
       if (r0 <? 0)%Z then Some ((-1)%Z, max1, set_report st3 rep)
       else ext_loop rec rd (fr P) cond (S (length P)) todo s1 max1
              (set_report st3 (isr_remove rep 1))) = Some (s', max', st') ∧
      (0 ≤ s')%Z ∧ (max ≤ max')%Z ∧ search_step st st' new ∧ NoDup new ∧
      ∀ p, p ∈ new ↔ want p ∧ ∃ i' R, i' ∈ i :: todo ∧ pat_items p = P ++ i' :: R).
  { intros s1 st3 new_c Hs1 (G1 & G2 & G3 & G4 & G5 & G6 & G7 & G8) Hndc Hc.
    cbn in G4, G5, G6, G7, G8.
    unfold isr_report. rewrite G7. cbn [fmap list_fmap fst rev].
    change (list_fmap _ _ fst (isr_stack (st_report st))) with (fst <$> isr_stack (st_report st)).
    rewrite H4, rev_involutive. fold pi.
    destruct (isr_emit_ok (st_report st3) pi G3) as (rep4 & -> & Hio4 & F1 & F2 & F3 & F4 & F5).
    cbn [Z.ltb Z.compare]. cbn [pat_items pi] in F5.
    set (ei := if size_ok (st_report st3) (length (P ++ [i])) then [pi] else []) in *.
    set (st5 := set_report st3 (isr_remove rep4 1)).
    assert (Hst5 : sstate P st5).
    { repeat split; cbn; try congruence.
      - rewrite G1. exact H1.
      - rewrite F4, G7. cbn. by rewrite drop_0. }
    destruct (IH s1 max1 st5 Hnd Hlt' Hs1 Hst5)
      as (s' & max' & st' & new & E & Hs' & Hm & Hstep & Hnew & Hmem).
    exists s', max', st', ((new_c ++ ei) ++ new).
    split; [done|]. split; [done|]. split; [lia|].
    assert (Hsz : size_ok (st_report st3) (length (P ++ [i])) = true ↔
                  (zmin ≤ Z.of_nat (length (P ++ [i])) ≤ rd_zmax rd)%Z).
    { apply size_ok_iff; congruence. }
    assert (Hei : ∀ p, p ∈ ei ↔ p = pi ∧ (zmin ≤ Z.of_nat (length (P ++ [i])) ≤ rd_zmax rd)%Z).
    { intros p. unfold ei. rewrite <- Hsz. destruct (size_ok _ _).
      - rewrite list_elem_of_singleton. tauto.
      - split; [intros H; by apply elem_of_nil in H|]. intros [_ ?]. done. }
    assert (Hfirst : ∀ p, p ∈ new_c ++ ei → want p ∧ ∃ R, pat_items p = P ++ i :: R).
    { intros p [Hp|Hp]%elem_of_app.
      - apply Hc in Hp as (Hw & R & _ & Hp). split; [done|]. exists R.
        by rewrite Hp, <- app_assoc.
      - apply Hei in Hp as [-> Hp]. split; [|by exists []].
        repeat split; try done; cbn; lia. }
    split; [|split].
    - eapply search_step_trans; [|exact Hstep].
      repeat split; cbn; try congruence.
      + exact G1.
      + rewrite F4, G7. cbn. by rewrite drop_0.
      + rewrite F5, G8. by rewrite app_assoc.
    - apply NoDup_app. split; [|split; [|done]].
      + apply NoDup_app. split; [done|]. split.
        * intros p Hp Hp'. apply Hc in Hp as (_ & R & HR & Hp).
          apply Hei in Hp' as [-> _]. cbn in Hp.
          rewrite <- (app_nil_r (P ++ [i])) in Hp at 1.
          apply app_inv_head in Hp. by subst.
        * unfold ei. destruct (size_ok _ _); [apply NoDup_singleton|constructor].
      + intros p Hp Hp'. apply Hfirst in Hp as (_ & R & Hp).
        apply Hmem in Hp' as (_ & i' & R' & Hi' & Hp').
        rewrite Hp in Hp'. apply app_inv_head in Hp'. injection Hp' as -> _. done.
    - intros p. rewrite elem_of_app. split.
      + intros [Hp|Hp].
        * apply Hfirst in Hp as (Hw & R & Hp). split; [done|]. exists i, R. split; [by left|done].
        * apply Hmem in Hp as (Hw & i' & R & Hi' & Hp). split; [done|].
          exists i', R. split; [by right|done].
      + intros (Hw & i' & R & Hi' & Hp).
        apply elem_of_cons in Hi' as [->|Hi']; [|right; apply Hmem; split; [done|by exists i', R]].
        left. apply elem_of_app. destruct R as [|t R].
        * right. apply Hei. destruct Hw as (Hw1 & Hw2 & Hw3 & Hw4).
          rewrite Hp in Hw4. split; [|done].
          destruct p as [it w sp]. cbn in *. subst. done.
        * left. apply Hc. split; [done|]. exists (t :: R). split; [done|].
          by rewrite Hp, <- app_assoc. }
  destruct cond.
  2:{ (* no conditional extensions: the pattern has the maximal length *)
    apply (Hrep 0%Z st2 []); [lia|by eapply search_step_refl|constructor|].
    intros p. split; [intros H; by apply elem_of_nil in H|].
    intros ((_ & _ & _ & Hz) & R & HR & Hp). exfalso.
    symmetry in Hcond. apply Z.leb_gt in Hcond.
    rewrite Hp, !length_app in Hz. cbn in Hz. lia. }
  destruct (project_frame ukey occs k P i Hi) as [Hpf Hz].
  cbn [st_occs st2 set_report]. rewrite H1, Hcnt.
  destruct (project ukey occs k (fr P !!! i)) as [c z]. cbn [fst snd] in Hpf, Hz. subst c.
  destruct (Nat.ltb_spec 0 z) as [Hzpos|Hz0].
  - destruct (Hrec eq_refl i z st2 Hi Hst2) as (r & st3 & new_c & -> & Hr & Hstep & Hndc & Hc).
    destruct (Z.ltb_spec r 0); [lia|]. by apply (Hrep r st3 new_c).
  - apply (Hrep s st2 []); [done|by eapply search_step_refl|constructor|].
    intros p. split; [intros H; by apply elem_of_nil in H|].
    intros (Hw & R & HR & Hp). exfalso. destruct R as [|t R]; [done|].
    pose proof (wanted_prefix p ((P ++ [i]) ++ [t]) R Hw) as Hx.
    rewrite <- !app_assoc in Hx. rewrite <- !app_assoc in Hp. specialize (Hx Hp).
    rewrite !app_assoc in Hx.
    rewrite <- (ext_occs_support ukey tabag (P ++ [i]) t Hok) in Hx.
    rewrite Hz in Hx by lia. cbn in Hx. lia.
Qed.

Lemma recurse_all fuel : ∀ P z st,
  sstate P st → Z.to_nat (rd_zmax rd - Z.of_nat (length P)) < fuel →
  ∃ r st' new, recurse fuel (fr P) z (length P) rd st = Some (r, st') ∧ (0 ≤ r)%Z ∧
    search_step st st' new ∧ NoDup new ∧
    ∀ p, p ∈ new ↔ want p ∧ ∃ R, R ≠ [] ∧ pat_items p = P ++ R.
Proof.
  induction fuel as [|fuel IH]; intros P z st Hst Hf; [lia|].
  cbn [recurse].
  assert (Hrec : (Z.of_nat (S (length P)) ≤ rd_zmax rd)%Z →
                 rec_all tabag rd zmin (λ c z st, recurse fuel c z (S (length P)) rd st) P).
  { intros Hle i z1 st1 Hi Hst1. specialize (IH (P ++ [i]) z1 st1 Hst1).
    rewrite length_app, Nat.add_1_r in IH. apply IH. lia. }
  assert (Hloop : ∀ cond st1, cond = (Z.of_nat (S (length P)) <=? rd_zmax rd)%Z →
    sstate P st1 → st_report st1 = st_report st → 
    ∃ r st' new,
      match ext_loop (λ c z st, recurse fuel c z (S (length P)) rd st) rd (fr P) cond
              (S (length P)) (seq 0 (rd_cnt rd)) 0%Z 0%Z st1 with
      | Some (s, max, st0) => Some (if (s <? 0)%Z then s else max, st0)
      | None => None
      end = Some (r, st') ∧ (0 ≤ r)%Z ∧ search_step st st' new ∧ NoDup new ∧
      ∀ p, p ∈ new ↔ want p ∧ ∃ R, R ≠ [] ∧ pat_items p = P ++ R).
  { intros cond st1 Hcond Hst1 Hrep1.
    destruct (ext_loop_all (λ c z st, recurse fuel c z (S (length P)) rd st) P cond)
      with (todo := seq 0 (rd_cnt rd)) (s := 0%Z) (max := 0%Z) (st := st1)
      as (s' & max' & st' & new & -> & Hs' & Hm & Hstep & Hnew & Hmem); try done.
    - intros ->. apply Hrec. symmetry in Hcond. by apply Z.leb_le in Hcond.
    - apply NoDup_seq.
    - intros i Hi. apply elem_of_seq in Hi. lia.
    - exists max', st', new. destruct (Z.ltb_spec s' 0); [lia|].
      split; [done|]. split; [done|]. split.
      { destruct Hstep as (G1 & G2 & G3 & G4). destruct Hst as (H1 & _). destruct Hst1 as (H1' & _).
        split; [congruence|]. split; [done|]. split; [done|]. by rewrite <- Hrep1. }
      split; [done|]. intros p. rewrite Hmem. split.
      + intros (Hw & i & R & _ & Hp). split; [done|]. by exists (i :: R).
      + intros (Hw & R & HR & Hp). split; [done|]. destruct R as [|i R]; [done|].
        exists i, R. split; [|done]. apply elem_of_seq. split; [lia|]. cbn. rewrite Hcnt.
        destruct Hw as (_ & Hw2 & Hw3 & _).
        assert (0 < supp (pat_items p))%Z as Hpos by lia.
        apply (support_pos_items ukey tabag _ Hok) in Hpos as [_ Hpos].
        apply Hpos. rewrite Hp. apply elem_of_app. right. by left. }
  destruct (Z.of_nat (S (length P)) <=? rd_zmax rd)%Z eqn:E.
  - unfold malloc. destruct Hst as (H1 & H2 & H3 & H4 & H5 & H6).
    destruct (all_true_malloc (st_heap st) H2) as [E1 E2].
    destruct (malloc_list (st_heap st)) as [ok h]. cbn in E1, E2. subst ok. cbn [negb].
    apply Hloop; [done| |done]. repeat split; done.
  - cbn [negb]. by apply Hloop.
Qed.
End AllMode.

(** * The weight sums of the search with item weights *)

Lemma fold_left_ext_in {A B} (f g : A → B → A) (l : list B) : ∀ a,
  (∀ a x, x ∈ l → f a x = g a x) → fold_left f l a = fold_left g l a.
Proof.
  induction l as [|x l IH]; intros a H; [done|]. cbn [fold_left].
  rewrite H by (by left). apply IH. intros a' y Hy. apply H. by right.
Qed.

Lemma fold_left_fmap {A B C} (f : A → C → A) (g : B → C) (l : list B) : ∀ a,
  fold_left f (g <$> l) a = fold_left (λ a x, f a (g x)) l a.
Proof. induction l as [|x l IH]; intros a; [done|]. cbn. apply IH. Qed.

(** A list of different numbers below [k] has at most [k] elements. *)
Lemma NoDup_bounded_length (l : list nat) k :
  NoDup l → (∀ i, i ∈ l → i < k) → length l ≤ k.
Proof.
  intros Hnd Hlt. replace k with (length (seq 0 k)) by apply length_seq.
  apply NoDup_incl_length; [by apply NoDup_ListNoDup|].
  intros i Hi. apply list_elem_of_In in Hi. apply in_seq. specialize (Hlt i Hi). lia.
Qed.

Lemma fst_indexed {B} (l : list B) : ∀ q, fst <$> indexed q l = seq q (length l).
Proof. induction l as [|b l IH]; intros q; cbn; [done|]. by rewrite IH. Qed.

Section OrderLemmas.
Context {A : Type} (key : A → nat).
Implicit Type occs : list (PATOCC A).

Lemma project_ext occs occs' k e :
  (∀ j, po_wgt (occs !!! j) = po_wgt (occs' !!! j) ∧
        po_items (occs !!! j) = po_items (occs' !!! j)) →
  project key occs k e = project key occs' k e.
Proof.
  intros H. unfold project. generalize (clear_exts k, 0).
  induction (pe_oxs e) as [|x l IH]; intros acc; cbn [fold_left]; [done|].
  destruct (H (ox_occ x)) as [-> ->]. apply IH.
Qed.

(** The occurrences of a pattern extension, in the order of the bag. *)
Lemma ext_occs_occ occs P i :
  (∀ o, o ∈ occs → NoDup (key <$> po_items o)) →
  ox_occ <$> ext_occs key occs P i =
  fst <$> filter (λ jo, is_subseq (P ++ [i]) (key <$> po_items jo.2) = true) (indexed 0 occs).
Proof.
  unfold ext_occs. generalize 0.
  induction occs as [|o occs IH]; intros q Hnd; [done|].
  cbn [indexed]. rewrite bind_cons, fmap_app, filter_cons. cbn [fst snd].
  rewrite IH by (intros; apply Hnd; by right).
  pose proof (ext_occs_length_one key (po_items o) P i) as Hl.
  rewrite resume_length in Hl by (apply Hnd; by left).
  destruct (is_subseq (P ++ [i]) (key <$> po_items o)).
  - rewrite decide_True by done.
    destruct (resume key (po_items o) P ≫= find_from key (po_items o) i) as [|p [|p' ps]]; done.
  - rewrite decide_False by done.
    destruct (resume key (po_items o) P ≫= find_from key (po_items o) i); done.
Qed.

Lemma ext_occs_NoDup occs P i :
  (∀ o, o ∈ occs → NoDup (key <$> po_items o)) →
  NoDup (ox_occ <$> ext_occs key occs P i).
Proof.
  intros Hnd. rewrite ext_occs_occ by done.
  eapply sublist_NoDup; [|apply fmap_sublist, sublist_filter].
  rewrite fst_indexed. apply NoDup_seq.
Qed.

Lemma ext_occs_elem occs P i x :
  x ∈ ext_occs key occs P i →
  ox_occ x < length occs ∧
  (key <$> po_items (occs !!! ox_occ x)) !! ox_item x = Some i ∧
  P `sublist_of` take (ox_item x) (key <$> po_items (occs !!! ox_occ x)).
Proof.
  unfold ext_occs. rewrite list_elem_of_bind. intros ([j o] & Hx & Hjo).
  apply indexed_total in Hjo as [Hjo Hlt]. cbn [fst snd] in Hx.
  apply list_elem_of_fmap in Hx as (p & -> & Hp). cbn [ox_occ ox_item]. rewrite Hjo.
  apply list_elem_of_bind in Hp as (q & Hp & Hq).
  apply find_from_elem in Hp as [Hle Hp]. apply resume_elem, ends_at_sublist in Hq.
  split; [done|]. split; [done|]. etrans; [exact Hq|].
  replace (take q (key <$> po_items o)) with (take q (take p (key <$> po_items o)))
    by (rewrite take_take; f_equal; lia).
  apply sublist_take.
Qed.

Lemma ext_occs_contains occs P i x :
  x ∈ ext_occs key occs P i →
  (P ++ [i]) `sublist_of` (key <$> po_items (occs !!! ox_occ x)).
Proof.
  intros Hx. apply ext_occs_elem in Hx as (_ & Hi & HP).
  rewrite <- (take_drop (S (ox_item x)) (key <$> po_items (occs !!! ox_occ x))).
  apply sublist_inserts_r. rewrite (take_S_r _ _ _ Hi). by apply sublist_app.
Qed.

Lemma ext_occs_find occs P i j :
  (∀ o, o ∈ occs → NoDup (key <$> po_items o)) →
  j < length occs → (P ++ [i]) `sublist_of` (key <$> po_items (occs !!! j)) →
  ∃ x, x ∈ ext_occs key occs P i ∧ ox_occ x = j.
Proof.
  intros Hnd Hj HP.
  assert (j ∈ ox_occ <$> ext_occs key occs P i) as Hin.
  { rewrite ext_occs_occ by done. apply list_elem_of_fmap.
    exists (j, occs !!! j). split; [done|]. apply list_elem_of_filter. split.
    - by apply is_subseq_sublist.
    - apply elem_of_indexed. split; [lia|]. rewrite Nat.sub_0_r.
      by apply list_lookup_lookup_total_lt. }
  apply list_elem_of_fmap in Hin as (x & -> & Hx). by exists x.
Qed.
End OrderLemmas.

Section WeightLemmas.
Context {D : Type} (dzero : D) (dadd dmul : D → D → D) (of_supp : Z → D).
Local Hint Extern 0 (Inhabited D) => exact (D_inhabited dzero) : typeclass_instances.
Local Hint Extern 0 (Inhabited (WITEM D)) => exact (WITEM_inhabited dzero) : typeclass_instances.
Local Abbreviation WOCC := (PATOCC (WITEM D)).

Lemma add_wgts_spec (o : WOCC) len : ∀ wgts, len ≤ length wgts →
  length (add_wgts dzero dadd dmul of_supp o len wgts) = length wgts ∧
  ∀ m, add_wgts dzero dadd dmul of_supp o len wgts !! m =
       if decide (m < len) then Some (dadd (wgts !!! m) (occ_term dzero dmul of_supp o m)) else wgts !! m.
Proof.
  unfold add_wgts. induction len as [|len IH]; intros wgts Hlen.
  { split; [done|]. intros m. by rewrite decide_False by lia. }
  rewrite seq_S, fold_left_app. cbn [fold_left plus].
  destruct (IH wgts) as [IH1 IH2]; [lia|].
  split; [by rewrite length_insert|]. intros m.
  destruct (decide (m = len)) as [->|Hne].
  - rewrite list_lookup_insert_eq by lia. rewrite decide_True by lia.
    f_equal. f_equal. rewrite !list_lookup_total_alt, IH2. by rewrite decide_False by lia.
  - rewrite list_lookup_insert_ne by done. rewrite IH2.
    destruct (decide (m < len)); [by rewrite decide_True by lia|by rewrite decide_False by lia].
Qed.

Lemma zero_wgts_spec len : ∀ wgts : list D, len ≤ length wgts →
  length (fold_left (λ w k, <[k := dzero]> w) (seq 0 len) wgts) = length wgts ∧
  ∀ m, fold_left (λ w k, <[k := dzero]> w) (seq 0 len) wgts !! m =
       if decide (m < len) then Some dzero else wgts !! m.
Proof.
  induction len as [|len IH]; intros wgts Hlen.
  { split; [done|]. intros m. by rewrite decide_False by lia. }
  rewrite seq_S, fold_left_app. cbn [fold_left plus].
  destruct (IH wgts) as [IH1 IH2]; [lia|].
  split; [by rewrite length_insert|]. intros m.
  destruct (decide (m = len)) as [->|Hne].
  - rewrite list_lookup_insert_eq by lia. by rewrite decide_True by lia.
  - rewrite list_lookup_insert_ne by done. rewrite IH2.
    destruct (decide (m < len)); [by rewrite decide_True by lia|by rewrite decide_False by lia].
Qed.

Lemma sum_wgts_fold (occs : list WOCC) len (oxs : list OCCEXT) : ∀ w,
  len ≤ length w →
  length (fold_left (λ w x, add_wgts dzero dadd dmul of_supp (occs !!! ox_occ x) len w) oxs w)
    = length w ∧
  ∀ m, m < len →
    fold_left (λ w x, add_wgts dzero dadd dmul of_supp (occs !!! ox_occ x) len w) oxs w !! m =
    Some (fold_left (λ acc x, dadd acc (occ_term dzero dmul of_supp (occs !!! ox_occ x) m)) oxs (w !!! m)).
Proof.
  induction oxs as [|x oxs IH]; intros w Hlen; cbn [fold_left].
  { split; [done|]. intros m Hm. apply list_lookup_lookup_total_lt. lia. }
  destruct (add_wgts_spec (occs !!! ox_occ x) len w Hlen) as [H1 H2].
  destruct (IH (add_wgts dzero dadd dmul of_supp (occs !!! ox_occ x) len w)) as [IH1 IH2]; [lia|].
  split; [congruence|]. intros m Hm. rewrite IH2 by done. f_equal. f_equal.
  rewrite list_lookup_total_alt, H2. by rewrite decide_True by done.
Qed.

Lemma sum_wgts_spec (occs : list WOCC) e len wgts :
  len ≤ length wgts →
  length (sum_wgts dzero dadd dmul of_supp occs e len wgts) = length wgts ∧
  ∀ m, m < len →
    sum_wgts dzero dadd dmul of_supp occs e len wgts !! m =
    Some (fold_left (λ acc x, dadd acc (occ_term dzero dmul of_supp (occs !!! ox_occ x) m)) (pe_oxs e) dzero).
Proof.
  intros Hlen. unfold sum_wgts.
  destruct (zero_wgts_spec len wgts Hlen) as [Z1 Z2].
  destruct (sum_wgts_fold occs len (pe_oxs e)
              (fold_left (λ w k, <[k := dzero]> w) (seq 0 len) wgts)) as [S1 S2]; [lia|].
  split; [congruence|]. intros m Hm. rewrite S2 by done. f_equal. f_equal.
  rewrite list_lookup_total_alt, Z2. by rewrite decide_True by done.
Qed.

Lemma item_wgt_lookup (l : list (WITEM D)) : ∀ pos x,
  NoDup (wkey <$> l) → l !! pos = Some x → item_wgt dzero l (wi_item x) = wi_wgt x.
Proof.
  induction l as [|y l IH]; intros pos x Hnd Hx; [done|].
  rewrite fmap_cons in Hnd. apply NoDup_cons in Hnd as [Hy Hnd]. cbn [item_wgt].
  destruct pos as [|pos]; cbn in Hx.
  - injection Hx as ->. by rewrite Nat.eqb_refl.
  - destruct (Nat.eqb_spec (wi_item y) (wi_item x)) as [E|_]; [|by eapply IH].
    exfalso. apply Hy. unfold wkey at 1. rewrite E.
    apply (list_elem_of_fmap_2 wkey). by eapply list_elem_of_lookup_2.
Qed.

(** The sum over the occurrences of an extension is the sum over the
    transactions that contain the pattern. *)
Lemma fold_occs_tracts (occs : list WOCC) Q (g : WOCC → D) (l : list WOCC) : ∀ q acc,
  (∀ j o, (j, o) ∈ indexed q l → occs !!! j = o) →
  fold_left (λ acc j, dadd acc (g (occs !!! j)))
    (fst <$> filter (λ jo : nat * WOCC, is_subseq Q (wkey <$> po_items jo.2) = true) (indexed q l)) acc =
  fold_left (λ acc o, if is_subseq Q (wkey <$> po_items o) then dadd acc (g o) else acc) l acc.
Proof.
  induction l as [|o l IH]; intros q acc Hjo; [done|].
  cbn [indexed fold_left]. rewrite filter_cons. cbn [snd].
  destruct (is_subseq Q (wkey <$> po_items o)) eqn:E.
  - rewrite decide_True by done. cbn [fmap list_fmap fold_left fst].
    rewrite (Hjo q o) by (by left). apply IH. intros j o' H. apply Hjo. by right.
  - rewrite decide_False by done. apply IH. intros j o' H. apply Hjo. by right.
Qed.

Lemma wgt_sum_occs (tabag : TABAG (WITEM D)) Q a :
  (∀ o, o ∈ make_occs tabag → NoDup (wkey <$> po_items o)) →
  ∀ P i, Q = P ++ [i] →
  fold_left (λ acc x, dadd acc
      (dmul (of_supp (po_wgt (make_occs tabag !!! ox_occ x)))
            (item_wgt dzero (po_items (make_occs tabag !!! ox_occ x)) a)))
    (ext_occs wkey (make_occs tabag) P i) dzero =
  wgt_sum dzero dadd dmul of_supp tabag Q a.
Proof.
  intros Hnd P i ->.
  rewrite <- (fold_left_fmap (λ acc j, dadd acc
      (dmul (of_supp (po_wgt (make_occs tabag !!! j)))
            (item_wgt dzero (po_items (make_occs tabag !!! j)) a))) ox_occ).
  rewrite ext_occs_occ by done.
  rewrite (fold_occs_tracts (make_occs tabag) (P ++ [i])
             (λ o, dmul (of_supp (po_wgt o)) (item_wgt dzero (po_items o) a))).
  2:{ intros j o H. by apply indexed_total in H as [? _]. }
  unfold wgt_sum, make_occs, contains. by rewrite fold_left_fmap.
Qed.
End WeightLemmas.

Section StateLemmas.
Context {A : Type}.
Implicit Type occs : list (PATOCC A).

Lemma same_tracts_refl occs : same_tracts occs occs.
Proof. split; done. Qed.

Lemma same_tracts_trans occs1 occs2 occs3 :
  same_tracts occs1 occs2 → same_tracts occs2 occs3 → same_tracts occs1 occs3.
Proof.
  intros [H1 H2] [G1 G2]. split; [congruence|]. intros j.
  destruct (H2 j) as (-> & -> & ->). apply G2.
Qed.

Lemma same_tracts_anchor n oxs occs : same_tracts (anchor n oxs occs) occs.
Proof.
  split; [apply anchor_length|]. intros j.
  destruct (anchor_items n oxs occs j) as (H1 & H2 & H3). done.
Qed.
End StateLemmas.

Section SoundIW.
Context {D : Type} (dzero : D) (dadd dmul : D → D → D) (of_supp : Z → D).
Context (tabag : TABAG (WITEM D)) (rd : RECDATA).
Hypothesis Hok : bag_ok wkey tabag = true.
Hypothesis Hsmin : (1 ≤ rd_smin rd)%Z.
Hypothesis Hcnt : rd_cnt rd = tbg_itemcnt tabag.
Local Hint Extern 0 (Inhabited D) => exact (D_inhabited dzero) : typeclass_instances.
Local Hint Extern 0 (Inhabited (WITEM D)) => exact (WITEM_inhabited dzero) : typeclass_instances.
Implicit Type st : state (WITEM D) D.
Implicit Type P : list nat.

Local Abbreviation k := (tbg_itemcnt tabag).
Local Abbreviation occs0 := (make_occs tabag).
Local Abbreviation fr P := (frame wkey k occs0 P).
Local Abbreviation supp P := (support wkey tabag P).
Local Abbreviation snd_ok := (sound dzero dadd dmul of_supp tabag).

Lemma occs0_NoDup o : o ∈ occs0 → NoDup (wkey <$> po_items o).
Proof.
  unfold make_occs. intros (t & -> & Ht)%list_elem_of_fmap. cbn.
  by apply (bag_ok_tract wkey tabag t Hok) in Ht as (_ & ? & _).
Qed.

Lemma wstep_refl P st : wstep P st st.
Proof. repeat split; done. Qed.

Lemma wstep_trans P st1 st2 st3 : wstep P st1 st2 → wstep P st2 st3 → wstep P st1 st3.
Proof.
  intros (H1 & H2 & H3 & H4 & H5) (G1 & G2 & G3 & G4 & G5).
  split; [by eapply same_tracts_trans|]. split; [|split; [congruence|split; congruence]].
  intros j m Hm. rewrite G2, H2 by done. done.
Qed.

Lemma wstep_weaken P i st st' : wstep (P ++ [i]) st st' → wstep P st st'.
Proof.
  intros (H1 & H2 & H3 & H4 & H5). rewrite length_app in *. cbn [length] in *.
  split; [done|]. split; [|split; [done|split; [done|]]].
  - intros j m Hm. apply H2. lia.
  - assert (∀ l : list nat, take (length P) l = take (length P) (take (length P + 1) l)) as E
      by (intros l; rewrite take_take; f_equal; lia).
    by rewrite (E (st_items st')), (E (st_items st)), H5.
Qed.

Lemma wstate_step P st st' : wstate tabag P st → wstep P st st' → wstate tabag P st'.
Proof.
  intros (H1 & H2 & H3 & H4 & H5) (G1 & G2 & G3 & G4 & G5).
  split; [by eapply same_tracts_trans|]. split; [|split; [congruence|split; congruence]].
  intros j Hj HP m i Hm. destruct G1 as [G1 G1'].
  destruct (G1' j) as (_ & E & _). rewrite E in *.
  destruct (H2 j) with (m := m) (i := i) as (pos & Hpos & Hi); [lia|done|done|].
  exists pos. split; [|done]. rewrite G2; [done|]. by eapply lookup_lt_Some.
Qed.

Lemma occs0_ips j :
  j < length occs0 → length (po_ips (occs0 !!! j)) = length (po_items (occs0 !!! j)).
Proof.
  intros Hj. unfold make_occs in *. rewrite length_fmap in Hj.
  destruct (lookup_lt_is_Some_2 (tbg_tracts tabag) j Hj) as [t Ht].
  rewrite (list_lookup_total_correct _ j (mkPATOCC (ta_wgt t) (ta_items t) (replicate (ta_size t) 0))).
  - cbn. by rewrite length_replicate.
  - by rewrite list_lookup_fmap, Ht.
Qed.

Lemma occs0_NoDup_total j : j < length occs0 → NoDup (wkey <$> po_items (occs0 !!! j)).
Proof.
  intros Hj. apply occs0_NoDup. apply list_elem_of_lookup. exists j.
  by apply list_lookup_lookup_total_lt.
Qed.

Lemma frequent_length P i : (1 ≤ supp (P ++ [i]))%Z → length P < k.
Proof.
  intros Hs. assert (0 < supp (P ++ [i]))%Z as Hpos by lia.
  apply (support_pos_items wkey tabag _ Hok) in Hpos as [Hnd Hlt].
  pose proof (NoDup_bounded_length _ _ Hnd Hlt) as Hl. rewrite length_app in Hl. cbn in Hl. lia.
Qed.

Lemma anchor_wstate P i n st :
  wstate tabag P st → (1 ≤ supp (P ++ [i]))%Z → n = S (length P) →
  let st_b := set_occs (set_items st (<[n - 1 := i]> (st_items st)))
                (anchor n (ext_occs wkey occs0 P i) (st_occs st)) in
  wstate tabag (P ++ [i]) st_b ∧ wstep P st st_b.
Proof.
  intros (H1 & H2 & H3 & H4 & H5) Hs ->. cbv zeta. cbn [Nat.sub]. rewrite Nat.sub_0_r.
  unfold wstate, wstep. cbn [st_occs st_items st_wgts set_occs set_items].
  set (oxs := ext_occs wkey occs0 P i). set (occs := st_occs st) in *.
  set (occs1 := anchor (S (length P)) oxs occs).
  pose proof (frequent_length P i Hs) as HPk.
  assert (Hst1 : same_tracts occs1 occs) by apply same_tracts_anchor.
  assert (H10 : same_tracts occs1 occs0) by (by eapply same_tracts_trans).
  destruct H1 as [Hlen Hpt].
  assert (Hoxs : oxs_ok occs oxs (S (length P) - 1)).
  { split; [apply ext_occs_NoDup, occs0_NoDup|]. intros x Hx.
    pose proof (ext_occs_contains wkey occs0 P i x Hx) as Hc.
    apply ext_occs_elem in Hx as (Hlt & _). split; [lia|].
    destruct (Hpt (ox_occ x)) as (_ & _ & ->). rewrite (occs0_ips _ Hlt).
    apply sublist_length in Hc. rewrite length_app, length_fmap in Hc. cbn in Hc. lia. }
  split; [split; [done|split; [|split; [|split]]]|].
  - intros j Hj HQ m a Hm. destruct H10 as [Hlen1 Hpt1].
    destruct (Hpt1 j) as (_ & Eit & _). rewrite Eit in HQ |- *.
    destruct (decide (m < length P)) as [Hlt|Hge].
    + rewrite lookup_app_l in Hm by done.
      destruct (H2 j) with (m := m) (i := a) as (pos & Hpos & Hi); [lia| |done|].
      { destruct (Hpt j) as (_ & -> & _). etrans; [|exact HQ]. by apply sublist_inserts_r. }
      exists pos. split.
      * unfold occs1. rewrite anchor_other_ips; [done|lia].
      * destruct (Hpt j) as (_ & E & _). by rewrite <- E.
    + rewrite lookup_app_r in Hm by lia.
      destruct (m - length P) as [|m'] eqn:Em; [|done]. injection Hm as <-.
      assert (m = length P) as -> by lia.
      destruct (ext_occs_find wkey occs0 P i j occs0_NoDup) as (x & Hx & <-); [lia|done|].
      exists (ox_item x). split.
      * pose proof (anchor_anchored (S (length P)) oxs occs Hoxs x Hx) as Ha.
        cbn [Nat.sub] in Ha. by rewrite Nat.sub_0_r in Ha.
      * by apply ext_occs_elem in Hx as (_ & ? & _).
  - by rewrite length_insert.
  - done.
  - rewrite length_app. cbn [length]. rewrite Nat.add_1_r.
    rewrite (take_S_r _ _ i) by (apply list_lookup_insert_eq; lia).
    by rewrite take_insert_ge, H5 by lia.
  - split; [done|]. split; [|split; [by rewrite length_insert|split; [done|]]].
    + intros j m Hm. unfold occs1. rewrite anchor_other_ips; [done|lia].
    + by rewrite take_insert_ge by lia.
Qed.

Lemma emitted_sound P i st :
  wstate tabag (P ++ [i]) st → (1 ≤ supp (P ++ [i]))%Z → i < k →
  let e := fr P !!! i in
  let wgts' := sum_wgts dzero dadd dmul of_supp (st_occs st) e (S (length P)) (st_wgts st) in
  length wgts' = length (st_wgts st) ∧
  snd_ok (Pat (take (S (length P)) (st_items st)) (take (S (length P)) wgts') (pe_supp e)).
Proof.
  intros (H1 & H2 & H3 & H4 & H5) Hs Hi. cbv zeta. rewrite frame_lookup by done.
  pose proof (frequent_length P i Hs) as HPk.
  destruct (sum_wgts_spec dzero dadd dmul of_supp (st_occs st)
              (ext_of occs0 (ext_occs wkey occs0 P i)) (S (length P)) (st_wgts st))
    as [S1 S2]; [lia|].
  split; [done|].
  rewrite length_app, Nat.add_1_r in H5.
  cbn [ext_of pe_supp pe_oxs] in *.
  split; cbn [pat_supp pat_items pat_wgts]; rewrite H5.
  { by apply ext_occs_support. }
  apply list_eq. intros m. unfold pattern_wgts. rewrite list_lookup_fmap.
  destruct (decide (m < S (length P))) as [Hm|Hm].
  2:{ rewrite lookup_take_ge by lia. rewrite lookup_ge_None_2; [done|].
      rewrite length_app. cbn. lia. }
  rewrite lookup_take_lt by done. rewrite S2 by done.
  destruct (lookup_lt_is_Some_2 (P ++ [i]) m) as [a Ha].
  { rewrite length_app. cbn. lia. }
  rewrite Ha. cbn. f_equal.
  rewrite <- (wgt_sum_occs dzero dadd dmul of_supp tabag (P ++ [i]) a occs0_NoDup P i eq_refl).
  apply fold_left_ext_in. intros acc x Hx. f_equal.
  pose proof (ext_occs_contains wkey occs0 P i x Hx) as Hc.
  apply ext_occs_elem in Hx as (Hlt & _).
  destruct H1 as [Hlen Hpt]. destruct (Hpt (ox_occ x)) as (Ew & Eit & _).
  destruct (H2 (ox_occ x)) with (m := m) (i := a) as (pos & Hpos & Hpa); [lia| |done|].
  { by rewrite Eit. }
  unfold occ_term. rewrite Ew. f_equal.
  rewrite (list_lookup_total_correct _ _ _ Hpos).
  rewrite list_lookup_fmap in Hpa.
  destruct (po_items (st_occs st !!! ox_occ x) !! pos) as [y|] eqn:Ey; [|done].
  injection Hpa as <-. rewrite (list_lookup_total_correct _ _ _ Ey).
  rewrite <- Eit. symmetry. eapply item_wgt_lookup; [|exact Ey].
  rewrite Eit. by apply occs0_NoDup_total.
Qed.

Local Abbreviation osound st st' :=
  (out_sound dzero dadd dmul of_supp tabag (st_report st) (st_report st')).

Lemma out_sound_refl (rep : ISREPORT D) : out_sound dzero dadd dmul of_supp tabag rep rep.
Proof. exists []. split; [by rewrite app_nil_r|]. intros p Hp. by apply elem_of_nil in Hp. Qed.

Lemma out_sound_trans (r1 r2 r3 : ISREPORT D) :
  out_sound dzero dadd dmul of_supp tabag r1 r2 →
  out_sound dzero dadd dmul of_supp tabag r2 r3 →
  out_sound dzero dadd dmul of_supp tabag r1 r3.
Proof.
  intros (n1 & E1 & H1) (n2 & E2 & H2). exists (n1 ++ n2).
  split; [by rewrite E2, E1, app_assoc|]. intros p [Hp|Hp]%elem_of_app; auto.
Qed.

Lemma isr_emit_out (rep : ISREPORT D) p r rep' :
  isr_emit rep p = (r, rep') →
  (r = 0%Z ∨ r = (-1)%Z) ∧
  (isr_out rep' = isr_out rep ∨ isr_out rep' = isr_out rep ++ [p]).
Proof.
  intros H. apply isr_emit_run in H as (_ & _ & _ & _ & H).
  destruct H as [(-> & [[_ H]|[[_ H]|(_ & _ & H)]])|(-> & _ & H)]; split; auto.
Qed.

Lemma frame_ext_w P i :
  i < k → pe_supp (fr P !!! i) = supp (P ++ [i]) ∧
          pe_oxs (fr P !!! i) = ext_occs wkey occs0 P i.
Proof.
  intros Hi. rewrite frame_lookup by done. cbn. split; [|done]. by apply ext_occs_support.
Qed.

Lemma ext_loop_iw_sound rec P cond :
  rec_sound dzero dadd dmul of_supp tabag rec P →
  ∀ todo s max st s' max' st',
    (∀ i, i ∈ todo → i < k) → wstate tabag P st →
    ext_loop_iw dzero dadd dmul of_supp rec rd (fr P) cond (S (length P)) todo s max st
      = Some (s', max', st') →
    wstep P st st' ∧ osound st st'.
Proof.
  intros Hrec. induction todo as [|i todo IH]; intros s max st s' max' st' Hlt Hst;
    cbn [ext_loop_iw].
  { intros [= <- <- <-]. split; [apply wstep_refl|apply out_sound_refl]. }
  assert (Hi : i < k) by (apply Hlt; left).
  assert (Hlt' : ∀ i', i' ∈ todo → i' < k) by (intros; apply Hlt; by right).
  destruct (frame_ext_w P i Hi) as [Esupp Eoxs]. rewrite Esupp, Eoxs.
  destruct (Z.ltb_spec (supp (P ++ [i])) (rd_smin rd)) as [Hlow|Hhigh]; [by apply IH|].
  assert (Hs1 : (1 ≤ supp (P ++ [i]))%Z) by lia.
  cbn [st_occs set_items].
  destruct (anchor_wstate P i (S (length P)) st Hst Hs1 eq_refl) as [Hwb Hsb].
  cbv zeta in Hwb, Hsb.
  set (st_b := set_occs _ _) in *.
  set (max1 := if (max <? supp (P ++ [i]))%Z then supp (P ++ [i]) else max).
  destruct (closed_test_iw_same rd (fr P !!! i) (S (length P)) st_b) as (_ & Cr & Ci & Cw & Co).
  destruct (closed_test_iw rd (fr P !!! i) (S (length P)) st_b) as [r st_c].
  cbn [snd] in Cr, Ci, Cw, Co.
  assert (Hbc : wstep (P ++ [i]) st_b st_c).
  { repeat split; rewrite ?Co, ?Ci, ?Cw; done. }
  assert (Hwc : wstate tabag (P ++ [i]) st_c) by (by eapply wstate_step).
  assert (Hsc : wstep P st st_c).
  { eapply wstep_trans; [exact Hsb|]. by eapply wstep_weaken. }
  assert (Hoc : osound st st_c).
  { rewrite Cr. apply out_sound_refl. }
  destruct (r =? 0)%Z.
  { intros H. apply IH in H; [|done|by eapply wstate_step].
    destruct H as [H1 H2]. split; [by eapply wstep_trans|by eapply out_sound_trans]. }
  assert (Hrep : ∀ s1 st3, wstate tabag (P ++ [i]) st3 → wstep P st st3 → osound st st3 →
    (if closed_mode rd && (supp (P ++ [i]) <=? s1)%Z
     then ext_loop_iw dzero dadd dmul of_supp rec rd (fr P) cond (S (length P)) todo s1 max1 st3
     else
       let st4 := set_wgts st3 (sum_wgts dzero dadd dmul of_supp (st_occs st3) (fr P !!! i)
                                  (S (length P)) (st_wgts st3)) in
       let '(r0, rep) := isr_isetx (st_report st4) (st_items st4) (S (length P))
                           (st_wgts st4) (supp (P ++ [i])) in
       if (r0 <? 0)%Z then Some ((-1)%Z, max1, set_report st4 rep)
       else ext_loop_iw dzero dadd dmul of_supp rec rd (fr P) cond (S (length P)) todo s1 max1
              (set_report st4 rep)) = Some (s', max', st') →
    wstep P st st' ∧ osound st st').
  { intros s1 st3 Hw3 Hs3 Ho3. destruct (_ && _).
    - intros H. apply IH in H; [|done|by eapply wstate_step].
      destruct H as [H1 H2]. split; [by eapply wstep_trans|by eapply out_sound_trans].
    - cbv zeta. destruct (emitted_sound P i st3 Hw3 Hs1 Hi) as [Hlen Hsound].
      cbv zeta in Hlen, Hsound. rewrite Esupp in Hsound.
      set (w' := sum_wgts _ _ _ _ _ _ _ _) in *.
      cbn [st_report st_items st_wgts set_wgts].
      destruct (isr_isetx _ _ _ _ _) as [r0 rep] eqn:E. unfold isr_isetx in E.
      apply isr_emit_out in E as [Hr0 Hout].
      assert (H34 : ∀ rep', wstep P st3 (set_report (set_wgts st3 w') rep')).
      { intros rep'. repeat split; done. }
      assert (Ho34 : osound st3 (set_report (set_wgts st3 w') rep)).
      { unfold out_sound. cbn [st_report set_report set_wgts].
        destruct Hout as [E|E]; rewrite E.
        - exists []. split; [by rewrite app_nil_r|]. intros p Hp. by apply elem_of_nil in Hp.
        - eexists. split; [done|]. intros p ->%list_elem_of_singleton. done. }
      destruct Hr0 as [-> | ->]; cbn [Z.ltb Z.compare].
      + intros H. apply IH in H; [|done|].
        2:{ eapply wstate_step; [exact Hst|]. eapply wstep_trans; [exact Hs3|apply H34]. }
        destruct H as [H1 H2]. split.
        * eapply wstep_trans; [|exact H1]. eapply wstep_trans; [exact Hs3|apply H34].
        * eapply out_sound_trans; [|exact H2]. by eapply out_sound_trans.
      + intros [= <- <- <-]. split.
        * eapply wstep_trans; [exact Hs3|apply H34].
        * by eapply out_sound_trans. }
  destruct cond; [|by apply Hrep].
  rewrite (project_ext wkey (st_occs st_c) occs0 (rd_cnt rd) (fr P !!! i)).
  2:{ intros j. destruct Hwc as ([_ Hpt] & _). destruct (Hpt j) as (? & ? & _). done. }
  rewrite Hcnt.
  destruct (project_frame wkey occs0 k P i Hi) as [Hpf _].
  destruct (project wkey occs0 k (fr P !!! i)) as [c z]. cbn [fst] in Hpf. subst c.
  destruct (0 <? z); [|by apply Hrep].
  destruct (rec (fr (P ++ [i])) z st_c) as [[s1 st3]|] eqn:E; [|done].
  apply Hrec in E; [|done|done]. destruct E as [E1 E2].
  assert (Hs3 : wstep P st st3).
  { eapply wstep_trans; [exact Hsc|]. by eapply wstep_weaken. }
  assert (Ho3 : osound st st3) by (by eapply out_sound_trans).
  destruct (s1 <? 0)%Z.
  - intros [= <- <- <-]. done.
  - apply Hrep; [by eapply wstate_step|done|done].
Qed.

Lemma rec_iw_sound fuel : ∀ P z st r st',
  wstate tabag P st →
  rec_iw dzero dadd dmul of_supp fuel (fr P) z (length P) rd st = Some (r, st') →
  wstep P st st' ∧ osound st st'.
Proof.
  induction fuel as [|fuel IH]; intros P z st r st' Hst; [done|].
  cbn [rec_iw].
  assert (Hrec : rec_sound dzero dadd dmul of_supp tabag (λ c z st, rec_iw dzero dadd dmul of_supp fuel c z (S (length P)) rd st) P).
  { intros i z1 st1 r1 st1' Hi Hst1 H. specialize (IH (P ++ [i]) z1 st1 r1 st1' Hst1).
    rewrite length_app, Nat.add_1_r in IH. by apply IH. }
  assert (Hloop : ∀ cond st1, wstate tabag P st1 → wstep P st st1 → osound st st1 →
    match ext_loop_iw dzero dadd dmul of_supp
            (λ c z st, rec_iw dzero dadd dmul of_supp fuel c z (S (length P)) rd st)
            rd (fr P) cond (S (length P)) (seq 0 (rd_cnt rd)) 0%Z 0%Z st1 with
    | Some (s, max, st0) => Some (if (s <? 0)%Z then s else max, st0)
    | None => None
    end = Some (r, st') → wstep P st st' ∧ osound st st').
  { intros cond st1 Hst1 Hs1 Ho1.
    destruct (ext_loop_iw _ _ _ _ _ _ _ _ _ _ _ _ _) as [[[s max] st2]|] eqn:E; [|done].
    intros [= <- <-]. apply (ext_loop_iw_sound _ P cond Hrec) in E; [|..|done].
    - destruct E as [E1 E2]. split; [by eapply wstep_trans|by eapply out_sound_trans].
    - intros i Hi. apply elem_of_seq in Hi. lia. }
  destruct (Z.of_nat (S (length P)) <=? rd_zmax rd)%Z.
  - unfold malloc. destruct (malloc_list (st_heap st)) as [ok h].
    assert (Hh : wstep P st (set_heap st h)) by (repeat split; done).
    destruct ok; cbn [negb].
    + apply Hloop; [by eapply wstate_step|done|apply out_sound_refl].
    + intros [= <- <-]. split; [done|apply out_sound_refl].
  - cbn [negb]. apply Hloop; [done|apply wstep_refl|apply out_sound_refl].
Qed.
End SoundIW.

(** ** In ALL mode the plain search does not write to the occurrences *)

Section AllModeOccs.
Context {D : Type}.
Implicit Type st : state nat D.

Lemma ext_loop_all_occs rec rd exts cond len todo :
  closed_mode rd = false →
  (∀ c z st1 r st1', rec c z st1 = Some (r, st1') → st_occs st1' = st_occs st1) →
  ∀ s max st s' max' st',
    ext_loop rec rd exts cond len todo s max st = Some (s', max', st') →
    st_occs st' = st_occs st.
Proof.
  intros Hmode Hrec. induction todo as [|i todo IH]; intros s max st s' max' st';
    cbn [ext_loop].
  { by intros [= <- <- <-]. }
  destruct (_ <? _)%Z; [by apply IH|].
  unfold closed_test. rewrite Hmode. cbn [Z.eqb negb orb].
  set (max1 := if (max <? _)%Z then _ else max).
  set (st2 := set_report st _).
  assert (Hrep : ∀ s1 st3, st_occs st3 = st_occs st →
    (let '(r0, rep) := isr_report (st_report st3) in
     if (r0 <? 0)%Z then Some ((-1)%Z, max1, set_report st3 rep)
     else ext_loop rec rd exts cond len todo s1 max1 (set_report st3 (isr_remove rep 1)))
      = Some (s', max', st') → st_occs st' = st_occs st).
  { intros s1 st3 H3. destruct (isr_report _) as [r0 rep]. destruct (r0 <? 0)%Z.
    - by intros [= <- <- <-].
    - intros H. apply IH in H. by rewrite H. }
  destruct cond; [|by apply Hrep].
  destruct (project _ _ _ _) as [c z]. destruct (0 <? z); [|by apply Hrep].
  destruct (rec c z st2) as [[s1 st3]|] eqn:E; [|done].
  apply Hrec in E. destruct (s1 <? 0)%Z; [by intros [= <- <- <-]|by apply Hrep].
Qed.

Lemma recurse_all_occs fuel : ∀ exts z len rd st r st',
  closed_mode rd = false →
  recurse fuel exts z len rd st = Some (r, st') → st_occs st' = st_occs st.
Proof.
  induction fuel as [|fuel IH]; intros exts z len rd st r st' Hmode; [done|].
  cbn [recurse].
  assert (Hrec : ∀ c z st1 r st1',
    recurse fuel c z (S len) rd st1 = Some (r, st1') → st_occs st1' = st_occs st1).
  { intros c z1 st1 r1 st1' H. by eapply IH. }
  destruct (_ <=? _)%Z.
  - unfold malloc. destruct (malloc_list _) as [ok h]. destruct ok; cbn [negb].
    + destruct (ext_loop _ _ _ _ _ _ _ _ _) as [[[s max] st2]|] eqn:E; [|done].
      intros [= <- <-]. by apply (ext_loop_all_occs _ _ _ _ _ _ Hmode Hrec) in E.
    + by intros [= <- <-].
  - cbn [negb].
    destruct (ext_loop _ _ _ _ _ _ _ _ _) as [[[s max] st2]|] eqn:E; [|done].
    intros [= <- <-]. by apply (ext_loop_all_occs _ _ _ _ _ _ Hmode Hrec) in E.
Qed.
End AllModeOccs.

(** ** In closed mode the plain search anchors the extension items *)

Section BelowLemmas.
Context {A : Type}.
Implicit Type occs : list (PATOCC A).

Lemma same_ips_below_refl n occs : same_ips_below n occs occs.
Proof. split; [apply same_tracts_refl|done]. Qed.

Lemma same_ips_below_trans n occs1 occs2 occs3 :
  same_ips_below n occs1 occs2 → same_ips_below n occs2 occs3 →
  same_ips_below n occs1 occs3.
Proof.
  intros [H1 H2] [G1 G2]. split; [by eapply same_tracts_trans|].
  intros j q Hq. by rewrite H2, G2.
Qed.

Lemma same_ips_below_weaken n n' occs occs' :
  n' ≤ n → same_ips_below n occs occs' → same_ips_below n' occs occs'.
Proof. intros Hn [H1 H2]. split; [done|]. intros j q Hq. apply H2. lia. Qed.

(** [anchor] keeps the positions below [n - 1]. *)
Lemma anchor_below n oxs occs : same_ips_below (n - 1) (anchor n oxs occs) occs.
Proof.
  split; [apply same_tracts_anchor|]. intros j q Hq. apply anchor_other_ips. lia.
Qed.

(** [anchor] on occurrences that agree below [n]. *)
Lemma anchor_congr n oxs : ∀ occs occs',
  same_ips_below n occs occs' →
  same_ips_below n (anchor n oxs occs) (anchor n oxs occs').
Proof.
  induction oxs as [|x oxs IH]; intros occs occs' H; [done|].
  rewrite !anchor_cons. apply IH. destruct H as [[Hl Ht] Hq]. split; [split|].
  - by rewrite !length_alter.
  - intros j. rewrite !alter_set_ips_total, Hl. destruct (Ht j) as (T1 & T2 & T3).
    case_decide; [|done]. cbn. by rewrite !length_insert.
  - intros j q Hlt. rewrite !alter_set_ips_total, Hl. destruct (Ht j) as (T1 & T2 & T3).
    case_decide; [|by apply Hq]. cbn.
    destruct (decide (n - 1 = q)) as [<-|Hne].
    + destruct (decide (n - 1 < length (po_ips (occs !!! j)))) as [Hin|Hout].
      * rewrite !list_lookup_insert_eq; [done|by rewrite <- T3|done].
      * rewrite !list_insert_ge by lia. by apply Hq.
    + rewrite !list_lookup_insert_ne by done. by apply Hq.
Qed.

Lemma oxs_ok_same_tracts occs occs' oxs m :
  same_tracts occs' occs → oxs_ok occs oxs m → oxs_ok occs' oxs m.
Proof.
  intros [Hl Ht] [H1 H2]. split; [done|]. intros x Hx. destruct (H2 x Hx) as [G1 G2].
  destruct (Ht (ox_occ x)) as (_ & _ & T3). rewrite Hl, T3. done.
Qed.
End BelowLemmas.

Section Anchoring.
Context {D : Type}.
Implicit Type st : state nat D.

(** The loop of [recurse] writes no position of [ips] below [len - 1],
    when the recursive call writes none below [len]. *)
Lemma ext_loop_below rec rd exts cond len todo :
  (∀ c z st1 r st1', rec c z st1 = Some (r, st1') →
     same_ips_below len (st_occs st1') (st_occs st1)) →
  ∀ s max st s' max' st',
    ext_loop rec rd exts cond len todo s max st = Some (s', max', st') →
    same_ips_below (len - 1) (st_occs st') (st_occs st).
Proof.
  intros Hrec. induction todo as [|i todo IH]; intros s max st s' max' st';
    cbn [ext_loop].
  { intros [= <- <- <-]. apply same_ips_below_refl. }
  destruct (_ <? _)%Z; [by apply IH|].
  set (max1 := if (max <? _)%Z then _ else max).
  assert (Hct : same_ips_below (len - 1)
                  (st_occs (closed_test rd (exts !!! i) len st).2) (st_occs st) ∧
                st_report (closed_test rd (exts !!! i) len st).2 = st_report st).
  { unfold closed_test, closed. destruct (closed_mode rd).
    - destruct (scan_gaps _ _ _ _ _) as [r frqs]. cbn. split; [apply anchor_below|done].
    - split; [apply same_ips_below_refl|done]. }
  destruct (closed_test rd (exts !!! i) len st) as [r st1]. cbn [snd] in Hct.
  destruct Hct as [Hb1 _].
  destruct (r =? 0)%Z.
  { intros H. apply IH in H. by eapply same_ips_below_trans. }
  set (st2 := set_report st1 _).
  assert (Hrep : ∀ s1 st3, same_ips_below (len - 1) (st_occs st3) (st_occs st) →
    (if negb (closed_mode rd) || (s1 <? pe_supp (exts !!! i))%Z
     then let '(r0, rep) := isr_report (st_report st3) in
          if (r0 <? 0)%Z then Some ((-1)%Z, max1, set_report st3 rep)
          else ext_loop rec rd exts cond len todo s1 max1
                 (set_report st3 (isr_remove rep 1))
     else ext_loop rec rd exts cond len todo s1 max1
            (set_report st3 (isr_remove (st_report st3) 1))) = Some (s', max', st') →
    same_ips_below (len - 1) (st_occs st') (st_occs st)).
  { intros s1 st3 H3. destruct (_ || _).
    - destruct (isr_report _) as [r0 rep]. destruct (r0 <? 0)%Z.
      + by intros [= <- <- <-].
      + intros H. apply IH in H. by eapply same_ips_below_trans.
    - intros H. apply IH in H. by eapply same_ips_below_trans. }
  destruct cond; [|by apply Hrep].
  destruct (project _ _ _ _) as [c z]. destruct (0 <? z); [|by apply Hrep].
  destruct (rec c z st2) as [[s1 st3]|] eqn:E; [|done].
  apply Hrec in E.
  assert (H3 : same_ips_below (len - 1) (st_occs st3) (st_occs st)).
  { eapply same_ips_below_trans; [|exact Hb1].
    eapply same_ips_below_weaken; [|exact E]. lia. }
  destruct (s1 <? 0)%Z; [by intros [= <- <- <-]|by apply Hrep].
Qed.

(** A call of [recurse] for a pattern of [len] items writes no position
    of [ips] below [len], in any mode and in any run. *)
Lemma recurse_below fuel : ∀ exts z len rd st r st',
  recurse fuel exts z len rd st = Some (r, st') →
  same_ips_below len (st_occs st') (st_occs st).
Proof.
  induction fuel as [|fuel IH]; intros exts z len rd st r st'; [done|].
  cbn [recurse].
  assert (Hrec : ∀ c z st1 r st1',
    recurse fuel c z (S len) rd st1 = Some (r, st1') →
    same_ips_below (S len) (st_occs st1') (st_occs st1)).
  { intros c z1 st1 r1 st1' H. by eapply IH. }
  assert (Hloop : ∀ cond st1, st_occs st1 = st_occs st →
    match ext_loop (λ c z st, recurse fuel c z (S len) rd st)
            rd exts cond (S len) (seq 0 (rd_cnt rd)) 0%Z 0%Z st1 with
    | Some (s, max, st0) => Some (if (s <? 0)%Z then s else max, st0)
    | None => None
    end = Some (r, st') → same_ips_below len (st_occs st') (st_occs st)).
  { intros cond st1 H1.
    destruct (ext_loop _ _ _ _ _ _ _ _ _) as [[[s max] st2]|] eqn:E; [|done].
    intros [= <- <-]. apply (ext_loop_below _ _ _ _ _ _ Hrec) in E.
    cbn [Nat.sub] in E. rewrite Nat.sub_0_r, H1 in E. done. }
  destruct (_ <=? _)%Z.
  - unfold malloc. destruct (malloc_list _) as [ok h]. destruct ok; cbn [negb].
    + by apply Hloop.
    + intros [= <- <-]. apply same_ips_below_refl.
  - cbn [negb]. by apply Hloop.
Qed.

(** Anchoring the items of [todo] that reach the minimum support. *)
Lemma anchor_fold_congr rd exts len todo : ∀ occs occs' : list (PATOCC nat),
  same_ips_below len occs occs' →
  same_ips_below len (fold_left (anchor_step rd exts len) todo occs)
                     (fold_left (anchor_step rd exts len) todo occs').
Proof.
  induction todo as [|i todo IH]; intros occs occs' H; [done|]. cbn [fold_left].
  apply IH. unfold anchor_step. destruct (_ <? _)%Z; [done|by apply anchor_congr].
Qed.

(** In closed mode a loop of [recurse] that meets no failure leaves in
    the positions below [len] what the anchoring of its items gives. *)
Lemma ext_loop_net rec rd exts cond len todo :
  closed_mode rd = true →
  (∀ c z st1 r st1', rec c z st1 = Some (r, st1') →
     same_ips_below len (st_occs st1') (st_occs st1)) →
  ∀ s max st s' max' st',
    ext_loop rec rd exts cond len todo s max st = Some (s', max', st') →
    (0 ≤ s')%Z →
    same_ips_below len (st_occs st')
      (fold_left (anchor_step rd exts len) todo (st_occs st)).
Proof.
  intros Hmode Hrec. induction todo as [|i todo IH]; intros s max st s' max' st';
    cbn [ext_loop fold_left].
  { intros [= <- <- <-] _. apply same_ips_below_refl. }
  replace (anchor_step rd exts len (st_occs st) i)
    with (if (pe_supp (exts !!! i) <? rd_smin rd)%Z then st_occs st
          else anchor len (pe_oxs (exts !!! i)) (st_occs st)) by done.
  destruct (_ <? _)%Z; [by apply IH|].
  set (max1 := if (max <? _)%Z then _ else max).
  unfold closed_test, closed. rewrite Hmode. cbn [negb orb].
  set (occs1 := anchor len (pe_oxs (exts !!! i)) (st_occs st)).
  destruct (scan_gaps _ _ _ _ _) as [r frqs].
  set (st1 := set_frqs (set_occs st occs1) frqs).
  assert (Hgo : ∀ s1 st3, same_ips_below len (st_occs st3) occs1 →
    ext_loop rec rd exts cond len todo s1 max1 st3 = Some (s', max', st') →
    (0 ≤ s')%Z →
    same_ips_below len (st_occs st')
      (fold_left (anchor_step rd exts len) todo occs1)).
  { intros s1 st3 H3 H Hs. apply IH in H; [|done].
    eapply same_ips_below_trans; [exact H|]. by apply anchor_fold_congr. }
  destruct (r =? 0)%Z.
  { apply Hgo. apply same_ips_below_refl. }
  set (st2 := set_report st1 _).
  assert (Hrep : ∀ s1 st3, same_ips_below len (st_occs st3) occs1 →
    (if (s1 <? pe_supp (exts !!! i))%Z
     then let '(r0, rep) := isr_report (st_report st3) in
          if (r0 <? 0)%Z then Some ((-1)%Z, max1, set_report st3 rep)
          else ext_loop rec rd exts cond len todo s1 max1
                 (set_report st3 (isr_remove rep 1))
     else ext_loop rec rd exts cond len todo s1 max1
            (set_report st3 (isr_remove (st_report st3) 1))) = Some (s', max', st') →
    (0 ≤ s')%Z →
    same_ips_below len (st_occs st')
      (fold_left (anchor_step rd exts len) todo occs1)).
  { intros s1 st3 H3. destruct (s1 <? pe_supp (exts !!! i))%Z.
    - destruct (isr_report _) as [r0 rep]. destruct (r0 <? 0)%Z.
      + intros [= <- <- <-] ?. lia.
      + by apply Hgo.
    - by apply Hgo. }
  destruct cond; [|apply Hrep; apply same_ips_below_refl].
  destruct (project _ _ _ _) as [c z].
  destruct (0 <? z); [|apply Hrep; apply same_ips_below_refl].
  destruct (rec c z st2) as [[s1 st3]|] eqn:E; [|done].
  apply Hrec in E.
  destruct (Z.ltb_spec s1 0); [intros [= <- <- <-] ?; lia|by apply Hrep].
Qed.

Lemma recurse_net fuel exts z len rd st r st' :
  closed_mode rd = true →
  recurse fuel exts z len rd st = Some (r, st') → (0 ≤ r)%Z →
  same_ips_below (S len) (st_occs st') (anchor_frequent rd exts (S len) (st_occs st)).
Proof.
  intros Hmode. destruct fuel as [|fuel]; [done|]. cbn [recurse].
  assert (Hrec : ∀ c z st1 r st1',
    recurse fuel c z (S len) rd st1 = Some (r, st1') →
    same_ips_below (S len) (st_occs st1') (st_occs st1)).
  { intros c z1 st1 r1 st1' H. by eapply recurse_below. }
  assert (Hloop : ∀ cond st1, st_occs st1 = st_occs st →
    match ext_loop (λ c z st, recurse fuel c z (S len) rd st)
            rd exts cond (S len) (seq 0 (rd_cnt rd)) 0%Z 0%Z st1 with
    | Some (s, max, st0) => Some (if (s <? 0)%Z then s else max, st0)
    | None => None
    end = Some (r, st') → (0 ≤ r)%Z →
    same_ips_below (S len) (st_occs st')
      (anchor_frequent rd exts (S len) (st_occs st))).
  { intros cond st1 H1.
    destruct (ext_loop _ _ _ _ _ _ _ _ _) as [[[s max] st2]|] eqn:E; [|done].
    intros [= <- <-] Hr. apply (ext_loop_net _ _ _ _ _ _ Hmode Hrec) in E.
    - by rewrite H1 in E.
    - destruct (Z.ltb_spec s 0); lia. }
  destruct (_ <=? _)%Z.
  - unfold malloc. destruct (malloc_list _) as [ok h]. destruct ok; cbn [negb].
    + by apply Hloop.
    + intros [= <- <-] ?. lia.
  - cbn [negb]. by apply Hloop.
Qed.

(** In closed mode the loop of [recurse] makes its recursive calls
    only in states in which the extension of the item is anchored: what
    the call does in another state does not matter to the loop. *)
Lemma ext_loop_anchored_calls rec rec' rd exts cond len :
  closed_mode rd = true →
  (∀ c z st1 r st1', rec c z st1 = Some (r, st1') →
     same_tracts (st_occs st1') (st_occs st1)) →
  ∀ todo s max st,
    (∀ i, i ∈ todo → oxs_ok (st_occs st) (pe_oxs (exts !!! i)) (len - 1)) →
    (∀ c z st1, anchored_call rd exts len todo c st1 → rec' c z st1 = rec c z st1) →
    ext_loop rec' rd exts cond len todo s max st =
    ext_loop rec rd exts cond len todo s max st.
Proof.
  intros Hmode Hrec. induction todo as [|i todo IH]; intros s max st Hok Hagree;
    cbn [ext_loop]; [done|].
  assert (Hagree' : ∀ c z st1, anchored_call rd exts len todo c st1 →
                               rec' c z st1 = rec c z st1).
  { intros c z st1 (i' & Hi' & H). apply Hagree. exists i'. split; [by right|done]. }
  assert (Hnext : ∀ s1 max1 st3, same_tracts (st_occs st3) (st_occs st) →
    ext_loop rec' rd exts cond len todo s1 max1 st3 =
    ext_loop rec rd exts cond len todo s1 max1 st3).
  { intros s1 max1 st3 H3. apply IH; [|done]. intros i' Hi'.
    eapply oxs_ok_same_tracts; [exact H3|]. apply Hok. by right. }
  destruct (Z.ltb_spec (pe_supp (exts !!! i)) (rd_smin rd)) as [Hlow|Hhigh].
  { apply Hnext. apply same_tracts_refl. }
  set (max1 := if (max <? _)%Z then _ else max).
  unfold closed_test, closed. rewrite Hmode. cbn [negb orb].
  set (occs1 := anchor len (pe_oxs (exts !!! i)) (st_occs st)).
  assert (Ha : anchored occs1 (pe_oxs (exts !!! i)) (len - 1)).
  { apply anchor_anchored, Hok. by left. }
  assert (Ht1 : same_tracts occs1 (st_occs st)) by apply same_tracts_anchor.
  destruct (scan_gaps _ _ _ _ _) as [r frqs].
  set (st1 := set_frqs (set_occs st occs1) frqs).
  destruct (r =? 0)%Z; [by apply Hnext|].
  set (st2 := set_report st1 _).
  assert (Hrep : ∀ s1 st3, same_tracts (st_occs st3) (st_occs st) →
    (if (s1 <? pe_supp (exts !!! i))%Z
     then let '(r0, rep) := isr_report (st_report st3) in
          if (r0 <? 0)%Z then Some ((-1)%Z, max1, set_report st3 rep)
          else ext_loop rec' rd exts cond len todo s1 max1
                 (set_report st3 (isr_remove rep 1))
     else ext_loop rec' rd exts cond len todo s1 max1
            (set_report st3 (isr_remove (st_report st3) 1))) =
    (if (s1 <? pe_supp (exts !!! i))%Z
     then let '(r0, rep) := isr_report (st_report st3) in
          if (r0 <? 0)%Z then Some ((-1)%Z, max1, set_report st3 rep)
          else ext_loop rec rd exts cond len todo s1 max1
                 (set_report st3 (isr_remove rep 1))
     else ext_loop rec rd exts cond len todo s1 max1
            (set_report st3 (isr_remove (st_report st3) 1)))).
  { intros s1 st3 H3. destruct (s1 <? pe_supp (exts !!! i))%Z.
    - destruct (isr_report _) as [r0 rep]. destruct (r0 <? 0)%Z; [done|by apply Hnext].
    - by apply Hnext. }
  destruct cond; [|by apply Hrep].
  destruct (project ukey (st_occs st2) (rd_cnt rd) (exts !!! i)) as [c z] eqn:Ep.
  destruct (0 <? z); [|by apply Hrep].
  rewrite (Hagree c z st2).
  2:{ exists i. split; [by left|]. split; [done|]. split; [done|]. by rewrite Ep. }
  destruct (rec c z st2) as [[s1 st3]|] eqn:E; [|done].
  apply Hrec in E.
  destruct (s1 <? 0)%Z; [done|]. apply Hrep. by eapply same_tracts_trans.
Qed.
End Anchoring.

(** A run whose answers of [malloc] and of the output are all successes
    has met no failure. *)
Lemma run_failed_all_true {A D : Type} (st st' : state A D) :
  run_failed st st' → all_true (st_heap st) → all_true (isr_io (st_report st)) → False.
Proof.
  intros (u & (uh & uo & Hh & Ho & ->) & Hu) H1 H2. unfold all_true in *.
  rewrite Hh in H1. rewrite Ho in H2.
  apply Forall_app in H1 as [H1 _]. apply Forall_app in H2 as [H2 _].
  apply elem_of_app in Hu as [Hu|Hu].
  - by apply (proj1 (Forall_forall _ _) H1) in Hu.
  - by apply (proj1 (Forall_forall _ _) H2) in Hu.
Qed.

Lemma all_zero_replicate k : all_zero (replicate k 0).
Proof.
  intros a. rewrite list_lookup_total_alt.
  destruct (replicate k 0 !! a) as [x|] eqn:E; [|done].
  by apply lookup_replicate_1 in E as [-> _].
Qed.

(** * The claims *)

(** Closes a decidable goal about concrete data by evaluation. *)
Ltac by_eval := apply (bool_decide_unpack _); vm_compute; exact I.

(** C1. With the target "closed sequences" (option -t c) the program is
    claimed to report closed sequences only.  [main] passes the mode 0 to
    the search, so the search runs in ALL mode: on the bag of scenario 2
    with smin = 2 it reports all six frequent sequences, as for the target
    "frequent sequences". *)
Theorem main_closed_target_reports_all :
  main_search 0%Z Z.add Z.mul id 5 "c" 0 4 2 (plain scenario1) [] [] =
    Some (0%Z, mkISREPORT 0 4 3 []
                 [Pat [0; 1] [] 2%Z; Pat [0; 2] [] 2%Z; Pat [0] [] 3%Z;
                  Pat [1] [] 2%Z; Pat [2] [] 2%Z; Pat [] [] 3%Z] []) ∧
  main_search 0%Z Z.add Z.mul id 5 "c" 0 4 2 (plain scenario1) [] [] =
  main_search 0%Z Z.add Z.mul id 5 "s" 0 4 2 (plain scenario1) [] [].
Proof. split; vm_compute; reflexivity. Qed.

(** C2. In ALL mode, for a bag with unique item occurrences per
    transaction and a run in which nothing fails, the patterns that
    [sequoia] reports are exactly the sequences with support at least
    [smin] and a length in [zmin, zmax], each once and with its support. *)
Theorem sequoia_all_frequent {D : Type} (fuel : nat) (tabag : TABAG nat)
    (target smin mode zmin zmax : Z) (io heap : list bool) :
  bag_ok ukey tabag = true →
  (1 ≤ smin)%Z →
  Z.land mode ISR_CLOSED = 0%Z →
  all_true io → all_true heap →
  Z.to_nat zmax < fuel →
  ∃ rep : ISREPORT D,
    sequoia fuel tabag target smin mode (isr_create (tbg_wgt tabag) zmin zmax io) heap
      = Some (0%Z, rep) ∧
    NoDup (isr_out rep) ∧
    ∀ p, p ∈ isr_out rep ↔ frequent tabag smin zmin zmax p.
Proof.
  intros Hok Hsmin Hmode Hio Hheap Hfuel. unfold sequoia.
  destruct (Z.ltb_spec 0 smin) as [_|?]; [|lia].
  set (report := isr_create (D:=D) (tbg_wgt tabag) zmin zmax io).
  assert (Hempty : ∀ p : PATTERN D, frequent tabag smin zmin zmax p → pat_items p = [] →
            p = Pat [] [] (tbg_wgt tabag)).
  { intros [it w s] (H1 & H2 & _) H3. cbn in *. subst. by rewrite support_nil. }
  assert (Hsz : ∀ rep : ISREPORT D, isr_zmin rep = zmin → isr_zmax rep = zmax →
            size_ok rep 0 = true ↔ (zmin ≤ 0 ≤ zmax)%Z).
  { intros rep H1 H2. unfold size_ok. rewrite H1, H2. change (Z.of_nat 0) with 0%Z.
    destruct (Z.ltb_spec 0 zmin); destruct (Z.ltb_spec zmax 0); cbn; split; try done; lia. }
  destruct (Z.ltb_spec (tbg_wgt tabag) smin) as [Hlow|Hhigh].
  { exists report. split; [done|]. split; [constructor|]. intros p. split.
    - intros H. by apply elem_of_nil in H.
    - intros (_ & H2 & H3 & _). exfalso.
      pose proof (support_app_le ukey tabag [] (pat_items p) Hok) as Hle.
      rewrite support_nil in Hle. cbn in Hle. lia. }
  assert (Hlast : ∀ rep : ISREPORT D, all_true (isr_io rep) → isr_stack rep = [] →
            isr_wgt rep = tbg_wgt tabag → isr_zmin rep = zmin → isr_zmax rep = zmax →
            ∃ rep', isr_report rep = (0%Z, rep') ∧
              reported rep rep' (if size_ok rep 0 then [Pat [] [] (tbg_wgt tabag)] else [])).
  { intros rep Hrio Hstk Hw _ _. unfold isr_report. rewrite Hstk, Hw. cbn [fmap list_fmap rev].
    destruct (isr_emit_ok rep (Pat [] [] (tbg_wgt tabag)) Hrio) as (rep' & -> & _ & Hr).
    by exists rep'. }
  destruct (Nat.eqb_spec (tbg_itemcnt tabag) 0) as [Hk0|Hk].
  { destruct (Hlast report) as (rep' & -> & (F1 & F2 & F3 & F4 & F5)); try done.
    exists rep'. split; [done|]. rewrite F5. cbn [isr_out report isr_create app].
    split; [destruct (size_ok _ _); [apply NoDup_singleton|constructor]|].
    intros p. pose proof (Hsz report eq_refl eq_refl) as Hs0. split.
    - intros Hp. destruct (size_ok report 0); [|by apply elem_of_nil in Hp].
      apply list_elem_of_singleton in Hp as ->. repeat split; cbn.
      + by rewrite support_nil.
      + lia.
      + by apply Hs0.
      + by apply Hs0.
    - intros Hp. assert (pat_items p = []) as Hnil.
      { destruct Hp as (_ & H2 & H3 & _).
        assert (0 < support ukey tabag (pat_items p))%Z as Hpos by lia.
        apply (support_pos_items ukey tabag _ Hok) in Hpos as [_ Hpos].
        destruct (pat_items p) as [|i R]; [done|]. specialize (Hpos i (list_elem_of_here _ _)). lia. }
      rewrite (Hempty p Hp Hnil). destruct Hp as (_ & _ & _ & H4). rewrite Hnil in H4.
      cbn in H4. apply Hs0 in H4. rewrite H4. by left. }
  destruct (all_true_malloc heap Hheap) as [E1 Hh1].
  destruct (malloc_list heap) as [ok h1]. cbn in E1, Hh1. subst ok. cbn [negb].
  destruct (all_true_malloc h1 Hh1) as [E1 Hh2].
  destruct (malloc_list h1) as [ok h2]. cbn in E1, Hh2. subst ok. cbn [negb].
  destruct (all_true_malloc h2 Hh2) as [E1 Hh3].
  destruct (malloc_list h2) as [ok h3]. cbn in E1, Hh3. subst ok. cbn [negb].
  rewrite root_exts_spec.
  set (rd := mkRECDATA target mode (tbg_itemcnt tabag) (isr_zmax report) smin).
  set (st := mkstate _ _ _ _ _ _).
  assert (Hcm : closed_mode rd = false).
  { unfold closed_mode. cbn. by rewrite Hmode. }
  destruct (recurse_all tabag rd zmin Hok Hsmin Hcm eq_refl fuel [] (tbg_extent tabag) st)
    as (r & st' & new & E & Hr & (G1 & G2 & G3 & G4 & G5 & G6 & G7 & G8) & Hnew & Hmem).
  { repeat split; done. }
  { cbn. lia. }
  cbn [length] in E. rewrite E.
  destruct (Z.leb_spec 0 r) as [_|?]; [|lia]. rewrite Hmode. cbn [Z.eqb orb andb].
  rewrite orb_true_r.
  destruct (Hlast (st_report st')) as (rep' & -> & (F1 & F2 & F3 & F4 & F5)); try done.
  exists rep'. split; [done|]. rewrite F5, G8. cbn [isr_out st st_report report isr_create app].
  pose proof (Hsz (st_report st') G4 G5) as Hs0.
  assert (Hei : ∀ p, p ∈ (if size_ok (st_report st') 0 then [Pat [] [] (tbg_wgt tabag)] else [])
                  ↔ p = Pat (D:=D) [] [] (tbg_wgt tabag) ∧ (zmin ≤ 0 ≤ zmax)%Z).
  { intros p. rewrite <- Hs0. destruct (size_ok _ _).
    - rewrite list_elem_of_singleton. tauto.
    - split; [intros Hx; by apply elem_of_nil in Hx|]. intros [_ ?]. done. }
  split.
  - apply NoDup_app. split; [done|]. split.
    + intros p Hp Hp'. apply Hmem in Hp as (_ & R & HR & Hp). apply Hei in Hp' as [-> _].
      cbn in Hp. by subst.
    + destruct (size_ok _ _); [apply NoDup_singleton|constructor].
  - intros p. rewrite elem_of_app, Hmem, Hei. split.
    + intros [(Hw & _)|[-> Hz]]; [done|]. repeat split; cbn; try lia. by rewrite support_nil.
    + intros Hp. destruct (pat_items p) as [|i R] eqn:Ep.
      * right. split; [by apply Hempty|]. destruct Hp as (_ & _ & _ & H4). by rewrite Ep in H4.
      * left. split; [done|]. by exists (i :: R).
Qed.

(** The run of scenario 1 (smin = 2, lengths 0 to 4) meets the conditions
    of [sequoia_all_frequent]. *)
Lemma sequoia_all_frequent_witness :
  bag_ok ukey scenario1 = true ∧ (1 ≤ 2)%Z ∧ Z.land 0 ISR_CLOSED = 0%Z ∧
  all_true [] ∧ Z.to_nat 4 < 5 ∧
  ∃ rep : ISREPORT unit,
    sequoia 5 scenario1 0 2 0 (isr_create (tbg_wgt scenario1) 0 4 []) [] = Some (0%Z, rep) ∧
    NoDup (isr_out rep) ∧ ∀ p, p ∈ isr_out rep ↔ frequent scenario1 2 0 4 p.
Proof.
  split; [reflexivity|]. split; [lia|]. split; [reflexivity|].
  split; [by constructor|]. split; [cbn; lia|].
  apply (sequoia_all_frequent (D:=unit) 5 scenario1 0 2 0 0 4 [] []);
    [reflexivity|lia|reflexivity|by constructor|by constructor|cbn; lia].
Defined.

(** C3. [sequoia_iw] is claimed to return a negative status when [rec_iw]
    fails.  When the allocation in [rec_iw] fails (the fourth of the run)
    [rec_iw] returns -1, and [sequoia_iw] then reports the empty sequence
    and returns 0. *)
Theorem sequoia_iw_turns_error_into_success :
  (∃ st', rec_iw 0%Z Z.add Z.mul id 5 (root_exts wkey 2 (make_occs scenario4)) 4 0
            (root_rd scenario4 0 4 3) (root_wstate scenario4 0 4 [] [false])
          = Some ((-1)%Z, st')) ∧
  sequoia_iw 0%Z Z.add Z.mul id 5 scenario4 0 3 0 (isr_create 3 0 4 [])
             [true; true; true; false]
    = Some (0%Z, mkISREPORT 0 4 3 [] [Pat [] [] 3%Z] []).
Proof. split; [eexists|]; vm_compute; reflexivity. Qed.

(** C4. In closed mode a pattern whose item passes the closedness test is
    claimed to be reported unless the recursive call for this item returns
    a support that is as large as its own, with 0 standing for no call.
    For the bag {(a,c):2, (a):1, (b):2} and smin = 2 the item b passes the
    test, has support 2 and no conditional extensions, so that no call is
    made; [s] still holds the 2 that the call for the item a returned, and
    (b) is not reported, by [sequoia] and by [sequoia_iw]. *)
Theorem closed_pattern_lost_to_stale_support :
  let exts := root_exts ukey 3 (make_occs bag_acb) in
  let rd := root_rd bag_acb ISR_CLOSED 4 2 in
  let st := root_state bag_acb 0 4 [] [] in
  pe_supp (exts !!! 1) = 2%Z ∧
  (closed_test rd (exts !!! 1) 1 st).1 = (-1)%Z ∧
  (project ukey (make_occs bag_acb) 3 (exts !!! 1)).2 = 0 ∧
  sequoia 5 bag_acb ISR_CLOSED 2 ISR_CLOSED (isr_create (D:=unit) 5 0 4 []) [] =
    Some (0%Z, mkISREPORT 0 4 5 []
                 [Pat [0; 2] [] 2%Z; Pat [0] [] 3%Z; Pat [] [] 5%Z] []) ∧
  sequoia_iw 0%Z Z.add Z.mul id 5 wbag_acb ISR_CLOSED 2 ISR_CLOSED (isr_create 5 0 4 []) [] =
    Some (0%Z, mkISREPORT 0 4 5 []
                 [Pat [0; 2] [2; 2]%Z 2%Z; Pat [0] [3%Z] 3%Z; Pat [] [] 5%Z] []).
Proof. repeat split; vm_compute; reflexivity. Qed.

(** C5. For an extension with at least one occurrence, taken from
    transactions without repeated items, [closed] and [closed_iw] return 0
    exactly when some gap [g < n] has an item that occurs in this gap of
    every occurrence, and -1 otherwise.  The gaps are those of the anchored
    occurrences: [closed] anchors position [n-1] itself. *)
Theorem closed_iff_common_gap_item {D : Type} :
  (∀ (ext : PATEXT) (n : nat) (st : state nat D),
     0 < pe_cnt ext → all_zero (st_frqs st) →
     (∀ x, x ∈ pe_oxs ext → NoDup (ukey <$> po_items (st_occs st !!! ox_occ x))) →
     (∀ x a, x ∈ pe_oxs ext → a ∈ po_items (st_occs st !!! ox_occ x) →
             ukey a < length (st_frqs st)) →
     ((closed ext n st).1 = 0%Z ↔
        ∃ g a, g < n ∧
          common_gap_item ukey (anchor n (pe_oxs ext) (st_occs st)) (pe_oxs ext) g a) ∧
     ((closed ext n st).1 = 0%Z ∨ (closed ext n st).1 = (-1)%Z)) ∧
  (∀ (ext : PATEXT) (n : nat) (st : state (WITEM D) D),
     0 < pe_cnt ext → all_zero (st_frqs st) →
     (∀ x, x ∈ pe_oxs ext → NoDup (wkey <$> po_items (st_occs st !!! ox_occ x))) →
     (∀ x a, x ∈ pe_oxs ext → a ∈ po_items (st_occs st !!! ox_occ x) →
             wkey a < length (st_frqs st)) →
     ((closed_iw ext n st).1 = 0%Z ↔
        ∃ g a, g < n ∧ common_gap_item wkey (st_occs st) (pe_oxs ext) g a) ∧
     ((closed_iw ext n st).1 = 0%Z ∨ (closed_iw ext n st).1 = (-1)%Z)).
Proof.
  split.
  - intros ext n st Hcnt Hz Hnd Hr. unfold closed.
    pose proof (scan_gaps_spec ukey (anchor n (pe_oxs ext) (st_occs st)) (pe_oxs ext) n
                  (st_frqs st)) as H.
    destruct (scan_gaps _ _ _ _ _) as [r frqs]. cbn [fst] in *. apply H; [|done|..].
    + unfold pe_cnt in Hcnt. destruct (pe_oxs ext); [cbn in Hcnt; lia|done].
    + intros x Hx. destruct (anchor_items n (pe_oxs ext) (st_occs st) (ox_occ x)) as (-> & _).
      by apply Hnd.
    + intros x a Hx. destruct (anchor_items n (pe_oxs ext) (st_occs st) (ox_occ x)) as (-> & _).
      by apply Hr.
  - intros ext n st Hcnt Hz Hnd Hr. unfold closed_iw.
    pose proof (scan_gaps_spec wkey (st_occs st) (pe_oxs ext) n (st_frqs st)) as H.
    destruct (scan_gaps _ _ _ _ _) as [r frqs]. cbn [fst] in *. apply H; [|done..].
    unfold pe_cnt in Hcnt. destruct (pe_oxs ext); [cbn in Hcnt; lia|done].
Qed.

(** In scenario 1 the extension by c of the empty pattern is not closed:
    a is in gap 0 of both occurrences. *)
Lemma closed_iff_common_gap_item_witness :
  let e := root_exts ukey 3 (make_occs scenario1) !!! 2 in
  let st := root_state scenario1 0 4 [] [] in
  0 < pe_cnt e ∧ all_zero (st_frqs st) ∧
  ((closed e 1 st).1 = 0%Z ↔
     ∃ g a, g < 1 ∧ common_gap_item ukey (anchor 1 (pe_oxs e) (st_occs st)) (pe_oxs e) g a) ∧
  (closed e 1 st).1 = 0%Z.
Proof.
  cbv zeta. split; [cbn; lia|]. split; [apply all_zero_replicate|].
  split; [|reflexivity].
  apply (proj1 (closed_iff_common_gap_item (D:=unit))
           (root_exts ukey 3 (make_occs scenario1) !!! 2) 1 (root_state scenario1 0 4 [] [])).
  - cbn; lia.
  - apply all_zero_replicate.
  - apply Forall_forall. by_eval.
  - intros x a Hx. revert a. apply Forall_forall. revert x Hx. apply Forall_forall. by_eval.
Defined.

(** C6. A call of [recurse] or [rec_iw] (with a minimum support that is
    not negative, as in every call, and a recursion depth above the
    number of items by which the pattern can still grow) returns.  When
    it meets no failure it returns the maximum of the supports of the
    extension items that reach the minimum support, 0 if there is none,
    as it does whenever all answers of [malloc] and of the reporter are
    successes; when it meets a failure of [malloc] or of the reporter it
    returns a negative value. *)
Theorem recursion_returns_max_support {D : Type} (dzero : D) (dadd dmul : D → D → D)
    (of_supp : Z → D) (fuel : nat) (exts : list PATEXT) (z len : nat) (rd : RECDATA) :
  (0 ≤ rd_smin rd)%Z →
  Z.to_nat (rd_zmax rd - Z.of_nat len) < fuel →
  (∀ st : state nat D,
     ∃ r st', recurse fuel exts z len rd st = Some (r, st') ∧
       ((run_ok st st' ∧ is_max_supp r (freq_supps rd exts (seq 0 (rd_cnt rd)))) ∨
        (run_failed st st' ∧ (r < 0)%Z)) ∧
       (all_true (st_heap st) → all_true (isr_io (st_report st)) →
        is_max_supp r (freq_supps rd exts (seq 0 (rd_cnt rd))))) ∧
  (∀ st : state (WITEM D) D,
     ∃ r st', rec_iw dzero dadd dmul of_supp fuel exts z len rd st = Some (r, st') ∧
       ((run_ok st st' ∧ is_max_supp r (freq_supps rd exts (seq 0 (rd_cnt rd)))) ∨
        (run_failed st st' ∧ (r < 0)%Z)) ∧
       (all_true (st_heap st) → all_true (isr_io (st_report st)) →
        is_max_supp r (freq_supps rd exts (seq 0 (rd_cnt rd))))).
Proof.
  intros Hsmin Hfuel. split.
  - intros st. destruct (recurse_total fuel exts z len rd st Hfuel) as [[r st'] H].
    exists r, st'. split; [done|].
    pose proof (recurse_result fuel exts z len rd st r st' Hsmin H) as Hres.
    split; [done|]. intros Hh Hio. destruct Hres as [[_ Hmax]|[Hf _]]; [done|].
    exfalso. by eapply run_failed_all_true.
  - intros st.
    destruct (rec_iw_total dzero dadd dmul of_supp fuel exts z len rd st Hfuel)
      as [[r st'] H].
    exists r, st'. split; [done|].
    pose proof (rec_iw_result dzero dadd dmul of_supp fuel exts z len rd st r st' Hsmin H)
      as Hres.
    split; [done|]. intros Hh Hio. destruct Hres as [[_ Hmax]|[Hf _]]; [done|].
    exfalso. by eapply run_failed_all_true.
Qed.

(** The first call of [recurse] for scenario 1 in ALL mode returns 3, the
    support of (a); the first call of [rec_iw] for scenario 4 in closed
    mode returns 3, the support of (a) and of (b), and -1 when its
    allocation fails. *)
Lemma recursion_returns_max_support_witness :
  let exts := root_exts ukey 3 (make_occs scenario1) in
  let rd := root_rd scenario1 0 4 2 in
  let st := root_state scenario1 0 4 [] [] in
  let wexts := root_exts wkey 2 (make_occs scenario4) in
  let wrd := root_rd scenario4 ISR_CLOSED 4 2 in
  let wst := root_wstate scenario4 0 4 [] [] in
  let wst_f := root_wstate scenario4 0 4 [] [false] in
  (0 ≤ rd_smin rd)%Z ∧ Z.to_nat (rd_zmax rd - Z.of_nat 0) < 5 ∧
  (0 ≤ rd_smin wrd)%Z ∧ Z.to_nat (rd_zmax wrd - Z.of_nat 0) < 5 ∧
  (∃ st', recurse 5 exts 7 0 rd st = Some (3%Z, st')) ∧
  (∃ st', rec_iw 0%Z Z.add Z.mul id 5 wexts 4 0 wrd wst = Some (3%Z, st')) ∧
  (∃ st', rec_iw 0%Z Z.add Z.mul id 5 wexts 4 0 wrd wst_f = Some ((-1)%Z, st')) ∧
  (∃ r st', recurse 5 exts 7 0 rd st = Some (r, st') ∧
     ((run_ok st st' ∧ is_max_supp r (freq_supps rd exts (seq 0 (rd_cnt rd)))) ∨
      (run_failed st st' ∧ (r < 0)%Z)) ∧
     (all_true (st_heap st) → all_true (isr_io (st_report st)) →
      is_max_supp r (freq_supps rd exts (seq 0 (rd_cnt rd))))) ∧
  (∃ r st', rec_iw 0%Z Z.add Z.mul id 5 wexts 4 0 wrd wst = Some (r, st') ∧
     ((run_ok wst st' ∧ is_max_supp r (freq_supps wrd wexts (seq 0 (rd_cnt wrd)))) ∨
      (run_failed wst st' ∧ (r < 0)%Z)) ∧
     (all_true (st_heap wst) → all_true (isr_io (st_report wst)) →
      is_max_supp r (freq_supps wrd wexts (seq 0 (rd_cnt wrd))))) ∧
  (∃ r st', rec_iw 0%Z Z.add Z.mul id 5 wexts 4 0 wrd wst_f = Some (r, st') ∧
     ((run_ok wst_f st' ∧ is_max_supp r (freq_supps wrd wexts (seq 0 (rd_cnt wrd)))) ∨
      (run_failed wst_f st' ∧ (r < 0)%Z)) ∧
     (all_true (st_heap wst_f) → all_true (isr_io (st_report wst_f)) →
      is_max_supp r (freq_supps wrd wexts (seq 0 (rd_cnt wrd))))).
Proof.
  cbv zeta. split; [cbn; lia|]. split; [cbn; lia|]. split; [cbn; lia|]. split; [cbn; lia|].
  split; [eexists; vm_compute; reflexivity|].
  split; [eexists; vm_compute; reflexivity|].
  split; [eexists; vm_compute; reflexivity|].
  split; [|split].
  - apply (proj1 (recursion_returns_max_support tt (λ _ _, tt) (λ _ _, tt) (λ _, tt) 5
                    (root_exts ukey 3 (make_occs scenario1)) 7 0 (root_rd scenario1 0 4 2)
                    ltac:(cbn; lia) ltac:(cbn; lia))).
  - apply (proj2 (recursion_returns_max_support 0%Z Z.add Z.mul id 5
                    (root_exts wkey 2 (make_occs scenario4)) 4 0
                    (root_rd scenario4 ISR_CLOSED 4 2)
                    ltac:(cbn; lia) ltac:(cbn; lia))).
  - apply (proj2 (recursion_returns_max_support 0%Z Z.add Z.mul id 5
                    (root_exts wkey 2 (make_occs scenario4)) 4 0
                    (root_rd scenario4 ISR_CLOSED 4 2)
                    ltac:(cbn; lia) ltac:(cbn; lia))).
Defined.

(** C7, as amended.  In closed mode [recurse] anchors every extension
    item that reaches the minimum support, through [closed]: the test
    first sets [ips[len-1]] of every occurrence of the extension to the
    position of the extension item and scans the gaps of the occurrences
    so anchored; every recursive call of the loop is made in a state in
    which the extension of its item is anchored, with the projection
    taken on these occurrences, so that what the call would do in any
    other state does not matter to the loop; and a call of [recurse] that
    meets no failure leaves in [ips] what the anchoring of these items,
    one after the other, gives.  In ALL mode [recurse] writes nothing to
    the occurrences. *)
Theorem closed_mode_anchors_occurrences {D : Type} (rd : RECDATA) :
  (closed_mode rd = true →
   (∀ (e : PATEXT) (len : nat) (st : state nat D),
      oxs_ok (st_occs st) (pe_oxs e) (len - 1) →
      st_occs (closed_test rd e len st).2 = anchor len (pe_oxs e) (st_occs st) ∧
      anchored (st_occs (closed_test rd e len st).2) (pe_oxs e) (len - 1) ∧
      (closed_test rd e len st).1 =
        (scan_gaps ukey (anchor len (pe_oxs e) (st_occs st)) (pe_oxs e) len (st_frqs st)).1) ∧
   (∀ fuel exts cond len todo s max (st : state nat D)
      (rec' : list PATEXT → nat → state nat D → option (Z * state nat D)),
      (∀ i, i ∈ todo → oxs_ok (st_occs st) (pe_oxs (exts !!! i)) (len - 1)) →
      (∀ c z st1, anchored_call rd exts len todo c st1 →
                  rec' c z st1 = recurse fuel c z len rd st1) →
      ext_loop rec' rd exts cond len todo s max st =
      ext_loop (λ c z st1, recurse fuel c z len rd st1) rd exts cond len todo s max st) ∧
   (∀ fuel exts z len (st : state nat D) r st',
      recurse fuel exts z len rd st = Some (r, st') → (0 ≤ r)%Z →
      same_ips_below (S len) (st_occs st')
        (anchor_frequent rd exts (S len) (st_occs st)))) ∧
  (closed_mode rd = false →
   ∀ fuel exts z len (st : state nat D) r st',
     recurse fuel exts z len rd st = Some (r, st') → st_occs st' = st_occs st).
Proof.
  split.
  - intros Hmode. split; [|split].
    + intros e len st Hok. unfold closed_test, closed. rewrite Hmode.
      destruct (scan_gaps _ _ _ _ _) as [r frqs]. cbn.
      split; [done|]. split; [|done]. by apply anchor_anchored.
    + intros fuel exts cond len todo s max st rec' Hok Hagree.
      apply ext_loop_anchored_calls; [done| |done|done].
      intros c z st1 r st1' H. by apply recurse_below in H as [H _].
    + intros fuel exts z len st r st' H Hr. by eapply recurse_net.
  - intros Hmode fuel exts z len st r st'. by apply recurse_all_occs.
Qed.

(** In closed mode the test for the extension by b in scenario 1 leaves
    position 0 anchored at b, and the first call of [recurse] for
    scenario 1 leaves position 0 of the three occurrences at c, b and b,
    as the anchoring of a, b and c in turn does. *)
Lemma closed_mode_anchors_occurrences_witness :
  let rd := root_rd scenario1 ISR_CLOSED 4 2 in
  let exts := root_exts ukey 3 (make_occs scenario1) in
  let e := exts !!! 1 in
  let st := root_state scenario1 0 4 [] [] in
  closed_mode rd = true ∧ oxs_ok (st_occs st) (pe_oxs e) (1 - 1) ∧
  anchored (st_occs (closed_test rd e 1 st).2) (pe_oxs e) (1 - 1) ∧
  ∃ st', recurse 5 exts 7 0 rd st = Some (3%Z, st') ∧ (0 ≤ 3)%Z ∧
         (λ o, po_ips o !! 0) <$> st_occs st' = [Some 2; Some 1; Some 1] ∧
         same_ips_below 1 (st_occs st') (anchor_frequent rd exts 1 (st_occs st)).
Proof.
  cbv zeta.
  assert (Hok : oxs_ok (st_occs (root_state scenario1 0 4 [] []))
                  (pe_oxs (root_exts ukey 3 (make_occs scenario1) !!! 1)) (1 - 1)).
  { split; [by_eval|]. apply Forall_forall. by_eval. }
  split; [reflexivity|]. split; [exact Hok|]. split.
  - exact (proj1 (proj2 (proj1 (proj1 (closed_mode_anchors_occurrences (D:=unit)
                                (root_rd scenario1 ISR_CLOSED 4 2)) eq_refl)
                         (root_exts ukey 3 (make_occs scenario1) !!! 1) 1
                         (root_state scenario1 0 4 [] []) Hok))).
  - destruct (recurse 5 (root_exts ukey 3 (make_occs scenario1)) 7 0
                (root_rd scenario1 ISR_CLOSED 4 2) (root_state scenario1 0 4 [] []))
      as [[r st']|] eqn:E; [|vm_compute in E; discriminate E].
    assert (Hr : r = 3%Z).
    { vm_compute in E. by injection E as <- _. }
    subst r. exists st'. split; [reflexivity|]. split; [lia|]. split.
    + vm_compute in E. injection E as <-. reflexivity.
    + exact (proj2 (proj2 (proj1 (closed_mode_anchors_occurrences (D:=unit)
                                    (root_rd scenario1 ISR_CLOSED 4 2)) eq_refl))
               5 (root_exts ukey 3 (make_occs scenario1)) 7 0
               (root_state scenario1 0 4 [] []) 3%Z st' E ltac:(lia)).
Defined.

(** In ALL mode the extension by b of the empty pattern in scenario 1 has
    the support 2 = smin and the occurrence extension (position 1 of
    transaction 0); the step before the projection leaves [ips[0]] of this
    occurrence at 0, so that position 0 is not anchored, and the whole
    search leaves the occurrences as [sequoia] made them. *)
Lemma all_mode_leaves_ips_unanchored :
  let rd := root_rd scenario1 ISR_ALL 4 2 in
  let exts := root_exts ukey 3 (make_occs scenario1) in
  let st := root_state scenario1 0 4 [] [] in
  closed_mode rd = false ∧
  (rd_smin rd ≤ pe_supp (exts !!! 1%nat))%Z ∧
  mkOCCEXT 1 0 ∈ pe_oxs (exts !!! 1) ∧
  po_ips (st_occs (closed_test rd (exts !!! 1) 1 st).2 !!! 0) !! 0 = Some 0 ∧
  ¬ anchored (st_occs (closed_test rd (exts !!! 1) 1 st).2) (pe_oxs (exts !!! 1)) 0 ∧
  ∃ st', recurse 5 exts 7 0 rd st = Some (3%Z, st') ∧ st_occs st' = make_occs scenario1.
Proof.
  cbv zeta. split; [reflexivity|]. split; [by vm_compute|].
  assert (Hin : mkOCCEXT 1 0 ∈ pe_oxs (root_exts ukey 3 (make_occs scenario1) !!! 1)).
  { vm_compute. by left. }
  split; [exact Hin|]. split; [reflexivity|]. split.
  - intros H. specialize (H _ Hin). vm_compute in H. discriminate H.
  - eexists. split; vm_compute; reflexivity.
Defined.

(** C8. [closed] and [closed_iw] leave the counters [frqs] all zero when
    they were all zero at the call.  In the scan of one gap the touch list
    holds exactly the items whose counter is not zero, and clearing the
    counters on the touch list gives back the counters of the call. *)
Theorem closed_leaves_frqs_zero {D : Type} :
  (∀ (ext : PATEXT) n (st : state nat D),
     all_zero (st_frqs st) → all_zero (st_frqs (closed ext n st).2)) ∧
  (∀ (ext : PATEXT) n (st : state (WITEM D) D),
     all_zero (st_frqs st) → all_zero (st_frqs (closed_iw ext n st).2)) ∧
  (∀ {A} (key : A → nat) occs n oxs frqs f b k,
     all_zero frqs → scan_gap key occs n 0 oxs (frqs, [], 0) = (f, b, k) →
     (∀ a, a < length f → (a ∈ b ↔ f !!! a ≠ 0)) ∧ clear_frqs b f = frqs).
Proof.
  split; [|split].
  - intros ext n st Hz. unfold closed.
    pose proof (scan_gaps_all_zero ukey (anchor n (pe_oxs ext) (st_occs st)) (pe_oxs ext) n
                  (st_frqs st) Hz) as H.
    by destruct (scan_gaps _ _ _ _ _).
  - intros ext n st Hz. unfold closed_iw.
    pose proof (scan_gaps_all_zero wkey (st_occs st) (pe_oxs ext) n (st_frqs st) Hz) as H.
    by destruct (scan_gaps _ _ _ _ _).
  - intros A key occs n oxs frqs f b k Hz E.
    pose proof (scan_gap_length key _ _ _ _ _ _ _ _ _ _ E) as Hlen.
    apply scan_gap_touched in E; [|by apply all_zero_touched]. split.
    + intros a Ha. destruct (E a) as [E1 E2]. split; [intros Hin; by apply E2|done].
    + apply all_zero_eq; [by apply clear_touched|done|by rewrite clear_frqs_length].
Qed.

(** The test of the extension by c in scenario 1 leaves the counters zero. *)
Lemma closed_leaves_frqs_zero_witness :
  let e := root_exts ukey 3 (make_occs scenario1) !!! 2 in
  let st := root_state scenario1 0 4 [] [] in
  all_zero (st_frqs st) ∧ all_zero (st_frqs (closed e 1 st).2).
Proof.
  cbv zeta. split; [apply all_zero_replicate|].
  apply (proj1 (closed_leaves_frqs_zero (D:=unit))). apply all_zero_replicate.
Defined.

(** C9. Every pattern that the search with item weights reports carries
    its support and, for every position, the sum over the transactions
    that contain the pattern of the transaction weight times the weight of
    the item of this position in the transaction, added up in the order of
    the bag.  This holds in every mode and also when the run fails later. *)
Theorem reported_weights_are_weight_sums {D : Type} (dzero : D) (dadd dmul : D → D → D)
    (of_supp : Z → D) (fuel : nat) (tabag : TABAG (WITEM D)) (target smin mode : Z)
    (report : ISREPORT D) (heap : list bool) (r : Z) (rep : ISREPORT D) :
  bag_ok wkey tabag = true →
  sequoia_iw dzero dadd dmul of_supp fuel tabag target smin mode report heap = Some (r, rep) →
  ∃ new, isr_out rep = isr_out report ++ new ∧
    ∀ p, p ∈ new →
      pat_supp p = support wkey tabag (pat_items p) ∧
      pat_wgts p = pattern_wgts dzero dadd dmul of_supp tabag (pat_items p).
Proof.
  intros Hok Hrun. change (out_sound dzero dadd dmul of_supp tabag report rep).
  revert Hrun. unfold sequoia_iw.
  set (smin' := if (0 <? smin)%Z then smin else 1%Z).
  assert (Hsmin : (1 ≤ smin')%Z) by (unfold smin'; destruct (Z.ltb_spec 0 smin); lia).
  pose proof (out_sound_refl dzero dadd dmul of_supp tabag report) as Hnone.
  assert (Hempty : ∀ rep0 r1 rep1, report_empty rep0 (tbg_wgt tabag) = (r1, rep1) →
            out_sound dzero dadd dmul of_supp tabag rep0 rep1).
  { intros rep0 r1 rep1. unfold report_empty, isr_isetx.
    destruct (isr_emit _ _) as [r0 rep2] eqn:E. intros [= _ <-].
    apply isr_emit_out in E as [_ [E|E]]; unfold out_sound; rewrite E.
    - exists []. split; [by rewrite app_nil_r|]. intros p Hp. by apply elem_of_nil in Hp.
    - eexists. split; [done|]. intros p ->%list_elem_of_singleton. cbn.
      split; cbn; [by rewrite support_nil|done]. }
  clearbody smin'.
  destruct (_ <? _)%Z; [by intros [= _ <-]|].
  destruct (_ =? _).
  { intros H. destruct (report_empty _ _) as [r1 rep1] eqn:E. injection H as _ <-.
    by apply Hempty in E. }
  destruct (malloc_list heap) as [[] h1]; cbn [negb]; [|by intros [= _ <-]].
  destruct (malloc_list h1) as [[] h2]; cbn [negb]; [|by intros [= _ <-]].
  destruct (malloc_list h2) as [[] h3]; cbn [negb]; [|by intros [= _ <-]].
  rewrite root_exts_spec.
  set (rd := mkRECDATA _ _ _ _ _). set (st := mkstate _ _ _ _ _ _).
  destruct (rec_iw _ _ _ _ _ _ _ _ _ _) as [[r1 st1]|] eqn:E; [|done].
  apply (rec_iw_sound dzero dadd dmul of_supp tabag rd Hok Hsmin eq_refl fuel []) in E.
  2:{ split; [apply same_tracts_refl|]. split; [by intros j _ _ m i Hm|].
      subst st. cbn [st_items st_wgts]. by rewrite !length_replicate. }
  destruct E as [_ E].
  destruct (_ || _).
  - destruct (report_empty _ _) as [r2 rep2] eqn:E2. intros [= _ <-].
    apply Hempty in E2. by eapply out_sound_trans.
  - by intros [= _ <-].
Qed.

(** Scenario 4 with integer weights: (a,b) is reported with the support 3
    and the weight sums 1*1 + 2*2 = 5 and 1*3 + 2*4 = 11. *)
Lemma reported_weights_are_weight_sums_witness :
  let rep := mkISREPORT 0 4 3 []
               [Pat [0; 1] [5; 11]%Z 3%Z; Pat [0] [5%Z] 3%Z; Pat [1] [11%Z] 3%Z;
                Pat [] [] 3%Z] [] in
  bag_ok wkey scenario4 = true ∧
  sequoia_iw 0%Z Z.add Z.mul id 5 scenario4 0 3 0 (isr_create 3 0 4 []) [] = Some (0%Z, rep) ∧
  ∃ new, isr_out rep = isr_out (isr_create 3 0 4 []) ++ new ∧
    ∀ p, p ∈ new →
      pat_supp p = support wkey scenario4 (pat_items p) ∧
      pat_wgts p = pattern_wgts 0%Z Z.add Z.mul id scenario4 (pat_items p).
Proof.
  cbv zeta. split; [reflexivity|]. split; [vm_compute; reflexivity|].
  apply (reported_weights_are_weight_sums 0%Z Z.add Z.mul id 5 scenario4 0 3 0
           (isr_create 3 0 4 []) [] 0%Z); [reflexivity|vm_compute; reflexivity].
Defined.

(** C10. [recurse] and [rec_iw] terminate: a call at pattern length [len]
    needs a recursion depth of at most [zmax - len + 1]. *)
Theorem recursion_terminates {D : Type} (dzero : D) (dadd dmul : D → D → D)
    (of_supp : Z → D) (fuel : nat) (exts : list PATEXT) (z len : nat) (rd : RECDATA) :
  Z.to_nat (rd_zmax rd - Z.of_nat len) < fuel →
  (∀ st : state nat D, ∃ r st', recurse fuel exts z len rd st = Some (r, st')) ∧
  (∀ st : state (WITEM D) D,
     ∃ r st', rec_iw dzero dadd dmul of_supp fuel exts z len rd st = Some (r, st')).
Proof.
  intros Hf. split; intros st.
  - destruct (recurse_total fuel exts z len rd st Hf) as [[r st'] E]. by exists r, st'.
  - destruct (rec_iw_total dzero dadd dmul of_supp fuel exts z len rd st Hf) as [[r st'] E].
    by exists r, st'.
Qed.

(** With zmax = 4 a depth of 5 is enough for the first call. *)
Lemma recursion_terminates_witness :
  let exts := root_exts ukey 3 (make_occs scenario1) in
  let rd := root_rd scenario1 0 4 2 in
  Z.to_nat (rd_zmax rd - Z.of_nat 0) < 5 ∧
  ∃ r st', recurse 5 exts 7 0 rd (root_state scenario1 0 4 [] []) = Some (r, st').
Proof.
  cbv zeta. split; [cbn; lia|].
  apply (proj1 (recursion_terminates tt (λ _ _, tt) (λ _ _, tt) (λ _, tt) 5
                  (root_exts ukey 3 (make_occs scenario1)) 7 0 (root_rd scenario1 0 4 2)
                  ltac:(cbn; lia))).
Defined.

(** * Insertions, gaps and anchored positions *)

(** ** Insertions into a sequence *)

(** In a list without repetitions the elements of a sublist are in the
    order of the list. *)
Lemma sublist_pair_order {B} (l : list B) : ∀ u v pu pv,
  NoDup l → [u; v] `sublist_of` l → l !! pu = Some u → l !! pv = Some v → pu < pv.
Proof.
  induction l as [|x l IH]; intros u v pu pv Hnd Hs Hu Hv; [done|].
  apply NoDup_cons in Hnd as [Hx Hnd].
  apply sublist_cons_r in Hs as [Hs|(k' & [= -> <-] & Hs)].
  - assert (u ∈ l ∧ v ∈ l) as [Hul Hvl].
    { split; eapply elem_of_sublist; [by left|exact Hs|right; by left|exact Hs]. }
    destruct pu as [|pu]; [cbn in Hu; injection Hu as ->; done|].
    destruct pv as [|pv]; [cbn in Hv; injection Hv as ->; done|].
    cbn in Hu, Hv. specialize (IH u v pu pv Hnd Hs Hu Hv). lia.
  - assert (v ∈ l) as Hvl by (eapply elem_of_sublist; [|exact Hs]; by left).
    destruct pv as [|pv]; [cbn in Hv; injection Hv as ->; done|].
    destruct pu as [|pu]; [lia|]. cbn in Hu. exfalso. apply Hx.
    apply list_elem_of_lookup. by exists pu.
Qed.

(** A proper super-sequence contains a super-sequence with one item more. *)
Lemma sublist_insertion {B} (P Q : list B) :
  P `sublist_of` Q → P ≠ Q →
  ∃ Af Bb a, P = Af ++ Bb ∧ (Af ++ a :: Bb) `sublist_of` Q.
Proof.
  induction 1 as [|x P Q H IH|x P Q H IH]; intros Hne.
  - done.
  - destruct IH as (Af & Bb & a & -> & Hs); [congruence|].
    exists (x :: Af), Bb, a. split; [done|]. by constructor.
  - exists [], P, x. split; [done|]. by constructor.
Qed.

Section SupportOrder.
Context {A : Type} (key : A → nat).

Lemma support_sublist_le (tabag : TABAG A) P Q :
  bag_ok key tabag = true → P `sublist_of` Q →
  (support key tabag Q ≤ support key tabag P)%Z.
Proof.
  intros Hok HPQ. unfold support.
  assert (Hall : ∀ t, t ∈ tbg_tracts tabag → (0 ≤ ta_wgt t)%Z).
  { intros t Ht. by apply (bag_ok_tract key tabag t Hok) in Ht as (? & _). }
  induction (tbg_tracts tabag) as [|t ts IH]; [done|]. cbn [foldr].
  specialize (IH (λ t' H, Hall t' (list_elem_of_further _ _ _ H))).
  specialize (Hall t (list_elem_of_here _ _)).
  unfold contains in *. destruct (is_subseq Q _) eqn:EQ.
  - apply is_subseq_sublist in EQ.
    assert (is_subseq P (key <$> ta_items t) = true) as ->.
    { apply is_subseq_sublist. by etrans. }
    lia.
  - destruct (is_subseq P _); lia.
Qed.

(** With positive weights, a super-sequence of the same support is in
    every transaction that contains the sequence. *)
Lemma support_eq_contains (tabag : TABAG A) P Q :
  bag_ok key tabag = true → pos_wgts tabag → P `sublist_of` Q →
  (support key tabag P ≤ support key tabag Q)%Z →
  ∀ t, t ∈ tbg_tracts tabag → P `sublist_of` (key <$> ta_items t) →
       Q `sublist_of` (key <$> ta_items t).
Proof.
  intros _ Hpos HPQ Hs. unfold pos_wgts in Hpos.
  set (sum := λ R : list nat,
    foldr (λ (t : TRACT A) s, if contains key R t then (ta_wgt t + s)%Z else s) 0%Z).
  change (sum P (tbg_tracts tabag) ≤ sum Q (tbg_tracts tabag))%Z in Hs.
  revert Hpos Hs.
  assert (Hmono : ∀ ts, (∀ t, t ∈ ts → (0 < ta_wgt t)%Z) → (sum Q ts ≤ sum P ts)%Z).
  { induction ts as [|t ts IH]; intros Hpos; [done|]. cbn [sum foldr].
    specialize (IH (λ t' H, Hpos t' (list_elem_of_further _ _ _ H))).
    specialize (Hpos t (list_elem_of_here _ _)).
    fold (sum Q ts). fold (sum P ts).
    unfold contains. destruct (is_subseq Q _) eqn:EQ.
    - apply is_subseq_sublist in EQ.
      assert (is_subseq P (key <$> ta_items t) = true) as ->.
      { apply is_subseq_sublist. by etrans. }
      lia.
    - destruct (is_subseq P _); lia. }
  induction (tbg_tracts tabag) as [|t ts IH]; intros Hpos Hs t' Ht' HP.
  { by apply elem_of_nil in Ht'. }
  pose proof (Hmono ts (λ t' H, Hpos t' (list_elem_of_further _ _ _ H))) as Hts.
  specialize (IH (λ t' H, Hpos t' (list_elem_of_further _ _ _ H))).
  specialize (Hpos t (list_elem_of_here _ _)).
  cbn [sum foldr] in Hs. fold (sum Q ts) in Hs. fold (sum P ts) in Hs.
  unfold contains in Hs. destruct (is_subseq Q (key <$> ta_items t)) eqn:EQ.
  - apply is_subseq_sublist in EQ.
    assert (is_subseq P (key <$> ta_items t) = true) as EP.
    { apply is_subseq_sublist. etrans; [exact HPQ|exact EQ]. }
    rewrite EP in Hs.
    apply elem_of_cons in Ht' as [->|Ht']; [done|].
    apply IH; [lia|done|done].
  - destruct (is_subseq P (key <$> ta_items t)) eqn:EP.
    + exfalso. lia.
    + apply elem_of_cons in Ht' as [->|Ht'].
      * apply is_subseq_sublist in HP. congruence.
      * apply IH; done.
Qed.
End SupportOrder.

(** ** The gaps of an anchored occurrence *)

Section GapLemmas.
Context {A : Type} (key : A → nat).

(** An item that can be inserted before position [g] of the anchored
    pattern is in gap [g] of the occurrence. *)
Lemma insertion_in_gap (o : PATOCC A) (Af Bb : list nat) (a b : nat) :
  NoDup (key <$> po_items o) →
  (∀ m it, (Af ++ b :: Bb) !! m = Some it →
     ∃ pos, po_ips o !! m = Some pos ∧ (key <$> po_items o) !! pos = Some it) →
  (Af ++ a :: b :: Bb) `sublist_of` (key <$> po_items o) →
  a ∈ key <$> gap o (length Af).
Proof.
  intros Hnd Hanch Hs. set (keys := key <$> po_items o) in *.
  assert (a ∈ keys) as Ha.
  { eapply elem_of_sublist; [|exact Hs]. apply elem_of_app. right. by left. }
  apply list_elem_of_lookup in Ha as [pa Hpa].
  destruct (Hanch (length Af) b) as (pb & Hib & Hpb).
  { by rewrite lookup_app_r, Nat.sub_diag by lia. }
  assert (pa < pb) as Hab.
  { apply (sublist_pair_order keys a b pa pb Hnd); [|done|done].
    etrans; [|exact Hs]. apply sublist_inserts_l.
    constructor. constructor. apply sublist_nil_l. }
  assert (gap_start o (length Af) ≤ pa) as Hstart.
  { destruct Af as [|c Af'] using rev_ind; [cbn; lia|].
    rewrite length_app. cbn [length]. rewrite Nat.add_1_r. cbn [gap_start].
    destruct (Hanch (length Af') c) as (pc & Hic & Hpc).
    { rewrite <- app_assoc. by rewrite lookup_app_r, Nat.sub_diag by lia. }
    rewrite (list_lookup_total_correct _ _ _ Hic).
    assert (pc < pa); [|lia].
    apply (sublist_pair_order keys c a pc pa Hnd); [|done|done].
    etrans; [|exact Hs]. rewrite <- app_assoc. apply sublist_inserts_l. cbn.
    constructor. constructor. apply sublist_nil_l. }
  unfold gap. rewrite (list_lookup_total_correct _ _ _ Hib).
  rewrite fmap_take, fmap_drop. fold keys.
  apply list_elem_of_lookup. exists (pa - gap_start o (length Af)).
  rewrite lookup_take_lt by lia. rewrite lookup_drop. rewrite <- Hpa. f_equal. lia.
Qed.
End GapLemmas.

(** ** Anchored positions *)

Section AnchoredLemmas.
Context {A : Type} (key : A → nat) (tabag : TABAG A).
Hypothesis Hok : bag_ok key tabag = true.
Implicit Type occs : list (PATOCC A).
Implicit Type P : list nat.

Local Abbreviation k := (tbg_itemcnt tabag).
Local Abbreviation occs0 := (make_occs tabag).
Local Abbreviation supp P := (support key tabag P).

Lemma make_occs_NoDup o : o ∈ occs0 → NoDup (key <$> po_items o).
Proof.
  unfold make_occs. intros (t & -> & Ht)%list_elem_of_fmap. cbn.
  by apply (bag_ok_tract key tabag t Hok) in Ht as (_ & ? & _).
Qed.

Lemma make_occs_bound o a : o ∈ occs0 → a ∈ po_items o → key a < k.
Proof.
  unfold make_occs. intros (t & -> & Ht)%list_elem_of_fmap. cbn.
  apply (bag_ok_tract key tabag t Hok) in Ht as (_ & _ & H). apply H.
Qed.

Lemma make_occs_total j : j < length occs0 → occs0 !!! j ∈ occs0.
Proof.
  intros Hj. apply list_elem_of_lookup. exists j. by apply list_lookup_lookup_total_lt.
Qed.

Lemma make_occs_ips j :
  j < length occs0 → length (po_ips (occs0 !!! j)) = length (po_items (occs0 !!! j)).
Proof.
  intros Hj. unfold make_occs in *. rewrite length_fmap in Hj.
  destruct (lookup_lt_is_Some_2 (tbg_tracts tabag) j Hj) as [t Ht].
  rewrite (list_lookup_total_correct _ j (mkPATOCC (ta_wgt t) (ta_items t) (replicate (ta_size t) 0))).
  - cbn. by rewrite length_replicate.
  - by rewrite list_lookup_fmap, Ht.
Qed.

Lemma make_occs_tract j :
  j < length occs0 →
  ∃ t, t ∈ tbg_tracts tabag ∧ po_items (occs0 !!! j) = ta_items t ∧
       po_wgt (occs0 !!! j) = ta_wgt t.
Proof.
  intros Hj. unfold make_occs in *. rewrite length_fmap in Hj.
  destruct (lookup_lt_is_Some_2 (tbg_tracts tabag) j Hj) as [t Ht].
  exists t. split; [apply list_elem_of_lookup; by exists j|].
  rewrite (list_lookup_total_correct _ j (mkPATOCC (ta_wgt t) (ta_items t) (replicate (ta_size t) 0))).
  - done.
  - by rewrite list_lookup_fmap, Ht.
Qed.

Lemma frequent_pattern_length P i : (1 ≤ supp (P ++ [i]))%Z → length P < k.
Proof.
  intros Hs. assert (0 < supp (P ++ [i]))%Z as Hpos by lia.
  apply (support_pos_items key tabag _ Hok) in Hpos as [Hnd Hlt].
  pose proof (NoDup_bounded_length _ _ Hnd Hlt) as Hl. rewrite length_app in Hl. cbn in Hl. lia.
Qed.

Lemma frame_ext P i :
  i < k → pe_supp (frame key k occs0 P !!! i) = supp (P ++ [i]) ∧
          pe_oxs (frame key k occs0 P !!! i) = ext_occs key occs0 P i.
Proof.
  intros Hi. rewrite frame_lookup by done. cbn. split; [|done]. by apply ext_occs_support.
Qed.

Lemma ext_occs_oxs_ok P i occs :
  same_tracts occs occs0 →
  oxs_ok occs (ext_occs key occs0 P i) (S (length P) - 1).
Proof.
  intros [Hlen Hpt]. split; [apply ext_occs_NoDup, make_occs_NoDup|]. intros x Hx.
  pose proof (ext_occs_contains key occs0 P i x Hx) as Hc.
  apply ext_occs_elem in Hx as (Hlt & _). split; [lia|].
  destruct (Hpt (ox_occ x)) as (_ & _ & ->). rewrite (make_occs_ips _ Hlt).
  apply sublist_length in Hc. rewrite length_app, length_fmap in Hc. cbn in Hc. lia.
Qed.

(** Anchoring position [|P|] for the extension by [i] keeps the
    positions of [P] and anchors [P ++ [i]]. *)
Lemma anchored_at_anchor P i occs :
  same_tracts occs occs0 → anchored_at key occs P →
  anchored_at key (anchor (S (length P)) (ext_occs key occs0 P i) occs) (P ++ [i]).
Proof.
  intros H1 H2. set (oxs := ext_occs key occs0 P i).
  set (occs1 := anchor (S (length P)) oxs occs).
  assert (Hst1 : same_tracts occs1 occs) by apply same_tracts_anchor.
  assert (H10 : same_tracts occs1 occs0) by (by eapply same_tracts_trans).
  pose proof (ext_occs_oxs_ok P i occs H1) as Hoxs.
  destruct H1 as [Hlen Hpt].
  intros j Hj HQ m a Hm. destruct H10 as [Hlen1 Hpt1].
  destruct (Hpt1 j) as (_ & Eit & _). rewrite Eit in HQ |- *.
  destruct (decide (m < length P)) as [Hlt|Hge].
  - rewrite lookup_app_l in Hm by done.
    destruct (H2 j) with (m := m) (i := a) as (pos & Hpos & Hi); [lia| |done|].
    { destruct (Hpt j) as (_ & -> & _). etrans; [|exact HQ]. by apply sublist_inserts_r. }
    exists pos. split.
    + unfold occs1. rewrite anchor_other_ips; [done|lia].
    + destruct (Hpt j) as (_ & E & _). by rewrite <- E.
  - rewrite lookup_app_r in Hm by lia.
    destruct (m - length P) as [|m'] eqn:Em; [|done]. injection Hm as <-.
    assert (m = length P) as -> by lia.
    destruct (ext_occs_find key occs0 P i j make_occs_NoDup) as (x & Hx & <-); [lia|done|].
    exists (ox_item x). split.
    + pose proof (anchor_anchored (S (length P)) oxs occs Hoxs x Hx) as Ha.
      cbn [Nat.sub] in Ha. by rewrite Nat.sub_0_r in Ha.
    + by apply ext_occs_elem in Hx as (_ & ? & _).
Qed.

Lemma anchored_at_keep P occs occs' :
  same_tracts occs' occs →
  (∀ j m, m < length P → po_ips (occs' !!! j) !! m = po_ips (occs !!! j) !! m) →
  anchored_at key occs P → anchored_at key occs' P.
Proof.
  intros [G1 G1'] G2 H2 j Hj HP m i Hm.
  destruct (G1' j) as (_ & E & _). rewrite E in *.
  destruct (H2 j) with (m := m) (i := i) as (pos & Hpos & Hi); [lia|done|done|].
  exists pos. split; [|done]. rewrite G2; [done|]. by apply lookup_lt_Some in Hm.
Qed.

(** With the positions of [P ++ [i]] anchored, an item that can be
    inserted before one of them with the same support is a common item
    of a gap. *)
Lemma insertion_common_gap P i occs Af Bb a b :
  pos_wgts tabag → same_tracts occs occs0 → anchored_at key occs (P ++ [i]) →
  P ++ [i] = Af ++ b :: Bb →
  (supp (P ++ [i]) ≤ supp (Af ++ a :: b :: Bb))%Z →
  common_gap_item key occs (ext_occs key occs0 P i) (length Af) a.
Proof.
  intros Hpos [Hlen Hpt] Hanch HP Hs x Hx.
  pose proof (ext_occs_contains key occs0 P i x Hx) as Hc.
  apply ext_occs_elem in Hx as (Hlt & _).
  destruct (make_occs_tract _ Hlt) as (t & Ht & Eit & _).
  destruct (Hpt (ox_occ x)) as (_ & Eo & _).
  assert ((Af ++ a :: b :: Bb) `sublist_of` (key <$> po_items (occs !!! ox_occ x))) as HQ.
  { rewrite Eo, Eit.
    apply (support_eq_contains key tabag (P ++ [i]) _ Hok Hpos); try done.
    - rewrite HP. apply sublist_app; [done|]. by constructor.
    - by rewrite <- Eit. }
  apply (insertion_in_gap key _ Af Bb a b); [| |done].
  - rewrite Eo. by apply make_occs_NoDup, make_occs_total.
  - intros m it Hm. rewrite <- HP in Hm. apply (Hanch (ox_occ x)); [lia| |done].
    by rewrite Eo.
Qed.
End AnchoredLemmas.

(** * The steps of the plain search in every mode *)

Section ScanLength.
Context {A : Type} (key : A → nat).

Lemma scan_gaps_length occs oxs n : ∀ frqs,
  length (scan_gaps key occs oxs n frqs).2 = length frqs.
Proof.
  induction n as [|n IH]; cbn [scan_gaps]; intros frqs; [done|].
  destruct (scan_gap _ _ _ _ _ _) as [[f b] k] eqn:E.
  apply scan_gap_length in E.
  destruct (0 <? k); cbn [snd]; [|rewrite IH]; by rewrite clear_frqs_length.
Qed.
End ScanLength.

Section EmitLemmas.
Context {D : Type}.

(** What one output of the reporter can do. *)
Lemma isr_emit_cases (rep : ISREPORT D) p r rep' :
  isr_emit rep p = (r, rep') →
  isr_zmin rep' = isr_zmin rep ∧ isr_zmax rep' = isr_zmax rep ∧
  isr_wgt rep' = isr_wgt rep ∧ isr_stack rep' = isr_stack rep ∧
  (r = 0%Z ∨ r = (-1)%Z) ∧
  (isr_out rep' = isr_out rep ∨
   (r = 0%Z ∧ size_ok rep (length (pat_items p)) = true ∧
    isr_out rep' = isr_out rep ++ [p])).
Proof.
  unfold isr_emit, size_ok. destruct (_ || _).
  - intros [= <- <-]. repeat split; auto.
  - destruct rep as [zmin zmax w stk out io]; cbn.
    destruct io as [|[] io]; intros [= <- <-]; cbn; repeat split; auto.
Qed.
End EmitLemmas.

Section AnyMode.
Context {D : Type} (tabag : TABAG nat) (rd : RECDATA) (zmin : Z).
Hypothesis Hok : bag_ok ukey tabag = true.
Hypothesis Hsmin : (1 ≤ rd_smin rd)%Z.
Hypothesis Hcnt : rd_cnt rd = tbg_itemcnt tabag.
Implicit Type st : state nat D.
Implicit Type P : list nat.

Local Abbreviation k := (tbg_itemcnt tabag).
Local Abbreviation occs0 := (make_occs tabag).
Local Abbreviation fr P := (frame ukey k occs0 P).
Local Abbreviation supp P := (support ukey tabag P).
Local Abbreviation ust P st := (ustate tabag rd zmin P st).
Local Abbreviation good shape st st' :=
  (out_ok tabag rd zmin shape (st_report st) (st_report st')).

Lemma ustep_refl P st : all_zero (st_frqs st) → ustep P st st.
Proof. intros Hz. repeat split; done. Qed.

Lemma ustep_trans P st1 st2 st3 : ustep P st1 st2 → ustep P st2 st3 → ustep P st1 st3.
Proof.
  intros (H1 & H2 & H3 & H4 & H5 & H6 & H7 & H8) (G1 & G2 & G3 & G4 & G5 & G6 & G7 & G8).
  split; [by eapply same_tracts_trans|]. split; [|repeat split; congruence].
  intros j m Hm. rewrite G2, H2 by done. done.
Qed.

Lemma ustep_weaken P i st st' : ustep (P ++ [i]) st st' → ustep P st st'.
Proof.
  intros (H1 & H2 & H3). split; [done|]. split; [|done].
  intros j m Hm. apply H2. rewrite length_app. lia.
Qed.

Lemma ustate_step P st st' : ust P st → ustep P st st' → ust P st'.
Proof.
  intros (H1 & H2 & H3 & H4 & H5 & H6 & H7) (G1 & G2 & G3 & G4 & G5 & G6 & G7 & G8).
  split; [by eapply same_tracts_trans|]. rewrite G3.
  split; [done|]. split; [congruence|]. split; [congruence|]. split; [done|].
  split; [congruence|]. intros Hm. by eapply (anchored_at_keep ukey); [| |apply H7].
Qed.

Lemma good_refl shape st st' : st_report st' = st_report st → good shape st st'.
Proof.
  intros ->. exists []. split; [by rewrite app_nil_r|]. split; [constructor|].
  intros p Hp. by apply elem_of_nil in Hp.
Qed.

Lemma good_trans (s1 s2 s : list nat → Prop) st1 st2 st3 :
  good s1 st1 st2 → good s2 st2 st3 →
  (∀ Q, s1 Q → s2 Q → False) → (∀ Q, s1 Q → s Q) → (∀ Q, s2 Q → s Q) →
  good s st1 st3.
Proof.
  intros (n1 & E1 & N1 & H1) (n2 & E2 & N2 & H2) Hdis Hs1 Hs2.
  exists (n1 ++ n2). split; [by rewrite E2, E1, app_assoc|]. split.
  - apply NoDup_app. split; [done|]. split; [|done].
    intros p Hp1 Hp2. destruct (H1 p Hp1) as (_ & _ & S1).
    destruct (H2 p Hp2) as (_ & _ & S2). by eapply Hdis.
  - intros p [Hp|Hp]%elem_of_app.
    + destruct (H1 p Hp) as (? & ? & ?). auto.
    + destruct (H2 p Hp) as (? & ? & ?). auto.
Qed.

Lemma good_weaken (s1 s : list nat → Prop) st1 st2 :
  good s1 st1 st2 → (∀ Q, s1 Q → s Q) → good s st1 st2.
Proof.
  intros (n1 & E1 & N1 & H1) Hs. exists n1. split; [done|]. split; [done|].
  intros p Hp. destruct (H1 p Hp) as (? & ? & ?). auto.
Qed.

Lemma frequent_ext_nonempty P i :
  i < k → (rd_smin rd ≤ supp (P ++ [i]))%Z → ext_occs ukey occs0 P i ≠ [].
Proof.
  intros Hi Hs E. pose proof (ext_occs_support ukey tabag P i Hok) as H.
  rewrite E in H. cbn in H. lia.
Qed.

(** The closedness test for a frequent extension item. *)
Lemma closed_test_any P i st :
  ust P st → i < k → (rd_smin rd ≤ supp (P ++ [i]))%Z →
  ∃ r st2, closed_test rd (fr P !!! i) (S (length P)) st = (r, st2) ∧
    st_report st2 = st_report st ∧ ustep P st st2 ∧
    same_tracts (st_occs st2) occs0 ∧
    (r = 0%Z ∨ r = (-1)%Z) ∧
    (closed_mode rd = true →
       anchored_at ukey (st_occs st2) (P ++ [i]) ∧
       (r = (-1)%Z → ¬ ∃ g a, g < S (length P) ∧
          common_gap_item ukey (st_occs st2) (ext_occs ukey occs0 P i) g a)).
Proof.
  intros (H1 & H2 & H3 & H4 & H5 & H6 & H7) Hi Hs. unfold closed_test.
  destruct (closed_mode rd) eqn:Hm.
  2:{ exists (-1)%Z, st. split; [done|]. split; [done|]. split; [by apply ustep_refl|].
      split; [done|]. split; [by right|]. done. }
  unfold closed. destruct (frame_ext ukey tabag Hok P i Hi) as [Es Eo]. rewrite Eo.
  set (oxs := ext_occs ukey occs0 P i).
  set (occs1 := anchor (S (length P)) oxs (st_occs st)).
  assert (Hst1 : same_tracts occs1 (st_occs st)) by apply same_tracts_anchor.
  assert (H10 : same_tracts occs1 occs0) by (by eapply same_tracts_trans).
  pose proof (scan_gaps_spec ukey occs1 oxs (S (length P)) (st_frqs st)) as Hspec.
  pose proof (scan_gaps_all_zero ukey occs1 oxs (S (length P)) (st_frqs st) H5) as Hz.
  pose proof (scan_gaps_length ukey occs1 oxs (S (length P)) (st_frqs st)) as Hl.
  destruct (scan_gaps ukey occs1 oxs (S (length P)) (st_frqs st)) as [r frqs].
  cbn [fst snd] in *.
  destruct Hspec as [Hiff Hr].
  { by apply frequent_ext_nonempty. }
  { done. }
  { intros x Hx. apply ext_occs_elem in Hx as (Hlt & _).
    destruct H10 as [_ Hpt]. destruct (Hpt (ox_occ x)) as (_ & -> & _).
    by apply (make_occs_NoDup ukey tabag Hok), make_occs_total. }
  { intros x a Hx. apply ext_occs_elem in Hx as (Hlt & _).
    destruct H10 as [_ Hpt]. destruct (Hpt (ox_occ x)) as (_ & -> & _).
    rewrite H6. by apply (make_occs_bound ukey tabag Hok), make_occs_total. }
  exists r, (set_frqs (set_occs st occs1) frqs). split; [done|]. split; [done|].
  split.
  { split; [done|]. split; [|repeat split; done].
    intros j m Hlt. cbn. unfold occs1. rewrite anchor_other_ips; [done|lia]. }
  split; [done|]. split; [done|]. intros _. split.
  - cbn. by apply (anchored_at_anchor ukey tabag Hok), H7.
  - intros -> Hex. apply Hiff in Hex. done.
Qed.
End AnyMode.

(** * The plain search in every mode *)

Section AnyModeSearch.
Context {D : Type} (tabag : TABAG nat) (rd : RECDATA) (zmin : Z).
Hypothesis Hok : bag_ok ukey tabag = true.
Hypothesis Hsmin : (1 ≤ rd_smin rd)%Z.
Hypothesis Hcnt : rd_cnt rd = tbg_itemcnt tabag.
Implicit Type st : state nat D.
Implicit Type P : list nat.

Local Abbreviation k := (tbg_itemcnt tabag).
Local Abbreviation occs0 := (make_occs tabag).
Local Abbreviation fr P := (frame ukey k occs0 P).
Local Abbreviation supp P := (support ukey tabag P).
Local Abbreviation ust P st := (ustate tabag rd zmin P st).
Local Abbreviation good shape st st' :=
  (out_ok tabag rd zmin shape (st_report st) (st_report st')).

Lemma good_same shape st st' :
  isr_out (st_report st') = isr_out (st_report st) → good shape st st'.
Proof.
  intros E. exists []. split; [by rewrite app_nil_r|]. split; [constructor|].
  intros p Hp. by apply elem_of_nil in Hp.
Qed.

(** The pattern [P ++ [i]] with its support is a frequent sequence of a
    size in the size range, and closed when the closedness test found
    no common gap item and no frequent extension has its support. *)
Lemma reported_pattern_ok P i occs (rep : ISREPORT D) :
  i < k → (rd_smin rd ≤ supp (P ++ [i]))%Z →
  isr_zmin rep = zmin → isr_zmax rep = rd_zmax rd →
  size_ok rep (S (length P)) = true →
  (closed_mode rd = true →
     same_tracts occs occs0 ∧ anchored_at ukey occs (P ++ [i]) ∧
     (¬ ∃ g a, g < S (length P) ∧
          common_gap_item ukey occs (ext_occs ukey occs0 P i) g a) ∧
     ∀ a, (supp (P ++ [i]) ≤ supp ((P ++ [i]) ++ [a]))%Z → False) →
  frequent (D:=D) tabag (rd_smin rd) zmin (rd_zmax rd)
    (Pat (P ++ [i]) [] (supp (P ++ [i]))) ∧
  (closed_mode rd = true → pos_wgts tabag → is_closed ukey tabag (P ++ [i])).
Proof.
  intros Hi Hs Hz1 Hz2 Hsz Hcl. split.
  - split; [done|]. split; [done|]. split; [done|]. cbn [pat_items].
    apply (size_ok_iff tabag rd zmin Hcnt rep) in Hsz; [|done|done].
    rewrite length_app. cbn [length]. lia.
  - intros Hm Hpos Q HPQ Hne. destruct (Hcl Hm) as (Hst & Hanch & Hgap & Happ).
    destruct (Z.lt_ge_cases (supp Q) (supp (P ++ [i]))) as [|Hge]; [done|]. exfalso.
    destruct (sublist_insertion _ _ HPQ Hne) as (Af & Bb & a & HP & HQ).
    pose proof (support_sublist_le ukey tabag _ _ Hok HQ) as Hle.
    destruct Bb as [|b Bb].
    + rewrite app_nil_r in HP. subst Af. apply (Happ a). lia.
    + apply Hgap. exists (length Af), a. split.
      * assert (length (P ++ [i]) = length (Af ++ b :: Bb)) as Hl by (by rewrite HP).
        rewrite !length_app in Hl. cbn [length] in Hl. lia.
      * apply (insertion_common_gap ukey tabag Hok P i occs Af Bb a b); try done.
        { lia. }
Qed.

Lemma ext_loop_any rec P cond :
  rec_ok tabag rd zmin rec P →
  cond = (Z.of_nat (S (length P)) <=? rd_zmax rd)%Z →
  ∀ todo s max st s' max' st',
    NoDup todo → (∀ i, i ∈ todo → i < k) → (0 ≤ s)%Z → ust P st →
    ext_loop rec rd (fr P) cond (S (length P)) todo s max st = Some (s', max', st') →
    good (λ Q, ∃ i R, i ∈ todo ∧ Q = P ++ i :: R) st st' ∧
    ((0 ≤ s')%Z → ustep P st st').
Proof.
  intros Hrec Hcond.
  induction todo as [|i todo IH]; intros s max st s' max' st' Hnd Hlt Hs Hst;
    cbn [ext_loop].
  { intros [= <- <- <-]. split; [by apply good_same|].
    intros _. apply ustep_refl. by destruct Hst as (_ & _ & _ & _ & ? & _). }
  apply NoDup_cons in Hnd as [Hni Hnd].
  assert (Hi : i < k) by (apply Hlt; left).
  assert (Hlt' : ∀ i', i' ∈ todo → i' < k) by (intros; apply Hlt; by right).
  assert (Hsh : ∀ Q, (∃ i' R, i' ∈ todo ∧ Q = P ++ i' :: R) →
                     ∃ i' R, i' ∈ i :: todo ∧ Q = P ++ i' :: R).
  { intros Q (i' & R & Hi' & ->). exists i', R. split; [by right|done]. }
  assert (Hdis : ∀ Q, (∃ R, Q = P ++ i :: R) →
                      (∃ i' R, i' ∈ todo ∧ Q = P ++ i' :: R) → False).
  { intros Q (R & ->) (i' & R' & Hi' & E). apply app_inv_head in E.
    injection E as -> _. done. }
  assert (Hshi : ∀ Q, (∃ R, Q = P ++ i :: R) → ∃ i' R, i' ∈ i :: todo ∧ Q = P ++ i' :: R).
  { intros Q (R & ->). exists i, R. split; [by left|done]. }
  assert (Hrest : ∀ s1 max1 st5,
    (0 ≤ s1)%Z → good (λ Q, ∃ R, Q = P ++ i :: R) st st5 → ustep P st st5 →
    ext_loop rec rd (fr P) cond (S (length P)) todo s1 max1 st5 = Some (s', max', st') →
    good (λ Q, ∃ i' R, i' ∈ i :: todo ∧ Q = P ++ i' :: R) st st' ∧
    ((0 ≤ s')%Z → ustep P st st')).
  { intros s1 max1 st5 Hs1 Hg5 Hu5 H.
    apply IH in H; [|done|done|done|by eapply ustate_step].
    destruct H as [H1 H2]. split.
    - by eapply (good_trans tabag rd zmin _ _ _ st st5 st').
    - intros Hs'. eapply ustep_trans; [exact Hu5|by apply H2]. }
  destruct (frame_ext ukey tabag Hok P i Hi) as [Esupp Eoxs]. rewrite Esupp.
  destruct (Z.ltb_spec (supp (P ++ [i])) (rd_smin rd)) as [Hlow|Hhigh].
  { apply Hrest; [done|by apply good_same|].
    apply ustep_refl. by destruct Hst as (_ & _ & _ & _ & ? & _). }
  set (max1 := if (max <? supp (P ++ [i]))%Z then supp (P ++ [i]) else max).
  destruct (closed_test_any tabag rd zmin Hok Hsmin Hcnt P i st Hst Hi Hhigh)
    as (r & st2 & -> & Hrep2 & Hu2 & Hst2 & Hr & Hcl2).
  destruct (Z.eqb_spec r 0) as [->|Hr0].
  { apply Hrest; [done|apply good_same; by rewrite Hrep2|done]. }
  assert (r = (-1)%Z) as -> by (by destruct Hr).
  set (st3 := set_report st2 (isr_add (st_report st2) i (supp (P ++ [i])))).
  pose proof Hst as (S1 & S2 & S3 & S4 & S5 & S6 & S7).
  pose proof Hu2 as (U1 & U2 & U3 & U4 & U5 & U6 & U7 & U8).
  assert (Hst3 : ust (P ++ [i]) st3).
  { split; [done|]. split.
    { cbn. rewrite Hrep2, S2, rev_app_distr. done. }
    split; [cbn; by rewrite Hrep2|]. split; [cbn; by rewrite Hrep2|].
    split; [done|]. split; [cbn; congruence|]. intros Hm. by apply Hcl2. }
  (* the report of the pattern and the rest of the loop *)
  assert (Hreport : ∀ s1 st4,
    (0 ≤ s1)%Z → good (λ Q, ∃ R, R ≠ [] ∧ Q = (P ++ [i]) ++ R) st3 st4 →
    ustep (P ++ [i]) st3 st4 →
    (closed_mode rd = true → cond = true →
       ∀ a, (rd_smin rd ≤ supp ((P ++ [i]) ++ [a]))%Z → (supp ((P ++ [i]) ++ [a]) ≤ s1)%Z) →
    (if negb (closed_mode rd) || (s1 <? supp (P ++ [i]))%Z
     then let '(r0, rep) := isr_report (st_report st4) in
          if (r0 <? 0)%Z then Some ((-1)%Z, max1, set_report st4 rep)
          else ext_loop rec rd (fr P) cond (S (length P)) todo s1 max1
                 (set_report st4 (isr_remove rep 1))
     else ext_loop rec rd (fr P) cond (S (length P)) todo s1 max1
            (set_report st4 (isr_remove (st_report st4) 1))) = Some (s', max', st') →
    good (λ Q, ∃ i' R, i' ∈ i :: todo ∧ Q = P ++ i' :: R) st st' ∧
    ((0 ≤ s')%Z → ustep P st st')).
  { intros s1 st4 Hs1 Hg4 Hu4 Hbound.
    pose proof Hu4 as (V1 & V2 & V3 & V4 & V5 & V6 & V7 & V8).
    assert (Hstk4 : isr_stack (st_report st4) =
                    (i, supp (P ++ [i])) :: isr_stack (st_report st)).
    { rewrite V3. cbn. by rewrite Hrep2. }
    assert (Hg04 : good (λ Q, ∃ R, Q = P ++ i :: R) st st4).
    { eapply (good_trans tabag rd zmin (λ _, False) _ _ st st3 st4);
        [apply good_same; cbn; by rewrite Hrep2|exact Hg4|done|done|].
      intros Q (R & _ & ->). exists R. by rewrite <- app_assoc. }
    assert (Hu5 : ∀ rep : ISREPORT D,
      isr_stack rep = isr_stack (st_report st4) → isr_zmin rep = isr_zmin (st_report st4) →
      isr_zmax rep = isr_zmax (st_report st4) →
      isr_wgt rep = isr_wgt (st_report st4) →
      ustep P st (set_report st4 (isr_remove rep 1))).
    { intros rep R1 R2 R3 R4. split; [cbn; eapply same_tracts_trans; [exact V1|exact U1]|].
      split.
      { intros j m Hm. cbn. rewrite V2 by (rewrite length_app; lia). by apply U2. }
      split; [cbn; by rewrite R1, Hstk4|].
      split; [cbn; rewrite R2, V4; cbn; by rewrite Hrep2|].
      split; [cbn; rewrite R3, V5; cbn; by rewrite Hrep2|].
      split; [done|]. split; [cbn; cbn in V7; congruence|].
      cbn. rewrite R4, V8. cbn. by rewrite Hrep2. }
    destruct (negb (closed_mode rd) || (s1 <? supp (P ++ [i]))%Z) eqn:Hdo.
    2:{ apply Hrest; [done| |by apply Hu5].
        eapply (good_trans tabag rd zmin _ (λ _, False) _ st st4);
          [exact Hg04|by apply good_same|done|done|done]. }
    unfold isr_report. rewrite Hstk4. cbn [fmap list_fmap fst rev].
    change (list_fmap _ _ fst (isr_stack (st_report st))) with
      (fst <$> isr_stack (st_report st)).
    rewrite S2, rev_involutive.
    set (p := Pat (D:=D) (P ++ [i]) [] (supp (P ++ [i]))).
    destruct (isr_emit (st_report st4) p) as [r0 rep] eqn:E.
    apply isr_emit_cases in E as (R2 & R3 & R4 & R1 & Hre & Hout).
    assert (Hg4r : good (λ Q, ∃ R, Q = P ++ i :: R) st (set_report st4 rep)).
    { destruct Hout as [Hout|(_ & Hsz & Hout)].
      { eapply (good_trans tabag rd zmin _ (λ _, False) _ st st4);
          [exact Hg04|by apply good_same|done|done|done]. }
      eapply (good_trans tabag rd zmin (λ Q, ∃ R, R ≠ [] ∧ Q = (P ++ [i]) ++ R)
                (λ Q, Q = P ++ [i]) _ st st4).
      - eapply (good_trans tabag rd zmin (λ _, False) _ _ st st3 st4);
          [apply good_same; cbn; by rewrite Hrep2|exact Hg4|done|done|done].
      - exists [p]. split; [done|]. split; [apply NoDup_singleton|].
        intros p' ->%list_elem_of_singleton. cbn [pat_items p].
        assert (Hz4 : isr_zmin (st_report st4) = zmin).
        { rewrite V4. cbn. by rewrite Hrep2. }
        assert (Hx4 : isr_zmax (st_report st4) = rd_zmax rd).
        { rewrite V5. cbn. by rewrite Hrep2. }
        cbn [pat_items p length] in Hsz. rewrite length_app in Hsz. cbn [length] in Hsz.
        rewrite Nat.add_1_r in Hsz.
        destruct (reported_pattern_ok P i (st_occs st2) (st_report st4) Hi Hhigh Hz4 Hx4 Hsz)
          as [F1 F2]; [|done].
        intros Hm. destruct (Hcl2 Hm) as [A1 A2]. split; [done|]. split; [done|].
        split; [by apply A2|]. intros a Ha.
        rewrite Hm in Hdo. cbn [negb orb] in Hdo. apply Z.ltb_lt in Hdo.
        assert (Hc : cond = true).
        { rewrite Hcond. apply Z.leb_le.
          apply (size_ok_iff tabag rd zmin Hcnt (st_report st4)) in Hsz; [lia|done|done]. }
        specialize (Hbound Hm Hc a). lia.
      - intros Q (R & HR & ->) E. rewrite <- (app_nil_r (P ++ [i])) in E at 2.
        apply app_inv_head in E. done.
      - intros Q (R & _ & ->). exists R. by rewrite <- app_assoc.
      - intros Q ->. exists []. done. }
    destruct Hre as [-> | ->]; cbn [Z.ltb Z.compare].
    - apply Hrest; [done| |by apply Hu5].
      eapply (good_trans tabag rd zmin _ (λ _, False) _ st (set_report st4 rep));
        [exact Hg4r|by apply good_same|done|done|done].
    - intros [= <- <- <-]. split; [|lia].
      by eapply good_weaken. }
  destruct cond; [|apply Hreport; [done|by apply good_same| |done]].
  2:{ apply ustep_refl. by destruct Hst3 as (_ & _ & _ & _ & ? & _). }
  rewrite (project_ext ukey (st_occs st3) occs0 (rd_cnt rd) (fr P !!! i)).
  2:{ intros j. destruct Hst2 as [_ Hpt]. destruct (Hpt j) as (? & ? & _). done. }
  rewrite Hcnt.
  destruct (project_frame ukey occs0 k P i Hi) as [Hpf Hpz].
  destruct (project ukey occs0 k (fr P !!! i)) as [c z]. cbn [fst snd] in Hpf, Hpz. subst c.
  destruct (Nat.ltb_spec 0 z) as [Hz|Hz].
  - destruct (rec (fr (P ++ [i])) z st3) as [[s1 st4]|] eqn:E; [|done].
    apply Hrec in E; [|done|done]. destruct E as [E1 E2].
    destruct (Z.ltb_spec s1 0) as [Hneg|Hnn].
    + intros [= <- <- <-]. split; [|lia].
      eapply (good_trans tabag rd zmin (λ _, False) _ _ st st3 st4);
        [apply good_same; cbn; by rewrite Hrep2|exact E1|done|done|].
      intros Q (R & _ & ->). exists i, R. split; [by left|by rewrite <- app_assoc].
    + destruct (E2 Hnn) as [E3 E4]. apply Hreport; [done|done|done|].
      intros _ _ a Ha.
      assert (0 < supp ((P ++ [i]) ++ [a]))%Z as Hpa by lia.
      apply (support_pos_items ukey tabag _ Hok) in Hpa as [_ Hpa].
      assert (a < k) as Hak by (apply Hpa, elem_of_app; right; by left).
      destruct E4 as [[E4 _]|[_ E4]].
      * exfalso. unfold freq_supps in E4.
        assert (supp ((P ++ [i]) ++ [a]) ∈
                filter (λ s, (rd_smin rd ≤ s)%Z)
                  ((λ i0, pe_supp (fr (P ++ [i]) !!! i0)) <$> seq 0 k)) as Hin.
        { apply list_elem_of_filter. split; [done|]. apply list_elem_of_fmap.
          exists a. split; [|apply elem_of_seq; lia].
          by destruct (frame_ext ukey tabag Hok (P ++ [i]) a Hak) as [-> _]. }
        rewrite E4 in Hin. by apply elem_of_nil in Hin.
      * apply E4. unfold freq_supps.
        apply list_elem_of_filter. split; [done|]. apply list_elem_of_fmap.
        exists a. split; [|apply elem_of_seq; lia].
        by destruct (frame_ext ukey tabag Hok (P ++ [i]) a Hak) as [-> _].
  - apply Hreport; [done|by apply good_same| |].
    + apply ustep_refl. by destruct Hst3 as (_ & _ & _ & _ & ? & _).
    + intros _ _ a Ha. exfalso.
      pose proof (ext_occs_support ukey tabag (P ++ [i]) a Hok) as Hx.
      rewrite Hpz in Hx by lia. cbn in Hx. lia.
Qed.

Lemma recurse_any fuel : ∀ P z st r st',
  ust P st →
  recurse fuel (fr P) z (length P) rd st = Some (r, st') →
  good (λ Q, ∃ R, R ≠ [] ∧ Q = P ++ R) st st' ∧
  ((0 ≤ r)%Z → ustep P st st' ∧ is_max_supp r (freq_supps rd (fr P) (seq 0 k))).
Proof.
  induction fuel as [|fuel IH]; intros P z st r st' Hst H; [done|].
  pose proof (recurse_result (S fuel) (fr P) z (length P) rd st r st') as Hres.
  rewrite Hcnt in Hres. specialize (Hres ltac:(lia) H).
  revert H. cbn [recurse].
  assert (Hrec : rec_ok tabag rd zmin (λ c z st, recurse fuel c z (S (length P)) rd st) P).
  { intros i z1 st1 r1 st1' Hi Hst1 H. specialize (IH (P ++ [i]) z1 st1 r1 st1' Hst1).
    rewrite length_app, Nat.add_1_r in IH. by apply IH. }
  assert (Hmax : (0 ≤ r)%Z → is_max_supp r (freq_supps rd (fr P) (seq 0 k))).
  { intros Hr. destruct Hres as [[_ ?]|[_ ?]]; [done|lia]. }
  assert (Hloop : ∀ cond st1,
    cond = (Z.of_nat (S (length P)) <=? rd_zmax rd)%Z →
    ust P st1 → ustep P st st1 → st_report st1 = st_report st →
    match ext_loop (λ c z st, recurse fuel c z (S (length P)) rd st)
            rd (fr P) cond (S (length P)) (seq 0 (rd_cnt rd)) 0%Z 0%Z st1 with
    | Some (s, max, st0) => Some (if (s <? 0)%Z then s else max, st0)
    | None => None
    end = Some (r, st') →
    good (λ Q, ∃ R, R ≠ [] ∧ Q = P ++ R) st st' ∧
    ((0 ≤ r)%Z → ustep P st st' ∧ is_max_supp r (freq_supps rd (fr P) (seq 0 k)))).
  { intros cond st1 Hc Hst1 Hs1 Hr1.
    destruct (ext_loop _ _ _ _ _ _ _ _ _) as [[[s max] st2]|] eqn:E; [|done].
    intros [= <- <-]. apply (ext_loop_any _ P cond Hrec Hc) in E; [|..|done].
    - destruct E as [E1 E2]. split.
      + rewrite <- Hr1.
        eapply (good_weaken tabag rd zmin _ _ st1 st2); [exact E1|].
        intros Q (i & R & _ & ->). by exists (i :: R).
      + intros Hr. split; [|by apply Hmax].
        destruct (Z.ltb_spec s 0) as [?|Hnn]; [lia|].
        eapply ustep_trans; [exact Hs1|by apply E2].
    - apply NoDup_seq.
    - intros i Hi. apply elem_of_seq in Hi. lia.
    - lia. }
  assert (Hz : all_zero (st_frqs st)) by (by destruct Hst as (_ & _ & _ & _ & ? & _)).
  destruct (Z.of_nat (S (length P)) <=? rd_zmax rd)%Z eqn:Ec.
  - unfold malloc. destruct (malloc_list (st_heap st)) as [ok h].
    assert (Hh : ustep P st (set_heap st h)) by (repeat split; done).
    destruct ok; cbn [negb].
    + apply Hloop; [done|by eapply ustate_step|done|done].
    + intros [= <- <-]. split; [by apply good_same|lia].
  - cbn [negb]. apply Hloop; [done|done|by apply ustep_refl|done].
Qed.
End AnyModeSearch.

(** * What the plain search writes *)

Section PlainSearch.
Context {D : Type} (tabag : TABAG nat).
Hypothesis Hok : bag_ok ukey tabag = true.

Local Abbreviation k := (tbg_itemcnt tabag).
Local Abbreviation supp P := (support ukey tabag P).

(** The empty sequence is closed when no item has the total weight as
    its support. *)
Lemma empty_closed :
  (∀ a, a < k → (supp [a] < tbg_wgt tabag)%Z) → (1 ≤ tbg_wgt tabag)%Z →
  is_closed ukey tabag [].
Proof.
  intros Hall Hw Q _ Hne. rewrite support_nil.
  destruct Q as [|a Q]; [done|].
  pose proof (support_sublist_le ukey tabag [a] (a :: Q) Hok) as Hle.
  specialize (Hle ltac:(constructor; apply sublist_nil_l)).
  destruct (Z.lt_ge_cases (supp [a]) 1) as [|Hge]; [lia|].
  assert (0 < supp [a])%Z as Hp by lia.
  apply (support_pos_items ukey tabag _ Hok) in Hp as [_ Hp].
  specialize (Hp a ltac:(by left)). specialize (Hall a Hp). lia.
Qed.

(** What [sequoia] writes, in every mode and in every run. *)
Lemma sequoia_any (fuel : nat) (target smin mode zmin zmax : Z) (io heap : list bool)
    (r : Z) (rep : ISREPORT D) :
  sequoia fuel tabag target smin mode (isr_create (tbg_wgt tabag) zmin zmax io) heap
    = Some (r, rep) →
  NoDup (isr_out rep) ∧
  ∀ p, p ∈ isr_out rep →
    frequent tabag (if (0 <? smin)%Z then smin else 1%Z) zmin zmax p ∧
    (Z.land mode ISR_CLOSED ≠ 0%Z → pos_wgts tabag → is_closed ukey tabag (pat_items p)).
Proof.
  unfold sequoia.
  set (smin' := if (0 <? smin)%Z then smin else 1%Z).
  assert (Hsmin : (1 ≤ smin')%Z) by (unfold smin'; destruct (Z.ltb_spec 0 smin); lia).
  clearbody smin'.
  set (report := isr_create (D:=D) (tbg_wgt tabag) zmin zmax io).
  assert (Hnone : NoDup (isr_out report) ∧
    ∀ p, p ∈ isr_out report →
      frequent tabag smin' zmin zmax p ∧
      (Z.land mode ISR_CLOSED ≠ 0%Z → pos_wgts tabag → is_closed ukey tabag (pat_items p))).
  { split; [constructor|]. intros p Hp. by apply elem_of_nil in Hp. }
  destruct (Z.ltb_spec (tbg_wgt tabag) smin') as [Hlow|Hhigh]; [by intros [= _ <-]|].
  set (rd := mkRECDATA target mode k (isr_zmax report) smin').
  assert (Hcm : closed_mode rd = true ↔ Z.land mode ISR_CLOSED ≠ 0%Z).
  { unfold closed_mode. cbn. destruct (Z.eqb_spec (Z.land mode ISR_CLOSED) 0); cbn; split; done. }
  (* the report of the empty sequence *)
  assert (Hlast : ∀ (rep1 : ISREPORT D) r2 rep2 (new : list (PATTERN D)),
    isr_stack rep1 = [] → isr_wgt rep1 = tbg_wgt tabag →
    isr_zmin rep1 = zmin → isr_zmax rep1 = zmax →
    isr_out rep1 = new → NoDup new →
    (∀ p, p ∈ new → frequent tabag smin' zmin zmax p ∧
       (closed_mode rd = true → pos_wgts tabag → is_closed ukey tabag (pat_items p)) ∧
       ∃ R, R ≠ [] ∧ pat_items p = [] ++ R) →
    (closed_mode rd = true → is_closed ukey tabag []) →
    isr_report rep1 = (r2, rep2) →
    NoDup (isr_out rep2) ∧
    ∀ p, p ∈ isr_out rep2 →
      frequent tabag smin' zmin zmax p ∧
      (Z.land mode ISR_CLOSED ≠ 0%Z → pos_wgts tabag → is_closed ukey tabag (pat_items p))).
  { intros rep1 r2 rep2 new Hstk Hw Hz1 Hz2 Hout Hnd Hnew Hcl. unfold isr_report.
    rewrite Hstk, Hw. cbn [fmap list_fmap rev]. intros E.
    apply isr_emit_cases in E as (_ & _ & _ & _ & _ & [E|(_ & Hsz & E)]); rewrite E, Hout.
    - split; [done|]. intros p Hp. destruct (Hnew p Hp) as (F1 & F2 & _).
      split; [done|]. intros Hm. by apply F2, Hcm.
    - split.
      + apply NoDup_app. split; [done|]. split; [|apply NoDup_singleton].
        intros p Hp ->%list_elem_of_singleton.
        destruct (Hnew _ Hp) as (_ & _ & R & HR & HRe). cbn in HRe. by subst R.
      + intros p [Hp|Hp]%elem_of_app.
        * destruct (Hnew p Hp) as (F1 & F2 & _).
          split; [done|]. intros Hm. by apply F2, Hcm.
        * apply list_elem_of_singleton in Hp as ->. split.
          { split; [done|]. cbn. split; [by rewrite support_nil|]. split; [exact Hhigh|].
            unfold size_ok in Hsz. rewrite Hz1, Hz2 in Hsz. cbn [pat_items length] in Hsz.
            apply negb_true_iff, orb_false_iff in Hsz as [Hs1 Hs2].
            apply Z.ltb_ge in Hs1, Hs2. cbn [length]. split; [exact Hs1|exact Hs2]. }
          { intros Hm _. by apply Hcl, Hcm. } }
  destruct (Nat.eqb_spec k 0) as [Hk0|Hk].
  { intros H. destruct (isr_report report) as [r2 rep2] eqn:E. injection H as _ <-.
    apply (Hlast report r2 rep2 []) in E; try done.
    - constructor.
    - intros p Hp. by apply elem_of_nil in Hp.
    - intros _. apply empty_closed; [|lia]. intros a Ha. lia. }
  destruct (malloc_list heap) as [[] h1]; cbn [negb]; [|by intros [= _ <-]].
  destruct (malloc_list h1) as [[] h2]; cbn [negb]; [|by intros [= _ <-]].
  destruct (malloc_list h2) as [[] h3]; cbn [negb]; [|by intros [= _ <-]].
  rewrite root_exts_spec.
  set (st := mkstate _ _ _ _ _ _).
  destruct (recurse fuel _ _ 0 rd st) as [[r1 st1]|] eqn:E; [|done].
  assert (Hst : ustate tabag rd zmin [] st).
  { split; [apply same_tracts_refl|]. split; [done|]. split; [done|]. split; [done|].
    split; [apply all_zero_replicate|]. split; [apply length_replicate|].
    intros _ j _ _ m i Hm. done. }
  apply (recurse_any tabag rd zmin Hok Hsmin eq_refl fuel [] _ st r1 st1 Hst) in E.
  destruct E as [(new & Eout & Hnd & Hnew) Hgood].
  assert (Hrec : NoDup (isr_out (st_report st1)) ∧
    ∀ p, p ∈ isr_out (st_report st1) →
      frequent tabag smin' zmin zmax p ∧
      (Z.land mode ISR_CLOSED ≠ 0%Z → pos_wgts tabag → is_closed ukey tabag (pat_items p))).
  { rewrite Eout. cbn [st st_report isr_out report isr_create app]. split; [done|].
    intros p Hp. destruct (Hnew p Hp) as (F1 & F2 & _). split; [done|].
    intros Hm. by apply F2, Hcm. }
  destruct (Z.leb_spec 0 r1) as [Hr1|Hr1]; cbn [andb]; [|by intros [= _ <-]].
  destruct ((r1 <? tbg_wgt tabag)%Z || (Z.land mode ISR_CLOSED =? 0)%Z) eqn:Hdo;
    [|by intros [= _ <-]].
  destruct (Hgood Hr1) as [(U1 & U2 & U3 & U4 & U5 & U6 & U7 & U8) Hmax].
  intros H. destruct (isr_report (st_report st1)) as [r2 rep2] eqn:E2. injection H as _ <-.
  apply (Hlast (st_report st1) r2 rep2 new) in E2; try done.
  intros Hm. pose proof Hm as Hm'. apply Hcm in Hm'.
  apply Z.eqb_neq in Hm'. rewrite Hm', orb_false_r in Hdo. apply Z.ltb_lt in Hdo.
  apply empty_closed; [|lia].
  intros a Ha. destruct (Z.lt_ge_cases (supp [a]) smin') as [|Hge]; [lia|].
  assert (supp [a] ∈ freq_supps rd (frame ukey k (make_occs tabag) []) (seq 0 k)) as Hin.
  { unfold freq_supps. apply list_elem_of_filter. split; [done|]. apply list_elem_of_fmap.
    exists a. split; [|apply elem_of_seq; lia].
    by destruct (frame_ext ukey tabag Hok [] a Ha) as [-> _]. }
  destruct Hmax as [[Hmax _]|[_ Hmax]].
  - rewrite Hmax in Hin. by apply elem_of_nil in Hin.
  - specialize (Hmax _ Hin). lia.
Qed.

(** After a failure the empty sequence is not among the sequences that
    [sequoia] has written. *)
Lemma sequoia_failed_nonempty (fuel : nat) (target smin mode zmin zmax : Z)
    (io heap : list bool) (r : Z) (rep : ISREPORT D) :
  sequoia fuel tabag target smin mode (isr_create (tbg_wgt tabag) zmin zmax io) heap
    = Some (r, rep) →
  (r < 0)%Z → ∀ p, p ∈ isr_out rep → pat_items p ≠ [].
Proof.
  unfold sequoia.
  set (smin' := if (0 <? smin)%Z then smin else 1%Z).
  assert (Hsmin : (1 ≤ smin')%Z) by (unfold smin'; destruct (Z.ltb_spec 0 smin); lia).
  clearbody smin'.
  set (report := isr_create (D:=D) (tbg_wgt tabag) zmin zmax io).
  assert (Hnone : ∀ p, p ∈ isr_out report → pat_items p ≠ []).
  { intros p Hp. by apply elem_of_nil in Hp. }
  assert (Hlast : ∀ (rep1 : ISREPORT D) r2 rep2,
    (∀ p, p ∈ isr_out rep1 → pat_items p ≠ []) →
    isr_report rep1 = (r2, rep2) → (r2 < 0)%Z →
    ∀ p, p ∈ isr_out rep2 → pat_items p ≠ []).
  { intros rep1 r2 rep2 Hne E Hr. unfold isr_report in E.
    apply isr_emit_cases in E as (_ & _ & _ & _ & _ & [E|(E & _)]); [|lia].
    by rewrite E. }
  destruct (Z.ltb_spec (tbg_wgt tabag) smin') as [Hlow|Hhigh]; [by intros [= _ <-]|].
  set (rd := mkRECDATA target mode k (isr_zmax report) smin').
  destruct (Nat.eqb_spec k 0) as [Hk0|Hk].
  { intros H. destruct (isr_report report) as [r2 rep2] eqn:E. injection H as <- <-.
    by apply (Hlast report r2 rep2). }
  destruct (malloc_list heap) as [[] h1]; cbn [negb]; [|by intros [= _ <-]].
  destruct (malloc_list h1) as [[] h2]; cbn [negb]; [|by intros [= _ <-]].
  destruct (malloc_list h2) as [[] h3]; cbn [negb]; [|by intros [= _ <-]].
  rewrite root_exts_spec.
  set (st := mkstate _ _ _ _ _ _).
  destruct (recurse fuel _ _ 0 rd st) as [[r1 st1]|] eqn:E; [|done].
  assert (Hst : ustate tabag rd zmin [] st).
  { split; [apply same_tracts_refl|]. split; [done|]. split; [done|]. split; [done|].
    split; [apply all_zero_replicate|]. split; [apply length_replicate|].
    intros _ j _ _ m i Hm. done. }
  apply (recurse_any tabag rd zmin Hok Hsmin eq_refl fuel [] _ st r1 st1 Hst) in E.
  destruct E as [(new & Eout & Hnd & Hnew) _].
  assert (Hne : ∀ p, p ∈ isr_out (st_report st1) → pat_items p ≠ []).
  { rewrite Eout. cbn [st st_report isr_out report isr_create app].
    intros p Hp. destruct (Hnew p Hp) as (_ & _ & R & HR & ->). done. }
  destruct ((0 <=? r1)%Z && _).
  - intros H. destruct (isr_report (st_report st1)) as [r2 rep2] eqn:E2.
    injection H as <- <-. intros Hr. apply (Hlast (st_report st1) r2 rep2); [done|done|].
    destruct (Z.ltb_spec r2 0); lia.
  - by intros [= _ <-].
Qed.
End PlainSearch.

(** * The support border *)

(** ** The support border of the command line *)

Lemma count_colons_app s t : count_colons (s ++ t) = count_colons s + count_colons t.
Proof. induction s as [|c s IH]; cbn [count_colons app]; [done|]. rewrite IH. lia. Qed.

Lemma count_colons_drop n s : count_colons (drop n s) ≤ count_colons s.
Proof.
  rewrite <- (take_drop n s) at 2. rewrite count_colons_app. lia.
Qed.

Section Border.
Context {D : Type} (strtod : list ascii → D * nat).

(** The loop is left by [break] when it has a round for every colon
    and one more; the entries up to the index at which it is left are
    written, and [*end] is a part of the string. *)
Lemma getbdr_loop_spec n : ∀ i s e b i' e' b',
  count_colons s < n → i + n ≤ length b →
  (∀ j, j < i → is_Some (b !!! j)) →
  getbdr_loop strtod n i s e b = (i', e', b') →
  i ≤ i' ∧ i' ≤ i + count_colons s ∧ length b' = length b ∧
  length e' ≤ length s ∧
  (∀ j, j ≤ i' → is_Some (b' !!! j)).
Proof.
  induction n as [|n IH]; intros i s e b i' e' b' Hc Hl Hb; [lia|].
  cbn [getbdr_loop]. destruct (strtod s) as [v c].
  assert (Hins : ∀ j, j ≤ i → is_Some (<[i := Some v]> b !!! j)).
  { intros j Hj. rewrite list_lookup_total_insert. case_decide as Hd; [done|].
    apply Hb. destruct (decide (i = j)) as [->|]; [|lia]. exfalso. apply Hd. split; [done|lia]. }
  assert (Hstop : (i, drop c s, <[i := Some v]> b) = (i', e', b') →
    i ≤ i' ∧ i' ≤ i + count_colons s ∧ length b' = length b ∧
    length e' ≤ length s ∧ (∀ j, j ≤ i' → is_Some (b' !!! j))).
  { intros [= <- <- <-]. rewrite length_insert, length_drop.
    split; [lia|]. split; [lia|]. split; [done|]. split; [lia|done]. }
  destruct (c =? 0); [done|].
  pose proof (count_colons_drop c s) as Hd.
  pose proof (length_drop s c) as Hld.
  destruct (drop c s) as [|x s'] eqn:Es; [done|].
  destruct (Ascii.eqb_spec x ":") as [->|Hne].
  - intros H. cbn [count_colons] in Hd. rewrite Ascii.eqb_refl in Hd. cbn [length] in Hld.
    apply IH in H.
    + destruct H as (H1 & H2 & H3 & H4 & H5). rewrite length_insert in H3.
      split; [lia|]. split; [lia|]. split; [done|]. split; [lia|done].
    + lia.
    + rewrite length_insert. lia.
    + intros j Hj. apply Hins. lia.
  - assert (∀ X (a b : X), match x with ":"%char => a | _ => b end = b) as Hm.
    { intros X a0 b0. destruct x as [[] [] [] [] [] [] [] []]; try done. }
    rewrite Hm. done.
Qed.

(** The result of [getbdr] after a failed allocation, and otherwise. *)
Lemma getbdr_spec s heap r e b h :
  getbdr strtod s heap = (r, e, b, h) →
  (r = (-1)%Z ∧ e = s ∧ b = None ∧ (malloc_list heap).1 = false) ∨
  ((malloc_list heap).1 = true ∧
   (1 ≤ r ≤ Z.of_nat (count_colons s) + 1)%Z ∧ length e ≤ length s ∧
   ∀ l, b = Some l → Z.of_nat (length l) = r ∧ ∀ j, j < length l → is_Some (l !!! j)).
Proof.
  unfold getbdr. destruct (malloc_list heap) as [[] h1]; cbn [negb fst].
  2:{ intros [= <- <- <- <-]. by left. }
  destruct (getbdr_loop _ _ _ _ _ _) as [[i e1] b1] eqn:E.
  apply getbdr_loop_spec in E.
  2:{ lia. }
  2:{ by rewrite length_replicate. }
  2:{ intros; lia. }
  destruct E as (_ & Hi & Hlen & He & Hb). rewrite length_replicate in Hlen.
  cbn [Nat.add] in Hi. cbv zeta.
  destruct (Nat.ltb_spec (S i) (S (count_colons s))) as [Hlt|Hge].
  - destruct (malloc_list h1) as [ok h2]. intros [= <- <- <- <-]. right.
    split; [done|]. split; [lia|]. split; [done|]. intros l Hl. destruct ok; [|done].
    injection Hl as <-. rewrite length_take. split; [lia|].
    intros j Hj. rewrite lookup_total_take, decide_True by lia. apply Hb. lia.
  - intros [= <- <- <- <-]. right. split; [done|]. split; [lia|]. split; [done|].
    intros l [= <-]. split; [lia|]. intros j Hj. apply Hb. lia.
Qed.

(** The loop on the text of parameters that [strtod] converts, with
    colons between them. *)
Lemma getbdr_loop_fields (fields : list (list ascii * D)) : ∀ f v n i e (done : list D) extra,
  (f ≠ [] ∧ ∀ rest, (rest = [] ∨ ∃ r', rest = ":"%char :: r') →
                    strtod (f ++ rest) = (v, length f)) →
  (∀ f' v', (f', v') ∈ fields →
     f' ≠ [] ∧ ∀ rest, (rest = [] ∨ ∃ r', rest = ":"%char :: r') →
                       strtod (f' ++ rest) = (v', length f')) →
  length fields < n → i = length done →
  getbdr_loop strtod n i (f ++ foldr (λ fv t, ":"%char :: fv.1 ++ t) [] fields) e
    ((Some <$> done) ++ replicate (S (length fields) + extra) None) =
  (i + length fields, [],
   (Some <$> (done ++ v :: fields.*2)) ++ replicate extra None).
Proof.
  induction fields as [|[f1 v1] fields IH]; intros f v n i e done extra [Hne Hf] Hall Hn Hi.
  - destruct n as [|n]; [cbn in Hn; lia|]. cbn [getbdr_loop foldr].
    rewrite (Hf []) by (by left). rewrite app_nil_r.
    destruct (Nat.eqb_spec (length f) 0) as [E|_].
    { destruct f; [done|cbn in E; lia]. }
    rewrite drop_all. cbn [length]. rewrite Nat.add_0_r. f_equal.
    rewrite insert_app_r_alt by (rewrite length_fmap; lia).
    rewrite length_fmap, Hi, Nat.sub_diag. cbn [replicate Nat.add].
    rewrite fmap_app. cbn. by rewrite <- app_assoc.
  - destruct n as [|n]; [cbn in Hn; lia|]. cbn [getbdr_loop foldr fst].
    rewrite (Hf (":"%char :: f1 ++ _)) by (right; by eexists).
    destruct (Nat.eqb_spec (length f) 0) as [E|_].
    { destruct f; [done|cbn in E; lia]. }
    rewrite drop_app_length.
    rewrite insert_app_r_alt by (rewrite length_fmap; lia).
    rewrite length_fmap, Hi, Nat.sub_diag. cbn [length replicate Nat.add insert list_insert].
    specialize (IH f1 v1 n (S (length done)) (":"%char :: f1 ++ foldr (λ fv t, ":"%char :: fv.1 ++ t) [] fields)
                  (done ++ [v]) extra).
    rewrite fmap_app in IH. cbn [fmap list_fmap] in IH. rewrite <- app_assoc in IH.
    cbn [app] in IH. change (list_fmap D (option D) Some done) with (Some <$> done) in IH.
    etrans.
    { apply IH.
      - apply (Hall f1 v1). by left.
      - intros f' v' H. apply Hall. by right.
      - cbn [length] in Hn. lia.
      - rewrite length_app. cbn. lia. }
    f_equal; [f_equal; lia|]. rewrite <- app_assoc. done.
Qed.
End Border.

(** * The arguments of the program *)

(** ** The evaluation of the arguments *)

Lemma str_option_var c v : str_option c = Some v → v ≠ v_fn_inp ∧ v ≠ v_fn_out.
Proof.
  destruct c as [[] [] [] [] [] [] [] []]; cbn; intros H; try discriminate H;
    injection H as <-; done.
Qed.

Section Arguments.
Context {D : Type} (of_supp : Z → D) (dlt : D → D → bool).
Context (strtod : list ascii → D * nat) (strtol : list ascii → Z * nat).
Context (to_item : Z → Z) (ITEM_MAX : Z).
Implicit Type o : OPTS (D:=D).

Local Abbreviation eval_option_ := (eval_option strtod strtol to_item).
Local Abbreviation eval_options_ := (eval_options strtod strtol to_item).
Local Abbreviation eval_arg_ := (eval_arg strtod strtol to_item).
Local Abbreviation eval_args_ := (eval_args strtod strtol to_item).

(** An option takes no character back, leaves the file names alone and
    lets only an option with a string argument wait for it. *)
Lemma eval_option_inr c s o o' s' :
  eval_option_ c s o = inr (o', s') →
  length s' ≤ length s ∧ o_k o' = o_k o ∧ o_str o' = o_str o ∧
  ((o_optarg o' = o_optarg o ∧ str_option c = None) ∨
   (str_option c = o_optarg o' ∧ is_Some (o_optarg o') ∧ s' = s ∧
    o' = set_optarg o (o_optarg o'))).
Proof.
  pose proof (length_drop s) as Hd.
  destruct c as [[] [] [] [] [] [] [] []]; cbn -[getbdr]; try discriminate;
    repeat match goal with
           | |- context [strtol s] => destruct (strtol s) as [? n]; specialize (Hd n)
           | |- context [strtod s] => destruct (strtod s) as [? n]; specialize (Hd n)
           end;
    try (intros [= <- <-]; cbn; split; [lia|]; split; [done|]; split; [done|];
         first [left; by split | right; split; [done|]; split; [by eexists|]; by split]).
  - (* F *)
    destruct (getbdr strtod s (o_heap o)) as [[[r e] b] h] eqn:E.
    intros [= <- <-]. cbn. apply getbdr_spec in E.
    split; [|split; [done|split; [done|left; by split]]].
    destruct E as [(_ & -> & _)|(_ & _ & ? & _)]; lia.
  - (* t *)
    destruct s as [|c' s0]; intros [= <- <-]; cbn;
      (split; [lia|]; split; [done|]; split; [done|]; left; by split).
Qed.

Lemma set_str_inv o v t :
  args_inv o → v ≠ v_fn_inp → v ≠ v_fn_out → args_inv (set_str (set_optarg o None) v t).
Proof.
  intros (H1 & H2 & H3 & H4) Hv1 Hv2. split; [done|]. cbn.
  rewrite !decide_False by done. split; [done|]. split; [done|]. done.
Qed.

(** The options of one argument. *)
Lemma eval_options_spec fuel : ∀ s o,
  length s ≤ fuel → o_optarg o = None → args_inv o →
  ∃ r, eval_options_ fuel s o = Some r ∧
       ∀ o', r = inr o' → args_inv o' ∧ o_k o' = o_k o.
Proof.
  induction fuel as [|fuel IH]; intros s o Hl Ho Hinv.
  { destruct s; [|cbn in Hl; lia]. exists (inr o). split; [done|]. by intros o' [= <-]. }
  destruct s as [|c s]; cbn [eval_options].
  { exists (inr o). split; [done|]. by intros o' [= <-]. }
  destruct (eval_option_ c s o) as [e|[o1 s1]] eqn:E.
  { exists (inl e). split; [done|]. done. }
  apply eval_option_inr in E as (Hl1 & Hk & Hs & Hopt).
  assert (Hinv1 : args_inv (set_optarg o1 None)).
  { destruct Hinv as (H1 & H2 & H3 & H4). split; [cbn; lia|]. cbn. rewrite Hs, Hk. done. }
  destruct Hopt as [[Hopt _]|(Hc & [v Hv] & -> & Ho1)].
  - rewrite Hopt, Ho. destruct (IH s1 o1) as (r & Hr & Hr').
    + cbn in Hl; lia.
    + congruence.
    + destruct Hinv as (H1 & H2 & H3 & H4). split; [lia|]. rewrite Hs, Hk.
      split; [done|]. split; [done|]. intros v. rewrite Hopt, Ho. done.
    + exists r. split; [by destruct s1|]. intros o' Ho'. rewrite <- Hk. by apply Hr'.
  - rewrite Hv in *. apply str_option_var in Hc as [Hv1 Hv2].
    destruct s as [|c1 s].
    + exists (inr o1). split; [by destruct fuel|]. intros o' [= <-]. split; [|done].
      destruct Hinv as (H1 & H2 & H3 & H4). split; [lia|]. rewrite Hs, Hk.
      split; [done|]. split; [done|]. intros v'. rewrite Hv. by intros [= <-].
    + eexists. split; [done|]. intros o' [= <-].
      split; [by apply (set_str_inv (set_optarg o1 None))|]. cbn. lia.
Qed.

Lemma eval_arg_spec o s :
  args_inv o →
  ∃ r, eval_arg_ o s = Some r ∧ ∀ o', r = inr o' → args_inv o'.
Proof.
  intros Hinv. unfold eval_arg.
  destruct (o_optarg o) as [v|] eqn:Ho.
  { eexists. split; [done|]. intros o' [= <-].
    destruct Hinv as (H1 & H2 & H3 & H4). destruct (H4 v Ho).
    apply set_str_inv; done. }
  assert (Hfile : ∀ t,
    ∃ r, match o_k o with
         | 0 => Some (inr (set_k (set_str o v_fn_inp t) 1))
         | 1 => Some (inr (set_k (set_str o v_fn_out t) 2))
         | S (S _) => Some (inl E_ARGCNT)
         end = Some r ∧ ∀ o', r = inr o' → args_inv o').
  { intros t. destruct Hinv as (H1 & H2 & H3 & H4).
    destruct (o_k o) as [|[|k]] eqn:Ek; (eexists; split; [done|]); [| |done].
    - intros o' [= <-]. split; [cbn; lia|]. cbn. split; [split; [lia|by eexists]|].
      split; [|by rewrite Ho]. rewrite H3. split; lia.
    - intros o' [= <-]. split; [cbn; lia|]. cbn. split; [rewrite H2; split; lia|].
      split; [split; [lia|by eexists]|by rewrite Ho]. }
  destruct s as [|c s]; [apply Hfile|].
  destruct (Ascii.eqb_spec c "-") as [->|Hne].
  - destruct s as [|c1 s]; [apply Hfile|].
    destruct (eval_options_spec (length (c1 :: s)) (c1 :: s) o) as (r & -> & Hr); try done.
    exists r. split; [done|]. intros o' Ho'. by apply Hr.
  - assert (∀ X (a b : X), match c with "-"%char => a | _ => b end = b) as Hm.
    { intros X a0 b0. destruct c as [[] [] [] [] [] [] [] []]; try done. }
    rewrite !Hm. apply Hfile.
Qed.

Lemma eval_args_spec args : ∀ o,
  args_inv o →
  ∃ r, eval_args_ o args = Some r ∧ ∀ o', r = inr o' → args_inv o'.
Proof.
  induction args as [|s args IH]; intros o Hinv; cbn [eval_args].
  { exists (inr o). split; [done|]. by intros o' [= <-]. }
  destruct (eval_arg_spec o s Hinv) as (r & -> & Hr).
  destruct r as [e|o1]; [by exists (inl e)|]. apply IH. by apply Hr.
Qed.

(** An option with a string argument takes the rest of its argument or,
    when there is none, the next argument. *)
Lemma str_option_forms c v t o args :
  str_option c = Some v → o_optarg o = None → t ≠ [] →
  eval_args_ o (("-"%char :: c :: t) :: args) = eval_args_ (set_str o v t) args ∧
  eval_args_ o (["-"%char; c] :: t :: args) = eval_args_ (set_str o v t) args.
Proof.
  intros Hc Ho Ht.
  assert (Ho' : set_str (set_optarg o None) v t = set_str o v t).
  { destruct o. cbn in Ho. by subst. }
  destruct t as [|c1 t]; [done|].
  assert (He : eval_option_ c (c1 :: t) o = inr (set_optarg o (Some v), c1 :: t) ∧
               eval_option_ c [] o = inr (set_optarg o (Some v), [])).
  { destruct c as [[] [] [] [] [] [] [] []]; cbn in Hc; try discriminate Hc;
      injection Hc as <-; done. }
  destruct He as [He1 He2]. split.
  - cbn [eval_args]. unfold eval_arg. rewrite Ho.
    cbn [length eval_options]. rewrite He1. cbn [o_optarg set_optarg].
    by rewrite <- Ho'.
  - cbn [eval_args]. unfold eval_arg at 1. rewrite Ho.
    cbn [length eval_options]. rewrite He2. cbn [o_optarg set_optarg].
    unfold eval_arg. cbn [o_optarg set_optarg]. by rewrite <- Ho'.
Qed.
End Arguments.

(** * The two variants of the search *)

(** ** The search with item weights follows the plain search *)

Section Strip.
Context {D : Type}.
Implicit Type occs : list (PATOCC (WITEM D)).

Lemma strip_lookup occs j : (strip_occ <$> occs) !!! j = strip_occ (occs !!! j).
Proof.
  rewrite !list_lookup_total_alt, list_lookup_fmap. by destruct (occs !! j).
Qed.

Lemma gap_strip (o : PATOCC (WITEM D)) n : gap (strip_occ o) n = wi_item <$> gap o n.
Proof.
  unfold gap. cbn [strip_occ po_items po_ips].
  assert (gap_start (strip_occ o) n = gap_start o n) as -> by (by destruct n).
  by rewrite fmap_take, fmap_drop.
Qed.

Lemma count_fold_strip i (l : list (WITEM D)) : ∀ acc,
  fold_left (count_item ukey i) (wi_item <$> l) acc = fold_left (count_item wkey i) l acc.
Proof.
  induction l as [|a l IH]; intros acc; [done|]. cbn [fmap list_fmap fold_left].
  etrans; [|apply IH]. f_equal.
Qed.

Lemma scan_gap_strip occs n oxs : ∀ i acc,
  scan_gap ukey (strip_occ <$> occs) n i oxs acc = scan_gap wkey occs n i oxs acc.
Proof.
  induction oxs as [|x oxs IH]; intros i [[frqs b] k0]; [done|]. cbn [scan_gap].
  rewrite strip_lookup, gap_strip, count_fold_strip.
  destruct (fold_left _ _ _) as [[frqs1 b1] k1]. destruct (k1 =? 0); [done|apply IH].
Qed.

Lemma scan_gaps_strip occs oxs n : ∀ frqs,
  scan_gaps ukey (strip_occ <$> occs) oxs n frqs = scan_gaps wkey occs oxs n frqs.
Proof.
  induction n as [|n IH]; intros frqs; [done|]. cbn [scan_gaps].
  rewrite scan_gap_strip. destruct (scan_gap _ _ _ _ _ _) as [[frqs1 b1] k1].
  destruct (0 <? k1); [done|apply IH].
Qed.

Lemma anchor_strip n oxs : ∀ occs,
  anchor n oxs (strip_occ <$> occs) = strip_occ <$> anchor n oxs occs.
Proof.
  unfold anchor. induction oxs as [|x oxs IH]; intros occs; [done|]. cbn [fold_left].
  rewrite <- IH. f_equal. symmetry. apply list_fmap_alter.
  apply Forall_forall. intros o _. unfold strip_occ, set_ips. done.
Qed.

Lemma add_items_strip o w (l : list (WITEM D)) : ∀ q acc,
  add_items ukey o w acc (indexed q (wi_item <$> l)) = add_items wkey o w acc (indexed q l).
Proof.
  unfold add_items. induction l as [|a l IH]; intros q [c z]; [done|].
  cbn [fmap list_fmap indexed fold_left]. apply IH.
Qed.

Lemma project_strip occs k e :
  project ukey (strip_occ <$> occs) k e = project wkey occs k e.
Proof.
  unfold project. generalize (clear_exts k, 0).
  induction (pe_oxs e) as [|x l IH]; intros acc; cbn [fold_left]; [done|].
  rewrite strip_lookup. cbn [strip_occ po_items po_wgt].
  rewrite <- fmap_drop, add_items_strip. apply IH.
Qed.

Lemma root_exts_strip occs k :
  root_exts ukey k (strip_occ <$> occs) = root_exts wkey k occs.
Proof.
  unfold root_exts. f_equal. generalize (clear_exts k, 0). generalize 0 at 2 4.
  induction occs as [|o occs IH]; intros p acc; [done|].
  cbn [fmap list_fmap indexed fold_left]. cbn [strip_occ po_items po_wgt].
  rewrite add_items_strip. apply IH.
Qed.

Lemma make_occs_strip (tabag : TABAG (WITEM D)) :
  make_occs (strip_bag tabag) = strip_occ <$> make_occs tabag.
Proof.
  unfold make_occs, strip_bag. cbn [tbg_tracts]. rewrite <- !list_fmap_compose.
  apply list_fmap_ext. intros _ t _. unfold strip_occ, ta_size. cbn.
  by rewrite length_fmap.
Qed.

Lemma tbg_wgt_strip (tabag : TABAG (WITEM D)) : tbg_wgt (strip_bag tabag) = tbg_wgt tabag.
Proof.
  unfold tbg_wgt, strip_bag. cbn [tbg_tracts].
  induction (tbg_tracts tabag) as [|t ts IH]; [done|]. cbn. by rewrite IH.
Qed.

Lemma tbg_extent_strip (tabag : TABAG (WITEM D)) :
  tbg_extent (strip_bag tabag) = tbg_extent tabag.
Proof.
  unfold tbg_extent, strip_bag, ta_size. cbn [tbg_tracts].
  induction (tbg_tracts tabag) as [|t ts IH]; [done|]. cbn. by rewrite IH, length_fmap.
Qed.

Lemma ukey_fmap (l : list nat) : ukey <$> l = l.
Proof. apply list_fmap_id. Qed.

Lemma support_strip (tabag : TABAG (WITEM D)) p :
  support ukey (strip_bag tabag) p = support wkey tabag p.
Proof.
  unfold support, strip_bag, contains. cbn [tbg_tracts].
  induction (tbg_tracts tabag) as [|t ts IH]; [done|]. cbn [fmap list_fmap foldr ta_items ta_wgt].
  by rewrite IH, ukey_fmap.
Qed.

Lemma bag_ok_strip (tabag : TABAG (WITEM D)) :
  bag_ok ukey (strip_bag tabag) = bag_ok wkey tabag.
Proof.
  unfold bag_ok, strip_bag. cbn [tbg_tracts tbg_itemcnt].
  induction (tbg_tracts tabag) as [|t ts IH]; [done|]. cbn [fmap list_fmap forallb].
  rewrite IH. f_equal. unfold tract_ok. cbn [ta_items ta_wgt]. rewrite ukey_fmap.
  f_equal. induction (ta_items t) as [|a l IHl]; [done|].
  cbn [fmap list_fmap forallb]. by rewrite IHl.
Qed.

Lemma pos_wgts_strip (tabag : TABAG (WITEM D)) :
  pos_wgts tabag → pos_wgts (strip_bag tabag).
Proof.
  intros H t (t' & -> & Ht)%list_elem_of_fmap. cbn. by apply H.
Qed.

Lemma is_closed_strip (tabag : TABAG (WITEM D)) P :
  is_closed ukey (strip_bag tabag) P → is_closed wkey tabag P.
Proof.
  intros H Q HQ Hne. rewrite <- !support_strip. by apply H.
Qed.

Lemma same_tracts_sym {A} (occs occs' : list (PATOCC A)) :
  same_tracts occs occs' → same_tracts occs' occs.
Proof.
  intros [H1 H2]. split; [done|]. intros j. destruct (H2 j) as (? & ? & ?). done.
Qed.

(** The reporter *)
Lemma isr_emit_sim (rw ru : ISREPORT D) pw r rw' :
  sim_rep rw ru → isr_emit rw pw = (r, rw') →
  ∃ ru', isr_emit ru (strip_pat pw) = (r, ru') ∧ sim_rep rw' ru' ∧
         isr_stack ru' = isr_stack ru ∧ isr_cfg ru' = isr_cfg ru.
Proof.
  intros (H1 & H2 & H3 & H4). unfold isr_emit. cbn [strip_pat pat_items].
  rewrite H1, H2, H3. destruct (_ || _).
  - intros [= <- <-]. exists ru. done.
  - destruct (isr_io rw) as [|[] io]; intros [= <- <-]; eexists; (split; [done|]);
      unfold sim_rep, isr_cfg; cbn; rewrite ?H4, ?fmap_app, ?H1, ?H2; done.
Qed.

(** The closedness test, after the occurrences were anchored. *)
Lemma closed_test_sim rd e len (sw sw1 : state (WITEM D) D) (su : state nat D) :
  sim rd sw su →
  st_occs sw1 = anchor len (pe_oxs e) (st_occs sw) → st_frqs sw1 = st_frqs sw →
  st_heap sw1 = st_heap sw → st_report sw1 = st_report sw →
  ∃ su_c, closed_test rd e len su = ((closed_test_iw rd e len sw1).1, su_c) ∧
          sim rd (closed_test_iw rd e len sw1).2 su_c ∧
          st_report su_c = st_report su.
Proof.
  intros (T & Hc & Hf & Hh & Hr) Eo Ef Eh Er.
  unfold closed_test, closed_test_iw, closed, closed_iw.
  destruct (closed_mode rd) eqn:Hcm.
  - specialize (Hc eq_refl). rewrite Hc, anchor_strip, scan_gaps_strip, Hf, Eo, Ef.
    destruct (scan_gaps _ _ _ _ _) as [r frqs]. eexists. split; [done|].
    split; [|done]. unfold sim. cbn [snd st_occs st_frqs st_heap st_report set_frqs set_occs].
    rewrite Eo. split; [apply same_tracts_refl|].
    split; [done|]. split; [done|]. split; [by rewrite Hh, Eh|by rewrite Er].
  - exists su. split; [done|]. split; [|done]. cbn [snd]. unfold sim.
    split.
    + rewrite Eo, <- anchor_strip. eapply same_tracts_trans; [exact T|].
      apply same_tracts_sym, same_tracts_anchor.
    + split; [by rewrite Hcm|]. split; [by rewrite Ef|]. split; [by rewrite Eh|by rewrite Er].
Qed.
End Strip.

Section Simulation.
Context {D : Type} (dzero : D) (dadd dmul : D → D → D) (of_supp : Z → D).
Context (tabag : TABAG (WITEM D)) (rd : RECDATA).
Hypothesis Hok : bag_ok wkey tabag = true.
Hypothesis Hsmin : (1 ≤ rd_smin rd)%Z.
Hypothesis Hcnt : rd_cnt rd = tbg_itemcnt tabag.
Implicit Type sw : state (WITEM D) D.
Implicit Type su : state nat D.
Implicit Type P : list nat.

Local Abbreviation k := (tbg_itemcnt tabag).
Local Abbreviation occs0 := (make_occs tabag).
Local Abbreviation fr P := (frame wkey k occs0 P).
Local Abbreviation supp P := (support wkey tabag P).
Local Abbreviation ext_loop_w := (ext_loop_iw dzero dadd dmul of_supp).
Local Abbreviation rec_w := (rec_iw dzero dadd dmul of_supp).

Lemma sim_post_trans r sw' su su1 su' :
  isr_cfg (st_report su1) = isr_cfg (st_report su) →
  isr_stack (st_report su1) = isr_stack (st_report su) →
  sim_post rd r sw' su1 su' → sim_post rd r sw' su su'.
Proof.
  intros Hw Hs (H1 & H2 & H3). split; [done|]. split; [congruence|].
  intros Hr. rewrite H3 by done. done.
Qed.

Lemma ext_loop_sim recw recu P cond :
  rec_sound dzero dadd dmul of_supp tabag recw P → rec_sim tabag rd recw recu P →
  ∀ todo s max sw su s' max' sw',
    (∀ i, i ∈ todo → i < k) → wstate tabag P sw → sim rd sw su →
    fst <$> isr_stack (st_report su) = rev P →
    ext_loop_w recw rd (fr P) cond (S (length P)) todo s max sw = Some (s', max', sw') →
    ∃ su', ext_loop recu rd (fr P) cond (S (length P)) todo s max su = Some (s', max', su') ∧
           sim_post rd s' sw' su su'.
Proof.
  intros Hsound Hsim.
  induction todo as [|i todo IH]; intros s max sw su s' max' sw' Hlt Hst Hrel Hstk;
    cbn [ext_loop_iw ext_loop].
  { intros [= <- <- <-]. exists su. done. }
  assert (Hi : i < k) by (apply Hlt; left).
  assert (Hlt' : ∀ i', i' ∈ todo → i' < k) by (intros; apply Hlt; by right).
  destruct (frame_ext_w tabag Hok P i Hi) as [Esupp Eoxs]. rewrite Esupp.
  destruct (Z.ltb_spec (supp (P ++ [i])) (rd_smin rd)) as [Hlow|Hhigh]; [by apply IH|].
  assert (Hs1 : (1 ≤ supp (P ++ [i]))%Z) by lia.
  cbn [st_occs set_items].
  destruct (anchor_wstate tabag rd Hok Hcnt P i (S (length P)) sw Hst Hs1 eq_refl) as [Hwb Hsb].
  cbv zeta in Hwb, Hsb. rewrite <- Eoxs in Hwb, Hsb.
  set (st_b := set_occs _ _) in *.
  set (max1 := if (max <? supp (P ++ [i]))%Z then supp (P ++ [i]) else max).
  destruct (closed_test_sim rd (fr P !!! i) (S (length P)) sw st_b su Hrel)
    as (su_c & Ecu & Hrel_c & Hrep_c); try done.
  rewrite Ecu.
  destruct (closed_test_iw_same rd (fr P !!! i) (S (length P)) st_b) as (_ & Cr & Ci & Cw & Co).
  destruct (closed_test_iw rd (fr P !!! i) (S (length P)) st_b) as [r st_c].
  cbn [fst snd] in *.
  assert (Hbc : wstep (P ++ [i]) st_b st_c).
  { repeat split; rewrite ?Co, ?Ci, ?Cw; done. }
  assert (Hwc : wstate tabag (P ++ [i]) st_c) by (by eapply wstate_step).
  assert (Hsc : wstep P sw st_c).
  { eapply wstep_trans; [exact Hsb|]. by eapply wstep_weaken. }
  destruct (r =? 0)%Z.
  { intros H. apply (IH _ _ _ su_c) in H; [|done|by eapply wstate_step|done|by rewrite Hrep_c].
    destruct H as (su' & H1 & H2). exists su'. split; [done|].
    eapply sim_post_trans; [| |exact H2]; by rewrite Hrep_c. }
  set (su_d := set_report su_c (isr_add (st_report su_c) i (supp (P ++ [i])))).
  assert (Hrel_d : sim rd st_c su_d).
  { destruct Hrel_c as (R1 & R2 & R3 & R4 & R5). done. }
  assert (Hstk_d : isr_stack (st_report su_d) =
                   (i, supp (P ++ [i])) :: isr_stack (st_report su)).
  { cbn. by rewrite Hrep_c. }
  assert (Hwgt_d : isr_cfg (st_report su_d) = isr_cfg (st_report su)).
  { unfold isr_cfg. cbn. by rewrite Hrep_c. }
  assert (Hrep : ∀ s1 sw3 su3, wstate tabag (P ++ [i]) sw3 → wstep P sw sw3 →
    sim rd sw3 su3 →
    isr_stack (st_report su3) = (i, supp (P ++ [i])) :: isr_stack (st_report su) →
    isr_cfg (st_report su3) = isr_cfg (st_report su) →
    (if closed_mode rd && (supp (P ++ [i]) <=? s1)%Z
     then ext_loop_w recw rd (fr P) cond (S (length P)) todo s1 max1 sw3
     else
       let st4 := set_wgts sw3 (sum_wgts dzero dadd dmul of_supp (st_occs sw3) (fr P !!! i)
                                  (S (length P)) (st_wgts sw3)) in
       let '(r0, rep) := isr_isetx (st_report st4) (st_items st4) (S (length P))
                           (st_wgts st4) (supp (P ++ [i])) in
       if (r0 <? 0)%Z then Some ((-1)%Z, max1, set_report st4 rep)
       else ext_loop_w recw rd (fr P) cond (S (length P)) todo s1 max1
              (set_report st4 rep)) = Some (s', max', sw') →
    ∃ su',
      (if negb (closed_mode rd) || (s1 <? supp (P ++ [i]))%Z
       then let '(r0, rep) := isr_report (st_report su3) in
            if (r0 <? 0)%Z then Some ((-1)%Z, max1, set_report su3 rep)
            else ext_loop recu rd (fr P) cond (S (length P)) todo s1 max1
                   (set_report su3 (isr_remove rep 1))
       else ext_loop recu rd (fr P) cond (S (length P)) todo s1 max1
              (set_report su3 (isr_remove (st_report su3) 1))) = Some (s', max', su') ∧
      sim_post rd s' sw' su su').
  { intros s1 sw3 su3 Hw3 Hs3 Hrel3 Hstk3 Hwgt3.
    assert (Hcond : negb (closed_mode rd) || (s1 <? supp (P ++ [i]))%Z =
                    negb (closed_mode rd && (supp (P ++ [i]) <=? s1)%Z)).
    { destruct (closed_mode rd); cbn; [|done].
      destruct (Z.ltb_spec s1 (supp (P ++ [i]))), (Z.leb_spec (supp (P ++ [i])) s1);
        try done; lia. }
    rewrite Hcond. destruct (_ && _); cbn [negb].
    - intros H.
      apply (IH _ _ _ (set_report su3 (isr_remove (st_report su3) 1))) in H;
        [|done|by eapply wstate_step| |].
      + destruct H as (su' & H1 & H2). exists su'. split; [done|].
        eapply sim_post_trans; [| |exact H2].
        { unfold isr_cfg in *. cbn. congruence. }
        { cbn. rewrite Hstk3. done. }
      + destruct Hrel3 as (R1 & R2 & R3 & R4 & R5). done.
      + cbn. by rewrite Hstk3.
    - cbv zeta.
      set (w' := sum_wgts _ _ _ _ _ _ _ _) in *.
      cbn [st_report st_items st_wgts set_wgts].
      destruct (isr_isetx _ _ _ _ _) as [r0 rep] eqn:E. unfold isr_isetx in E.
      destruct Hrel3 as (R1 & R2 & R3 & R4 & R5).
      destruct (isr_emit_sim _ _ _ _ _ R5 E) as (ru' & Eu & Hru & Hrs & Hrw).
      assert (Epat : strip_pat (Pat (take (S (length P)) (st_items sw3))
                                    (take (S (length P)) w') (supp (P ++ [i]))) =
                     Pat (D:=D) (rev (fst <$> isr_stack (st_report su3))) []
                         (match isr_stack (st_report su3) with
                          | (_, s0) :: _ => s0 | [] => isr_wgt (st_report su3) end)).
      { rewrite Hstk3. cbn [fmap list_fmap fst rev]. rewrite Hstk, rev_involutive.
        unfold strip_pat. cbn [pat_items pat_supp]. f_equal.
        destruct Hw3 as (_ & _ & _ & _ & H5). rewrite length_app, Nat.add_1_r in H5. done. }
      unfold isr_report. rewrite <- Epat, Eu.
      assert (H34 : ∀ rep', wstep P sw3 (set_report (set_wgts sw3 w') rep')).
      { intros rep'. repeat split; try done. cbn. unfold w'.
        destruct (emitted_sound dzero dadd dmul of_supp tabag rd Hok Hcnt P i sw3 Hw3 Hs1 Hi)
          as [Hlen _]. done. }
      destruct (r0 <? 0)%Z eqn:Er0.
      + intros [= <- <- <-]. eexists. split; [done|]. split; [done|].
        split; [unfold isr_cfg in *; cbn; congruence|]. intros ?. lia.
      + intros H.
        apply (IH _ _ _ (set_report su3 (isr_remove ru' 1))) in H; [|done| | |].
        * destruct H as (su' & H1 & H2). exists su'. split; [done|].
          eapply sim_post_trans; [| |exact H2].
          { unfold isr_cfg in *. cbn. congruence. }
          { cbn. rewrite Hrs, Hstk3. done. }
        * eapply wstate_step; [done|exact Hst|].
          eapply wstep_trans; [exact Hs3|apply H34].
        * split; [done|]. split; [done|]. split; [done|]. split; [done|].
          destruct Hru as (? & ? & ? & ?). done.
        * cbn. by rewrite Hrs, Hstk3. }
  assert (Hpu : project ukey (st_occs su_d) (rd_cnt rd) (fr P !!! i) =
                project wkey (st_occs st_c) (rd_cnt rd) (fr P !!! i)).
  { rewrite <- project_strip. apply project_ext. intros j.
    destruct Hrel_d as ([_ T] & _). destruct (T j) as (? & ? & _). done. }
  destruct cond.
  2:{ apply Hrep; done. }
  rewrite Hpu.
  rewrite (project_ext wkey (st_occs st_c) occs0 (rd_cnt rd) (fr P !!! i)).
  2:{ intros j. destruct Hwc as ([_ Hpt] & _). destruct (Hpt j) as (? & ? & _). done. }
  rewrite Hcnt.
  destruct (project_frame wkey occs0 k P i Hi) as [Hpf _].
  destruct (project wkey occs0 k (fr P !!! i)) as [c z]. cbn [fst] in Hpf. subst c.
  destruct (0 <? z); [|by apply Hrep].
  destruct (recw (fr (P ++ [i])) z st_c) as [[s1 sw3]|] eqn:E; [|done].
  destruct (Hsim i z st_c su_d s1 sw3 Hi Hwc Hrel_d) as (su3 & Eu & Hrel3 & Hwgt3 & Hstk3);
    [|done|].
  { rewrite Hstk_d. cbn [fmap list_fmap fst]. rewrite Hstk. by rewrite rev_app_distr. }
  rewrite Eu.
  apply Hsound in E; [|done|done]. destruct E as [E1 _].
  assert (Hs3 : wstep P sw sw3).
  { eapply wstep_trans; [exact Hsc|]. by eapply wstep_weaken. }
  destruct (Z.ltb_spec s1 0) as [Hneg|Hpos].
  - intros [= <- <- <-]. exists su3. split; [done|]. split; [done|].
    split; [congruence|]. intros ?. lia.
  - apply Hrep; [by eapply wstate_step|done|done| |].
    + rewrite Hstk3 by done. done.
    + congruence.
Qed.

Lemma rec_iw_sim fuel : ∀ P z sw su r sw',
  wstate tabag P sw → sim rd sw su → fst <$> isr_stack (st_report su) = rev P →
  rec_w fuel (fr P) z (length P) rd sw = Some (r, sw') →
  ∃ su', recurse fuel (fr P) z (length P) rd su = Some (r, su') ∧
         sim_post rd r sw' su su'.
Proof.
  induction fuel as [|fuel IH]; intros P z sw su r sw' Hst Hrel Hstk; [done|].
  cbn [rec_iw recurse].
  assert (Hsound : rec_sound dzero dadd dmul of_supp tabag
                     (λ c z st, rec_w fuel c z (S (length P)) rd st) P).
  { intros i z1 st1 r1 st1' Hi Hst1 H.
    pose proof (rec_iw_sound dzero dadd dmul of_supp tabag rd Hok Hsmin Hcnt
                  fuel (P ++ [i]) z1 st1 r1 st1' Hst1) as Hs.
    rewrite length_app, Nat.add_1_r in Hs. by apply Hs. }
  assert (Hsim : rec_sim tabag rd (λ c z st, rec_w fuel c z (S (length P)) rd st)
                   (λ c z st, recurse fuel c z (S (length P)) rd st) P).
  { intros i z1 sw1 su1 r1 sw1' Hi Hst1 Hrel1 Hstk1 H.
    specialize (IH (P ++ [i]) z1 sw1 su1 r1 sw1' Hst1 Hrel1 Hstk1).
    rewrite length_app, Nat.add_1_r in IH. by apply IH. }
  assert (Hloop : ∀ cond sw1 su1, wstate tabag P sw1 → sim rd sw1 su1 →
    isr_stack (st_report su1) = isr_stack (st_report su) →
    isr_cfg (st_report su1) = isr_cfg (st_report su) →
    match ext_loop_w (λ c z st, rec_w fuel c z (S (length P)) rd st)
            rd (fr P) cond (S (length P)) (seq 0 (rd_cnt rd)) 0%Z 0%Z sw1 with
    | Some (s, max, st0) => Some (if (s <? 0)%Z then s else max, st0)
    | None => None
    end = Some (r, sw') →
    ∃ su',
      match ext_loop (λ c z st, recurse fuel c z (S (length P)) rd st)
              rd (fr P) cond (S (length P)) (seq 0 (rd_cnt rd)) 0%Z 0%Z su1 with
      | Some (s, max, st0) => Some (if (s <? 0)%Z then s else max, st0)
      | None => None
      end = Some (r, su') ∧ sim_post rd r sw' su su').
  { intros cond sw1 su1 Hst1 Hrel1 Hstk1 Hwgt1.
    destruct (ext_loop_iw _ _ _ _ _ _ _ _ _ _ _ _ _) as [[[s max] sw2]|] eqn:E; [|done].
    intros [= <- <-].
    apply (ext_loop_sim _ _ P cond Hsound Hsim _ _ _ _ su1) in E; [|..|done|done|by rewrite Hstk1].
    - destruct E as (su' & -> & H1 & H2 & H3). exists su'. split; [done|].
      split; [done|]. split; [congruence|].
      destruct (Z.ltb_spec s 0); [intros ?; lia|]. intros _. rewrite H3 by done. done.
    - intros i Hi. apply elem_of_seq in Hi. lia. }
  destruct (Z.of_nat (S (length P)) <=? rd_zmax rd)%Z.
  - unfold malloc. destruct Hrel as (R1 & R2 & R3 & R4 & R5). rewrite R4.
    destruct (malloc_list (st_heap sw)) as [ok h].
    assert (Hh : wstep P sw (set_heap sw h)) by (repeat split; done).
    destruct ok; cbn [negb].
    + apply Hloop; [by eapply wstate_step| |done|done]. done.
    + intros [= <- <-]. eexists. split; [done|]. done.
  - cbn [negb]. apply Hloop; done.
Qed.
End Simulation.

Section BothVariants.
Context {D : Type} (dzero : D) (dadd dmul : D → D → D) (of_supp : Z → D).
Context (tabag : TABAG (WITEM D)).
Hypothesis Hok : bag_ok wkey tabag = true.

(** A run of [sequoia_iw] against the run of [sequoia] on the bag
    without the item weights, with the same answers of [malloc] and of
    the output. *)
Lemma sequoia_iw_sim (fuel : nat) (target smin mode zmin zmax : Z) (io heap : list bool)
    (r : Z) (rep : ISREPORT D) :
  sequoia_iw dzero dadd dmul of_supp fuel tabag target smin mode
    (isr_create (tbg_wgt tabag) zmin zmax io) heap = Some (r, rep) →
  ∃ r' rep' extra,
    sequoia fuel (strip_bag tabag) target smin mode
      (isr_create (tbg_wgt tabag) zmin zmax io) heap = Some (r', rep') ∧
    strip_pat <$> isr_out rep = isr_out rep' ++ extra ∧
    ((0 ≤ r')%Z → r = r' ∧ extra = [] ∧ isr_io rep = isr_io rep') ∧
    (extra = [] ∨
     ((r' < 0)%Z ∧ extra = [Pat [] [] (tbg_wgt tabag)] ∧ (zmin ≤ 0 ≤ zmax)%Z ∧
      ((if (0 <? smin)%Z then smin else 1) ≤ tbg_wgt tabag)%Z)).
Proof.
  unfold sequoia_iw, sequoia. rewrite tbg_wgt_strip.
  set (smin' := if (0 <? smin)%Z then smin else 1%Z).
  assert (Hsmin : (1 ≤ smin')%Z) by (unfold smin'; destruct (Z.ltb_spec 0 smin); lia).
  clearbody smin'.
  set (report := isr_create (D:=D) (tbg_wgt tabag) zmin zmax io).
  destruct (Z.ltb_spec (tbg_wgt tabag) smin') as [Hlow|Hhigh].
  { intros [= <- <-]. exists 0%Z, report, []. split; [done|]. split; [done|].
    split; [done|by left]. }
  cbn [strip_bag tbg_itemcnt].
  (* the report of the empty sequence by both variants *)
  assert (Hlast : ∀ (rw ru : ISREPORT D) r0 rw',
    sim_rep rw ru → isr_stack ru = [] → isr_wgt ru = tbg_wgt tabag →
    report_empty rw (tbg_wgt tabag) = (r0, rw') →
    ∃ ru', isr_report ru = (r0, ru') ∧ sim_rep rw' ru' ∧ (r0 = 0 ∨ r0 = -1)%Z).
  { intros rw ru r0 rw' Hrel Hstk Hw. unfold report_empty, isr_isetx, isr_report.
    rewrite Hstk, Hw. cbn [take fmap list_fmap rev].
    destruct (isr_emit rw _) as [r1 rw1] eqn:E.
    destruct (isr_emit_sim _ _ _ _ _ Hrel E) as (ru' & Eu & Hru & _).
    apply isr_emit_cases in E as (_ & _ & _ & _ & Hr & _).
    intros [= <- <-]. exists ru'. unfold strip_pat in Eu. cbn in Eu. rewrite Eu.
    destruct Hr as [-> | ->]; cbn; split; auto. }
  destruct (Nat.eqb_spec (tbg_itemcnt tabag) 0) as [Hk0|Hk].
  { intros H. destruct (report_empty report (tbg_wgt tabag)) as [r0 rw'] eqn:E.
    injection H as <- <-.
    destruct (Hlast report report r0 rw') as (ru' & -> & (_ & _ & Hio & Hout) & _); try done.
    exists r0, ru', []. rewrite app_nil_r. split; [done|]. split; [done|].
    split; [done|by left]. }
  destruct (malloc_list heap) as [[] h1]; cbn [negb].
  2:{ intros [= <- <-]. exists (-1)%Z, report, []. split; [done|]. split; [done|].
      split; [done|by left]. }
  destruct (malloc_list h1) as [[] h2]; cbn [negb].
  2:{ intros [= <- <-]. exists (-1)%Z, report, []. split; [done|]. split; [done|].
      split; [done|by left]. }
  destruct (malloc_list h2) as [[] h3]; cbn [negb].
  2:{ intros [= <- <-]. exists (-1)%Z, report, []. split; [done|]. split; [done|].
      split; [done|by left]. }
  rewrite make_occs_strip, root_exts_strip, tbg_extent_strip, root_exts_spec.
  set (rd := mkRECDATA target mode (tbg_itemcnt tabag) (isr_zmax report) smin').
  set (sw := mkstate (make_occs tabag) _ _ _ _ _).
  set (su := mkstate (strip_occ <$> make_occs tabag) _ _ _ _ _).
  destruct (rec_iw _ _ _ _ _ _ _ _ _ _) as [[r1 sw1]|] eqn:E; [|done].
  assert (Hst : wstate tabag [] sw).
  { split; [apply same_tracts_refl|]. split; [intros j _ _ m i Hm; done|].
    split; [apply length_replicate|]. split; [apply length_replicate|done]. }
  assert (Hrel : sim rd sw su).
  { split; [apply same_tracts_refl|]. done. }
  apply (rec_iw_sim dzero dadd dmul of_supp tabag rd Hok Hsmin eq_refl fuel []
           _ sw su r1 sw1 Hst Hrel eq_refl) in E.
  destruct E as (su1 & Eu & (R1 & R2 & R3 & R4 & R5) & Hcfg & Hstk1).
  cbn [length] in Eu. rewrite Eu. clear Eu.
  assert (isr_zmin (st_report su1) = zmin ∧ isr_zmax (st_report su1) = zmax ∧
          isr_wgt (st_report su1) = tbg_wgt tabag) as (Hc1 & Hc2 & Hw1).
  { unfold isr_cfg in Hcfg. cbn in Hcfg. by injection Hcfg as -> -> ->. }
  destruct (Z.leb_spec 0 r1) as [Hr1|Hr1]; cbn [andb].
  - (* the recursion met no failure *)
    destruct (_ || _).
    + intros H. destruct (report_empty (st_report sw1) (tbg_wgt tabag)) as [r0 rw'] eqn:E.
      injection H as <- <-.
      destruct (Hlast (st_report sw1) (st_report su1) r0 rw')
        as (ru' & -> & (_ & _ & Hio & Hout) & Hr0); try done.
      { by rewrite Hstk1. }
      exists (if (r0 <? 0)%Z then r0 else 0%Z), ru', []. rewrite app_nil_r.
      split; [done|]. split; [done|]. split; [done|by left].
    + intros [= <- <-]. destruct R5 as (_ & _ & Hio & Hout).
      exists (if (r1 <? 0)%Z then r1 else 0%Z), (st_report su1), []. rewrite app_nil_r.
      split; [done|]. split; [done|]. split; [done|by left].
  - (* the recursion failed *)
    destruct (Z.ltb_spec r1 (tbg_wgt tabag)) as [_|?]; [|lia]. cbn [orb].
    intros H. destruct (report_empty (st_report sw1) (tbg_wgt tabag)) as [r0 rw'] eqn:E.
    injection H as <- <-.
    destruct (Z.ltb_spec r1 0) as [_|?]; [|lia].
    unfold report_empty, isr_isetx in E. cbn [take] in E.
    destruct (isr_emit _ _) as [r2 rw2] eqn:E2. injection E as <- <-.
    destruct R5 as (Hz1 & Hz2 & Hio & Hout).
    apply isr_emit_cases in E2 as (_ & _ & _ & _ & _ & [E2|(_ & Hsz & E2)]).
    + exists r1, (st_report su1), []. rewrite app_nil_r, E2.
      split; [done|]. split; [done|]. split; [intros ?; lia|by left].
    + exists r1, (st_report su1), [Pat [] [] (tbg_wgt tabag)]. rewrite E2, fmap_app, Hout.
      split; [done|]. split; [done|]. split; [intros ?; lia|]. right.
      split; [done|]. split; [done|]. split; [|done].
      unfold size_ok in Hsz. cbn [pat_items length] in Hsz.
      apply negb_true_iff, orb_false_iff in Hsz as [Hs1 Hs2].
      apply Z.ltb_ge in Hs1, Hs2. rewrite <- Hc1, <- Hc2, Hz1, Hz2. done.
Qed.
End BothVariants.

(** ** Runs of both variants without failures *)

(** The run of [sequoia] in ALL mode in which nothing fails. *)
Lemma sequoia_all_run {D : Type} (fuel : nat) (tabag : TABAG nat)
    (target smin mode zmin zmax : Z) (io heap : list bool) :
  bag_ok ukey tabag = true →
  (1 ≤ smin)%Z →
  Z.land mode ISR_CLOSED = 0%Z →
  all_true io → all_true heap →
  Z.to_nat zmax < fuel →
  ∃ rep : ISREPORT D,
    sequoia fuel tabag target smin mode (isr_create (tbg_wgt tabag) zmin zmax io) heap
      = Some (0%Z, rep) ∧
    NoDup (isr_out rep) ∧
    ∀ p, p ∈ isr_out rep ↔ frequent tabag smin zmin zmax p.
Proof.
  intros Hok Hsmin Hmode Hio Hheap Hfuel. unfold sequoia.
  destruct (Z.ltb_spec 0 smin) as [_|?]; [|lia].
  set (report := isr_create (D:=D) (tbg_wgt tabag) zmin zmax io).
  assert (Hempty : ∀ p : PATTERN D, frequent tabag smin zmin zmax p → pat_items p = [] →
            p = Pat [] [] (tbg_wgt tabag)).
  { intros [it w s] (H1 & H2 & _) H3. cbn in *. subst. by rewrite support_nil. }
  assert (Hsz : ∀ rep : ISREPORT D, isr_zmin rep = zmin → isr_zmax rep = zmax →
            size_ok rep 0 = true ↔ (zmin ≤ 0 ≤ zmax)%Z).
  { intros rep H1 H2. unfold size_ok. rewrite H1, H2. change (Z.of_nat 0) with 0%Z.
    destruct (Z.ltb_spec 0 zmin); destruct (Z.ltb_spec zmax 0); cbn; split; try done; lia. }
  destruct (Z.ltb_spec (tbg_wgt tabag) smin) as [Hlow|Hhigh].
  { exists report. split; [done|]. split; [constructor|]. intros p. split.
    - intros H. by apply elem_of_nil in H.
    - intros (_ & H2 & H3 & _). exfalso.
      pose proof (support_app_le ukey tabag [] (pat_items p) Hok) as Hle.
      rewrite support_nil in Hle. cbn in Hle. lia. }
  assert (Hlast : ∀ rep : ISREPORT D, all_true (isr_io rep) → isr_stack rep = [] →
            isr_wgt rep = tbg_wgt tabag → isr_zmin rep = zmin → isr_zmax rep = zmax →
            ∃ rep', isr_report rep = (0%Z, rep') ∧
              reported rep rep' (if size_ok rep 0 then [Pat [] [] (tbg_wgt tabag)] else [])).
  { intros rep Hrio Hstk Hw _ _. unfold isr_report. rewrite Hstk, Hw. cbn [fmap list_fmap rev].
    destruct (isr_emit_ok rep (Pat [] [] (tbg_wgt tabag)) Hrio) as (rep' & -> & _ & Hr).
    by exists rep'. }
  destruct (Nat.eqb_spec (tbg_itemcnt tabag) 0) as [Hk0|Hk].
  { destruct (Hlast report) as (rep' & -> & (F1 & F2 & F3 & F4 & F5)); try done.
    exists rep'. split; [done|]. rewrite F5. cbn [isr_out report isr_create app].
    split; [destruct (size_ok _ _); [apply NoDup_singleton|constructor]|].
    intros p. pose proof (Hsz report eq_refl eq_refl) as Hs0. split.
    - intros Hp. destruct (size_ok report 0); [|by apply elem_of_nil in Hp].
      apply list_elem_of_singleton in Hp as ->. repeat split; cbn.
      + by rewrite support_nil.
      + lia.
      + by apply Hs0.
      + by apply Hs0.
    - intros Hp. assert (pat_items p = []) as Hnil.
      { destruct Hp as (_ & H2 & H3 & _).
        assert (0 < support ukey tabag (pat_items p))%Z as Hpos by lia.
        apply (support_pos_items ukey tabag _ Hok) in Hpos as [_ Hpos].
        destruct (pat_items p) as [|i R]; [done|]. specialize (Hpos i (list_elem_of_here _ _)). lia. }
      rewrite (Hempty p Hp Hnil). destruct Hp as (_ & _ & _ & H4). rewrite Hnil in H4.
      cbn in H4. apply Hs0 in H4. rewrite H4. by left. }
  destruct (all_true_malloc heap Hheap) as [E1 Hh1].
  destruct (malloc_list heap) as [ok h1]. cbn in E1, Hh1. subst ok. cbn [negb].
  destruct (all_true_malloc h1 Hh1) as [E1 Hh2].
  destruct (malloc_list h1) as [ok h2]. cbn in E1, Hh2. subst ok. cbn [negb].
  destruct (all_true_malloc h2 Hh2) as [E1 Hh3].
  destruct (malloc_list h2) as [ok h3]. cbn in E1, Hh3. subst ok. cbn [negb].
  rewrite root_exts_spec.
  set (rd := mkRECDATA target mode (tbg_itemcnt tabag) (isr_zmax report) smin).
  set (st := mkstate _ _ _ _ _ _).
  assert (Hcm : closed_mode rd = false).
  { unfold closed_mode. cbn. by rewrite Hmode. }
  destruct (recurse_all tabag rd zmin Hok Hsmin Hcm eq_refl fuel [] (tbg_extent tabag) st)
    as (r & st' & new & E & Hr & (G1 & G2 & G3 & G4 & G5 & G6 & G7 & G8) & Hnew & Hmem).
  { repeat split; done. }
  { cbn. lia. }
  cbn [length] in E. rewrite E.
  destruct (Z.leb_spec 0 r) as [_|?]; [|lia]. rewrite Hmode. cbn [Z.eqb orb andb].
  rewrite orb_true_r.
  destruct (Hlast (st_report st')) as (rep' & -> & (F1 & F2 & F3 & F4 & F5)); try done.
  exists rep'. split; [done|]. rewrite F5, G8. cbn [isr_out st st_report report isr_create app].
  pose proof (Hsz (st_report st') G4 G5) as Hs0.
  assert (Hei : ∀ p, p ∈ (if size_ok (st_report st') 0 then [Pat [] [] (tbg_wgt tabag)] else [])
                  ↔ p = Pat (D:=D) [] [] (tbg_wgt tabag) ∧ (zmin ≤ 0 ≤ zmax)%Z).
  { intros p. rewrite <- Hs0. destruct (size_ok _ _).
    - rewrite list_elem_of_singleton. tauto.
    - split; [intros Hx; by apply elem_of_nil in Hx|]. intros [_ ?]. done. }
  split.
  - apply NoDup_app. split; [done|]. split.
    + intros p Hp Hp'. apply Hmem in Hp as (_ & R & HR & Hp). apply Hei in Hp' as [-> _].
      cbn in Hp. by subst.
    + destruct (size_ok _ _); [apply NoDup_singleton|constructor].
  - intros p. rewrite elem_of_app, Hmem, Hei. split.
    + intros [(Hw & _)|[-> Hz]]; [done|]. repeat split; cbn; try lia. by rewrite support_nil.
    + intros Hp. destruct (pat_items p) as [|i R] eqn:Ep.
      * right. split; [by apply Hempty|]. destruct Hp as (_ & _ & _ & H4). by rewrite Ep in H4.
      * left. split; [done|]. by exists (i :: R).
Qed.

Lemma frequent_items_inj {D : Type} (tabag : TABAG nat) smin zmin zmax (p q : PATTERN D) :
  frequent tabag smin zmin zmax p → frequent tabag smin zmin zmax q →
  pat_items p = pat_items q → p = q.
Proof.
  destruct p as [pi pw ps], q as [qi qw qs]. unfold frequent. cbn.
  intros (H1 & H2 & _) (G1 & G2 & _) E. congruence.
Qed.

Section Totality.
Context {D : Type} (dzero : D) (dadd dmul : D → D → D) (of_supp : Z → D).

Lemma sequoia_total (fuel : nat) (tabag : TABAG nat) (target smin mode : Z)
    (report : ISREPORT D) (heap : list bool) :
  Z.to_nat (isr_zmax report) < fuel →
  is_Some (sequoia fuel tabag target smin mode report heap).
Proof.
  intros Hf. unfold sequoia.
  destruct (_ <? _)%Z; [done|]. destruct (_ =? 0); [done|].
  destruct (malloc_list heap) as [[] h1]; cbn [negb]; [|done].
  destruct (malloc_list h1) as [[] h2]; cbn [negb]; [|done].
  destruct (malloc_list h2) as [[] h3]; cbn [negb]; [|done].
  match goal with |- context [recurse fuel ?e ?z 0 ?rd ?st] =>
    destruct (recurse_total fuel e z 0 rd st) as [[r st'] ->] end.
  { cbn. lia. }
  destruct (_ && _); [destruct (isr_report _)|]; done.
Qed.

Lemma sequoia_iw_total (fuel : nat) (tabag : TABAG (WITEM D)) (target smin mode : Z)
    (report : ISREPORT D) (heap : list bool) :
  Z.to_nat (isr_zmax report) < fuel →
  is_Some (sequoia_iw dzero dadd dmul of_supp fuel tabag target smin mode report heap).
Proof.
  intros Hf. unfold sequoia_iw.
  destruct (_ <? _)%Z; [done|]. destruct (_ =? 0); [done|].
  destruct (malloc_list heap) as [[] h1]; cbn [negb]; [|done].
  destruct (malloc_list h1) as [[] h2]; cbn [negb]; [|done].
  destruct (malloc_list h2) as [[] h3]; cbn [negb]; [|done].
  match goal with |- context [rec_iw _ _ _ _ fuel ?e ?z 0 ?rd ?st] =>
    destruct (rec_iw_total dzero dadd dmul of_supp fuel e z 0 rd st) as [[r st'] ->] end.
  { cbn. lia. }
  destruct (_ || _); [destruct (report_empty _ _)|]; done.
Qed.
End Totality.

(** ** The result of [sequoia] and the failures of a run *)

Lemma malloc_list_run (h : list bool) ok h' :
  malloc_list h = (ok, h') →
  ∃ u, h = u ++ h' ∧ if ok then all_true u else u = [false].
Proof.
  unfold malloc_list. destruct h as [|[] h]; intros [= <- <-].
  - exists []. split; [done|constructor].
  - exists [true]. split; [done|]. by repeat constructor.
  - by exists [false].
Qed.

Lemma sequoia_run {D : Type} (fuel : nat) (tabag : TABAG nat) (target smin mode : Z)
    (report : ISREPORT D) (heap : list bool) (r : Z) (rep : ISREPORT D) :
  sequoia fuel tabag target smin mode report heap = Some (r, rep) →
  (r ≤ 0)%Z ∧
  ∃ uo, isr_io report = uo ++ isr_io rep ∧
        (r = 0%Z → all_true uo) ∧ ((r < 0)%Z → false ∈ heap ∨ false ∈ uo).
Proof.
  unfold sequoia.
  set (smin' := if (0 <? smin)%Z then smin else 1%Z).
  assert (Hsmin : (1 ≤ smin')%Z) by (unfold smin'; destruct (Z.ltb_spec 0 smin); lia).
  clearbody smin'.
  assert (Hnone : ∀ r0, (r0 ≤ 0)%Z → (r0 < 0 → false ∈ heap)%Z →
    (r0 ≤ 0)%Z ∧
    ∃ uo, isr_io report = uo ++ isr_io report ∧
          (r0 = 0%Z → all_true uo) ∧ ((r0 < 0)%Z → false ∈ heap ∨ false ∈ uo)).
  { intros r0 H1 H2. split; [done|]. exists []. split; [done|]. split; [by constructor|].
    intros ?. left. by apply H2. }
  assert (Hlast : ∀ (rep1 : ISREPORT D) u r2 rep2,
    isr_io report = u ++ isr_io rep1 → all_true u →
    isr_report rep1 = (r2, rep2) →
    ((if (r2 <? 0)%Z then r2 else 0) ≤ 0)%Z ∧
    ∃ uo, isr_io report = uo ++ isr_io rep2 ∧
          ((if (r2 <? 0)%Z then r2 else 0%Z) = 0%Z → all_true uo) ∧
          (((if (r2 <? 0)%Z then r2 else 0) < 0)%Z → false ∈ heap ∨ false ∈ uo)).
  { intros rep1 u r2 rep2 Hu Hall E. unfold isr_report in E.
    apply isr_emit_run in E as (_ & _ & _ & _ & E).
    destruct E as [(-> & [[E _]|[[E _]|(E1 & E2 & _)]])|(-> & E & _)]; cbn.
    - split; [done|]. exists u. rewrite E. split; [done|]. split; [done|]. intros ?; lia.
    - split; [done|]. exists (u ++ [true]). rewrite Hu, E, <- app_assoc.
      split; [done|]. split; [|intros ?; lia]. intros _. apply Forall_app. split; [done|].
      by repeat constructor.
    - split; [done|]. exists u. rewrite Hu, E1, E2. split; [done|]. split; [done|]. intros ?; lia.
    - split; [done|]. exists (u ++ [false]). rewrite Hu, E, <- app_assoc.
      split; [done|]. split; [done|]. intros _. right. apply elem_of_app. right. by left. }
  destruct (_ <? _)%Z; [intros [= <- <-]; by apply Hnone|].
  destruct (_ =? 0).
  { intros H. destruct (isr_report report) as [r2 rep2] eqn:E. injection H as <- <-.
    apply isr_emit_run in E as (_ & _ & _ & _ & E).
    destruct E as [(-> & [[E _]|[[E _]|(E1 & E2 & _)]])|(-> & E & _)].
    - split; [done|]. exists []. rewrite E. split; [done|]. split; [by constructor|]. intros ?; lia.
    - split; [done|]. exists [true]. rewrite E. split; [done|].
      split; [by repeat constructor|]. intros ?; lia.
    - split; [done|]. exists []. rewrite E1, E2. split; [done|]. split; [by constructor|].
      intros ?; lia.
    - split; [done|]. exists [false]. rewrite E. split; [done|]. split; [done|].
      intros _. right. by left. }
  destruct (malloc_list heap) as [ok1 h1] eqn:M1.
  apply malloc_list_run in M1 as (u1 & -> & M1).
  destruct ok1; cbn [negb].
  2:{ intros [= <- <-]. apply Hnone; [done|]. intros _. subst u1. by left. }
  destruct (malloc_list h1) as [ok2 h2] eqn:M2.
  apply malloc_list_run in M2 as (u2 & -> & M2).
  destruct ok2; cbn [negb].
  2:{ intros [= <- <-]. apply Hnone; [done|]. intros _. subst u2.
      apply elem_of_app. right. by left. }
  destruct (malloc_list h2) as [ok3 h3] eqn:M3.
  apply malloc_list_run in M3 as (u3 & -> & M3).
  destruct ok3; cbn [negb].
  2:{ intros [= <- <-]. apply Hnone; [done|]. intros _. subst u3.
      apply elem_of_app. right. apply elem_of_app. right. by left. }
  set (rd := mkRECDATA _ _ _ _ _).
  set (st := mkstate _ _ _ _ _ _).
  destruct (recurse fuel _ _ 0 rd st) as [[r1 st1]|] eqn:E; [|done].
  apply recurse_result in E; [|cbn; lia].
  destruct E as [[(u & (uh & uo & Hh & Ho & ->) & Hu) Hmax]|[(u & (uh & uo & Hh & Ho & ->) & Hu) Hr1]].
  - assert (0 ≤ r1)%Z as Hr1.
    { destruct Hmax as [[_ ->]|[Hin _]]; [done|].
      unfold freq_supps in Hin. apply list_elem_of_filter in Hin as [Hin _]. cbn in Hin. lia. }
    apply Forall_app in Hu as [_ Hu]. cbn in Ho.
    destruct (Z.leb_spec 0 r1) as [_|?]; [|lia]. cbn [andb].
    destruct (_ || _).
    + intros H. destruct (isr_report (st_report st1)) as [r2 rep2] eqn:E2.
      injection H as <- <-. by apply (Hlast (st_report st1) uo).
    + intros [= <- <-]. destruct (Z.ltb_spec r1 0) as [?|_]; [lia|].
      split; [done|]. exists uo. split; [done|]. split; [done|]. intros ?; lia.
  - destruct (Z.leb_spec 0 r1) as [?|_]; [lia|]. cbn [andb].
    intros [= <- <-]. destruct (Z.ltb_spec r1 0) as [_|?]; [|lia].
    split; [lia|]. exists uo. cbn in Ho, Hh. split; [done|]. split; [intros ?; lia|].
    intros _. apply elem_of_app in Hu as [Hu|Hu]; [left|by right].
    rewrite Hh. rewrite !elem_of_app. tauto.
Qed.

(** ** What the search with item weights writes *)

Section WeightedSearch.
Context {D : Type} (dzero : D) (dadd dmul : D → D → D) (of_supp : Z → D).
Context (tabag : TABAG (WITEM D)).
Hypothesis Hok : bag_ok wkey tabag = true.

Lemma frequent_strip smin zmin zmax (p : PATTERN D) :
  frequent (strip_bag tabag) smin zmin zmax (strip_pat p) ↔
  frequent_iw tabag smin zmin zmax p.
Proof.
  unfold frequent, frequent_iw, strip_pat. cbn [pat_items pat_wgts pat_supp].
  rewrite support_strip. tauto.
Qed.

Lemma sequoia_iw_any (fuel : nat) (target smin mode zmin zmax : Z) (io heap : list bool)
    (r : Z) (rep : ISREPORT D) :
  sequoia_iw dzero dadd dmul of_supp fuel tabag target smin mode
    (isr_create (tbg_wgt tabag) zmin zmax io) heap = Some (r, rep) →
  NoDup (pat_items <$> isr_out rep) ∧
  ∀ p, p ∈ isr_out rep →
    frequent_iw tabag (if (0 <? smin)%Z then smin else 1%Z) zmin zmax p ∧
    (Z.land mode ISR_CLOSED ≠ 0%Z → pos_wgts tabag → pat_items p ≠ [] →
     is_closed wkey tabag (pat_items p)).
Proof.
  intros H.
  destruct (sequoia_iw_sim dzero dadd dmul of_supp tabag Hok _ _ _ _ _ _ _ _ _ _ H)
    as (r' & rep' & extra & Hrun & Hout & _ & Hextra).
  assert (Hok' : bag_ok ukey (strip_bag tabag) = true) by (by rewrite bag_ok_strip).
  rewrite <- (tbg_wgt_strip tabag) in Hrun.
  destruct (sequoia_any (strip_bag tabag) Hok' _ _ _ _ _ _ _ _ _ _ Hrun) as [Hnd Hall].
  pose proof (sequoia_failed_nonempty (strip_bag tabag) Hok' _ _ _ _ _ _ _ _ _ _ Hrun) as Hne.
  set (smin' := if (0 <? smin)%Z then smin else 1%Z) in *.
  assert (Hfreq : ∀ q, q ∈ isr_out rep' ++ extra →
            frequent (strip_bag tabag) smin' zmin zmax q).
  { intros q [Hq|Hq]%elem_of_app; [by apply Hall|].
    destruct Hextra as [->|(_ & -> & Hz & Hs)]; [by apply elem_of_nil in Hq|].
    apply list_elem_of_singleton in Hq as ->. unfold frequent.
    cbn [pat_items pat_supp pat_wgts length]. rewrite support_nil, tbg_wgt_strip. done. }
  assert (Hnd' : NoDup (isr_out rep' ++ extra)).
  { apply NoDup_app. split; [done|]. split.
    - intros q Hq Hq'. destruct Hextra as [->|(Hr' & -> & _)]; [by apply elem_of_nil in Hq'|].
      apply list_elem_of_singleton in Hq' as ->. by apply (Hne Hr' _ Hq).
    - destruct Hextra as [->|(_ & -> & _)]; [constructor|apply NoDup_singleton]. }
  split.
  - assert (pat_items <$> isr_out rep = pat_items <$> (strip_pat <$> isr_out rep)) as ->.
    { rewrite <- list_fmap_compose. done. }
    rewrite Hout. apply NoDup_fmap_2_strong; [|done].
    intros p q Hp Hq. apply (frequent_items_inj (strip_bag tabag) smin' zmin zmax); auto.
  - intros p Hp.
    assert (Hp' : strip_pat p ∈ isr_out rep' ++ extra).
    { rewrite <- Hout. apply list_elem_of_fmap. by exists p. }
    split; [by apply frequent_strip, Hfreq|].
    intros Hm Hpos Hnil. apply is_closed_strip.
    apply elem_of_app in Hp' as [Hp'|Hp'].
    + destruct (Hall _ Hp') as [_ Hc]. apply Hc; [done|by apply pos_wgts_strip].
    + destruct Hextra as [->|(_ & -> & _)]; [by apply elem_of_nil in Hp'|].
      apply list_elem_of_singleton in Hp'. unfold strip_pat in Hp'.
      injection Hp' as Hp' _. done.
Qed.

(** In ALL mode, when nothing fails, [sequoia_iw] writes the frequent
    sequences of a size in the size range. *)
Lemma sequoia_iw_all_run (fuel : nat) (target smin mode zmin zmax : Z)
    (io heap : list bool) :
  (1 ≤ smin)%Z → Z.land mode ISR_CLOSED = 0%Z →
  all_true io → all_true heap → Z.to_nat zmax < fuel →
  ∃ rep : ISREPORT D,
    sequoia_iw dzero dadd dmul of_supp fuel tabag target smin mode
      (isr_create (tbg_wgt tabag) zmin zmax io) heap = Some (0%Z, rep) ∧
    NoDup (pat_items <$> isr_out rep) ∧
    (∀ p, p ∈ isr_out rep → frequent_iw tabag smin zmin zmax p) ∧
    ∀ Q, (smin ≤ support wkey tabag Q)%Z → (zmin ≤ Z.of_nat (length Q) ≤ zmax)%Z →
         Q ∈ pat_items <$> isr_out rep.
Proof.
  intros Hsmin Hmode Hio Hheap Hfuel.
  destruct (sequoia_iw_total dzero dadd dmul of_supp fuel tabag target smin mode
              (isr_create (tbg_wgt tabag) zmin zmax io) heap Hfuel) as [[r rep] H].
  destruct (sequoia_iw_sim dzero dadd dmul of_supp tabag Hok _ _ _ _ _ _ _ _ _ _ H)
    as (r' & rep' & extra & Hrun & Hout & H0 & _).
  assert (Hok' : bag_ok ukey (strip_bag tabag) = true) by (by rewrite bag_ok_strip).
  rewrite <- (tbg_wgt_strip tabag) in Hrun.
  destruct (sequoia_all_run (D:=D) fuel (strip_bag tabag) target smin mode zmin zmax io heap
              Hok' Hsmin Hmode Hio Hheap Hfuel) as (rep0 & Hrun0 & Hnd & Hiff).
  rewrite Hrun in Hrun0. injection Hrun0 as -> ->.
  destruct H0 as (-> & -> & _); [done|]. rewrite app_nil_r in Hout.
  exists rep. split; [done|].
  destruct (sequoia_iw_any fuel target smin mode zmin zmax io heap 0%Z rep H) as [Hnd' Hall].
  destruct (Z.ltb_spec 0 smin) as [_|?]; [|lia].
  split; [done|]. split; [intros p Hp; by destruct (Hall p Hp)|].
  intros Q Hs Hz.
  assert (Pat (D:=D) Q [] (support wkey tabag Q) ∈ isr_out rep0) as HQ.
  { apply Hiff. unfold frequent. cbn [pat_items pat_supp pat_wgts].
    rewrite support_strip. done. }
  rewrite <- Hout in HQ. apply list_elem_of_fmap in HQ as (p & Hp & Hin).
  apply list_elem_of_fmap. exists p. split; [|done]. unfold strip_pat in Hp.
  by injection Hp as -> _.
Qed.
End WeightedSearch.

(** * The extensions that the search passes down *)

Lemma length_filter_impl {B} (P Q : B → Prop) `{∀ x, Decision (P x)} `{∀ x, Decision (Q x)}
    (l : list B) :
  (∀ x, x ∈ l → P x → Q x) → length (filter P l) ≤ length (filter Q l).
Proof.
  induction l as [|x l IH]; intros Himp; [done|]. rewrite !filter_cons.
  assert (IH' : length (filter P l) ≤ length (filter Q l)).
  { apply IH. intros y Hy. apply Himp. by right. }
  destruct (decide (P x)) as [HP|HP].
  - rewrite decide_True by (apply Himp; [by left|done]). cbn. lia.
  - destruct (decide (Q x)); cbn; lia.
Qed.

Lemma total_cnt_alter (c : list PATEXT) t (w : Z) (x : OCCEXT) :
  t < length c →
  total_cnt (alter (λ e, mkPATEXT (pe_supp e + w)%Z (pe_oxs e ++ [x])) t c) =
  S (total_cnt c).
Proof.
  revert t. induction c as [|e c IH]; intros t Ht; [cbn in Ht; lia|].
  destruct t as [|t]; cbn [alter list_alter total_cnt foldr].
  - unfold pe_cnt. cbn. rewrite length_app. cbn. fold (total_cnt c). lia.
  - fold (total_cnt c). change (list_alter ?f t c) with (alter f t c).
    rewrite IH by (cbn in Ht; lia). lia.
Qed.

Lemma total_cnt_replicate k : total_cnt (clear_exts k) = 0.
Proof.
  unfold clear_exts. induction k as [|k IH]; [done|].
  cbn [replicate total_cnt foldr]. fold (total_cnt (replicate k (mkPATEXT 0 []))).
  by rewrite IH.
Qed.

Section Descend.
Context {A : Type} (key : A → nat).
Implicit Type occs : list (PATOCC A).

Lemma add_items_total o w (l : list (nat * A)) : ∀ c z,
  (∀ pa, pa ∈ l → key pa.2 < length c) →
  total_cnt (add_items key o w (c, z) l).1 = total_cnt c + length l ∧
  (add_items key o w (c, z) l).2 = z + length l ∧
  length (add_items key o w (c, z) l).1 = length c.
Proof.
  unfold add_items. induction l as [|[p a] l IH]; intros c z Hl; cbn [fold_left].
  { cbn [fst snd length]. split; [lia|]. split; [lia|done]. }
  assert (Ha : key a < length c) by (apply (Hl (p, a)); left).
  destruct (IH (add_occext c (key a) p o w) (S z)) as (H1 & H2 & H3).
  { intros pa Hpa. unfold add_occext. rewrite length_alter. apply Hl. by right. }
  rewrite H1, H2, H3. unfold add_occext.
  rewrite (total_cnt_alter c (key a) w (mkOCCEXT p o)) by done.
  rewrite length_alter. cbn [length]. split; [lia|]. split; [lia|done].
Qed.

(** The projection counts the occurrence extensions that it appends. *)
Lemma project_total occs k e :
  (∀ x a, x ∈ pe_oxs e → a ∈ po_items (occs !!! ox_occ x) → key a < k) →
  (project key occs k e).2 = total_cnt (project key occs k e).1.
Proof.
  intros Hk. unfold project.
  assert (Hgen : ∀ oxs c z, length c = k → (∀ x, x ∈ oxs → x ∈ pe_oxs e) →
    let r := fold_left
      (λ acc x, add_items key (ox_occ x) (po_wgt (occs !!! ox_occ x)) acc
                  (indexed (S (ox_item x)) (drop (S (ox_item x)) (po_items (occs !!! ox_occ x)))))
      oxs (c, z) in
    r.2 + total_cnt c = z + total_cnt r.1 ∧ length r.1 = k).
  { induction oxs as [|x oxs IH]; intros c z Hc Hin; cbn [fold_left]; [cbn [fst snd]; split; [lia|done]|].
    set (l := indexed _ _).
    destruct (add_items_total (ox_occ x) (po_wgt (occs !!! ox_occ x)) l c z) as (H1 & H2 & H3).
    { intros [p a] Hpa. rewrite Hc. cbn. apply (Hk x a); [apply Hin; by left|].
      apply elem_of_indexed in Hpa as [_ Hpa]. rewrite lookup_drop in Hpa.
      apply list_elem_of_lookup. eauto. }
    destruct (add_items key _ _ (c, z) l) as [c1 z1]. cbn [fst snd] in H1, H2, H3.
    destruct (IH c1 z1) as [IH1 IH2]; [congruence|intros; apply Hin; by right|].
    cbv zeta in *. split; [lia|done]. }
  destruct (Hgen (pe_oxs e) (clear_exts k) 0) as [H _].
  { apply length_replicate. }
  { done. }
  cbv zeta in H. rewrite total_cnt_replicate in H. lia.
Qed.

(** The first loops of the entry points count every item instance. *)
Lemma root_exts_total occs k :
  (∀ o a, o ∈ occs → a ∈ po_items o → key a < k) →
  total_cnt (root_exts key k occs) =
  foldr (λ o s, length (po_items o) + s) 0 occs.
Proof.
  intros Hk. unfold root_exts.
  assert (Hgen : ∀ (jos : list (nat * PATOCC A)) c z, length c = k →
    (∀ jo, jo ∈ jos → jo.2 ∈ occs) →
    let r := fold_left
      (λ acc '(j, o), add_items key j (po_wgt o) acc (indexed 0 (po_items o))) jos (c, z) in
    total_cnt r.1 = total_cnt c + foldr (λ o s, length (po_items o) + s) 0 jos.*2).
  { induction jos as [|[j o] jos IH]; intros c z Hc Hin; cbn [fold_left]; [cbn [fst fmap list_fmap foldr]; lia|].
    destruct (add_items_total j (po_wgt o) (indexed 0 (po_items o)) c z) as (H1 & H2 & H3).
    { intros [p a] Hpa. rewrite Hc. cbn. apply (Hk o a); [apply (Hin (j, o)); by left|].
      apply elem_of_indexed in Hpa as [_ Hpa]. apply list_elem_of_lookup. eauto. }
    destruct (add_items key _ _ (c, z) _) as [c1 z1]. cbn [fst snd] in H1, H2, H3.
    cbv zeta in IH. rewrite IH; [|congruence|intros; apply Hin; by right].
    rewrite H1, length_indexed. cbn. lia. }
  cbv zeta in Hgen. rewrite Hgen.
  - rewrite total_cnt_replicate, snd_indexed. done.
  - apply length_replicate.
  - intros [j o] Hjo. apply elem_of_indexed in Hjo as [_ Hjo]. cbn.
    apply list_elem_of_lookup. eauto.
Qed.

(** Following the items of [P] leads to the pattern extensions of [P]. *)
Lemma descend_frame occs k P :
  (∀ i, i ∈ P → i < k) → descend key k occs P = frame key k occs P.
Proof.
  unfold descend. induction P as [|i P IH] using rev_ind; intros Hk.
  { apply root_exts_spec. }
  rewrite fold_left_app. cbn [fold_left]. rewrite IH.
  - destruct (project_frame key occs k P i) as [H _]; [|done].
    apply Hk, elem_of_app. right. by left.
  - intros j Hj. apply Hk, elem_of_app. by left.
Qed.

(** A pattern has at most as many occurrence extensions by an item as
    its prefix without the last item has. *)
Lemma ext_occs_capacity occs P i t :
  (∀ o, o ∈ occs → NoDup (key <$> po_items o)) →
  length (ext_occs key occs (P ++ [i]) t) ≤ length (ext_occs key occs P t).
Proof.
  intros Hnd.
  rewrite <- (length_fmap ox_occ (ext_occs key occs (P ++ [i]) t)).
  rewrite <- (length_fmap ox_occ (ext_occs key occs P t)).
  rewrite !ext_occs_occ by done. rewrite !length_fmap.
  apply length_filter_impl. intros [j o] _. cbn. rewrite !is_subseq_sublist.
  intros H. etrans; [|exact H]. rewrite <- app_assoc.
  apply sublist_app; [done|]. by constructor.
Qed.
End Descend.

(** * The depth of the recursion *)

Lemma total_cnt_pos (c : list PATEXT) :
  0 < total_cnt c → ∃ t, t < length c ∧ pe_oxs (c !!! t) ≠ [].
Proof.
  induction c as [|e c IH]; cbn [total_cnt foldr]; [lia|].
  fold (total_cnt c). intros H. destruct (pe_oxs e) as [|x l] eqn:E.
  - unfold pe_cnt in H. rewrite E in H. cbn in H.
    destruct (IH H) as (t & Ht & Hne). exists (S t). split; [cbn; lia|done].
  - exists 0. split; [cbn; lia|]. cbn. by rewrite E.
Qed.

Section Depth.
Context {D : Type} (tabag : TABAG nat) (rd : RECDATA) (zmin : Z).
Hypothesis Hok : bag_ok ukey tabag = true.
Hypothesis Hsmin : (1 ≤ rd_smin rd)%Z.
Hypothesis Hcnt : rd_cnt rd = tbg_itemcnt tabag.
Implicit Type st : state nat D.
Implicit Type P : list nat.

Local Abbreviation k := (tbg_itemcnt tabag).
Local Abbreviation occs0 := (make_occs tabag).
Local Abbreviation fr P := (frame ukey k occs0 P).
Local Abbreviation supp P := (support ukey tabag P).
Local Abbreviation ust P st := (ustate tabag rd zmin P st).

(** A pattern that has an extension is shorter than the number of
    items. *)
Lemma extended_length P :
  0 < total_cnt (fr P) → length P < k.
Proof.
  intros H. apply total_cnt_pos in H as (t & Ht & Hne).
  unfold frame in Ht. rewrite length_fmap, length_seq in Ht.
  rewrite frame_lookup in Hne by done. cbn [ext_of pe_oxs] in Hne.
  destruct (ext_occs ukey occs0 P t) as [|x l] eqn:E; [done|].
  assert (Hx : x ∈ ext_occs ukey occs0 P t) by (rewrite E; by left).
  pose proof (ext_occs_contains ukey occs0 P t x Hx) as Hc.
  apply ext_occs_elem in Hx as (Hlt & _).
  pose proof (make_occs_NoDup ukey tabag Hok) as Hnd.
  assert (Ho : occs0 !!! ox_occ x ∈ occs0).
  { apply list_elem_of_lookup. exists (ox_occ x). by apply list_lookup_lookup_total_lt. }
  specialize (Hnd _ Ho).
  assert (Hb : ∀ a, a ∈ ukey <$> po_items (occs0 !!! ox_occ x) → a < k).
  { intros a (b & -> & Hb)%list_elem_of_fmap.
    by apply (make_occs_bound ukey tabag Hok _ _ Ho Hb). }
  pose proof (NoDup_bounded_length _ _ Hnd Hb) as Hl.
  apply sublist_length in Hc. rewrite length_app in Hc. cbn in Hc. lia.
Qed.

Lemma ext_loop_bounded rec P cond :
  rec_ok tabag rd zmin rec P →
  (∀ i z st1, i < k → ust (P ++ [i]) st1 → 0 < total_cnt (fr (P ++ [i])) →
     is_Some (rec (fr (P ++ [i])) z st1)) →
  ∀ todo s max st,
    (∀ i, i ∈ todo → i < k) → ust P st →
    is_Some (ext_loop rec rd (fr P) cond (S (length P)) todo s max st).
Proof.
  intros Hrec Htot.
  induction todo as [|i todo IH]; intros s max st Hlt Hst; cbn [ext_loop]; [done|].
  assert (Hi : i < k) by (apply Hlt; left).
  assert (Hlt' : ∀ i', i' ∈ todo → i' < k) by (intros; apply Hlt; by right).
  destruct (frame_ext ukey tabag Hok P i Hi) as [Esupp Eoxs]. rewrite Esupp.
  destruct (Z.ltb_spec (supp (P ++ [i])) (rd_smin rd)) as [Hlow|Hhigh]; [by apply IH|].
  set (max1 := if (max <? supp (P ++ [i]))%Z then supp (P ++ [i]) else max).
  destruct (closed_test_any tabag rd zmin Hok Hsmin Hcnt P i st Hst Hi Hhigh)
    as (r & st2 & -> & Hrep2 & Hu2 & Hst2 & Hr & Hcl2).
  destruct (Z.eqb_spec r 0) as [->|Hr0].
  { apply IH; [done|by eapply ustate_step]. }
  set (st3 := set_report st2 (isr_add (st_report st2) i (supp (P ++ [i])))).
  pose proof Hst as (S1 & S2 & S3 & S4 & S5 & S6 & S7).
  pose proof Hu2 as (U1 & U2 & U3 & U4 & U5 & U6 & U7 & U8).
  assert (Hst3 : ust (P ++ [i]) st3).
  { split; [done|]. split.
    { cbn. rewrite Hrep2, S2, rev_app_distr. done. }
    split; [cbn; by rewrite Hrep2|]. split; [cbn; by rewrite Hrep2|].
    split; [done|]. split; [cbn; congruence|]. intros Hm. by apply Hcl2. }
  assert (Hreport : ∀ s1 st4, ustep (P ++ [i]) st3 st4 →
    is_Some
    (if negb (closed_mode rd) || (s1 <? supp (P ++ [i]))%Z
     then let '(r0, rep) := isr_report (st_report st4) in
          if (r0 <? 0)%Z then Some ((-1)%Z, max1, set_report st4 rep)
          else ext_loop rec rd (fr P) cond (S (length P)) todo s1 max1
                 (set_report st4 (isr_remove rep 1))
     else ext_loop rec rd (fr P) cond (S (length P)) todo s1 max1
            (set_report st4 (isr_remove (st_report st4) 1)))).
  { intros s1 st4 Hu4.
    pose proof Hu4 as (V1 & V2 & V3 & V4 & V5 & V6 & V7 & V8).
    assert (Hstk4 : isr_stack (st_report st4) =
                    (i, supp (P ++ [i])) :: isr_stack (st_report st)).
    { rewrite V3. cbn. by rewrite Hrep2. }
    assert (Hu5 : ∀ rep : ISREPORT D,
      isr_stack rep = isr_stack (st_report st4) → isr_zmin rep = isr_zmin (st_report st4) →
      isr_zmax rep = isr_zmax (st_report st4) →
      isr_wgt rep = isr_wgt (st_report st4) →
      ustep P st (set_report st4 (isr_remove rep 1))).
    { intros rep R1 R2 R3 R4. split; [cbn; eapply same_tracts_trans; [exact V1|exact U1]|].
      split.
      { intros j m Hm. cbn. rewrite V2 by (rewrite length_app; lia). by apply U2. }
      split; [cbn; by rewrite R1, Hstk4|].
      split; [cbn; rewrite R2, V4; cbn; by rewrite Hrep2|].
      split; [cbn; rewrite R3, V5; cbn; by rewrite Hrep2|].
      split; [done|]. split; [cbn; cbn in V7; congruence|].
      cbn. rewrite R4, V8. cbn. by rewrite Hrep2. }
    destruct (negb (closed_mode rd) || (s1 <? supp (P ++ [i]))%Z).
    2:{ apply IH; [done|]. eapply ustate_step; [exact Hst|]. by apply Hu5. }
    unfold isr_report.
    destruct (isr_emit (st_report st4) _) as [r0 rep] eqn:E.
    apply isr_emit_cases in E as (R2 & R3 & R4 & R1 & Hre & Hout).
    destruct (r0 <? 0)%Z; [done|].
    apply IH; [done|]. eapply ustate_step; [exact Hst|]. by apply Hu5. }
  assert (Hu33 : ustep (P ++ [i]) st3 st3).
  { apply ustep_refl. by destruct Hst3 as (_ & _ & _ & _ & ? & _). }
  destruct cond; [|by apply Hreport].
  rewrite (project_ext ukey (st_occs st3) occs0 (rd_cnt rd) (fr P !!! i)).
  2:{ intros j. destruct Hst2 as [_ Hpt]. destruct (Hpt j) as (? & ? & _). done. }
  rewrite Hcnt.
  pose proof (project_total ukey occs0 k (fr P !!! i)) as Hz.
  destruct (project_frame ukey occs0 k P i Hi) as [Hpf _].
  destruct (project ukey occs0 k (fr P !!! i)) as [c z]. cbn [fst snd] in Hpf, Hz. subst c.
  destruct (Nat.ltb_spec 0 z) as [Hz0|Hz0]; [|by apply Hreport].
  rewrite Hz in Hz0.
  2:{ intros x a Hx Ha. rewrite Eoxs in Hx. apply ext_occs_elem in Hx as (Hlt0 & _).
      eapply (make_occs_bound ukey tabag Hok); [|exact Ha].
      apply list_elem_of_lookup. exists (ox_occ x). by apply list_lookup_lookup_total_lt. }
  destruct (Htot i z st3 Hi Hst3 Hz0) as [[s1 st4] E]. rewrite E.
  apply Hrec in E; [|done|done]. destruct E as [_ E2].
  destruct (Z.ltb_spec s1 0) as [Hneg|Hnn]; [done|].
  destruct (E2 Hnn) as [E3 _]. by apply Hreport.
Qed.

(** The recursion for a bag of [k] items is at most [k] calls deep,
    whatever the maximum length of a sequence is. *)
Lemma recurse_bounded fuel : ∀ P z st,
  ust P st → k ≤ fuel + length P → length P < k →
  is_Some (recurse fuel (fr P) z (length P) rd st).
Proof.
  induction fuel as [|fuel IH]; intros P z st Hst Hf Hl; [cbn in Hf; lia|].
  cbn [recurse].
  assert (Hrec : rec_ok tabag rd zmin (λ c z st, recurse fuel c z (S (length P)) rd st) P).
  { intros i z1 st1 r1 st1' Hi Hst1 H.
    pose proof (recurse_any tabag rd zmin Hok Hsmin Hcnt fuel (P ++ [i]) z1 st1 r1 st1' Hst1)
      as Hany.
    rewrite length_app, Nat.add_1_r in Hany. by apply Hany. }
  assert (Htot : ∀ i z st1, i < k → ust (P ++ [i]) st1 → 0 < total_cnt (fr (P ++ [i])) →
     is_Some (recurse fuel (fr (P ++ [i])) z (S (length P)) rd st1)).
  { intros i z1 st1 Hi Hst1 Hpos. apply extended_length in Hpos.
    specialize (IH (P ++ [i]) z1 st1 Hst1). rewrite length_app, Nat.add_1_r in *.
    apply IH; lia. }
  assert (Hloop : ∀ cond st1, ust P st1 →
    is_Some (match ext_loop (λ c z st, recurse fuel c z (S (length P)) rd st)
            rd (fr P) cond (S (length P)) (seq 0 (rd_cnt rd)) 0%Z 0%Z st1 with
    | Some (s, max, st0) => Some (if (s <? 0)%Z then s else max, st0)
    | None => None
    end)).
  { intros cond st1 Hst1.
    destruct (ext_loop_bounded _ P cond Hrec Htot (seq 0 (rd_cnt rd)) 0%Z 0%Z st1)
      as [[[s max] st2] ->]; [|done|done].
    intros i Hi. apply elem_of_seq in Hi. lia. }
  destruct (Z.of_nat (S (length P)) <=? rd_zmax rd)%Z.
  - unfold malloc. destruct (malloc_list (st_heap st)) as [ok h].
    destruct ok; cbn [negb]; [|done]. apply Hloop.
    destruct Hst as (S1 & S2 & S3 & S4 & S5 & S6 & S7). done.
  - cbn [negb]. by apply Hloop.
Qed.
End Depth.

(** [sequoia] returns with a recursion depth of the number of items. *)
Lemma sequoia_bounded {D : Type} (fuel : nat) (tabag : TABAG nat) (target smin mode : Z)
    (zmin zmax : Z) (io heap : list bool) :
  bag_ok ukey tabag = true → tbg_itemcnt tabag ≤ fuel →
  is_Some (sequoia (D:=D) fuel tabag target smin mode
             (isr_create (tbg_wgt tabag) zmin zmax io) heap).
Proof.
  intros Hok Hf. unfold sequoia.
  set (smin' := if (0 <? smin)%Z then smin else 1%Z).
  assert (Hsmin : (1 ≤ smin')%Z) by (unfold smin'; destruct (Z.ltb_spec 0 smin); lia).
  clearbody smin'.
  destruct (_ <? _)%Z; [done|].
  destruct (Nat.eqb_spec (tbg_itemcnt tabag) 0) as [Hk0|Hk]; [done|].
  destruct (malloc_list heap) as [[] h1]; cbn [negb]; [|done].
  destruct (malloc_list h1) as [[] h2]; cbn [negb]; [|done].
  destruct (malloc_list h2) as [[] h3]; cbn [negb]; [|done].
  rewrite root_exts_spec.
  set (rd := mkRECDATA _ _ _ _ _).
  set (st := mkstate _ _ _ _ _ _).
  assert (Hst : ustate tabag rd zmin [] st).
  { split; [apply same_tracts_refl|]. split; [done|]. split; [done|]. split; [done|].
    split; [apply all_zero_replicate|]. split; [apply length_replicate|].
    intros _ j _ _ m i Hm. done. }
  destruct (recurse_bounded tabag rd zmin Hok Hsmin eq_refl fuel [] (tbg_extent tabag) st Hst)
    as [[r st'] E]; [cbn; lia|cbn; lia|].
  cbn [length] in E. rewrite E.
  destruct (_ && _); [destruct (isr_report _)|]; done.
Qed.

(** * Further properties *)

(** X1. In every mode and in every run, also one that fails, [sequoia]
    reports different sequences, each with its support, which is at least
    the minimum support, and with a length in the size range. *)
Theorem sequoia_reports_frequent {D : Type} (fuel : nat) (tabag : TABAG nat)
    (target smin mode zmin zmax : Z) (io heap : list bool) (r : Z) (rep : ISREPORT D) :
  bag_ok ukey tabag = true →
  sequoia fuel tabag target smin mode (isr_create (tbg_wgt tabag) zmin zmax io) heap
    = Some (r, rep) →
  NoDup (isr_out rep) ∧
  ∀ p, p ∈ isr_out rep → frequent tabag (if (0 <? smin)%Z then smin else 1%Z) zmin zmax p.
Proof.
  intros Hok H. destruct (sequoia_any tabag Hok _ _ _ _ _ _ _ _ _ _ H) as [H1 H2].
  split; [done|]. intros p Hp. by destruct (H2 p Hp).
Qed.

Lemma sequoia_reports_frequent_witness :
  let rep := mkISREPORT 0 4 3 []
               [Pat [0; 1] [] 2%Z; Pat [0; 2] [] 2%Z; Pat [0] [] 3%Z] [] in
  bag_ok ukey scenario1 = true ∧
  sequoia (D:=unit) 5 scenario1 ISR_CLOSED 2 ISR_CLOSED (isr_create 3 0 4 []) [] =
    Some (0%Z, rep) ∧
  NoDup (isr_out rep) ∧ ∀ p, p ∈ isr_out rep → frequent scenario1 2 0 4 p.
Proof.
  cbv zeta. split; [reflexivity|]. split; [vm_compute; reflexivity|].
  apply (sequoia_reports_frequent (D:=unit) 5 scenario1 ISR_CLOSED 2 ISR_CLOSED 0 4 [] [] 0%Z);
    [reflexivity|vm_compute; reflexivity].
Defined.

(** X2. In closed mode, for a bag with positive transaction weights,
    every sequence that [sequoia] reports is closed: no proper
    super-sequence has the same support.  This holds in every run. *)
Theorem sequoia_reports_closed {D : Type} (fuel : nat) (tabag : TABAG nat)
    (target smin mode zmin zmax : Z) (io heap : list bool) (r : Z) (rep : ISREPORT D) :
  bag_ok ukey tabag = true → pos_wgts tabag → Z.land mode ISR_CLOSED ≠ 0%Z →
  sequoia fuel tabag target smin mode (isr_create (tbg_wgt tabag) zmin zmax io) heap
    = Some (r, rep) →
  ∀ p, p ∈ isr_out rep → is_closed ukey tabag (pat_items p).
Proof.
  intros Hok Hpos Hm H p Hp. destruct (sequoia_any tabag Hok _ _ _ _ _ _ _ _ _ _ H) as [_ H2].
  destruct (H2 p Hp) as [_ H3]. by apply H3.
Qed.

Lemma sequoia_reports_closed_witness :
  let rep := mkISREPORT 0 4 3 []
               [Pat [0; 1] [] 2%Z; Pat [0; 2] [] 2%Z; Pat [0] [] 3%Z] [] in
  bag_ok ukey scenario1 = true ∧ pos_wgts scenario1 ∧ Z.land ISR_CLOSED ISR_CLOSED ≠ 0%Z ∧
  sequoia (D:=unit) 5 scenario1 ISR_CLOSED 2 ISR_CLOSED (isr_create 3 0 4 []) [] =
    Some (0%Z, rep) ∧
  ∀ p, p ∈ isr_out rep → is_closed ukey scenario1 (pat_items p).
Proof.
  cbv zeta.
  assert (Hpos : pos_wgts scenario1).
  { unfold pos_wgts. apply Forall_forall. repeat constructor. }
  split; [reflexivity|]. split; [exact Hpos|]. split; [discriminate|].
  split; [vm_compute; reflexivity|].
  apply (sequoia_reports_closed (D:=unit) 5 scenario1 ISR_CLOSED 2 ISR_CLOSED 0 4 [] [] 0%Z);
    [reflexivity|exact Hpos|discriminate|vm_compute; reflexivity].
Defined.



(** X4. For a text of parameters separated by colons, each of which
    [strtod] converts as a whole, [getbdr] returns their number and
    leaves their values in [*border], in their order, and [*end] at the
    end of the text. *)
Theorem getbdr_reads_fields {D : Type} (strtod : list ascii → D * nat)
    (f : list ascii) (v : D) (fields : list (list ascii * D)) (heap : list bool) :
  (∀ f' v', (f', v') ∈ (f, v) :: fields →
     f' ≠ [] ∧ count_colons f' = 0 ∧
     ∀ rest, (rest = [] ∨ ∃ r', rest = ":"%char :: r') →
             strtod (f' ++ rest) = (v', length f')) →
  (malloc_list heap).1 = true →
  getbdr strtod (f ++ foldr (λ fv t, ":"%char :: fv.1 ++ t) [] fields) heap =
    (Z.of_nat (S (length fields)), [], Some (Some <$> v :: fields.*2), (malloc_list heap).2).
Proof.
  intros Hall Hm. unfold getbdr. destruct (malloc_list heap) as [ok h1]. cbn in Hm. subst ok.
  cbn [negb snd].
  assert (Hk : count_colons (f ++ foldr (λ fv t, ":"%char :: fv.1 ++ t) [] fields)
               = length fields).
  { rewrite count_colons_app. destruct (Hall f v) as (_ & -> & _); [by left|]. cbn [Nat.add].
    assert (Hf : ∀ f' v', (f', v') ∈ fields → count_colons f' = 0).
    { intros f' v' H. destruct (Hall f' v') as (_ & ? & _); [by right|done]. }
    clear -Hf. induction fields as [|[f1 v1] fields IH]; [done|].
    cbn [foldr fst count_colons length]. rewrite count_colons_app.
    rewrite (Hf f1 v1) by (by left). rewrite IH; [done|].
    intros f' v' H. apply (Hf f' v'). by right. }
  rewrite Hk.
  pose proof (getbdr_loop_fields strtod fields f v (S (length fields)) 0
                (f ++ foldr (λ fv t, ":"%char :: fv.1 ++ t) [] fields) [] 0) as Hloop.
  cbn [fmap list_fmap app length] in Hloop. rewrite Nat.add_0_r in Hloop.
  rewrite Hloop.
  - cbn [Nat.add replicate]. rewrite app_nil_r. rewrite Nat.ltb_irrefl. done.
  - destruct (Hall f v) as (? & _ & ?); [by left|done].
  - intros f' v' H. destruct (Hall f' v') as (? & _ & ?); [by right|done].
  - lia.
  - done.
Qed.

Lemma getbdr_reads_fields_witness :
  getbdr parse_dec (["1"; "0"]%char ++ foldr (λ fv t, ":"%char :: fv.1 ++ t) []
                      [(["2"; "5"]%char, 25%Z); (["7"]%char, 7%Z)]) [] =
    (3%Z, [], Some [Some 10%Z; Some 25%Z; Some 7%Z], []).
Proof.
  apply (getbdr_reads_fields parse_dec ["1"; "0"]%char 10%Z
           [(["2"; "5"]%char, 25%Z); (["7"]%char, 7%Z)] []); [|reflexivity].
  intros f' v' H.
  assert ((f', v') = (["1"; "0"]%char, 10%Z) ∨ (f', v') = (["2"; "5"]%char, 25%Z) ∨
          (f', v') = (["7"]%char, 7%Z)) as [E|[E|E]].
  { repeat (apply elem_of_cons in H as [H|H]; [auto|]). by apply elem_of_nil in H. }
  all: injection E as -> ->; (split; [discriminate|]); (split; [reflexivity|]);
    intros rest [->|[r' ->]]; reflexivity.
Defined.

(** X5. The evaluation of the arguments always ends, and a command line
    that it accepts has no option argument pending, one or two file
    names, of which the first is the input file and the second, if there
    is one, the output file, size limits that are not negative, a support
    of at most 100, a support border that was allocated, one of the two
    targets, and an information format. *)
Theorem main_args_accepts {D : Type} (of_supp : Z → D) (dlt : D → D → bool)
    (strtod : list ascii → D * nat) (strtol : list ascii → Z * nat)
    (to_item : Z → Z) (ITEM_MAX : Z) (argv : list (list ascii)) (heap : list bool) :
  ∃ res, main_args of_supp dlt strtod strtol to_item ITEM_MAX argv heap = Some res ∧
    ∀ o, res = inr o →
      o_optarg o = None ∧ (o_k o = 1 ∨ o_k o = 2) ∧
      is_Some (o_str o v_fn_inp) ∧ (is_Some (o_str o v_fn_out) ↔ o_k o = 2) ∧
      (0 ≤ o_zmin o)%Z ∧ (0 ≤ o_zmax o)%Z ∧ dlt (of_supp 100%Z) (o_supp o) = false ∧
      (0 ≤ o_bdrcnt o)%Z ∧
      (target_of (o_target o) = Some ISR_ALL ∨ target_of (o_target o) = Some ISR_CLOSED) ∧
      is_Some (o_str o v_info).
Proof.
  unfold main_args. destruct argv as [|a0 [|a1 args]]; [by eexists|by eexists|].
  destruct (eval_args_spec strtod strtol to_item (a1 :: args) (init_opts of_supp ITEM_MAX heap))
    as (r & -> & Hr).
  { split; [cbn; lia|]. cbn. split; [split; [intros [? ?]; done|lia]|].
    split; [split; [intros [? ?]; done|lia]|done]. }
  destruct r as [e|o1]; [by eexists|]. eexists. split; [done|].
  destruct (Hr o1 eq_refl) as (H1 & H2 & H3 & H4). unfold check_args.
  case_bool_decide as Ho; [done|].
  destruct (Nat.ltb_spec (o_k o1) 1) as [|Hk]; [done|].
  destruct (Z.ltb_spec (o_zmin o1) 0) as [|Hz1]; [done|].
  destruct (Z.ltb_spec (o_zmax o1) 0) as [|Hz2]; [done|].
  destruct (dlt (of_supp 100%Z) (o_supp o1)) eqn:Hs; [done|].
  destruct (Z.ltb_spec (o_bdrcnt o1) 0) as [|Hb]; [done|].
  destruct (target_of (o_target o1)) as [t|] eqn:Ht; [|done].
  assert (Hopt : o_optarg o1 = None).
  { destruct (o_optarg o1); [|done]. exfalso. first [discriminate Ho|by apply Ho]. }
  assert (Ht' : Some t = Some ISR_ALL ∨ Some t = Some ISR_CLOSED).
  { unfold target_of in Ht. destruct (Ascii.eqb _ _); [left; congruence|].
    destruct (Ascii.eqb _ _); [right; congruence|done]. }
  assert (Hout : is_Some (o_str o1 v_fn_out) ↔ o_k o1 = 2) by (rewrite H3; lia).
  assert (Hinp : is_Some (o_str o1 v_fn_inp)) by (by apply H2).
  intros o [= <-]. destruct (o_str o1 v_info) as [i|] eqn:Hi.
  - rewrite Ht, Hi. repeat split; try done; try lia; try apply Hout; try (by eexists).
  - cbn. rewrite Ht. repeat split; try done; try lia; try apply Hout; try (by eexists).
Qed.

(** X6. An option with a string argument takes it from the rest of its
    own argument or, when nothing follows the option character, from the
    next argument; both forms have the same effect. *)
Theorem string_option_forms {D : Type} (strtod : list ascii → D * nat)
    (strtol : list ascii → Z * nat) (to_item : Z → Z)
    (c : ascii) (v : STRVAR) (t : list ascii) (o : OPTS (D:=D)) (args : list (list ascii)) :
  str_option c = Some v → o_optarg o = None → t ≠ [] →
  eval_args strtod strtol to_item o (("-"%char :: c :: t) :: args) =
    eval_args strtod strtol to_item (set_str o v t) args ∧
  eval_args strtod strtol to_item o (["-"%char; c] :: t :: args) =
    eval_args strtod strtol to_item (set_str o v t) args.
Proof. apply str_option_forms. Qed.

Lemma string_option_forms_witness :
  let o := init_opts (D:=Z) id 2147483647%Z [] in
  str_option "h" = Some v_hdr ∧ o_optarg o = None ∧ ["X"%char] ≠ [] ∧
  eval_args parse_dec parse_dec id o ([["-"; "h"; "X"]; ["i"; "n"]]%char) =
    eval_args parse_dec parse_dec id (set_str o v_hdr ["X"%char]) [["i"; "n"]%char] ∧
  eval_args parse_dec parse_dec id o ([["-"; "h"]; ["X"]; ["i"; "n"]]%char) =
    eval_args parse_dec parse_dec id (set_str o v_hdr ["X"%char]) [["i"; "n"]%char].
Proof.
  cbv zeta. split; [reflexivity|]. split; [reflexivity|]. split; [discriminate|].
  apply (string_option_forms parse_dec parse_dec id "h" v_hdr ["X"%char]
           (init_opts (D:=Z) id 2147483647%Z []) [["i"; "n"]%char]);
    [reflexivity|reflexivity|discriminate].
Defined.

(** X7. The pattern extensions that the search reaches by following the
    items of a sequence [P] hold, for every item [i], the support of
    [P ++ [i]], one occurrence extension for every transaction that
    contains [P ++ [i]], in the order of the bag, and in it the position
    of [i] in that transaction.  This holds for both variants. *)
Theorem descend_supports {A : Type} (key : A → nat) (tabag : TABAG A)
    (P : list nat) (i : nat) :
  bag_ok key tabag = true → (∀ j, j ∈ P → j < tbg_itemcnt tabag) → i < tbg_itemcnt tabag →
  let e := descend key (tbg_itemcnt tabag) (make_occs tabag) P !!! i in
  pe_supp e = support key tabag (P ++ [i]) ∧
  ox_occ <$> pe_oxs e =
    (fst <$> filter (λ jo, is_subseq (P ++ [i]) (key <$> po_items jo.2) = true)
                    (indexed 0 (make_occs tabag))) ∧
  ∀ x, x ∈ pe_oxs e →
    (key <$> po_items (make_occs tabag !!! ox_occ x)) !! ox_item x = Some i.
Proof.
  intros Hok HP Hi. cbv zeta. rewrite descend_frame by done.
  destruct (frame_ext key tabag Hok P i Hi) as [-> ->]. split; [done|]. split.
  - apply ext_occs_occ. apply (make_occs_NoDup key tabag Hok).
  - intros x Hx. by apply ext_occs_elem in Hx as (_ & ? & _).
Qed.

Lemma descend_supports_witness :
  let e := descend ukey 3 (make_occs scenario1) [0] !!! 1 in
  bag_ok ukey scenario1 = true ∧ (∀ j, j ∈ [0] → j < tbg_itemcnt scenario1) ∧
  1 < tbg_itemcnt scenario1 ∧
  e = mkPATEXT 2 [mkOCCEXT 1 0; mkOCCEXT 1 2] ∧
  pe_supp e = support ukey scenario1 ([0] ++ [1]) ∧
  ox_occ <$> pe_oxs e =
    (fst <$> filter (λ jo, is_subseq ([0] ++ [1]) (ukey <$> po_items jo.2) = true)
                    (indexed 0 (make_occs scenario1))) ∧
  ∀ x, x ∈ pe_oxs e →
    (ukey <$> po_items (make_occs scenario1 !!! ox_occ x)) !! ox_item x = Some 1.
Proof.
  cbv zeta.
  assert (HP : ∀ j, j ∈ [0] → j < tbg_itemcnt scenario1).
  { intros j ->%list_elem_of_singleton. cbn. lia. }
  split; [reflexivity|]. split; [exact HP|]. split; [cbn; lia|]. split; [reflexivity|].
  apply (descend_supports ukey scenario1 [0] 1); [reflexivity|exact HP|cbn; lia].
Defined.

(** X8. The count [z] that a projection returns, and that the search
    passes down for the allocation of the next block, is the number of
    occurrence extensions that the projection has appended, and no item
    gets more occurrence extensions than it has in the array that was
    projected, which is the size of its slice of the block.  The first
    loops of the entry points fill exactly [tbg_extent] occurrence
    extensions. *)
Theorem projection_fits_slices {A : Type} (key : A → nat) (tabag : TABAG A)
    (P : list nat) (i : nat) :
  bag_ok key tabag = true → (∀ j, j ∈ P → j < tbg_itemcnt tabag) → i < tbg_itemcnt tabag →
  let exts := descend key (tbg_itemcnt tabag) (make_occs tabag) P in
  let cz := project key (make_occs tabag) (tbg_itemcnt tabag) (exts !!! i) in
  cz.2 = total_cnt cz.1 ∧
  (∀ t, pe_cnt (cz.1 !!! t) ≤ pe_cnt (exts !!! t)) ∧
  total_cnt (root_exts key (tbg_itemcnt tabag) (make_occs tabag)) = tbg_extent tabag.
Proof.
  intros Hok HP Hi. cbv zeta. rewrite descend_frame by done. split; [|split].
  - apply project_total. intros x a Hx Ha.
    destruct (frame_ext key tabag Hok P i Hi) as [_ Eo]. rewrite Eo in Hx.
    apply ext_occs_elem in Hx as (Hlt & _).
    by eapply (make_occs_bound key tabag Hok), Ha; apply make_occs_total.
  - intros t. destruct (project_frame key (make_occs tabag) (tbg_itemcnt tabag) P i Hi) as [-> _].
    destruct (decide (t < tbg_itemcnt tabag)) as [Ht|Ht].
    + rewrite !frame_lookup by done. unfold pe_cnt. cbn [ext_of pe_oxs].
      apply ext_occs_capacity. apply (make_occs_NoDup key tabag Hok).
    + rewrite !frame_lookup_ge by lia. done.
  - rewrite root_exts_total.
    + unfold tbg_extent, make_occs, ta_size.
      induction (tbg_tracts tabag) as [|t ts IH]; [done|]. cbn. by rewrite IH.
    + intros o a Ho Ha. by eapply (make_occs_bound key tabag Hok).
Qed.

Lemma projection_fits_slices_witness :
  let exts := descend ukey 3 (make_occs scenario1) [] in
  let cz := project ukey (make_occs scenario1) 3 (exts !!! 0) in
  bag_ok ukey scenario1 = true ∧ (∀ j, j ∈ [] → j < tbg_itemcnt scenario1) ∧
  0 < tbg_itemcnt scenario1 ∧
  cz.2 = 4 ∧ pe_cnt <$> cz.1 = [0; 2; 2] ∧ pe_cnt <$> exts = [3; 2; 2] ∧
  cz.2 = total_cnt cz.1 ∧
  (∀ t, pe_cnt (cz.1 !!! t) ≤ pe_cnt (exts !!! t)) ∧
  total_cnt (root_exts ukey 3 (make_occs scenario1)) = tbg_extent scenario1.
Proof.
  cbv zeta.
  assert (HP : ∀ j, j ∈ [] → j < tbg_itemcnt scenario1).
  { intros j Hj. by apply elem_of_nil in Hj. }
  split; [reflexivity|]. split; [exact HP|]. split; [cbn; lia|].
  split; [reflexivity|]. split; [reflexivity|]. split; [reflexivity|].
  apply (projection_fits_slices ukey scenario1 [] 0); [reflexivity|exact HP|cbn; lia].
Defined.

(** X9. With a recursion depth above [zmax], [sequoia] returns.  Its
    result is 0 or negative; it is negative only if an allocation or the
    output has failed, and it is 0 only if every output that the run has
    made succeeded: [sequoia] hides no failure of the output. *)
Theorem sequoia_status {D : Type} (fuel : nat) (tabag : TABAG nat)
    (target smin mode : Z) (report : ISREPORT D) (heap : list bool) :
  Z.to_nat (isr_zmax report) < fuel →
  ∃ r rep uo,
    sequoia fuel tabag target smin mode report heap = Some (r, rep) ∧
    (r ≤ 0)%Z ∧ isr_io report = uo ++ isr_io rep ∧
    (r = 0%Z → all_true uo) ∧ ((r < 0)%Z → false ∈ heap ∨ false ∈ uo).
Proof.
  intros Hf.
  destruct (sequoia_total fuel tabag target smin mode report heap Hf) as [[r rep] H].
  destruct (sequoia_run _ _ _ _ _ _ _ _ _ H) as (Hr & uo & Hio & H0 & Hneg).
  exists r, rep, uo. done.
Qed.

Lemma sequoia_status_witness :
  let report := isr_create (D:=unit) 3 0 4 [true; true; false; true] in
  Z.to_nat (isr_zmax report) < 5 ∧
  (∃ rep, sequoia 5 scenario1 0 2 0 report [] = Some ((-1)%Z, rep) ∧
          isr_io rep = [true]) ∧
  ∃ r rep uo,
    sequoia 5 scenario1 0 2 0 report [] = Some (r, rep) ∧
    (r ≤ 0)%Z ∧ isr_io report = uo ++ isr_io rep ∧
    (r = 0%Z → all_true uo) ∧ ((r < 0)%Z → false ∈ [] ∨ false ∈ uo).
Proof.
  cbv zeta. split; [cbn; lia|]. split; [eexists; split; vm_compute; reflexivity|].
  apply (sequoia_status (D:=unit) 5 scenario1 0 2 0
           (isr_create 3 0 4 [true; true; false; true]) []).
  cbn; lia.
Defined.

(** X10. A run of [sequoia_iw] follows the run of [sequoia] on the bag
    without the item weights, with the same answers of [malloc] and of
    the output: it writes the same sequences with the same supports in
    the same order, and when [sequoia] returns 0 it returns 0 and has
    used the same answers.  When [sequoia] returns an error,
    [sequoia_iw] has written the same sequences and at most the empty
    sequence after them. *)
Theorem sequoia_iw_follows_sequoia {D : Type} (dzero : D) (dadd dmul : D → D → D)
    (of_supp : Z → D) (fuel : nat) (tabag : TABAG (WITEM D))
    (target smin mode zmin zmax : Z) (io heap : list bool) (r : Z) (rep : ISREPORT D) :
  bag_ok wkey tabag = true →
  sequoia_iw dzero dadd dmul of_supp fuel tabag target smin mode
    (isr_create (tbg_wgt tabag) zmin zmax io) heap = Some (r, rep) →
  ∃ r' rep' extra,
    sequoia fuel (strip_bag tabag) target smin mode
      (isr_create (tbg_wgt tabag) zmin zmax io) heap = Some (r', rep') ∧
    strip_pat <$> isr_out rep = isr_out rep' ++ extra ∧
    (r' = 0%Z → r = 0%Z ∧ extra = [] ∧ isr_io rep = isr_io rep') ∧
    (extra = [] ∨ ((r' < 0)%Z ∧ extra = [Pat [] [] (tbg_wgt tabag)])).
Proof.
  intros Hok H.
  destruct (sequoia_iw_sim dzero dadd dmul of_supp tabag Hok _ _ _ _ _ _ _ _ _ _ H)
    as (r' & rep' & extra & Hrun & Hout & H0 & Hextra).
  exists r', rep', extra. split; [done|]. split; [done|]. split.
  - intros ->. destruct H0 as (-> & -> & ->); [lia|done].
  - destruct Hextra as [->|(? & -> & _)]; [by left|by right].
Qed.

Lemma sequoia_iw_follows_sequoia_witness :
  let rep := mkISREPORT 0 4 3 []
               [Pat [0; 1] [5; 11]%Z 3%Z; Pat [0] [5%Z] 3%Z; Pat [1] [11%Z] 3%Z; Pat [] [] 3%Z] [] in
  bag_ok wkey scenario4 = true ∧
  sequoia_iw 0%Z Z.add Z.mul id 5 scenario4 0 2 0
    (isr_create (tbg_wgt scenario4) 0 4 []) [] = Some (0%Z, rep) ∧
  ∃ r' rep' extra,
    sequoia 5 (strip_bag scenario4) 0 2 0
      (isr_create (tbg_wgt scenario4) 0 4 []) [] = Some (r', rep') ∧
    strip_pat <$> isr_out rep = isr_out rep' ++ extra ∧
    (r' = 0%Z → 0%Z = 0%Z ∧ extra = [] ∧ isr_io rep = isr_io rep') ∧
    (extra = [] ∨ ((r' < 0)%Z ∧ extra = [Pat [] [] (tbg_wgt scenario4)])).
Proof.
  cbv zeta. split; [reflexivity|]. split; [vm_compute; reflexivity|].
  apply (sequoia_iw_follows_sequoia 0%Z Z.add Z.mul id 5 scenario4 0 2 0 0 4 [] [] 0%Z);
    [reflexivity|vm_compute; reflexivity].
Defined.

(** X11. In every mode and in every run, also one that fails,
    [sequoia_iw] reports no sequence twice, and every sequence that it
    reports comes with its support, which is at least the minimum
    support, and has a length in the size range. *)
Theorem sequoia_iw_reports_frequent {D : Type} (dzero : D) (dadd dmul : D → D → D)
    (of_supp : Z → D) (fuel : nat) (tabag : TABAG (WITEM D))
    (target smin mode zmin zmax : Z) (io heap : list bool) (r : Z) (rep : ISREPORT D) :
  bag_ok wkey tabag = true →
  sequoia_iw dzero dadd dmul of_supp fuel tabag target smin mode
    (isr_create (tbg_wgt tabag) zmin zmax io) heap = Some (r, rep) →
  NoDup (pat_items <$> isr_out rep) ∧
  ∀ p, p ∈ isr_out rep →
    frequent_iw tabag (if (0 <? smin)%Z then smin else 1%Z) zmin zmax p.
Proof.
  intros Hok H.
  destruct (sequoia_iw_any dzero dadd dmul of_supp tabag Hok _ _ _ _ _ _ _ _ _ _ H) as [H1 H2].
  split; [done|]. intros p Hp. by destruct (H2 p Hp).
Qed.

Lemma sequoia_iw_reports_frequent_witness :
  let rep := mkISREPORT 0 4 5 []
               [Pat [0; 2] [2; 2]%Z 2%Z; Pat [0] [3%Z] 3%Z; Pat [] [] 5%Z] [] in
  bag_ok wkey wbag_acb = true ∧
  sequoia_iw 0%Z Z.add Z.mul id 5 wbag_acb ISR_CLOSED 2 ISR_CLOSED
    (isr_create (tbg_wgt wbag_acb) 0 4 []) [] = Some (0%Z, rep) ∧
  NoDup (pat_items <$> isr_out rep) ∧
  ∀ p, p ∈ isr_out rep → frequent_iw wbag_acb 2 0 4 p.
Proof.
  cbv zeta. split; [reflexivity|]. split; [vm_compute; reflexivity|].
  apply (sequoia_iw_reports_frequent 0%Z Z.add Z.mul id 5 wbag_acb ISR_CLOSED 2 ISR_CLOSED
           0 4 [] [] 0%Z);
    [reflexivity|vm_compute; reflexivity].
Defined.

(** X12. In closed mode, for a bag with positive transaction weights,
    every sequence of at least one item that [sequoia_iw] reports is
    closed, in every run.  The empty sequence is left out, since
    [sequoia_iw] reports it also after a failure of the recursion. *)
Theorem sequoia_iw_reports_closed {D : Type} (dzero : D) (dadd dmul : D → D → D)
    (of_supp : Z → D) (fuel : nat) (tabag : TABAG (WITEM D))
    (target smin mode zmin zmax : Z) (io heap : list bool) (r : Z) (rep : ISREPORT D) :
  bag_ok wkey tabag = true → pos_wgts tabag → Z.land mode ISR_CLOSED ≠ 0%Z →
  sequoia_iw dzero dadd dmul of_supp fuel tabag target smin mode
    (isr_create (tbg_wgt tabag) zmin zmax io) heap = Some (r, rep) →
  ∀ p, p ∈ isr_out rep → pat_items p ≠ [] → is_closed wkey tabag (pat_items p).
Proof.
  intros Hok Hpos Hm H p Hp Hne.
  destruct (sequoia_iw_any dzero dadd dmul of_supp tabag Hok _ _ _ _ _ _ _ _ _ _ H) as [_ H2].
  destruct (H2 p Hp) as [_ H3]. by apply H3.
Qed.

Lemma sequoia_iw_reports_closed_witness :
  let rep := mkISREPORT 0 4 5 []
               [Pat [0; 2] [2; 2]%Z 2%Z; Pat [0] [3%Z] 3%Z; Pat [] [] 5%Z] [] in
  bag_ok wkey wbag_acb = true ∧ pos_wgts wbag_acb ∧ Z.land ISR_CLOSED ISR_CLOSED ≠ 0%Z ∧
  sequoia_iw 0%Z Z.add Z.mul id 5 wbag_acb ISR_CLOSED 2 ISR_CLOSED
    (isr_create (tbg_wgt wbag_acb) 0 4 []) [] = Some (0%Z, rep) ∧
  ∀ p, p ∈ isr_out rep → pat_items p ≠ [] → is_closed wkey wbag_acb (pat_items p).
Proof.
  cbv zeta.
  assert (Hpos : pos_wgts wbag_acb).
  { unfold pos_wgts. apply Forall_forall. repeat constructor. }
  split; [reflexivity|]. split; [exact Hpos|]. split; [discriminate|].
  split; [vm_compute; reflexivity|].
  apply (sequoia_iw_reports_closed 0%Z Z.add Z.mul id 5 wbag_acb ISR_CLOSED 2 ISR_CLOSED
           0 4 [] [] 0%Z);
    [reflexivity|exact Hpos|discriminate|vm_compute; reflexivity].
Defined.

(** X13. In ALL mode, for a run in which nothing fails and a recursion
    depth above [zmax], [sequoia_iw] returns 0 and reports exactly the
    sequences with a support of at least [smin] and a length in the size
    range, each once and with its support. *)
Theorem sequoia_iw_all_frequent {D : Type} (dzero : D) (dadd dmul : D → D → D)
    (of_supp : Z → D) (fuel : nat) (tabag : TABAG (WITEM D))
    (target smin mode zmin zmax : Z) (io heap : list bool) :
  bag_ok wkey tabag = true →
  (1 ≤ smin)%Z → Z.land mode ISR_CLOSED = 0%Z →
  all_true io → all_true heap → Z.to_nat zmax < fuel →
  ∃ rep : ISREPORT D,
    sequoia_iw dzero dadd dmul of_supp fuel tabag target smin mode
      (isr_create (tbg_wgt tabag) zmin zmax io) heap = Some (0%Z, rep) ∧
    NoDup (pat_items <$> isr_out rep) ∧
    (∀ p, p ∈ isr_out rep → frequent_iw tabag smin zmin zmax p) ∧
    ∀ Q, (smin ≤ support wkey tabag Q)%Z → (zmin ≤ Z.of_nat (length Q) ≤ zmax)%Z →
         Q ∈ pat_items <$> isr_out rep.
Proof.
  intros Hok. apply sequoia_iw_all_run. exact Hok.
Qed.

Lemma sequoia_iw_all_frequent_witness :
  bag_ok wkey scenario4 = true ∧ (1 ≤ 2)%Z ∧ Z.land 0 ISR_CLOSED = 0%Z ∧
  all_true [] ∧ Z.to_nat 4 < 5 ∧
  ∃ rep : ISREPORT Z,
    sequoia_iw 0%Z Z.add Z.mul id 5 scenario4 0 2 0
      (isr_create (tbg_wgt scenario4) 0 4 []) [] = Some (0%Z, rep) ∧
    NoDup (pat_items <$> isr_out rep) ∧
    (∀ p, p ∈ isr_out rep → frequent_iw scenario4 2 0 4 p) ∧
    ∀ Q, (2 ≤ support wkey scenario4 Q)%Z → (0 ≤ Z.of_nat (length Q) ≤ 4)%Z →
         Q ∈ pat_items <$> isr_out rep.
Proof.
  split; [reflexivity|]. split; [lia|]. split; [reflexivity|].
  split; [by constructor|]. split; [cbn; lia|].
  apply (sequoia_iw_all_frequent 0%Z Z.add Z.mul id 5 scenario4 0 2 0 0 4 [] []);
    [reflexivity|lia|reflexivity|by constructor|by constructor|cbn; lia].
Defined.

(** X14. The recursion of [sequoia] is at most as deep as the bag has
    items, whatever the maximum length [zmax] of a sequence is: with a
    recursion depth of the number of items [sequoia] returns. *)
Theorem sequoia_depth_items {D : Type} (fuel : nat) (tabag : TABAG nat)
    (target smin mode zmin zmax : Z) (io heap : list bool) :
  bag_ok ukey tabag = true → tbg_itemcnt tabag ≤ fuel →
  ∃ r (rep : ISREPORT D),
    sequoia fuel tabag target smin mode (isr_create (tbg_wgt tabag) zmin zmax io) heap
      = Some (r, rep).
Proof.
  intros Hok Hf.
  destruct (sequoia_bounded (D:=D) fuel tabag target smin mode zmin zmax io heap Hok Hf)
    as [[r rep] H].
  by exists r, rep.
Qed.

Lemma sequoia_depth_items_witness :
  bag_ok ukey scenario1 = true ∧ tbg_itemcnt scenario1 ≤ 3 ∧
  sequoia (D:=unit) 2 scenario1 0 1 0 (isr_create (tbg_wgt scenario1) 0 1000 []) [] = None ∧
  ∃ r (rep : ISREPORT unit),
    sequoia 3 scenario1 0 1 0 (isr_create (tbg_wgt scenario1) 0 1000 []) [] = Some (r, rep).
Proof.
  split; [reflexivity|]. split; [cbn; lia|]. split; [vm_compute; reflexivity|].
  apply (sequoia_depth_items (D:=unit) 3 scenario1 0 1 0 0 1000 [] []);
    [reflexivity|cbn; lia].
Defined.
